(* ===== verification/_CoqProject ===== *)
-Q . S2P
Prelude.v
GoStrings.v
Regexp.v
GoErrors.v
Observability.v
GoTime.v
SqlLex.v
Config.v
Base64.v
Sha256.v
AuthKey.v
Lru.v
AuthCache.v
ControlPlane.v
AuthStore.v
AuthMiddleware.v
GoContext.v
Tenant.v
SqlValidator.v
SqlExecutor.v
HttpErrors.v
Idempotency.v
IdemConcurrent.v
IdemLifetime.v
RateLimit.v
Binary64.v
RateFloat.v
RateLiveness.v
RateBinary.v
RpcDispatcher.v
RpcBuiltins.v
HttpApi.v
ApiStages.v
ConcurrentApi.v
ConcurrentProgress.v
ConcurrentSolo.v
Routes.v
KeyRows.v
HttpMiddleware.v
Telemetry.v
Gateway.v
AuditLog.v
Pool.v
Vector.v
Migrate.v
KeyAdmin.v
McpTools.v
McpDirect.v
McpClient.v
ServerMain.v
Endpoint.v
Commands.v
LintMigrations.v
