(* ===== verification/Prelude.v ===== *)
(** * Agentic Coop DB: a verification library for the gateway

    The program is an HTTP gateway to a Postgres database shared by tenants. A
    client sends a statement or the name of a stored procedure with an API key;
    the gateway checks the key, limits the request rate, runs the statement as the
    Postgres role of the key inside one transaction, and keeps an audit log and a
    table of idempotency keys. Agents reach the same operations as MCP tools,
    inside the gateway or through a standalone server. This library models the Go
    code of the program as executable definitions and proves what makes it correct.
    Paths below are relative to src/.

    ** Files

    The language and its library:
    - [Prelude]: bytes, 64-bit integers, results, notations, tactics, hints.
    - [GoStrings]: what the code uses of strings, strconv, fmt, unicode/utf8.
    - [GoErrors]: error values, errors.Is and errors.As.
    - [GoTime]: time.ParseDuration and strconv.ParseBool.
    - [SqlLex]: how Postgres splits a statement into tokens, and statements built
      from templates; the specification of everything that builds SQL.
    - [Regexp]: the regular expressions the migration linter uses, their language
      and a matcher with Go's preferences that finds it.
    - [Base64], [Sha256]: encoding/base64, crypto/sha256 and encoding/hex.
    - [Observability]: internal/observability and internal/version. The instruments
      over the interface [Prometheus], the logger, the build's identifiers.
    - [Lru]: the interface of hashicorp/golang-lru, with a list implementation.

    Configuration and databases:
    - [Config]: internal/config/config.go. The environment to a configuration.
    - [Pool]: internal/db/pool.go. [Migrate]: internal/db/migrate.go.
    - [ControlPlane]: the tables of migrations/ and the computations on them: a
      state and error monad in which a call may fail without effect ([Fail]), or
      fail after its effect ([Ambiguous]), with transactions.
    - [KeyAdmin]: internal/db/keymint.go, keylist.go and keyrevoke.go.
    - [Vector]: internal/vector/vector.go. The pgvector helpers.

    Authentication:
    - [AuthKey]: internal/auth/key.go. Tokens, argon2id strings, key records.
    - [AuthCache]: internal/auth/cache.go. The cache of verified keys; Get and Put
      are made of steps (a call of the LRU, a look at the clock, an access to the
      marked ids under the mutex), because the mutex does not cover the whole call.
    - [AuthStore]: internal/auth/store.go. Keys in the table. The overlap of a
      rotation is the interval Postgres reads from its text ([pg_interval]).
    - [AuthMiddleware]: internal/auth/middleware.go. Authentication, as a
      function and as a step relation on threads, in which the steps of the cache
      interleave too.
    - [GoContext]: what internal/auth, internal/httpapi and internal/observability
      keep in a request's context.

    Running statements:
    - [Tenant]: internal/tenant/tenant.go. The setup of a transaction, over a
      Postgres server that is a parameter; the commands sent are logged. The
      specification reads a log as Postgres does: settings of the session and of the
      open transaction, changed by SET, SET LOCAL and set_config; the end of a
      transaction drops the latter and, if it is a rollback, undoes the former.
    - [SqlValidator], [SqlExecutor]: internal/sql/validator.go and executor.go.
    - [Idempotency]: internal/rpc/idempotency.go. Claims, replays, completions, as
      calls that run one after the other. [IdemConcurrent]: the same transactions
      statement by statement, interleaved at READ COMMITTED. [IdemLifetime]: the
      purge goroutine of cmd/server/main.go and the age of rows.
    - [RpcDispatcher], [RpcBuiltins]: internal/rpc/dispatcher.go and registry.go.

    The HTTP side:
    - [HttpErrors]: internal/httpapi/errors.go. Errors to HTTP problems.
    - [RateLimit]: the token buckets of internal/httpapi/middleware.go, over
      rational numbers that are rounded after every operation; [RateLiveness] shows
      when they let a key through. [RateFloat] has the buckets in binary64, with NaN
      and infinities, and [RateBinary] the whole limiter, and that it does what the
      one over rounded rationals does.
    - [Binary64]: rounding to 53 bits, ties to even, and that the operations of the
      standard library's [spec_float] are the exact ones followed by it.
    - [HttpApi]: the handlers of internal/httpapi/api.go. A handler maps the
      gateway's state to the next one and the list of its responses, audit
      entries, metrics and warnings.
    - [ApiStages]: the SQL and the RPC handler as the stages claim, run, completion
      and answer. [ConcurrentApi]: any number of such requests at any number of
      gateways, their stages and the statements of their claims interleaved.
      [ConcurrentProgress]: no request of these hangs. [ConcurrentSolo]: a request alone
      does what its handler does.
    - [Routes]: [Routes()] of api.go: authentication, limiter and handlers.
      [KeyRows]: what the routes do to the table of keys.
    - [HttpMiddleware]: the rest of internal/httpapi/middleware.go, composed as in
      cmd/server/main.go, over a model of net/http's response.
    - [Telemetry]: what handlers and middleware leave in the metrics.
    - [Gateway]: a request through the middleware chain and the routes of the API.
    - [AuditLog]: internal/audit/audit.go.

    MCP and the commands:
    - [McpTools]: internal/mcp/tools.go and server.go. The tools, over the
      interface [Doer].
    - [McpDirect]: cmd/server/direct_doer.go. The [Doer] inside the gateway.
    - [McpClient]: internal/mcp/client.go. The [Doer] over HTTP.
    - [ServerMain]: run() of cmd/server/main.go: start-up, wiring, shutdown, as a
      list of events. [Endpoint]: its mux, with every endpoint of the server.
    - [Commands]: the subcommands of cmd/server, cmd/migrate and cmd/mcp.
    - [LintMigrations]: scripts/lint-migrations/main.go.

    ** How the parts interact

    [Endpoint.serve_http] sends a request to a probe, to the API or to the MCP
    endpoint; both of the latter are behind the same guard ([Endpoint.guarded]), which
    calls [Authenticate] on the cache and the control plane, then the limiter's
    [Middleware]. The SQL handler validates, claims the idempotency key, executes
    and completes the claim; the RPC handler does the same through the dispatcher;
    the tools call a [Doer], whose in-process implementation uses the same
    validator, executor and dispatcher. All of them end in [Tenant.Setup] on the
    tenant connection. Interfaces between components are type classes and records of
    operations: [LRU] and its laws (cache and limiter), [KeyFinder] (middleware and
    store), [ResponseWriter] and [LawfulWriter] (middleware and net/http),
    [Prometheus] and its laws (instruments and their client), [Doer] (tools and the
    two clients).

    ** What the theorems show

    - Tenant isolation: for any environment the gateway starts with, and any
      request on any endpoint, what reaches the tenant database is transactions in
      the session of the key that authenticated the request
      ([Endpoint.server_isolated]); the rest learns the gateway's health only
      ([Endpoint.refused_everywhere]). Behind it: [Routes.statement_runs_as_tenant],
      [SqlExecutor.Execute_isolated], [RpcDispatcher.Call_isolated],
      [McpDirect.tools_isolated]. When the transaction is over nothing local to it
      stays on the connection; what a client's own statement set for the session
      does ([SqlExecutor.session_set_survives]).
    - Injection: role names (but for the name none), passwords, tables and columns put
      into statements are read by Postgres as they were meant ([Tenant.isSafeRoleName_spec],
      [Migrate.SetRolePassword_exact], [McpTools.vector_search_exact],
      [McpTools.vector_upsert_exact], [Vector.vector_helpers_exact]).
    - Authentication: in every interleaving, who passes presented a secret that
      verified against an active record ([AuthMiddleware.authenticated_sound]),
      and a revocation takes effect within the lifetime of cache entries and the time
      a request takes, evicted or not ([AuthMiddleware.revocation_bounded]); minted
      tokens round-trip ([AuthKey.ParseBearer_Mint]), created, rotated and minted keys
      work ([AuthStore.Create_usable], [AuthStore.Rotate_spec],
      [KeyAdmin.MintKey_usable]), the store's operations are atomic
      ([AuthStore.create_rotate_atomic]), and over the API keys are made and changed
      only by those who may ([KeyRows.api_keys_confined]).
    - At most once: a request with an idempotency key reaches the tenant database
      at most once, with calls failing anywhere ([HttpApi.sql_at_most_once],
      [Idempotency.at_most_once], [RpcDispatcher.Call_at_most_once]), also for an
      agent behind the standalone server, if the key is not blank
      ([McpClient.tool_retry_safe]), and a retry
      gets the first response ([HttpApi.sql_replay], [Idempotency.replay_exact]).
      These take the requests one after the other.
    - Concurrent requests: in every interleaving of SQL and RPC requests, at one
      gateway or several, at most one with a new key reaches the tenant database
      ([ConcurrentApi.concurrent_once]), and each of them answers once, with its own
      result, an error or what the one that ran has stored, which asked for the same
      unless SHA-256 collides ([ConcurrentApi.concurrent_answers]); a request waits only
      for one that holds its row and has its commit left, which waits for nothing
      ([ConcurrentProgress.requests_progress]), and takes six steps at most within 24
      hours ([ConcurrentProgress.requests_bounded]). The sequential handlers are among the
      runs ([ConcurrentSolo.sequential_is_a_run]), through the stages they consist of
      ([ApiStages.handlers_staged]), so the two
      models of the handlers agree. Behind it, for the claims alone:
      [IdemConcurrent.first_use_once], [IdemConcurrent.never_stuck],
      [IdemConcurrent.solo_run].
    - Lifetime: rows live for a bounded time
      ([IdemLifetime.purge_bounds]) and expired keys are free again
      ([IdemLifetime.expired_reclaimed]).
    - Equivalence: the REST API, the in-process tools and the standalone server do
      the same to the databases and report the same results and problems, but for
      responses over the limit, which the in-process tools return, and for what JSON
      makes of a value on its way to the standalone server
      ([McpDirect.direct_matches_rest], [McpClient.client_matches_direct]).
    - Limits: the number of requests a key can pass in any window of time
      ([RateBinary.rate_limit_bound64]) and that a key that waits as long as a token
      takes passes ([RateBinary.patient_key_passes64]), in the arithmetic of
      the machine; they follow from [RateLimit.rate_limit_bound] and
      [RateLiveness.patient_key_passes] through [RateBinary.limiter64_refines]. Result
      and body sizes, timeouts ([ServerMain.statement_timeout_bounded]), machine integers.
    - Starting and administration: what is configured is well formed and documented
      ([Config.Load_well_formed], [Config.usage_defaults_agree]), the port is opened
      last, after the pool answered a ping ([ServerMain.run_listens_last]), a failed
      command changes nothing unless an acknowledgement was lost
      ([Commands.commands_atomic], [Commands.migrate_main_spec]), a listing is
      complete ([KeyAdmin.ListKeys_spec]), and a migration that passed the linter has
      the statements that isolate the first table it creates, stated of its text and
      not of the linter's expressions
      ([LintMigrations.lint_guards_table], [LintMigrations.lint_main_spec]).
    - Errors: a database error reaches the client with the status of its SQLSTATE in
      a table of fifteen, and 500 for others ([HttpErrors.Execute_error_mapped],
      [HttpErrors.MapError_spec]), and no error of the owner's functions shows a
      password given to it or in a URL that parses ([Migrate.db_errors_redacted]).
    - Reporting: one response per request, audit entries, metrics and access log
      ([HttpApi.handlers_respond_once], [HttpApi.sql_audit],
      [HttpMiddleware.server_observes], [AuditLog.audit_hides_sql]); through the whole
      server a request keeps one id from the response to the audit log
      ([Gateway.request_traced]). The instruments come up
      ([Observability.NewMetrics_total]), counting never fails a request
      ([Telemetry.counting_total]), and the counters account for what ran
      ([Telemetry.sql_accounting]).

    Some theorems state where the code falls short of its documentation, for
    instance [AuthMiddleware.revoke_race], [AuthMiddleware.revoke_window],
    [AuthCache.cache_revoke_undone], [SqlExecutor.session_set_survives],
    [Tenant.none_role_is_login], [AuthStore.overlap_misread],
    [McpClient.blank_key_ignored], [HttpErrors.sqlstate_classes_unmapped],
    [AuthStore.Rotate_renews_old_key], [Idempotency.late_completion_misfiled],
    [HttpApi.rpc_unknown_audited_500], [Migrate.unparsable_url_not_redacted],
    [McpTools.search_limit_overflow], [McpDirect.rpc_non_object_result],
    [Vector.long_index_name_fails], [ServerMain.defaults_refused],
    [IdemConcurrent.reclaim_race], [HttpMiddleware.bad_path_unlogged],
    [Telemetry.series_unbounded], [RateFloat.nan_rate_unlimited] and
    [ConcurrentProgress.lost_completion_refuses].

    ** Parameters, bounds and fuel

    Code outside the repository is a parameter: argon2id ([IDKey]), pg_query_go,
    pgx and the Postgres server ([PgServer], [OwnerServer], [PgxPool]), google/uuid,
    golang-lru, jsonschema, gzip, golang-migrate, the prometheus client, mcp-go (the
    tool calls it makes for a request). Where a theorem needs a law of one of them it is a class or a
    named hypothesis, and the instances of the file's last part meet it.
    encoding/json, the parser of net/url and net/http's transport are arguments too;
    only [McpClient.client_matches_direct] assumes something about JSON, that the
    gateway decodes the request, and the client a problem, to what was encoded. Where the standalone
    client meets the REST handler the transport is written out as far as it matters:
    header values are checked and trimmed, the body is cut at its limit. What a client's
    statement does to the session, beyond a SET or set_config, is an argument ([does]).
    Clock readings, random bytes and fresh UUIDs are arguments, so every schedule of them is covered.

    A float64 is the standard library's [spec_float]. In [RateLimit] it is a rational
    number and an operation the exact result passed through a rounding function of
    bounded relative error, monotone and exact on small integers, a class that
    rounding to 53 bits is an instance of. The theorems of [RateBinary] take
    rates between 2^-900 and 2^900 and bursts up to 2^53, where no operation underflows
    or overflows and a burst is a float64; [int] of a float64 beyond int64 is the least
    integer, as on amd64. They also take at most 4096 distinct keys in a run, as many as
    the limiter's table holds: a key that falls out of it starts with a full bucket.
    The default rate is 60 and the default burst 120. The product of a refill is rounded before it is added, as on amd64;
    Go allows a compiler to fuse the two.

    IdemConcurrent.v writes out what PostgreSQL does with the statements of open
    transactions at READ COMMITTED: which rows a statement sees and what it waits for.
    The DELETE of a purge is one step there, enabled once no expired row is locked.
    ConcurrentApi.v adds the runs, each on a connection of its own to a server that may
    answer anything. Its theorems are about a key that is new at the start and a span
    of 24 hours, the time to live of a row: past it [IdemConcurrent.reclaim_race]
    applies.

    The loop of BeginOrReplay takes a list of attempts; two always suffice
    ([Idempotency.BeginOrReplay_two]). Loops over the bytes or runes of a string
    have its length as fuel, which is enough ([GoTime.duration_loop_enough] for
    durations, [SqlLex.lex_fuel_enough] for tokens, [Regexp.find_all_enough] with
    [LintMigrations.createTable_consumes] for matches), the decimal printer has
    the number of bits, and [itoa] the 20 bytes of its buffer
    ([AuthMiddleware.itoa_spec] shows that it never runs past it).

    ** Not modelled

    The tables of the control plane and what tenants work on are two states, as the
    schemas and grants of migrations/0007 mean them to be: what a client's statement
    does to the first, with privileges it has got hold of, is outside the model, and
    theorems about those tables are about the statements of the gateway itself.

    The flag package, mcp-go's transports and promhttp's page, what net/http does with
    the timeouts it is given, durations in metrics and log texts, the log records
    themselves, and time-outs of contexts other than as failing calls: they are the
    libraries' own behaviour. The integration test helpers under test/ are not part of
    the program. [Gateway] puts the routes of the API under the middleware chain; the
    tools of the MCP endpoint are modelled behind the same guard ([Endpoint]) but not
    under that chain, because what their transport writes to the response is mcp-go's.
    The constructors that only keep a pool and a logger ([NewStore],
    [NewIdempotencyStore], [NewDispatcher], [httpapi.New] with the limiter it is
    given) have no definition: their fields are the arguments of the operations. *)

From Stdlib Require Export ZArith Lia Bool.
From Stdlib Require Export Strings.Byte.
From Stdlib Require Import Strings.String.
From stdpp Require Export base tactics option list numbers countable decidable.

Export StringSyntax.

(** ** Bytes and Go strings

    A Go [string] and a Go [[]byte] are both sequences of bytes: [list byte].
    [bs] turns a literal of the source into that form. *)

#[export] Instance byte_eq_dec : EqDecision byte := Byte.byte_eq_dec.

#[export] Program Instance byte_countable : Countable byte := {|
  encode b := encode (Byte.to_N b);
  decode p := n ← decode p; Byte.of_N n
|}.
Next Obligation. intros b. cbn. rewrite decode_encode. apply Byte.of_to_N. Qed.

Abbreviation bytes := (list byte).

Definition bs (s : string) : bytes := list_byte_of_string s.

(** [bz] reads a byte as an unsigned 8-bit integer, [zb] truncates to one. *)
Definition bz (b : byte) : Z := Z.of_N (Byte.to_N b).

Definition zb (z : Z) : byte :=
  match Byte.of_N (Z.to_N (z mod 256)%Z) with
  | Some b => b
  | None => x00
  end.

Definition byte_eqb (a b : byte) : bool := bool_decide (a = b).

(** Equality of Go strings, [a == b]. *)
Definition str_eqb (a b : bytes) : bool := bool_decide (a = b).

(** ** Machine integers

    Go's [int] and [int64] are 64-bit two's complement on every platform the
    gateway ships for; [wrap64] is the wrap-around of their arithmetic. *)

Definition min_int64 : Z := (- 2 ^ 63)%Z.
Definition max_int64 : Z := (2 ^ 63 - 1)%Z.
Definition wrap64 (z : Z) : Z := ((z + 2 ^ 63) mod 2 ^ 64 - 2 ^ 63)%Z.
Definition in_int64 (z : Z) : Prop := (min_int64 ≤ z ≤ max_int64)%Z.

(** ** Results

    A Go function returning [(T, error)] is a computation in [res E T]. *)

Inductive res (E A : Type) : Type :=
| Ok (a : A)
| Err (e : E).
Arguments Ok {E A} _.
Arguments Err {E A} _.

Definition res_bind {E A B : Type} (r : res E A) (f : A → res E B) : res E B :=
  match r with
  | Ok a => f a
  | Err e => Err e
  end.

Definition res_map_err {E F A : Type} (f : E → F) (r : res E A) : res F A :=
  match r with
  | Ok a => Ok a
  | Err e => Err (f e)
  end.

Definition is_ok {E A : Type} (r : res E A) : bool :=
  match r with
  | Ok _ => true
  | Err _ => false
  end.

Declare Scope go_scope.
Delimit Scope go_scope with go.

Notation "'let!' x ':=' c 'in' k" := (res_bind c (fun x => k))
  (at level 10, x pattern, c at level 100, k at level 200) : go_scope.
Notation "'guard!' b 'else' e 'in' k" := (if b then k else Err e)
  (at level 10, b at level 100, e at level 100, k at level 200) : go_scope.
Open Scope go_scope.

(** ** Automation *)

Create HintDb go.
Create Rewrite HintDb gorw.

(** Case analysis on the scrutinee of the first [match] or [if] found. *)
Ltac go_case :=
  match goal with
  | |- context [match ?x with _ => _ end] =>
      lazymatch x with context [match _ with _ => _ end] => fail | _ => destruct x eqn:? end
  end.

Ltac go_case_in H :=
  match type of H with
  | context [match ?x with _ => _ end] =>
      lazymatch x with context [match _ with _ => _ end] => fail | _ => destruct x eqn:? end
  end.

(** Decides every branch of the code a hypothesis went through. *)
Ltac go_inv H := repeat (go_case_in H; simplify_eq/=; try done).

(** Turns boolean tests of the source into propositions. *)
Ltac go_bool :=
  repeat match goal with
  | H : _ && _ = true |- _ => apply andb_true_iff in H as [??]
  | H : _ || _ = false |- _ => apply orb_false_iff in H as [??]
  | H : negb _ = true |- _ => apply negb_true_iff in H
  | H : negb _ = false |- _ => apply negb_false_iff in H
  | H : bool_decide _ = true |- _ => apply bool_decide_eq_true in H
  | H : bool_decide _ = false |- _ => apply bool_decide_eq_false in H
  | H : str_eqb _ _ = true |- _ => apply bool_decide_eq_true in H
  | H : str_eqb _ _ = false |- _ => apply bool_decide_eq_false in H
  | H : byte_eqb _ _ = true |- _ => apply bool_decide_eq_true in H
  | H : byte_eqb _ _ = false |- _ => apply bool_decide_eq_false in H
  | H : (_ <? _)%Z = true |- _ => apply Z.ltb_lt in H
  | H : (_ <? _)%Z = false |- _ => apply Z.ltb_ge in H
  | H : (_ <=? _)%Z = true |- _ => apply Z.leb_le in H
  | H : (_ <=? _)%Z = false |- _ => apply Z.leb_gt in H
  | H : (_ =? _)%Z = true |- _ => apply Z.eqb_eq in H
  | H : (_ =? _)%Z = false |- _ => apply Z.eqb_neq in H
  | H : (_ <? _)%nat = true |- _ => apply Nat.ltb_lt in H
  | H : (_ <? _)%nat = false |- _ => apply Nat.ltb_ge in H
  | H : (_ <=? _)%nat = true |- _ => apply Nat.leb_le in H
  | H : (_ <=? _)%nat = false |- _ => apply Nat.leb_gt in H
  | H : (_ =? _)%nat = true |- _ => apply Nat.eqb_eq in H
  | H : (_ =? _)%nat = false |- _ => apply Nat.eqb_neq in H
  end.

(** Linear arithmetic with division and modulo by constants. *)
Ltac dlia := Z.to_euclidean_division_equations; lia.

(** ** Shared lemmas *)

Lemma byte_eqb_refl b : byte_eqb b b = true.
Proof. by apply bool_decide_eq_true. Qed.

Lemma str_eqb_refl s : str_eqb s s = true.
Proof. by apply bool_decide_eq_true. Qed.

Lemma str_eqb_eq a b : str_eqb a b = true ↔ a = b.
Proof. apply bool_decide_eq_true. Qed.

Lemma bz_range b : (0 ≤ bz b < 256)%Z.
Proof. unfold bz. pose proof (Byte.to_N_bounded b). lia. Qed.

Lemma zb_bz b : zb (bz b) = b.
Proof.
  unfold zb. rewrite Z.mod_small by apply bz_range.
  unfold bz. by rewrite N2Z.id, Byte.of_to_N.
Qed.

Lemma bz_zb z : bz (zb z) = (z mod 256)%Z.
Proof.
  unfold bz, zb. assert (0 ≤ z mod 256 < 256)%Z by (apply Z.mod_pos_bound; lia).
  destruct (Byte.of_N _) as [b|] eqn:Hb.
  - apply Byte.to_of_N in Hb. rewrite Hb. lia.
  - apply Byte.of_N_None_iff in Hb. lia.
Qed.

Lemma bz_inj a b : bz a = bz b → a = b.
Proof. intros H. by rewrite <- (zb_bz a), H, zb_bz. Qed.

Lemma bz_zb_small z : (0 ≤ z < 256)%Z → bz (zb z) = z.
Proof. intros. by rewrite bz_zb, Z.mod_small. Qed.

(** A property of every byte is a finite check. *)
Lemma byte_forall (P : byte → bool) :
  forallb (fun n => P (zb (Z.of_nat n))) (seq 0 256) = true → ∀ b, P b = true.
Proof.
  intros H b. rewrite forallb_forall in H.
  specialize (H (Z.to_nat (bz b))). rewrite <- (zb_bz b).
  pose proof (bz_range b).
  rewrite Z2Nat.id in H by lia. apply H, in_seq. lia.
Qed.

Lemma wrap64_id z : in_int64 z → wrap64 z = z.
Proof.
  unfold in_int64, wrap64, min_int64, max_int64. intros.
  rewrite Z.mod_small; lia.
Qed.

Lemma wrap64_range z : in_int64 (wrap64 z).
Proof.
  unfold in_int64, wrap64, min_int64, max_int64.
  pose proof (Z.mod_pos_bound (z + 2 ^ 63)%Z (2 ^ 64)%Z). lia.
Qed.

Lemma take_app_exact {A} (l k : list A) n : n = length l → take n (l ++ k) = l.
Proof. intros ->. apply take_app_length. Qed.

Lemma drop_app_exact {A} (l k : list A) n : n = length l → drop n (l ++ k) = k.
Proof. intros ->. apply drop_app_length. Qed.

Lemma res_bind_ok {E A B} (r : res E A) (f : A → res E B) b :
  res_bind r f = Ok b → ∃ a, r = Ok a ∧ f a = Ok b.
Proof. destruct r; naive_solver. Qed.

#[export] Hint Resolve bz_range zb_bz bz_zb wrap64_range str_eqb_refl byte_eqb_refl : go.
#[export] Hint Rewrite @length_app @length_take @length_drop zb_bz str_eqb_refl byte_eqb_refl : gorw.
