(* ===== verification/GoStrings.v ===== *)
(** * Go's string functions used by the gateway

    [strings], [unicode/utf8], [strconv] and [fmt] as far as the source uses
    them, on byte sequences: prefixes, splitting, replacement, UTF-8 decoding,
    [TrimSpace], decimal printing and parsing. The lemmas at the end are the
    interface the components use. *)

From S2P Require Import Prelude.

(** ** package strings *)

(** [strings.HasPrefix(s, prefix)] *)
Fixpoint HasPrefix (s prefix : bytes) : bool :=
  match prefix, s with
  | [], _ => true
  | p :: prefix', c :: s' => byte_eqb p c && HasPrefix s' prefix'
  | _ :: _, [] => false
  end.

(** [strings.TrimPrefix(s, prefix)] *)
Definition TrimPrefix (s prefix : bytes) : bytes :=
  if HasPrefix s prefix then drop (length prefix) s else s.

(** [strings.IndexByte(s, c)]; [None] is Go's [-1]. *)
Fixpoint IndexByte (s : bytes) (c : byte) : option nat :=
  match s with
  | [] => None
  | x :: s' => if byte_eqb x c then Some 0 else S <$> IndexByte s' c
  end.

(** [strings.Split(s, sep)] for a one-byte separator. *)
Fixpoint Split (s : bytes) (sep : byte) : list bytes :=
  match s with
  | [] => [[]]
  | x :: s' =>
      if byte_eqb x sep then [] :: Split s' sep
      else match Split s' sep with
           | [] => [[x]]
           | w :: ws => (x :: w) :: ws
           end
  end.

(** [strings.Join(parts, sep)] *)
Fixpoint Join (parts : list bytes) (sep : bytes) : bytes :=
  match parts with
  | [] => []
  | [p] => p
  | p :: ps => p ++ sep ++ Join ps sep
  end.

(** [strings.Contains(s, sub)] *)
Fixpoint Contains (s sub : bytes) : bool :=
  HasPrefix s sub ||
  match s with
  | [] => false
  | _ :: s' => Contains s' sub
  end.

(** [strings.ReplaceAll(s, old, new)] for a non-empty [old]: the leftmost
    non-overlapping occurrences, found from the left. [skip] counts the bytes
    of the occurrence being dropped. *)
Fixpoint replace_from (skip : nat) (s old new : bytes) : bytes :=
  match s with
  | [] => []
  | c :: s' =>
      match skip with
      | S k => replace_from k s' old new
      | O =>
          if HasPrefix s old
          then new ++ replace_from (length old - 1) s' old new
          else c :: replace_from 0 s' old new
      end
  end.

Definition ReplaceAll (s old new : bytes) : bytes := replace_from 0 s old new.

(** [strings.TrimRight(s, cutset)] for a one-byte cutset. *)
Fixpoint TrimRightByte (s : bytes) (c : byte) : bytes :=
  match s with
  | [] => []
  | x :: s' =>
      match TrimRightByte s' c with
      | [] => if byte_eqb x c then [] else [x]
      | t => x :: t
      end
  end.

(** ** package unicode/utf8 *)

Definition RuneError : Z := 0xFFFD.

Definition in_range (lo hi z : Z) : bool := (lo <=? z)%Z && (z <=? hi)%Z.

Definition is_cont (b : byte) : bool := in_range 0x80 0xBF (bz b).

(** [utf8.DecodeRuneInString]: the first rune of [s] and its width; an
    ill-formed sequence is [(RuneError, 1)]. *)
Definition DecodeRune (s : bytes) : Z * nat :=
  match s with
  | [] => (RuneError, 0)
  | b0 :: s1 =>
      let z0 := bz b0 in
      if (z0 <? 0x80)%Z then (z0, 1)
      else if in_range 0xC2 0xDF z0 then
        match s1 with
        | b1 :: _ =>
            if is_cont b1 then (Z.lor (Z.shiftl (Z.land z0 0x1F) 6) (Z.land (bz b1) 0x3F), 2)
            else (RuneError, 1)
        | _ => (RuneError, 1)
        end
      else if in_range 0xE0 0xEF z0 then
        let lo := if (z0 =? 0xE0)%Z then 0xA0%Z else 0x80%Z in
        let hi := if (z0 =? 0xED)%Z then 0x9F%Z else 0xBF%Z in
        match s1 with
        | b1 :: b2 :: _ =>
            if in_range lo hi (bz b1) && is_cont b2
            then (Z.lor (Z.shiftl (Z.land z0 0x0F) 12)
                    (Z.lor (Z.shiftl (Z.land (bz b1) 0x3F) 6) (Z.land (bz b2) 0x3F)), 3)
            else (RuneError, 1)
        | _ => (RuneError, 1)
        end
      else if in_range 0xF0 0xF4 z0 then
        let lo := if (z0 =? 0xF0)%Z then 0x90%Z else 0x80%Z in
        let hi := if (z0 =? 0xF4)%Z then 0x8F%Z else 0xBF%Z in
        match s1 with
        | b1 :: b2 :: b3 :: _ =>
            if in_range lo hi (bz b1) && is_cont b2 && is_cont b3
            then (Z.lor (Z.shiftl (Z.land z0 0x07) 18)
                    (Z.lor (Z.shiftl (Z.land (bz b1) 0x3F) 12)
                       (Z.lor (Z.shiftl (Z.land (bz b2) 0x3F) 6) (Z.land (bz b3) 0x3F))), 4)
            else (RuneError, 1)
        | _ => (RuneError, 1)
        end
      else (RuneError, 1)
  end.

(** The runes a [for _, r := range s] loop visits. [fuel] bounds the number of
    iterations; every iteration consumes at least one byte, so [length s] is
    enough. *)
Fixpoint runes_fuel (fuel : nat) (s : bytes) : list Z :=
  match fuel, s with
  | S f, _ :: _ => let '(r, w) := DecodeRune s in r :: runes_fuel f (drop w s)
  | _, _ => []
  end.

Definition runes (s : bytes) : list Z := runes_fuel (length s) s.

(** [utf8.RuneStart] *)
Definition RuneStart (b : byte) : bool := negb (Z.land (bz b) 0xC0 =? 0x80)%Z.

(** [utf8.DecodeLastRuneInString]: the start of the last rune is looked for in
    the at most four last bytes. *)
Fixpoint last_start (n : nat) (s : bytes) (start : nat) : nat :=
  match n with
  | O => start
  | S n' =>
      match s !! start with
      | Some b => if RuneStart b then start else
                    match start with O => 0 | S st => last_start n' s st end
      | None => start
      end
  end.

Definition DecodeLastRune (s : bytes) : Z * nat :=
  match s !! (length s - 1) with
  | None => (RuneError, 0)
  | Some b =>
      if (bz b <? 0x80)%Z then (bz b, 1)
      else
        let fin := length s in
        let start := last_start 3 s (fin - 2) in
        let '(r, w) := DecodeRune (drop start s) in
        if (start + w =? fin)%nat then (r, w) else (RuneError, 1)
  end.

(** ** package unicode *)

(** [unicode.IsSpace] *)
Definition IsSpace (r : Z) : bool :=
  in_range 0x09 0x0D r || (r =? 0x20)%Z || (r =? 0x85)%Z || (r =? 0xA0)%Z ||
  (r =? 0x1680)%Z || in_range 0x2000 0x200A r || (r =? 0x2028)%Z || (r =? 0x2029)%Z ||
  (r =? 0x202F)%Z || (r =? 0x205F)%Z || (r =? 0x3000)%Z.

Fixpoint trim_left (fuel : nat) (s : bytes) : bytes :=
  match fuel, s with
  | S f, _ :: _ =>
      let '(r, w) := DecodeRune s in
      if IsSpace r then trim_left f (drop w s) else s
  | _, _ => s
  end.

Fixpoint trim_right (fuel : nat) (s : bytes) : bytes :=
  match fuel, s with
  | S f, _ :: _ =>
      let '(r, w) := DecodeLastRune s in
      if IsSpace r then trim_right f (take (length s - w) s) else s
  | _, _ => s
  end.

(** [strings.TrimSpace]: leading, then trailing Unicode white space. Each
    iteration removes at least one byte: [length s] iterations are enough. *)
Definition TrimSpace (s : bytes) : bytes :=
  let l := trim_left (length s) s in trim_right (length l) l.

(** ** Decimal numbers: fmt's [%d], strconv.Itoa, strconv.Atoi *)

Definition digit (d : Z) : byte := zb (48 + d).
Definition is_digit (b : byte) : bool := in_range 48 57 (bz b).
Definition digit_val (b : byte) : Z := bz b - 48.

(** The digits of [n ≥ 0] before [acc]; [fuel] is a bound on their number. *)
Fixpoint dec_aux (fuel : nat) (n : Z) (acc : bytes) : bytes :=
  match fuel with
  | O => acc
  | S f =>
      let acc' := digit (n mod 10) :: acc in
      if (n / 10 =? 0)%Z then acc' else dec_aux f (n / 10) acc'
  end.

(** [strconv.Itoa] and [%d]. A number below 2^k has at most k decimal digits. *)
Definition Itoa (z : Z) : bytes :=
  if (z <? 0)%Z then "-"%byte :: dec_aux (Z.to_nat (Z.log2 (- z)) + 1) (- z) []
  else dec_aux (Z.to_nat (Z.log2 z) + 1) z [].

Definition dec_val (s : bytes) : Z := fold_left (fun a b => a * 10 + digit_val b)%Z s 0%Z.

(** [strconv.ParseUint(s, 10, bits)]: digits only, out of range is an error. *)
Definition ParseUint (bits : Z) (s : bytes) : option Z :=
  match s with
  | [] => None
  | _ => if forallb is_digit s && (dec_val s <? 2 ^ bits)%Z then Some (dec_val s) else None
  end.

(** [strconv.ParseInt(s, 10, bits)]: an optional sign, then digits. *)
Definition ParseInt (bits : Z) (s : bytes) : option Z :=
  let '(neg, body) :=
    match s with
    | c :: s' => if byte_eqb c "-" then (true, s')
                 else if byte_eqb c "+" then (false, s') else (false, s)
    | [] => (false, s)
    end in
  match ParseUint bits body with
  | None => None
  | Some n =>
      if neg then if (n <=? 2 ^ (bits - 1))%Z then Some (- n)%Z else None
      else if (n <? 2 ^ (bits - 1))%Z then Some n else None
  end.

(** [strconv.Atoi]: [int] is 64 bits wide. *)
Definition Atoi (s : bytes) : option Z := ParseInt 64 s.

(** ** strconv.Quote and fmt's verbs *)

(** [unicode.IsPrint] beyond Latin-1 is a table of the Unicode standard; it
    only decides whether [%q] shows such a character or its escape. *)
Class UnicodeTables : Type := { is_print_high : Z → bool }.

Definition hexd (z : Z) : byte := nth (Z.to_nat (z mod 16)) (bs "0123456789abcdef") x00.

Fixpoint hex_fixed (n : nat) (z : Z) : bytes :=
  match n with
  | O => []
  | S n' => hex_fixed n' (z / 16) ++ [hexd z]
  end.

Section Fmt.
Context `{UnicodeTables}.

(** [strconv.IsPrint] *)
Definition IsPrint (r : Z) : bool :=
  if (r <=? 0xFF)%Z then in_range 0x20 0x7E r || (in_range 0xA1 0xFF r && negb (r =? 0xAD)%Z)
  else is_print_high r.

(** The bytes [raw] of one rune [r], escaped for double quotes. *)
Definition escape_rune (r : Z) (raw : bytes) : bytes :=
  if (r =? 34)%Z || (r =? 92)%Z then x5c :: raw
  else if IsPrint r then raw
  else if (r =? 7)%Z then bs "\a" else if (r =? 8)%Z then bs "\b"
  else if (r =? 12)%Z then bs "\f" else if (r =? 10)%Z then bs "\n"
  else if (r =? 13)%Z then bs "\r" else if (r =? 9)%Z then bs "\t"
  else if (r =? 11)%Z then bs "\v"
  else if (r <? 0x20)%Z || (r =? 0x7F)%Z then bs "\x" ++ hex_fixed 2 r
  else if (r <? 0x10000)%Z then bs "\u" ++ hex_fixed 4 r
  else bs "\U" ++ hex_fixed 8 r.

Fixpoint quote_fuel (fuel : nat) (s : bytes) : bytes :=
  match fuel, s with
  | S f, b :: _ =>
      let '(r, w) := DecodeRune s in
      (if (w =? 1)%nat && (r =? RuneError)%Z then bs "\x" ++ hex_fixed 2 (bz b)
       else escape_rune r (take w s)) ++ quote_fuel f (drop w s)
  | _, _ => []
  end.

(** [strconv.Quote], the verb [%q]. *)
Definition Quote (s : bytes) : bytes := x22 :: quote_fuel (length s) s ++ [x22].

(** A format string with its operands, in order. *)
Inductive fmt_arg : Type :=
| FLit (s : bytes)
| FStr (s : bytes)
| FQuote (s : bytes)
| FInt (z : Z).

(** [fmt.Sprintf] *)
Definition Sprintf (args : list fmt_arg) : bytes :=
  concat ((fun a => match a with
                    | FLit s | FStr s => s
                    | FQuote s => Quote s
                    | FInt z => Itoa z
                    end) <$> args).

End Fmt.

#[export] Instance fmt_arg_eq_dec : EqDecision fmt_arg.
Proof. solve_decision. Defined.

(** ** Prefixes, indexes and splitting *)

Lemma HasPrefix_app p s : HasPrefix (p ++ s) p = true.
Proof. induction p as [|c p IH]; [by destruct s|]; simpl. by rewrite byte_eqb_refl. Qed.

Lemma HasPrefix_spec s p : HasPrefix s p = true ↔ ∃ t, s = p ++ t.
Proof.
  split; [|by intros [t ->]; apply HasPrefix_app].
  revert s. induction p as [|c p IH]; intros [|x s] H; simpl in *; eauto; try done.
  go_bool; subst. destruct (IH _ H0) as [t ->]. by exists t.
Qed.

Lemma TrimPrefix_app p s : TrimPrefix (p ++ s) p = s.
Proof. unfold TrimPrefix. by rewrite HasPrefix_app, drop_app_length. Qed.

Lemma IndexByte_app c u t : c ∉ u → IndexByte (u ++ c :: t) c = Some (length u).
Proof.
  induction u as [|x u IH]; simpl; intros Hc; [by rewrite byte_eqb_refl|].
  apply not_elem_of_cons in Hc as [Hne Hc].
  unfold byte_eqb. rewrite bool_decide_false by congruence. by rewrite IH.
Qed.

Lemma IndexByte_Some s c i :
  IndexByte s c = Some i → ∃ u t, s = u ++ c :: t ∧ length u = i ∧ c ∉ u.
Proof.
  revert i. induction s as [|x s IH]; simpl; intros i H; [done|].
  destruct (byte_eqb x c) eqn:E; go_bool.
  - simplify_eq. exists [], s. repeat split; [done..|]. apply not_elem_of_nil.
  - destruct (IndexByte s c) as [j|]; simplify_eq/=.
    destruct (IH j eq_refl) as (u & t & -> & <- & Hu).
    exists (x :: u), t. repeat split; [done..|]. apply not_elem_of_cons; split; congruence.
Qed.

Lemma Split_cons_sep c s : Split (c :: s) c = [] :: Split s c.
Proof. simpl. by rewrite byte_eqb_refl. Qed.

Lemma Split_app_sep c w s : c ∉ w → Split (w ++ c :: s) c = w :: Split s c.
Proof.
  induction w as [|x w IH]; intros Hc; [apply Split_cons_sep|].
  apply not_elem_of_cons in Hc as [Hne Hc]. cbn [app Split].
  unfold byte_eqb. rewrite bool_decide_false by congruence. by rewrite IH.
Qed.

Lemma Split_no_sep c w : c ∉ w → Split w c = [w].
Proof.
  induction w as [|x w IH]; intros Hc; [done|].
  apply not_elem_of_cons in Hc as [Hne Hc]. cbn [Split].
  unfold byte_eqb. rewrite bool_decide_false by congruence. by rewrite IH.
Qed.

(** ** TrimSpace *)

(** An ASCII byte that is not white space, and one that is. *)
Definition plain (b : byte) : bool := (bz b <? 0x80)%Z && negb (IsSpace (bz b)).
Definition blank (b : byte) : bool := (bz b <? 0x80)%Z && IsSpace (bz b).

Lemma DecodeRune_ascii b s : (bz b < 0x80)%Z → DecodeRune (b :: s) = (bz b, 1).
Proof. intros H. unfold DecodeRune. apply Z.ltb_lt in H. by rewrite H. Qed.

Lemma DecodeLastRune_ascii b s : (bz b < 0x80)%Z → DecodeLastRune (s ++ [b]) = (bz b, 1).
Proof.
  intros H. unfold DecodeLastRune. rewrite length_app; simpl.
  rewrite lookup_app_r by lia. replace (length s + 1 - 1 - length s) with 0 by lia; simpl.
  apply Z.ltb_lt in H. by rewrite H.
Qed.

Lemma trim_left_plain f b s : plain b = true → trim_left f (b :: s) = b :: s.
Proof.
  intros H. unfold plain in H. go_bool. destruct f as [|f]; [done|]. cbn [trim_left].
  rewrite DecodeRune_ascii by done. by rewrite H0.
Qed.

Lemma trim_left_blanks f ws s :
  Forall (fun b => blank b = true) ws → (length ws ≤ f)%nat →
  trim_left f (ws ++ s) = trim_left (f - length ws) s.
Proof.
  intros Hws. revert f. induction Hws as [|b ws Hb _ IH]; intros f Hf; simpl in *.
  { by rewrite Nat.sub_0_r. }
  destruct f as [|f]; [lia|]. unfold blank in Hb. go_bool.
  cbn [trim_left]. rewrite DecodeRune_ascii, H0 by done. simpl. rewrite drop_0.
  apply IH. lia.
Qed.

Lemma trim_right_plain f b s : plain b = true → trim_right f (s ++ [b]) = s ++ [b].
Proof.
  intros H. unfold plain in H. go_bool. destruct f as [|f]; [by destruct s|].
  assert (∃ c t, s ++ [b] = c :: t) as (c & t & E) by (destruct s; eauto).
  rewrite E. cbn [trim_right]. rewrite <- E, DecodeLastRune_ascii by done. by rewrite H0.
Qed.

Lemma trim_right_blanks f ws s :
  Forall (fun b => blank b = true) ws → (length ws ≤ f)%nat →
  trim_right f (s ++ ws) = trim_right (f - length ws) s.
Proof.
  revert f. induction ws as [|b ws IH] using rev_ind; intros f Hws Hf.
  { by rewrite app_nil_r, Nat.sub_0_r. }
  apply Forall_app in Hws as [Hws Hb]. rewrite Forall_singleton in Hb.
  rewrite length_app in Hf; simpl in Hf. destruct f as [|f]; [lia|].
  unfold blank in Hb. go_bool. rewrite app_assoc.
  assert (∃ c t, (s ++ ws) ++ [b] = c :: t) as (c & t & E) by (destruct (s ++ ws); eauto).
  rewrite E. cbn [trim_right]. rewrite <- E, DecodeLastRune_ascii, H0 by done.
  rewrite length_app; simpl. replace (length (s ++ ws) + 1 - 1) with (length (s ++ ws)) by lia.
  rewrite take_app_length, IH by (done || lia). f_equal. rewrite length_app; simpl; lia.
Qed.

(** [TrimSpace] removes ASCII blanks around a text whose first and last bytes
    are ASCII and not blank, and nothing else. *)
Lemma TrimSpace_around ws1 ws2 s b c t u :
  Forall (fun b => blank b = true) ws1 → Forall (fun b => blank b = true) ws2 →
  s = b :: t → s = u ++ [c] → plain b = true → plain c = true →
  TrimSpace (ws1 ++ s ++ ws2) = s.
Proof.
  intros H1 H2 E1 E2 Hb Hc. unfold TrimSpace. cbv zeta.
  rewrite trim_left_blanks by (done || rewrite ?length_app; lia).
  replace (trim_left _ (s ++ ws2)) with (s ++ ws2) by (rewrite E1; symmetry; by apply trim_left_plain).
  rewrite trim_right_blanks by (done || rewrite ?length_app; lia).
  rewrite E2. by apply trim_right_plain.
Qed.

Lemma TrimSpace_id s b c t u :
  s = b :: t → s = u ++ [c] → plain b = true → plain c = true → TrimSpace s = s.
Proof.
  intros E1 E2 Hb Hc.
  rewrite <- (TrimSpace_around [] [] s b c t u) at 2 by (done || constructor).
  by rewrite app_nil_r.
Qed.

(** ** Decimal numbers *)

Lemma digit_ok d : (0 ≤ d < 10)%Z → is_digit (digit d) = true ∧ digit_val (digit d) = d.
Proof.
  intros H. unfold is_digit, digit_val, digit, in_range.
  rewrite bz_zb_small by lia. split; [|lia].
  apply andb_true_iff; split; apply Z.leb_le; lia.
Qed.

Lemma fold_dec_shift s a :
  fold_left (fun a b => a * 10 + digit_val b)%Z s a =
  (a * 10 ^ Z.of_nat (length s) + dec_val s)%Z.
Proof.
  revert a. induction s as [|c s IH] using rev_ind; intros a.
  - simpl. unfold dec_val; simpl. lia.
  - unfold dec_val. rewrite !fold_left_app; simpl. rewrite IH. unfold dec_val.
    rewrite length_app; simpl. rewrite Nat2Z.inj_add, Z.pow_add_r by lia.
    change (10 ^ Z.of_nat 1)%Z with 10%Z. ring.
Qed.

Lemma dec_val_cons d s :
  dec_val (d :: s) = (digit_val d * 10 ^ Z.of_nat (length s) + dec_val s)%Z.
Proof. unfold dec_val at 1. simpl. rewrite fold_dec_shift. ring. Qed.

Lemma dec_aux_digits f n acc :
  forallb is_digit acc = true → forallb is_digit (dec_aux f n acc) = true.
Proof.
  revert n acc. induction f as [|f IH]; intros n acc Ha; simpl; [done|].
  assert (is_digit (digit (n mod 10)) = true) as Hd
    by (apply digit_ok, Z.mod_pos_bound; lia).
  case_match; [|apply IH]; simpl; by rewrite Hd.
Qed.

Lemma dec_aux_val f n acc :
  (0 ≤ n < 10 ^ Z.of_nat f)%Z →
  dec_val (dec_aux f n acc) = (n * 10 ^ Z.of_nat (length acc) + dec_val acc)%Z.
Proof.
  revert n acc. induction f as [|f IH]; intros n acc Hn.
  { simpl in *. assert (n = 0)%Z as -> by lia. lia. }
  assert (0 ≤ n mod 10 < 10)%Z as Hm by (apply Z.mod_pos_bound; lia).
  pose proof (proj2 (digit_ok _ Hm)) as Hd.
  pose proof (Z.div_mod n 10 ltac:(lia)) as Hdm.
  cbn [dec_aux]. destruct (n / 10 =? 0)%Z eqn:E; go_bool.
  - rewrite dec_val_cons, Hd. rewrite Hdm at 2. rewrite E. f_equal; f_equal; lia.
  - rewrite Nat2Z.inj_succ, Z.pow_succ_r in Hn by lia.
    rewrite IH by (split; [apply Z.div_pos; lia|apply Z.div_lt_upper_bound; lia]).
    rewrite dec_val_cons, Hd. cbn [length]. rewrite Nat2Z.inj_succ, Z.pow_succ_r by lia.
    rewrite Hdm at 3. ring.
Qed.

Lemma dec_aux_nonempty f n acc : acc ≠ [] ∨ f ≠ 0 → dec_aux f n acc ≠ [].
Proof.
  revert n acc. induction f as [|f IH]; simpl; intros n acc H; [naive_solver|].
  case_match; [done|]. apply IH. by left.
Qed.

Lemma dec_fuel n : (0 ≤ n)%Z → (n < 10 ^ Z.of_nat (Z.to_nat (Z.log2 n) + 1))%Z.
Proof.
  intros Hn. pose proof (Z.log2_nonneg n).
  rewrite Nat2Z.inj_add, Z2Nat.id by done. change (Z.of_nat 1) with 1%Z.
  destruct (decide (n = 0)%Z) as [->|]; [done|].
  apply Z.lt_le_trans with (2 ^ (Z.log2 n + 1))%Z.
  - apply Z.log2_spec; lia.
  - apply Z.pow_le_mono_l; lia.
Qed.

(** The digits [Itoa] prints for a non-negative number. *)
Lemma Itoa_nonneg z :
  (0 ≤ z)%Z → Itoa z ≠ [] ∧ forallb is_digit (Itoa z) = true ∧ dec_val (Itoa z) = z.
Proof.
  intros Hz. unfold Itoa. rewrite (proj2 (Z.ltb_ge z 0)) by done. repeat split.
  - apply dec_aux_nonempty. lia.
  - by apply dec_aux_digits.
  - rewrite dec_aux_val by (split; [done|by apply dec_fuel]). unfold dec_val; simpl. lia.
Qed.

Lemma Itoa_neg z : (z < 0)%Z → Itoa z = "-"%byte :: Itoa (- z).
Proof.
  intros Hz. unfold Itoa. rewrite (proj2 (Z.ltb_lt z 0)) by done.
  by rewrite (proj2 (Z.ltb_ge (- z) 0)) by lia.
Qed.

Lemma ParseUint_Itoa bits z : (0 ≤ z < 2 ^ bits)%Z → ParseUint bits (Itoa z) = Some z.
Proof.
  intros Hz. destruct (Itoa_nonneg z) as (Hne & Hd & Hv); [lia|].
  unfold ParseUint. destruct (Itoa z); [done|]. rewrite Hd, Hv; simpl.
  by rewrite (proj2 (Z.ltb_lt z _)) by lia.
Qed.

Lemma is_digit_not_sign b : is_digit b = true → byte_eqb b "-" = false ∧ byte_eqb b "+" = false.
Proof.
  intros H. unfold byte_eqb. split; apply bool_decide_eq_false; intros ->; done.
Qed.

(** Printing a 64-bit integer and reading it back is the identity. *)
Lemma Atoi_Itoa z : in_int64 z → Atoi (Itoa z) = Some z.
Proof.
  unfold in_int64, min_int64, max_int64, Atoi, ParseInt. intros Hz.
  destruct (Z.ltb_spec z 0).
  - rewrite Itoa_neg by done. rewrite byte_eqb_refl. rewrite ParseUint_Itoa by lia.
    rewrite (proj2 (Z.leb_le _ _)) by lia. f_equal; lia.
  - destruct (Itoa_nonneg z) as (Hne & Hd & _); [lia|].
    destruct (Itoa z) as [|c s] eqn:E; [done|].
    simpl in Hd. apply andb_true_iff in Hd as [Hc _].
    destruct (is_digit_not_sign c Hc) as [-> ->].
    rewrite <- E, ParseUint_Itoa by lia. by rewrite (proj2 (Z.ltb_lt _ _)) by lia.
Qed.

Lemma is_digit_plain b : is_digit b = true → plain b = true.
Proof.
  intros H. pose proof (byte_forall (fun b => implb (is_digit b) (plain b)) ltac:(by vm_compute) b).
  simpl in *. by rewrite H in H0.
Qed.

Lemma not_digit_notin (l : bytes) c :
  forallb is_digit l = true → is_digit c = false → c ∉ l.
Proof.
  intros Hl Hc Hin. rewrite forallb_forall in Hl.
  apply list_elem_of_In in Hin. rewrite Hl in Hc; done.
Qed.

(** ** Quoting *)

(** A byte [%q] leaves alone. *)
Definition quote_plain (b : byte) : bool :=
  in_range 0x20 0x7E (bz b) && negb (bz b =? 34)%Z && negb (bz b =? 92)%Z.

Lemma quote_fuel_plain `{UnicodeTables} s f :
  Forall (fun b => quote_plain b = true) s → (length s ≤ f)%nat → quote_fuel f s = s.
Proof.
  intros Hs. revert f. induction Hs as [|b s Hb _ IH]; intros f Hf; [by destruct f|].
  destruct f as [|f]; simpl in Hf; [lia|]. unfold quote_plain, in_range in Hb. go_bool.
  cbn [quote_fuel]. rewrite DecodeRune_ascii by lia.
  rewrite (proj2 (Z.eqb_neq (bz b) RuneError)) by (unfold RuneError; lia).
  rewrite andb_false_r. unfold escape_rune. rewrite !(proj2 (Z.eqb_neq (bz b) _)) by done.
  unfold IsPrint, in_range. rewrite !(proj2 (Z.leb_le _ _)) by lia. simpl.
  rewrite drop_0, IH by lia. done.
Qed.

Lemma Quote_plain `{UnicodeTables} s :
  Forall (fun b => quote_plain b = true) s → Quote s = x22 :: s ++ [x22].
Proof. intros Hs. unfold Quote. by rewrite quote_fuel_plain. Qed.
