(* ===== verification/Regexp.v ===== *)
(** * regexp: what the migration linter uses of it

    Regular expressions of single-rune classes, sequences, options, greedy and lazy
    repetitions of a class, the two zero-width tests and one level of capture, over
    the runes of a text. The matcher prefers what Go's leftmost-first semantics
    prefers; the language of an expression is a relation on positions, and the
    matcher finds a match exactly if the language has one. *)

From S2P Require Import Prelude GoStrings.

(** A rune with the bytes it was decoded from, so that a match is text again. *)
Definition sym : Type := (Z * bytes).

Fixpoint decode_fuel (fuel : nat) (s : bytes) : list sym :=
  match fuel, s with
  | S f, _ :: _ => let '(r, w) := DecodeRune s in (r, take w s) :: decode_fuel f (drop w s)
  | _, _ => []
  end.

Definition decode_runes (s : bytes) : list sym := decode_fuel (length s) s.

Definition text (l : list sym) : bytes := concat (snd <$> l).

(** ** Expressions *)

Inductive re : Type :=
| Emp
| Cls (c : Z → bool)
| Cat (a b : re)
| Opt (a : re)                     (** [a?] *)
| Rep (lazy : bool) (c : Z → bool) (** [c*] and [c*?] *)
| Bol                              (** [^] with flag m *)
| WordB                            (** [\b] *)
| Cap (a : re).

Fixpoint cats (l : list re) : re :=
  match l with
  | [] => Emp
  | [r] => r
  | r :: l => Cat r (cats l)
  end.

(** A position: the rune before it, the text after it, what was captured. *)
Record pos : Type := { po_prev : option Z; po_rest : list sym; po_caps : list (list sym) }.

Definition step (c : Z → bool) (p : pos) : option pos :=
  match po_rest p with
  | x :: rest => if c x.1 then Some {| po_prev := Some x.1; po_rest := rest; po_caps := po_caps p |} else None
  | [] => None
  end.

Definition word_rune (r : Z) : bool :=
  ((48 <=? r) && (r <=? 57) || (65 <=? r) && (r <=? 90) || (97 <=? r) && (r <=? 122) || (r =? 95))%Z.

Definition at_bol (p : pos) : bool :=
  match po_prev p with None => true | Some r => (r =? 10)%Z end.

Definition at_wordb (p : pos) : bool :=
  xorb (match po_prev p with Some r => word_rune r | None => false end)
       (match po_rest p with x :: _ => word_rune x.1 | [] => false end).

(** The text from position [p] to the later position [q]. *)
Definition between (p q : pos) : list sym := take (length (po_rest p) - length (po_rest q)) (po_rest p).

Definition captured (p q : pos) : pos :=
  {| po_prev := po_prev q; po_rest := po_rest q; po_caps := po_caps q ++ [between p q] |}.

(** ** Matching *)

Section Matching.
Context {R : Type}.

(** All the ways to take runes of a class, the preferred ones first. *)
Fixpoint rep (lazy : bool) (c : Z → bool) (k : pos → option R) (prev : option Z) (rest : list sym)
    (caps : list (list sym)) : option R :=
  let stop := k {| po_prev := prev; po_rest := rest; po_caps := caps |} in
  let more := match rest with
              | x :: rest => if c x.1 then rep lazy c k (Some x.1) rest caps else None
              | [] => None
              end in
  if lazy then match stop with Some a => Some a | None => more end
  else match more with Some a => Some a | None => stop end.

(** [k] says what is to follow; the first way that satisfies it is taken. *)
Fixpoint run (r : re) (k : pos → option R) (p : pos) : option R :=
  match r with
  | Emp => k p
  | Cls c => match step c p with Some q => k q | None => None end
  | Cat a b => run a (run b k) p
  | Opt a => match run a k p with Some x => Some x | None => k p end
  | Rep lazy c => rep lazy c k (po_prev p) (po_rest p) (po_caps p)
  | Bol => if at_bol p then k p else None
  | WordB => if at_wordb p then k p else None
  | Cap a => run a (fun q => k (captured p q)) p
  end.
End Matching.

(** A match at a position: where it ends, with its captures. *)
Definition match_at (r : re) (p : pos) : option pos :=
  run r Some {| po_prev := po_prev p; po_rest := po_rest p; po_caps := [] |}.

(** The leftmost match from a position on. *)
Fixpoint find_from (r : re) (prev : option Z) (rest : list sym) : option pos :=
  match match_at r {| po_prev := prev; po_rest := rest; po_caps := [] |} with
  | Some q => Some q
  | None => match rest with
            | x :: rest => find_from r (Some x.1) rest
            | [] => None
            end
  end.

(** [re.MatchString(s)] *)
Definition MatchString (r : re) (s : list sym) : bool :=
  match find_from r None s with Some _ => true | None => false end.

(** [re.FindAllStringSubmatch(s, -1)], for an expression with no empty match: the
    captures of the successive matches. *)
Fixpoint find_all (fuel : nat) (r : re) (prev : option Z) (rest : list sym) : list (list (list sym)) :=
  match fuel with
  | O => []
  | S f => match find_from r prev rest with
           | Some q => po_caps q :: find_all f r (po_prev q) (po_rest q)
           | None => []
           end
  end.

Definition FindAllStringSubmatch (r : re) (s : list sym) : list (list (list sym)) := find_all (length s) r None s.

(** ** The language of an expression *)

Inductive lang : re → pos → pos → Prop :=
| lang_emp p : lang Emp p p
| lang_cls c p q : step c p = Some q → lang (Cls c) p q
| lang_cat a b p q s : lang a p q → lang b q s → lang (Cat a b) p s
| lang_opt a p q : lang a p q → lang (Opt a) p q
| lang_skip a p : lang (Opt a) p p
| lang_stop l c p : lang (Rep l c) p p
| lang_more l c p q s : step c p = Some q → lang (Rep l c) q s → lang (Rep l c) p s
| lang_bol p : at_bol p = true → lang Bol p p
| lang_wordb p : at_wordb p = true → lang WordB p p
| lang_cap a p q : lang a p q → lang (Cap a) p (captured p q).
#[export] Hint Constructors lang : core.

Lemma rep_sound {R} l c (k : pos → option R) rest : ∀ prev caps x,
  rep l c k prev rest caps = Some x →
  ∃ q, lang (Rep l c) {| po_prev := prev; po_rest := rest; po_caps := caps |} q ∧ k q = Some x.
Proof.
  induction rest as [|y rest IH]; intros prev caps x; cbn [rep].
  - intros Hx. assert (k {| po_prev := prev; po_rest := []; po_caps := caps |} = Some x) as Hk
      by (destruct l, (k _); done). eauto.
  - set (stop := k _). set (more := if c y.1 then _ else _). intros Hx.
    assert (stop = Some x ∨ more = Some x) as [Hk|Hk].
    { destruct l; [destruct stop eqn:E|destruct more eqn:E]; auto. }
    + eauto.
    + unfold more in Hk. destruct (c y.1) eqn:Ec; [|done]. apply IH in Hk as (q & Hq & Hk). exists q.
      split; [|done]. eapply lang_more; [|exact Hq]. unfold step; simpl. by rewrite Ec.
Qed.

Lemma run_sound {R} r : ∀ (k : pos → option R) p x, run r k p = Some x → ∃ q, lang r p q ∧ k q = Some x.
Proof.
  induction r as [|c|a IHa b IHb|a IHa|l c| | |a IHa]; intros k p x; cbn [run].
  - eauto.
  - destruct (step c p) as [q|] eqn:E; [|done]. eauto.
  - intros (q & Hq & (s & Hs & Hk)%IHb)%IHa. eauto.
  - destruct (run a k p) as [y|] eqn:E; [|eauto]. intros [= ->]. apply IHa in E as (q & Hq & Hk). eauto.
  - intros (q & Hq & Hk)%rep_sound. exists q. split; [|done]. by destruct p.
  - destruct (at_bol p) eqn:E; [eauto|done].
  - destruct (at_wordb p) eqn:E; [eauto|done].
  - intros (q & Hq & Hk)%IHa. eauto.
Qed.

Lemma rep_complete {R} l c (k : pos → option R) p q :
  lang (Rep l c) p q → is_Some (k q) → is_Some (rep l c k (po_prev p) (po_rest p) (po_caps p)).
Proof.
  remember (Rep l c) as r eqn:Er. intros Hl Hk.
  induction Hl as [| | | | |l' c' p|l' c' p q s Hs Hl IH| | |]; simplify_eq.
  - destruct p as [prev rest caps]. destruct Hk as [x Hk]. destruct rest as [|y rest]; cbn [rep po_prev po_rest po_caps].
    + rewrite Hk. by destruct l; eexists.
    + rewrite Hk. destruct l; [by eexists|]. by destruct (if c y.1 then _ else _); eexists.
  - specialize (IH eq_refl Hk). destruct p as [prev rest caps]. unfold step in Hs. cbn [po_rest po_caps] in Hs.
    destruct rest as [|y rest]; [done|]. destruct (c y.1) eqn:Ec; [|done]. injection Hs as <-.
    cbn [po_prev po_rest po_caps] in IH. cbn [rep po_prev po_rest po_caps]. rewrite Ec. destruct IH as [x IH]. rewrite IH.
    destruct l; [|by eexists]. by case_match; eexists.
Qed.

Lemma run_complete {R} r : ∀ (k : pos → option R) p q, lang r p q → is_Some (k q) → is_Some (run r k p).
Proof.
  induction r as [|c|a IHa b IHb|a IHa|l c| | |a IHa]; intros k p q Hl Hk; cbn [run].
  - by inversion Hl; subst.
  - inversion Hl as [|? ? ? Hs| | | | | | | |]; subst. by rewrite Hs.
  - inversion Hl; subst. eauto.
  - inversion Hl; subst.
    + destruct (IHa k p q) as [x ->]; [done..|by eexists].
    + by destruct (run a k q); [eexists|].
  - by eapply rep_complete.
  - inversion Hl; subst. by match goal with Hb : at_bol _ = true |- _ => rewrite Hb end.
  - inversion Hl; subst. by match goal with Hb : at_wordb _ = true |- _ => rewrite Hb end.
  - inversion Hl; subst. eauto.
Qed.

(** ** Searching *)

(** The position after the first [n] runes of a text. *)
Definition at_rune (prev : option Z) (s : list sym) (n : nat) : pos :=
  {| po_prev := match list.last (take n s) with Some x => Some x.1 | None => prev end;
     po_rest := drop n s; po_caps := [] |}.

Lemma find_from_spec r s : ∀ prev,
  match find_from r prev s with
  | Some q => ∃ n, n ≤ length s ∧ match_at r (at_rune prev s n) = Some q ∧
                   ∀ m, m < n → match_at r (at_rune prev s m) = None
  | None => ∀ n, n ≤ length s → match_at r (at_rune prev s n) = None
  end.
Proof.
  induction s as [|x s IH]; intros prev; cbn [find_from].
  - destruct (match_at r _) as [q|] eqn:E.
    + exists 0. split; [lia|]. split; [exact E|lia].
    + intros n Hn. simpl in Hn. replace n with 0 by lia. exact E.
  - destruct (match_at r _) as [q|] eqn:E.
    + exists 0. split; [lia|]. split; [exact E|lia].
    + specialize (IH (Some x.1)).
      assert (∀ n, at_rune prev (x :: s) (S n) = at_rune (Some x.1) s n) as Hshift.
      { intros n. unfold at_rune. cbn [drop take]. f_equal. rewrite last_cons. by destruct (list.last (take n s)). }
      destruct (find_from r (Some x.1) s) as [q|].
      * destruct IH as (n & Hn & Hq & Hm). exists (S n). split; [simpl; lia|]. rewrite Hshift. split; [done|].
        intros [|m] Hlt; [exact E|]. rewrite Hshift. apply Hm. lia.
      * intros [|n] Hn; [exact E|]. rewrite Hshift. apply IH. simpl in Hn. lia.
Qed.

(** An occurrence of an expression in a text. *)
Definition occurs (r : re) (s : list sym) : Prop :=
  ∃ n q, n ≤ length s ∧ lang r (at_rune None s n) q.

Lemma match_at_lang r p : po_caps p = [] → (∃ q, match_at r p = Some q) ↔ ∃ q, lang r p q.
Proof.
  intros Hp. unfold match_at. replace {| po_prev := po_prev p; po_rest := po_rest p; po_caps := [] |} with p
    by (destruct p; simpl in *; by subst). split.
  - intros (q & (q' & Hl & _)%run_sound). eauto.
  - intros (q & Hl). destruct (run_complete r Some p q Hl) as [x Hx]; eauto.
Qed.

(** [MatchString] decides whether the expression occurs. *)
Lemma MatchString_occurs r s : MatchString r s = true ↔ occurs r s.
Proof.
  unfold MatchString, occurs. pose proof (find_from_spec r s None) as Hf. destruct (find_from r None s) as [q|].
  - destruct Hf as (n & Hn & Hq & _). split; [intros _|done].
    destruct (proj1 (match_at_lang r (at_rune None s n) eq_refl)) as [q' Hl]; eauto.
  - split; [done|]. intros (n & q & Hn & Hl).
    destruct (proj2 (match_at_lang r (at_rune None s n) eq_refl)) as [q' Hq]; [eauto|]. by rewrite Hf in Hq.
Qed.

(** ** Fuel *)

(** A match leaves less text than there was. *)
Definition consumes (r : re) : Prop := ∀ p q, lang r p q → length (po_rest q) < length (po_rest p).

Lemma find_from_shrinks r prev s q :
  consumes r → find_from r prev s = Some q → length (po_rest q) < length s.
Proof.
  intros Hr Hf. pose proof (find_from_spec r s prev) as Hs. rewrite Hf in Hs. destruct Hs as (n & Hn & Hq & _).
  unfold match_at in Hq. apply run_sound in Hq as (q' & Hl & [= ->]). apply Hr in Hl. simpl in Hl.
  rewrite length_drop in Hl. lia.
Qed.

(** A text has fewer matches than runes: more fuel finds no more of them. *)
Lemma find_all_enough r : consumes r → ∀ f prev s, length s ≤ f → find_all f r prev s = find_all (length s) r prev s.
Proof.
  intros Hr. assert (∀ f g prev s, length s ≤ f → length s ≤ g → find_all f r prev s = find_all g r prev s) as Hfg.
  { induction f as [|f IH]; intros g prev s Hf Hg.
    - destruct s; [|simpl in Hf; lia]. destruct g; [done|]. cbn [find_all]. destruct (find_from r prev []) as [q|] eqn:E; [|done].
      apply find_from_shrinks in E; [simpl in E; lia|done].
    - destruct g as [|g]; cbn [find_all]; destruct (find_from r prev s) as [q|] eqn:E; try done.
      + apply find_from_shrinks in E; [|done]. lia.
      + f_equal. apply find_from_shrinks in E; [|done]. apply IH; lia. }
  intros f prev s Hf. by apply Hfg.
Qed.

(** ** Running through a text *)

Lemma lang_shrinks r p q : lang r p q → length (po_rest q) ≤ length (po_rest p).
Proof.
  assert (∀ c p q, step c p = Some q → length (po_rest q) < length (po_rest p)) as Hstep.
  { clear. intros c p q. unfold step. destruct (po_rest p) as [|x rest]; [done|]. destruct (c x.1); [|done].
    intros [= <-]. simpl. lia. }
  induction 1; try done; try lia; (rewrite ?Hstep; eauto using Nat.lt_le_incl); simpl in *;
    match goal with Hs : step _ _ = Some _ |- _ => apply Hstep in Hs; lia end.
Qed.

(** The last rune of a text that begins after [prev]. *)
Definition prev_of (prev : option Z) (u : list sym) : option Z :=
  match list.last u with Some x => Some x.1 | None => prev end.

Lemma prev_of_cons prev x u : prev_of prev (x :: u) = prev_of (Some x.1) u.
Proof. unfold prev_of. rewrite last_cons. by destruct (list.last u). Qed.

(** A repetition takes all of its class if what follows cannot begin with it. *)
Lemma rep_det {R} l c (k : pos → option R) u y v caps : ∀ prev,
  Forall (fun x => c x.1 = true) u → c y.1 = false →
  (∀ prev z w, c z.1 = true → k {| po_prev := prev; po_rest := z :: w; po_caps := caps |} = None) →
  rep l c k prev (u ++ y :: v) caps = k {| po_prev := prev_of prev u; po_rest := y :: v; po_caps := caps |}.
Proof.
  induction u as [|x u IH]; intros prev Hu Hy Hk; simpl.
  - rewrite Hy. unfold prev_of; simpl. destruct l; [by case_match|done].
  - inversion Hu as [|? ? Hx Hu']; subst. rewrite Hx, IH by done. rewrite prev_of_cons, Hk by done.
    by destruct l; [|case_match].
Qed.

(** A lazy repetition takes the least that lets the rest match. *)
Lemma rep_least {R} c (k : pos → option R) u v caps : ∀ prev,
  Forall (fun x => c x.1 = true) u →
  (∀ u1 u2, u = u1 ++ u2 → u2 ≠ [] →
     k {| po_prev := prev_of prev u1; po_rest := u2 ++ v; po_caps := caps |} = None) →
  rep true c k prev (u ++ v) caps = rep true c k (prev_of prev u) v caps.
Proof.
  induction u as [|x u IH]; intros prev Hu Hk; [done|]. inversion Hu as [|? ? Hx Hu']; subst.
  pose proof (Hk [] (x :: u) eq_refl ltac:(done)) as Hstop. unfold prev_of in Hstop; simpl in Hstop.
  cbn [app rep]. rewrite Hstop, Hx, prev_of_cons. apply IH; [done|].
  intros u1 u2 -> Hne. rewrite <- (prev_of_cons prev). by apply Hk.
Qed.

Lemma between_app p q u : po_rest p = u ++ po_rest q → between p q = u.
Proof.
  intros Hp. unfold between. rewrite Hp, length_app. replace (_ + _ - _) with (length u) by lia. by rewrite take_app_length.
Qed.

(** What follows matters only by what it says. *)
Lemma rep_ext {R} l c (k k' : pos → option R) rest : ∀ prev caps,
  (∀ q, k q = k' q) → rep l c k prev rest caps = rep l c k' prev rest caps.
Proof.
  induction rest as [|x rest IH]; intros prev caps Hk; cbn [rep]; rewrite Hk; [done|]. by rewrite (IH (Some x.1) caps Hk).
Qed.

Lemma run_ext {R} r : ∀ (k k' : pos → option R) p, (∀ q, k q = k' q) → run r k p = run r k' p.
Proof.
  induction r as [|c|a IHa b IHb|a IHa|l c| | |a IHa]; intros k k' p Hk; cbn [run].
  - apply Hk.
  - by destruct (step c p).
  - apply IHa. intros q. by apply IHb.
  - rewrite (IHa k k' p Hk). by case_match.
  - by apply rep_ext.
  - by rewrite Hk.
  - by rewrite Hk.
  - apply IHa. intros q. apply Hk.
Qed.

Lemma run_cats {R} r l (k : pos → option R) p : l ≠ [] → run (cats (r :: l)) k p = run r (run (cats l) k) p.
Proof. by destruct l. Qed.

Lemma run_cats_app {R} a b (k : pos → option R) p : a ≠ [] → b ≠ [] → run (cats (a ++ b)) k p = run (cats a) (run (cats b) k) p.
Proof.
  intros Ha Hb. revert p. induction a as [|r a IH]; intros p; [done|]. destruct a as [|r' a]; [by destruct b|].
  change (cats ((r :: r' :: a) ++ b)) with (Cat r (cats ((r' :: a) ++ b))).
  change (cats (r :: r' :: a)) with (Cat r (cats (r' :: a))). cbn [run]. apply run_ext. intros q. by apply IH.
Qed.

Lemma lang_cats_app a b p q : a ≠ [] → b ≠ [] → lang (cats (a ++ b)) p q → ∃ m, lang (cats a) p m.
Proof.
  intros Ha Hb. revert p. induction a as [|r a IH]; intros p; [done|]. destruct a as [|r' a].
  - destruct b as [|x b]; [done|]. simpl. inversion 1; subst. eauto.
  - change (cats ((r :: r' :: a) ++ b)) with (Cat r (cats ((r' :: a) ++ b))). inversion 1 as [| |? ? ? m ? Hr Hm| | | | | | |]; subst.
    apply IH in Hm as [m' Hm]; [|done]. exists m'. change (cats (r :: r' :: a)) with (Cat r (cats (r' :: a))). eauto.
Qed.

(** ** Counting captures *)

Fixpoint ncaps (r : re) : nat :=
  match r with
  | Cat a b => ncaps a + ncaps b
  | Cap a => S (ncaps a)
  | _ => 0
  end.

(** No capture is optional. *)
Fixpoint fixed_caps (r : re) : bool :=
  match r with
  | Cat a b => fixed_caps a && fixed_caps b
  | Opt a => (ncaps a =? 0)%nat && fixed_caps a
  | Cap a => fixed_caps a
  | _ => true
  end.

Lemma lang_ncaps r p q : lang r p q → fixed_caps r = true → length (po_caps q) = length (po_caps p) + ncaps r.
Proof.
  assert (∀ c p q, step c p = Some q → po_caps q = po_caps p) as Hstep.
  { clear. intros c p q. unfold step. destruct (po_rest p) as [|x rest]; [done|]. destruct (c x.1); [|done]. by intros [= <-]. }
  induction 1 as [|c p q Hs|a b p q s _ IHa _ IHb|a p q _ IH| | |l c p q s Hs _ IH| | |a p q _ IH]; simpl; rewrite ?andb_true_iff, ?Nat.eqb_eq; intros Hf; try lia.
  - rewrite (Hstep _ _ _ Hs). lia.
  - destruct Hf. rewrite IHb, IHa by done. lia.
  - destruct Hf. rewrite IH by done. lia.
  - rewrite IH by done. by rewrite (Hstep _ _ _ Hs).
  - rewrite length_app, IH by done. simpl. lia.
Qed.

(** ** The texts of an expression *)

(** The texts an expression takes, wherever it is tried. *)
Fixpoint denotes (r : re) (m : list sym) : Prop :=
  match r with
  | Emp | Bol | WordB => m = []
  | Cls c => ∃ x, m = [x] ∧ c x.1 = true
  | Cat a b => ∃ m1 m2, m = m1 ++ m2 ∧ denotes a m1 ∧ denotes b m2
  | Opt a => m = [] ∨ denotes a m
  | Rep _ c => Forall (fun x => c x.1 = true) m
  | Cap a => denotes a m
  end.

Lemma step_text c p q :
  step c p = Some q → ∃ x, po_rest p = x :: po_rest q ∧ c x.1 = true ∧ po_prev q = Some x.1 ∧ po_caps q = po_caps p.
Proof.
  unfold step. destruct (po_rest p) as [|x rest]; [done|]. destruct (c x.1) eqn:E; [|done]. intros [= <-]. by exists x.
Qed.

Lemma lang_denotes r p q : lang r p q → ∃ m, po_rest p = m ++ po_rest q ∧ denotes r m.
Proof.
  induction 1 as [p|c p q Hs|a b p q s _ (m1 & H1 & D1) _ (m2 & H2 & D2)|a p q _ (m & H1 & D1)|a p|l c p|l c p q s Hs _ (m & H1 & D1)
    |p Hb|p Hw|a p q _ (m & H1 & D1)]; try (by exists []).
  - apply step_text in Hs as (x & Hx & Hc & _). exists [x]. split; [done|]. by exists x.
  - exists (m1 ++ m2). rewrite H1, H2, app_assoc. split; [done|]. by exists m1, m2.
  - exists m. split; [done|]. by right.
  - exists []. split; [done|]. by left.
  - exists []. split; [done|]. constructor.
  - apply step_text in Hs as (x & Hx & Hc & _). exists (x :: m). rewrite Hx, H1. split; [done|]. by constructor.
  - by exists m.
Qed.

(** Without tests and captures the other direction holds too. *)
Fixpoint plain_re (r : re) : bool :=
  match r with
  | Cat a b => plain_re a && plain_re b
  | Opt a => plain_re a
  | Bol | WordB | Cap _ => false
  | _ => true
  end.

Lemma prev_of_app prev a b : prev_of prev (a ++ b) = prev_of (prev_of prev a) b.
Proof. revert prev. induction a as [|x a IH]; intros prev; [done|]. cbn [app]. by rewrite !prev_of_cons, IH. Qed.

Lemma denotes_lang r : plain_re r = true → ∀ m prev rest caps, denotes r m →
  lang r {| po_prev := prev; po_rest := m ++ rest; po_caps := caps |}
         {| po_prev := prev_of prev m; po_rest := rest; po_caps := caps |}.
Proof.
  induction r as [|c|a IHa b IHb|a IHa|l c| | |a IHa]; simpl; intros Hp m prev rest caps Hm; try done.
  - subst. constructor.
  - destruct Hm as (x & -> & Hx). constructor. unfold step. cbn [po_rest app]. by rewrite Hx.
  - apply andb_true_iff in Hp as [Ha Hb]. destruct Hm as (m1 & m2 & -> & H1 & H2). rewrite <- app_assoc, prev_of_app.
    eapply lang_cat; [by apply IHa|by apply IHb].
  - destruct Hm as [->|Hm]; [apply lang_skip|]. apply lang_opt. by apply IHa.
  - revert prev. induction Hm as [|x m Hx Hm IH]; intros prev; [apply lang_stop|]. cbn [app]. rewrite prev_of_cons.
    eapply lang_more; [|apply IH]. unfold step. cbn [po_rest]. by rewrite Hx.
Qed.

Lemma denotes_cats_app a b m :
  denotes (cats (a ++ b)) m → ∃ m1 m2, m = m1 ++ m2 ∧ denotes (cats a) m1 ∧ denotes (cats b) m2.
Proof.
  revert m. induction a as [|r a IH]; intros m Hm; [by exists [], m|]. destruct a as [|r' a].
  - destruct b as [|x b]; [exists m, []; by rewrite app_nil_r|]. destruct Hm as (m1 & m2 & -> & H1 & H2). by exists m1, m2.
  - destruct Hm as (m1 & m2 & -> & H1 & (m3 & m4 & -> & H3 & H4)%IH). exists (m1 ++ m3), m4. rewrite app_assoc.
    split; [done|]. split; [|done]. by exists m1, m3.
Qed.
