(* ===== verification/GoErrors.v ===== *)
(** * Go error values

    The sentinel errors, typed errors and wrapped errors of the gateway as one
    inductive type, with [errors.Is], [errors.As] and [Error()]. *)

From S2P Require Import Prelude GoStrings.

(** [*pgconn.PgError]: an error response of the Postgres server. *)
Record PgError : Type := {
  pg_Severity : bytes;
  pg_Code : bytes;
  pg_Message : bytes;
}.

Inductive error : Type :=
| ErrInvalidKey
| ErrKeyNotFound
| ErrIdempotencyConflict
| ErrUnknownProcedure
| ErrRoleNotPermitted
| ErrResponseTooLarge
| ErrNoRows
| ValidationError (Code Message : bytes)
| PgErr (pg : PgError)
| SqlError (pg : PgError)
| GatewayError (Title Detail : bytes) (Status : Z) (SQLState : bytes)
| ErrFmt (text : list fmt_arg)
| ErrWrap (pre : list fmt_arg) (e : error) (post : list fmt_arg).

#[export] Instance PgError_eq_dec : EqDecision PgError.
Proof. solve_decision. Defined.

#[export] Instance error_eq_dec : EqDecision error.
Proof. solve_decision. Defined.

(** [err.Error()] *)
Fixpoint ErrorText `{UnicodeTables} (e : error) : bytes :=
  match e with
  | ErrInvalidKey => bs "invalid api key"
  | ErrKeyNotFound => bs "api key not found"
  | ErrIdempotencyConflict => bs "idempotency_key reused with different request body"
  | ErrUnknownProcedure => bs "unknown procedure"
  | ErrRoleNotPermitted => bs "calling key cannot run this RPC"
  | ErrResponseTooLarge => bs "response exceeds maximum allowed size"
  | ErrNoRows => bs "no rows in result set"
  | ValidationError code msg => code ++ bs ": " ++ msg
  | PgErr pg => pg_Severity pg ++ bs ": " ++ pg_Message pg ++ bs " (SQLSTATE " ++ pg_Code pg ++ bs ")"
  | SqlError pg => pg_Code pg ++ bs ": " ++ pg_Message pg
  | GatewayError title detail _ _ => if str_eqb detail [] then title else title ++ bs ": " ++ detail
  | ErrFmt text => Sprintf text
  | ErrWrap pre e post => Sprintf pre ++ ErrorText e ++ Sprintf post
  end.

(** [errors.Unwrap] along the chain of causes. *)
Definition Unwrap (e : error) : option error :=
  match e with
  | SqlError pg => Some (PgErr pg)
  | ErrWrap _ e _ => Some e
  | _ => None
  end.

(** [errors.Is(err, target)] for a sentinel [target]. *)
Fixpoint error_Is (e target : error) : bool :=
  bool_decide (e = target) ||
  match e with
  | SqlError pg => bool_decide (PgErr pg = target)
  | ErrWrap _ e' _ => error_Is e' target
  | _ => false
  end.

(** [errors.As] for the three typed errors of the source. *)
Fixpoint As_ValidationError (e : error) : option (bytes * bytes) :=
  match e with
  | ValidationError code msg => Some (code, msg)
  | ErrWrap _ e' _ => As_ValidationError e'
  | _ => None
  end.

Fixpoint As_SqlError (e : error) : option PgError :=
  match e with
  | SqlError pg => Some pg
  | ErrWrap _ e' _ => As_SqlError e'
  | _ => None
  end.

Fixpoint As_PgError (e : error) : option PgError :=
  match e with
  | PgErr pg => Some pg
  | SqlError pg => Some pg
  | ErrWrap _ e' _ => As_PgError e'
  | _ => None
  end.

(** [errors.New(msg)] *)
Definition errors_New (msg : bytes) : error := ErrFmt [FLit msg].

(** [fmt.Errorf("<pre>%w", err)] *)
Definition wrapf (pre : bytes) (e : error) : error := ErrWrap [FLit pre] e [].
