(* ===== verification/Observability.v ===== *)
(** * internal/observability and internal/version: metrics and logging

    The instruments of metrics.go with the series they hold, the logger logging.go
    builds for a level and a format, and the build's identifiers. The prometheus
    client is an interface ([Prometheus]): a registry that refuses a name it has,
    and vectors that refuse label values of the wrong number or that are not valid
    UTF-8; both refusals are panics of the calls the source makes. *)

From S2P Require Import Prelude GoStrings GoErrors.
From stdpp Require Import gmap.

(** ** package unicode/utf8 and strings *)

(** [utf8.ValidString]; every round consumes a byte. *)
Fixpoint valid_fuel (fuel : nat) (s : bytes) : bool :=
  match fuel, s with
  | S f, _ :: _ =>
      let '(r, w) := DecodeRune s in
      negb ((w =? 1)%nat && (r =? RuneError)%Z) && valid_fuel f (drop w s)
  | _, _ => true
  end.

Definition ValidString (s : bytes) : bool := valid_fuel (length s) s.

(** [utf8.AppendRune] *)
Definition EncodeRune (r : Z) : bytes :=
  let r := if in_range 0xD800 0xDFFF r || (r <? 0)%Z || (0x10FFFF <? r)%Z then RuneError else r in
  let cont s := zb (Z.lor 0x80 (Z.land (Z.shiftr r s) 0x3F)) in
  if (r <? 0x80)%Z then [zb r]
  else if (r <? 0x800)%Z then [zb (Z.lor 0xC0 (Z.shiftr r 6)); cont 0%Z]
  else if (r <? 0x10000)%Z then [zb (Z.lor 0xE0 (Z.shiftr r 12)); cont 6%Z; cont 0%Z]
  else [zb (Z.lor 0xF0 (Z.shiftr r 18)); cont 12%Z; cont 6%Z; cont 0%Z].

(** package unicode's tables above ASCII *)
Class UnicodeCase : Type := { to_lower_high : Z → Z }.

Definition unicode_ToLower `{UnicodeCase} (r : Z) : Z :=
  if in_range 0x41 0x5A r then (r + 32)%Z else if (r <? 0x80)%Z then r else to_lower_high r.

(** [strings.ToLower] *)
Definition ToLower `{UnicodeCase} (s : bytes) : bytes := concat (EncodeRune ∘ unicode_ToLower <$> runes s).

(** ** internal/version *)

Record Info : Type := { vi_Version : bytes; vi_Commit : bytes; vi_BuildDate : bytes }.

(** The variables of the package as the linker leaves them. *)
Definition unset_build : Info := {| vi_Version := bs "0.0.0-dev"; vi_Commit := bs "unknown"; vi_BuildDate := bs "unknown" |}.

Definition Get (build : Info) : Info :=
  {| vi_Version := vi_Version build; vi_Commit := vi_Commit build; vi_BuildDate := vi_BuildDate build |}.

(** ** github.com/prometheus/client_golang *)

Record Desc : Type := { d_name : bytes; d_help : bytes; d_labels : list bytes }.

Class Prometheus : Type := {
  registry : Type;
  NewRegistry : registry;
  reg_names : registry → list bytes;
  MustRegister : registry → list Desc → option registry;    (** [None]: it panics *)
  go_collector : list Desc;
  process_collector : list Desc;
  label_values_ok : list bytes → list bytes → bool;         (** [false]: WithLabelValues panics *)
}.

Definition letter (b : byte) : bool :=
  in_range 65 90 (bz b) || in_range 97 122 (bz b) || (bz b =? 95)%Z.

Definition plain_name (s : bytes) : bool :=
  match s with
  | [] => false
  | b :: s => letter b && forallb (fun b => letter b || in_range 48 57 (bz b)) s
  end.

Definition valid_desc (d : Desc) : Prop :=
  plain_name (d_name d) = true ∧ Forall (fun l => plain_name l = true ∧ HasPrefix l (bs "__") = false) (d_labels d) ∧
  NoDup (d_labels d).

#[export] Instance valid_desc_dec d : Decision (valid_desc d).
Proof. unfold valid_desc. apply _. Defined.

(** What the client documents of registries, of its own collectors and of the
    label values of a vector. *)
Class PrometheusLaws `{Prometheus} : Prop := {
  new_names : reg_names NewRegistry = [];
  register_ok r ds :
    Forall valid_desc ds → NoDup (d_name <$> ds) → Forall (fun d => d_name d ∉ reg_names r) ds →
    ∃ r', MustRegister r ds = Some r' ∧ reg_names r' = reg_names r ++ (d_name <$> ds);
  register_dup r ds d : d ∈ ds → d_name d ∈ reg_names r → MustRegister r ds = None;
  go_valid : Forall valid_desc go_collector ∧ NoDup (d_name <$> go_collector) ∧
             Forall (fun d => HasPrefix (d_name d) (bs "go_") = true) go_collector;
  process_valid : Forall valid_desc process_collector ∧ NoDup (d_name <$> process_collector) ∧
                  Forall (fun d => HasPrefix (d_name d) (bs "process_") = true) process_collector;
  values_ok names vals :
    label_values_ok names vals = true ↔ length vals = length names ∧ Forall (fun v => ValidString v = true) vals;
}.

(** ** metrics.go *)

(** An instrument and its series; a plain counter or gauge has no labels. Of a
    histogram the number of observations is kept. *)
Record Vec : Type := { v_desc : Desc; v_series : gmap (list bytes) Z }.

Definition new_vec (name help : bytes) (labels : list bytes) : Vec :=
  {| v_desc := {| d_name := name; d_help := help; d_labels := labels |}; v_series := ∅ |}.

Section Metrics.
Context `{Prometheus}.

(** [WithLabelValues(lvs...).Inc()], [.Observe(...)] and [.Set(x)] *)
Definition vec_Inc (v : Vec) (lvs : list bytes) : option Vec :=
  if label_values_ok (d_labels (v_desc v)) lvs
  then Some {| v_desc := v_desc v; v_series := partial_alter (fun x => Some (default 0 x + 1)%Z) lvs (v_series v) |}
  else None.

Definition vec_Set (v : Vec) (lvs : list bytes) (x : Z) : option Vec :=
  if label_values_ok (d_labels (v_desc v)) lvs
  then Some {| v_desc := v_desc v; v_series := <[lvs := x]> (v_series v) |}
  else None.

Record Metrics : Type := {
  Registry : registry;
  RequestDuration : Vec;
  RequestsTotal : Vec;
  SQLStatements : Vec;
  RPCInvocations : Vec;
  IdempotencyHits : Vec;
  IdempotencyMisses : Vec;
  AuthCacheSize : Desc * (unit → Z);
  QueueDepth : Vec;
  BuildInfo : Vec;
}.

Definition route_labels : list bytes := [bs "route"; bs "method"; bs "status"].

(** The instruments; the registry is filled afterwards. *)
Definition instruments (r : registry) (authCacheLen : option (unit → Z)) : Metrics := {|
  Registry := r;
  RequestDuration := new_vec (bs "agentcoopdb_request_duration_seconds")
    (bs "HTTP request duration in seconds, by route/method/status.") route_labels;
  RequestsTotal := new_vec (bs "agentcoopdb_requests_total") (bs "Total HTTP requests, by route/method/status.") route_labels;
  SQLStatements := new_vec (bs "agentcoopdb_sql_statements_total")
    (bs "SQL statements forwarded by the executor, by command tag and SQLSTATE.") [bs "command"; bs "sqlstate"];
  RPCInvocations := new_vec (bs "agentcoopdb_rpc_invocations_total")
    (bs "RPC invocations, by name and status (ok|conflict|error).") [bs "name"; bs "status"];
  IdempotencyHits := new_vec (bs "agentcoopdb_idempotency_hits_total")
    (bs "Idempotency-Key replays served from the server-side cache.") [];
  IdempotencyMisses := new_vec (bs "agentcoopdb_idempotency_misses_total")
    (bs "Idempotency-Key requests that ran for the first time.") [];
  AuthCacheSize := ({| d_name := bs "agentcoopdb_auth_cache_size";
                       d_help := bs "Current entries in the in-memory API key verification cache."; d_labels := [] |},
                    fun u => match authCacheLen with None => 0%Z | Some len => len u end);
  QueueDepth := new_vec (bs "agentcoopdb_queue_depth")
    (bs "Number of pending writes in the SDK retry queue (relayed via the API).") [];
  BuildInfo := new_vec (bs "agentcoopdb_build_info") (bs "Build identifiers as labels; the value is always 1.")
    [bs "version"; bs "commit"; bs "build_date"];
|}.

(** The collectors of the last [MustRegister], in its order. *)
Definition descs (m : Metrics) : list Desc :=
  [v_desc (RequestDuration m); v_desc (RequestsTotal m); v_desc (SQLStatements m); v_desc (RPCInvocations m);
   v_desc (IdempotencyHits m); v_desc (IdempotencyMisses m); (AuthCacheSize m).1; v_desc (QueueDepth m);
   v_desc (BuildInfo m)].

Definition with_registry (m : Metrics) (r : registry) (build : Vec) : Metrics :=
  {| Registry := r; RequestDuration := RequestDuration m; RequestsTotal := RequestsTotal m;
     SQLStatements := SQLStatements m; RPCInvocations := RPCInvocations m; IdempotencyHits := IdempotencyHits m;
     IdempotencyMisses := IdempotencyMisses m; AuthCacheSize := AuthCacheSize m; QueueDepth := QueueDepth m;
     BuildInfo := build |}.

(** [None] where a call panics. *)
Definition NewMetrics (build : Info) (authCacheLen : option (unit → Z)) : option Metrics :=
  r ← MustRegister NewRegistry go_collector;
  r ← MustRegister r process_collector;
  let m := instruments r authCacheLen in
  r ← MustRegister r (descs m);
  let v := Get build in
  b ← vec_Set (BuildInfo m) [vi_Version v; vi_Commit v; vi_BuildDate v] 1;
  Some (with_registry m r b).
End Metrics.

(** ** logging.go *)

Definition LevelDebug : Z := -4.
Definition LevelInfo : Z := 0.
Definition LevelWarn : Z := 4.
Definition LevelError : Z := 8.

Inductive log_format : Type := TextHandler | JSONHandler.

(** A [*slog.Logger]: what its handler does with a record. *)
Record Logger : Type := { lg_level : Z; lg_format : log_format; lg_attrs : list (bytes * bytes) }.

Definition newLogger `{UnicodeCase} (level format : bytes) : Logger :=
  let l := ToLower level in
  let lvl := if str_eqb l (bs "debug") then LevelDebug
             else if str_eqb l (bs "warn") || str_eqb l (bs "warning") then LevelWarn
             else if str_eqb l (bs "error") then LevelError
             else LevelInfo in
  let h := if str_eqb (ToLower format) (bs "text") then TextHandler else JSONHandler in
  {| lg_level := lvl; lg_format := h; lg_attrs := [(bs "service", bs "agentcoopdb")] |}.

(** The handler's [Enabled] *)
Definition Enabled (l : Logger) (level : Z) : bool := (lg_level l <=? level)%Z.

(** ** Valid label values *)

Definition ascii (b : byte) : bool := (bz b <? 0x80)%Z.

Lemma ValidString_ascii s : forallb ascii s = true → ValidString s = true.
Proof.
  unfold ValidString. induction s as [|b s IH]; [done|]. cbn [forallb length valid_fuel]. unfold ascii at 1.
  intros [Hb Hs]%andb_true_iff. apply Z.ltb_lt in Hb. rewrite DecodeRune_ascii by done. simpl. rewrite drop_0, IH by done.
  rewrite andb_true_r. apply negb_true_iff, Z.eqb_neq. unfold RuneError. lia.
Qed.

Lemma Itoa_ascii z : forallb ascii (Itoa z) = true.
Proof.
  assert (∀ z, (0 ≤ z)%Z → forallb ascii (Itoa z) = true) as Hpos.
  { intros y Hy. destruct (Itoa_nonneg y Hy) as (_ & Hd & _). revert Hd. induction (Itoa y) as [|b l IH]; [done|].
    cbn [forallb]. intros [Hb Hl]%andb_true_iff. rewrite IH by done. rewrite andb_true_r.
    unfold is_digit, in_range in Hb. unfold ascii. apply Z.ltb_lt. go_bool. lia. }
  destruct (Z.ltb_spec z 0); [|by apply Hpos]. rewrite Itoa_neg by done. cbn [forallb]. by rewrite Hpos by lia.
Qed.

(** ** The instruments are registered once *)

Section MetricsFacts.
Context `{PrometheusLaws}.

(** Names with different prefixes differ. *)
Lemma prefix_ne p q s t :
  HasPrefix s p = true → HasPrefix t q = true → HasPrefix q p = false → HasPrefix p q = false → s ≠ t.
Proof.
  intros Hs Ht H1 H2 <-. apply HasPrefix_spec in Hs as [a ->]. apply HasPrefix_spec in Ht as [b Hb].
  revert q Hb H1 H2. induction p as [|c p IH]; intros [|d q] Hb H1 H2; try done.
  simpl in Hb. injection Hb as <- Hb. cbn [HasPrefix] in H1, H2. rewrite byte_eqb_refl in H1, H2. simpl in H1, H2.
  by eapply (IH q).
Qed.

Lemma names_apart p q (ds ds' : list Desc) :
  Forall (fun d => HasPrefix (d_name d) p = true) ds → Forall (fun d => HasPrefix (d_name d) q = true) ds' →
  HasPrefix q p = false → HasPrefix p q = false → Forall (fun d => d_name d ∉ d_name <$> ds) ds'.
Proof.
  intros Hp Hq H1 H2. rewrite Forall_forall in Hp, Hq |- *. intros d' Hd' (d & E & Hd)%list_elem_of_fmap.
  by eapply (prefix_ne p q (d_name d) (d_name d')); eauto.
Qed.

Lemma descs_valid r len : Forall valid_desc (descs (instruments r len)).
Proof. unfold descs. apply (bool_decide_unpack _). by vm_compute. Qed.

Lemma descs_names r len : NoDup (d_name <$> descs (instruments r len)).
Proof. unfold descs. simpl. apply (bool_decide_unpack _). by vm_compute. Qed.

Lemma descs_prefix r len : Forall (fun d => HasPrefix (d_name d) (bs "agentcoopdb_") = true) (descs (instruments r len)).
Proof. unfold descs. repeat constructor. Qed.

(** The server's metrics come up. [NewMetrics] registers the collectors of the
    Go runtime and of the process and nine instruments of its own without a panic,
    whatever the length function, for build identifiers that are valid UTF-8; every
    instrument has a name of its own and starts empty, but for build_info, which
    holds the one series of this build with the value 1. *)
Theorem NewMetrics_total build len :
  ValidString (vi_Version build) = true → ValidString (vi_Commit build) = true → ValidString (vi_BuildDate build) = true →
  ∃ m, NewMetrics build len = Some m ∧
    reg_names (Registry m) = (d_name <$> go_collector) ++ (d_name <$> process_collector) ++ (d_name <$> descs m) ∧
    NoDup (d_name <$> descs m) ∧
    Forall (fun v => v_series v = ∅)
      [RequestDuration m; RequestsTotal m; SQLStatements m; RPCInvocations m; IdempotencyHits m; IdempotencyMisses m;
       QueueDepth m] ∧
    v_series (BuildInfo m) = {[ [vi_Version build; vi_Commit build; vi_BuildDate build] := 1%Z ]} ∧
    (AuthCacheSize m).2 () = match len with Some f => f () | None => 0%Z end.
Proof.
  intros Hv Hc Hb. destruct go_valid as (Gv & Gn & Gp), process_valid as (Pv & Pn & Pp). unfold NewMetrics.
  destruct (register_ok NewRegistry go_collector Gv Gn) as (r1 & -> & N1).
  { apply Forall_true. intros d. rewrite new_names. apply not_elem_of_nil. }
  rewrite new_names in N1. simpl in N1. cbn [mbind option_bind].
  destruct (register_ok r1 process_collector Pv Pn) as (r2 & -> & N2).
  { rewrite N1. by eapply (names_apart (bs "go_") (bs "process_")). }
  cbn [mbind option_bind].
  destruct (register_ok r2 (descs (instruments r2 len)) (descs_valid _ _) (descs_names _ _)) as (r3 & -> & N3).
  { rewrite N2, N1. pose proof (descs_prefix r2 len) as Dp.
    pose proof (names_apart (bs "go_") _ _ _ Gp Dp eq_refl eq_refl) as A1.
    pose proof (names_apart (bs "process_") _ _ _ Pp Dp eq_refl eq_refl) as A2.
    rewrite Forall_forall in A1, A2 |- *. intros d Hd. rewrite not_elem_of_app. auto. }
  cbn [mbind option_bind]. unfold vec_Set.
  assert (label_values_ok (d_labels (v_desc (BuildInfo (instruments r2 len))))
            [vi_Version (Get build); vi_Commit (Get build); vi_BuildDate (Get build)] = true) as ->.
  { apply values_ok. split; [done|]. by repeat constructor. }
  eexists. split; [reflexivity|]. split; [simpl Registry; by rewrite N3, N2, N1, <- (assoc_L (++))|].
  split; [apply descs_names|]. split; [by repeat constructor|]. split; [done|]. by destruct len.
Qed.

(** Incrementing adds one to the series of the labels and leaves the others. *)
Lemma vec_Inc_ok v lvs :
  length lvs = length (d_labels (v_desc v)) → Forall (fun l => ValidString l = true) lvs →
  ∃ v', vec_Inc v lvs = Some v' ∧ v_desc v' = v_desc v ∧ ∀ l,
    v_series v' !! l = (if decide (l = lvs) then Some (default 0 (v_series v !! lvs) + 1)%Z else v_series v !! l).
Proof.
  intros Hl Hv. unfold vec_Inc. rewrite (proj2 (values_ok _ _)) by done. eexists. split; [done|]. split; [done|].
  intros l. simpl. case_decide as E; [subst; by rewrite lookup_partial_alter_eq|by rewrite lookup_partial_alter_ne].
Qed.

Lemma vec_Inc_invalid v lvs l : l ∈ lvs → ValidString l = false → vec_Inc v lvs = None.
Proof.
  intros Hl Hf. unfold vec_Inc. destruct (label_values_ok _ _) eqn:E; [|done].
  apply values_ok in E as [_ E]. rewrite Forall_forall in E. specialize (E l Hl). congruence.
Qed.
End MetricsFacts.

(** ** A client *)

Module PromDemo.
(** A registry of names. *)
Definition register (r : list bytes) (ds : list Desc) : option (list bytes) :=
  if bool_decide (Forall (fun d => d_name d ∉ r) ds) then Some (r ++ (d_name <$> ds)) else None.

Definition desc (name : bytes) : Desc := {| d_name := name; d_help := []; d_labels := [] |}.

#[export] Instance client : Prometheus := {|
  registry := list bytes;
  NewRegistry := [];
  reg_names r := r;
  MustRegister := register;
  go_collector := [desc (bs "go_goroutines"); desc (bs "go_threads")];
  process_collector := [desc (bs "process_open_fds")];
  label_values_ok names vals := bool_decide (length vals = length names) && forallb ValidString vals;
|}.

#[export] Instance client_laws : PrometheusLaws.
Proof.
  split.
  - done.
  - intros r ds _ _ Hn. simpl. unfold register. rewrite bool_decide_true by done. by eexists.
  - intros r ds d Hd Hr. simpl. unfold register. rewrite bool_decide_false; [done|].
    rewrite Forall_forall. intros Hf. by apply (Hf d Hd).
  - split; [apply (bool_decide_unpack _); by vm_compute|].
    split; [apply (bool_decide_unpack _); by vm_compute|by repeat constructor].
  - split; [apply (bool_decide_unpack _); by vm_compute|].
    split; [apply (bool_decide_unpack _); by vm_compute|by repeat constructor].
  - intros names vals. simpl. rewrite andb_true_iff, bool_decide_eq_true, forallb_forall.
    rewrite Forall_forall. setoid_rewrite list_elem_of_In. done.
Qed.
End PromDemo.

#[local] Existing Instance PromDemo.client.
#[local] Existing Instance PromDemo.client_laws.

Lemma NewMetrics_total_witness :
  ∃ m, NewMetrics unset_build (Some (fun _ => 3%Z)) = Some m ∧ (AuthCacheSize m).2 () = 3%Z.
Proof.
  destruct (NewMetrics_total unset_build (Some (fun _ => 3%Z))) as (m & Hm & _ & _ & _ & _ & Hc);
    [reflexivity..|]. exists m. split; [exact Hm|exact Hc].
Defined.

(** Levels and formats are not case-sensitive; an unknown level is info and an
    unknown format is JSON. *)
Example logger_of `{UnicodeCase} :
  let level s := lg_level (newLogger s []) in
  level (bs "DEBUG") = LevelDebug ∧ level (bs "Warning") = LevelWarn ∧ level (bs "eRRor") = LevelError ∧ level (bs "trace") = LevelInfo ∧
  lg_format (newLogger [] (bs "Text")) = TextHandler ∧ lg_format (newLogger [] (bs "xml")) = JSONHandler.
Proof. by vm_compute. Qed.
