(* ===== verification/GoTime.v ===== *)
(** * Go durations and the small parsers of strconv

    [time.ParseDuration], [strconv.ParseBool] and the error values of strconv,
    as the configuration uses them. A [time.Duration] is an int64 of nanoseconds.
    The arithmetic of a fractional part, done in float64, and [Duration.String]
    are parameters. *)

From S2P Require Import Prelude GoStrings GoErrors.

Class GoTime : Type := {
  (** [uint64(float64(f) * (float64(unit) / scale))] for [scale = 10^digits] *)
  frac_ns : Z → Z → nat → Z;
  Duration_String : Z → bytes;
}.

(** ** strconv *)

Definition ParseBool (s : bytes) : option bool :=
  if existsb (str_eqb s) [bs "1"; bs "t"; bs "T"; bs "true"; bs "TRUE"; bs "True"] then Some true
  else if existsb (str_eqb s) [bs "0"; bs "f"; bs "F"; bs "false"; bs "FALSE"; bs "False"] then Some false
  else None.

(** A number of the right form, whatever its size. *)
Definition number_syntax (s : bytes) : bool :=
  let body := match s with
              | c :: s' => if byte_eqb c "-" || byte_eqb c "+" then s' else s
              | [] => s
              end in
  negb (str_eqb body []) && forallb is_digit body.

(** [*strconv.NumError] *)
Definition NumError (fn num : bytes) : error :=
  ErrFmt [FLit (bs "strconv." ++ fn ++ bs ": parsing "); FQuote num;
          FLit (if number_syntax num then bs ": value out of range" else bs ": invalid syntax")].

(** ** time.ParseDuration *)

Definition two63 : Z := 2 ^ 63.

(** [leadingInt(s)]; [None] is overflow. *)
Fixpoint leadingInt (x : Z) (s : bytes) : option (Z * bytes) :=
  match s with
  | c :: s' =>
      if is_digit c then
        if (two63 / 10 <? x)%Z then None else
        let x := (x * 10 + digit_val c)%Z in
        if (two63 <? x)%Z then None else leadingInt x s'
      else Some (x, s)
  | [] => Some (x, s)
  end.

(** [leadingFraction(s)]: the digits that fit, how many they are, and the rest. *)
Fixpoint leadingFraction (x : Z) (digits : nat) (overflow : bool) (s : bytes) : Z * nat * bytes :=
  match s with
  | c :: s' =>
      if is_digit c then
        if overflow then leadingFraction x digits true s'
        else if ((two63 - 1) / 10 <? x)%Z then leadingFraction x digits true s'
        else
          let y := (x * 10 + digit_val c)%Z in
          if (two63 <? y)%Z then leadingFraction x digits true s'
          else leadingFraction y (S digits) false s'
      else (x, digits, s)
  | [] => (x, digits, s)
  end.

(** The unit: everything up to a digit or a period. *)
Fixpoint leadingUnit (s : bytes) : bytes * bytes :=
  match s with
  | c :: s' => if byte_eqb c "." || is_digit c then ([], s)
               else let '(u, r) := leadingUnit s' in (c :: u, r)
  | [] => ([], [])
  end.

Definition unitMap (u : bytes) : option Z :=
  if str_eqb u (bs "ns") then Some 1%Z
  else if str_eqb u (bs "us") || str_eqb u (xc2 :: xb5 :: bs "s") || str_eqb u (xce :: xbc :: bs "s")
  then Some 1000%Z
  else if str_eqb u (bs "ms") then Some 1000000%Z
  else if str_eqb u (bs "s") then Some 1000000000%Z
  else if str_eqb u (bs "m") then Some (60 * 1000000000)%Z
  else if str_eqb u (bs "h") then Some (3600 * 1000000000)%Z
  else None.

(** time's own [quote]: everything but printable ASCII in hexadecimal. *)
Definition time_quote (s : bytes) : bytes :=
  x22 :: flat_map (fun b => if (128 <=? bz b)%Z || (bz b <? 32)%Z then bs "\x" ++ hex_fixed 2 (bz b)
                            else if byte_eqb b x22 || byte_eqb b x5c then [x5c; b] else [b]) s ++ [x22].

Section Parse.
Context `{GoTime}.

Definition invalid_duration (orig : bytes) : error := errors_New (bs "time: invalid duration " ++ time_quote orig).

(** One number with its unit: nanoseconds and the rest. *)
Definition duration_term (orig s : bytes) : res error (Z * bytes) :=
  match s with
  | [] => Err (invalid_duration orig)
  | c :: _ =>
      if negb (byte_eqb c "." || is_digit c) then Err (invalid_duration orig) else
      match leadingInt 0 s with
      | None => Err (invalid_duration orig)
      | Some (v, s1) =>
          let pre := negb (length s =? length s1)%nat in
          let '(f, digits, s2, post) :=
            match s1 with
            | c1 :: t => if byte_eqb c1 "." then
                           let '(f, digits, r) := leadingFraction 0 0 false t in
                           (f, digits, r, negb (length t =? length r)%nat)
                         else (0%Z, 0%nat, s1, false)
            | [] => (0%Z, 0%nat, s1, false)
            end in
          if negb pre && negb post then Err (invalid_duration orig) else
          let '(u, rest) := leadingUnit s2 in
          if str_eqb u [] then Err (errors_New (bs "time: missing unit in duration " ++ time_quote orig)) else
          match unitMap u with
          | None => Err (errors_New (bs "time: unknown unit " ++ time_quote u ++ bs " in duration " ++ time_quote orig))
          | Some unit =>
              if (two63 / unit <? v)%Z then Err (invalid_duration orig) else
              let v := (v * unit)%Z in
              if (0 <? f)%Z then
                let v := (v + frac_ns f unit digits)%Z in
                if (two63 <? v)%Z then Err (invalid_duration orig) else Ok (v, rest)
              else Ok (v, rest)
          end
      end
  end.

(** [for s != ""]: every term takes at least one byte. *)
Fixpoint duration_loop (fuel : nat) (orig s : bytes) (d : Z) : res error Z :=
  match s with
  | [] => Ok d
  | _ =>
      match fuel with
      | O => Err (invalid_duration orig)
      | S n =>
          let! (v, rest) := duration_term orig s in
          let d := ((d + v) mod 2 ^ 64)%Z in
          if (two63 <? d)%Z then Err (invalid_duration orig) else duration_loop n orig rest d
      end
  end.

Definition ParseDuration (orig : bytes) : res error Z :=
  let '(neg, s) := match orig with
                   | c :: t => if byte_eqb c "-" then (true, t) else if byte_eqb c "+" then (false, t) else (false, orig)
                   | [] => (false, [])
                   end in
  if str_eqb s (bs "0") then Ok 0%Z else
  if str_eqb s [] then Err (invalid_duration orig) else
  let! d := duration_loop (length s) orig s 0 in
  if neg then Ok (- d)%Z
  else if (two63 - 1 <? d)%Z then Err (invalid_duration orig) else Ok d.

(** ** Facts *)

Lemma leadingUnit_length s u r : leadingUnit s = (u, r) → u ≠ [] → length r < length s.
Proof.
  revert u r. induction s as [|c s IH]; intros u r; cbn [leadingUnit]; [by intros [= <- <-]|].
  destruct (byte_eqb c "." || is_digit c); [by intros [= <- <-]|].
  destruct (leadingUnit s) as [u' r'] eqn:E. intros [= <- <-] _. simpl.
  destruct u' as [|c' u']; [|by specialize (IH _ _ eq_refl ltac:(done)); lia].
  destruct s as [|c' s]; [injection E as <-; simpl; lia|]. cbn [leadingUnit] in E.
  destruct (byte_eqb c' "." || is_digit c'); [injection E as <-; simpl; lia|].
  by destruct (leadingUnit s).
Qed.

Lemma leadingInt_length x s v r : leadingInt x s = Some (v, r) → length r ≤ length s.
Proof.
  revert x. induction s as [|c s IH]; intros x; cbn [leadingInt]; [by intros [= <- <-]|].
  destruct (is_digit c); [|by intros [= <- <-]]. do 2 (case_match; [done|]). intros Hx%IH. simpl. lia.
Qed.

Lemma leadingFraction_length x n o s f k r : leadingFraction x n o s = (f, k, r) → length r ≤ length s.
Proof.
  revert x n o. induction s as [|c s IH]; intros x n o; cbn [leadingFraction]; [by intros [= <- <- <-]|].
  destruct (is_digit c); [|by intros [= <- <- <-]]. repeat case_match; intros Hx%IH; simpl; lia.
Qed.

(** A term takes at least its unit, so the fuel of the loop is enough. *)
Lemma duration_term_length orig s v rest : duration_term orig s = Ok (v, rest) → length rest < length s.
Proof.
  unfold duration_term. destruct s as [|c s]; [done|]. destruct (negb _); [done|].
  destruct (leadingInt 0 (c :: s)) as [[v0 s1]|] eqn:E1; [|done]. apply leadingInt_length in E1.
  destruct (match s1 with [] => _ | _ :: _ => _ end) as [[[f digits] s2] post] eqn:E2.
  assert (length s2 ≤ length s1) as Hs2.
  { destruct s1 as [|c1 t]; [by simplify_eq|]. destruct (byte_eqb c1 "."); [|by simplify_eq].
    destruct (leadingFraction 0 0 false t) as [[f' k'] r'] eqn:E3. apply leadingFraction_length in E3.
    simplify_eq. simpl. lia. }
  destruct (_ && _); [done|]. destruct (leadingUnit s2) as [u r] eqn:E3.
  destruct (str_eqb u []) eqn:Eu; [done|]. go_bool. apply leadingUnit_length in E3; [|done].
  destruct (unitMap u); [|done]. destruct (_ <? _)%Z; [done|].
  destruct (0 <? f)%Z; [destruct (_ <? _)%Z; [done|]|]; intros [= _ <-]; lia.
Qed.

Lemma duration_loop_enough f orig s d : length s ≤ f → duration_loop f orig s d = duration_loop (length s) orig s d.
Proof.
  revert s d. induction (lt_wf f) as [f _ IH]. intros [|c s] d Hf; [by destruct f|].
  destruct f as [|f]; simpl in Hf; [lia|]. cbn [duration_loop length].
  destruct (duration_term orig (c :: s)) as [[v rest]|e] eqn:E; [|done]. cbn [res_bind].
  apply duration_term_length in E. simpl in E. destruct (_ <? _)%Z; [done|].
  rewrite (IH f) by lia. destruct (decide (length s = f)) as [->|]; [by rewrite (IH f) by lia|].
  by rewrite (IH (length s)) by lia.
Qed.

Lemma duration_loop_range f orig s d r : (0 ≤ d ≤ two63)%Z → duration_loop f orig s d = Ok r → (0 ≤ r ≤ two63)%Z.
Proof.
  revert s d. induction f as [|f IH]; intros [|c s] d Hd; cbn [duration_loop]; try done; try (by intros [= <-]).
  intros ([v rest] & _ & Hx)%res_bind_ok.
  destruct (Z.ltb_spec two63 ((d + v) mod 2 ^ 64)) as [|Hle]; [done|]. apply IH in Hx; [done|].
  split; [|done]. apply Z.mod_pos_bound. lia.
Qed.

(** A parsed duration fits its type. *)
Lemma ParseDuration_int64 s d : ParseDuration s = Ok d → in_int64 d.
Proof.
  unfold ParseDuration, in_int64, min_int64, max_int64.
  destruct (match s with [] => _ | _ :: _ => _ end) as [neg b].
  destruct (str_eqb b (bs "0")); [intros [= <-]; lia|]. destruct (str_eqb b []); [done|].
  intros (r & Hr & Hx)%res_bind_ok. apply duration_loop_range in Hr; [|unfold two63; lia]. unfold two63 in *.
  destruct neg; [injection Hx as <-; lia|]. destruct (Z.ltb_spec (2 ^ 63 - 1) r); [done|]. injection Hx as <-. lia.
Qed.

Lemma leadingInt_digits ds r x :
  forallb is_digit ds = true → (∀ c, head r = Some c → is_digit c = false) → (0 ≤ x)%Z →
  (fold_left (fun a b => a * 10 + digit_val b) ds x ≤ two63)%Z →
  leadingInt x (ds ++ r) = Some (fold_left (fun a b => a * 10 + digit_val b)%Z ds x, r).
Proof.
  intros Hd Hr. revert x. induction ds as [|c ds IH]; intros x Hx Hle; cbn [app].
  - destruct r as [|c r]; [done|]. cbn [leadingInt]. by rewrite Hr.
  - simpl in Hd. apply andb_true_iff in Hd as [Hc Hd]. cbn [leadingInt fold_left] in *. rewrite Hc.
    assert (0 ≤ digit_val c)%Z as Hv.
    { unfold is_digit, in_range in Hc. unfold digit_val. go_bool. lia. }
    assert (∀ l a, forallb is_digit l = true → (0 ≤ a)%Z → (a ≤ fold_left (fun a b => a * 10 + digit_val b)%Z l a)%Z) as Hmono.
    { clear. intros l. induction l as [|b l IH]; intros a Hl Ha; simpl; [lia|]. simpl in Hl.
      apply andb_true_iff in Hl as [Hb Hl]. unfold is_digit, in_range in Hb.
      assert (0 ≤ digit_val b)%Z by (unfold digit_val; go_bool; lia).
      etrans; [|apply IH; [done|lia]]. lia. }
    pose proof (Hmono ds (x * 10 + digit_val c)%Z Hd ltac:(lia)).
    destruct (Z.ltb_spec (two63 / 10) x); [unfold two63 in *; dlia|].
    destruct (Z.ltb_spec two63 (x * 10 + digit_val c)); [lia|]. apply IH; [done|lia|done].
Qed.

Definition unit_byte (c : byte) : bool := negb (byte_eqb c "." || is_digit c).

Lemma leadingUnit_all u : forallb unit_byte u = true → leadingUnit u = (u, []).
Proof.
  induction u as [|c u IH]; [done|]. simpl. unfold unit_byte at 1. intros [Hc Hu]%andb_true_iff.
  apply negb_true_iff in Hc. rewrite Hc, IH by done. done.
Qed.

Lemma unitMap_bytes u unit : unitMap u = Some unit →
  forallb unit_byte u = true ∧ u ≠ [] ∧ (1 ≤ unit)%Z ∧ u ≠ bs "0".
Proof.
  assert (∀ v b w, str_eqb u v = b → b = true → (forallb unit_byte v && negb (str_eqb v []) && (1 <=? w)%Z) &&
    negb (str_eqb v (bs "0")) = true → forallb unit_byte u = true ∧ u ≠ [] ∧ (1 ≤ w)%Z ∧ u ≠ bs "0") as Hu.
  { intros v b w Hb -> Hw. go_bool. subst. done. }
  unfold unitMap. intros Hx. repeat (case_match; [simplify_eq; try (by eapply Hu)|]); [|done].
  repeat match goal with E : _ || _ = true |- _ => apply orb_true_iff in E as [E|E] end; by eapply Hu.
Qed.

(** Reading back a whole number of a unit. *)
Lemma ParseDuration_Itoa n u unit :
  unitMap u = Some unit → (0 ≤ n)%Z → (n * unit < two63)%Z → ParseDuration (Itoa n ++ u) = Ok (n * unit)%Z.
Proof.
  intros Hm Hn Hle. destruct (unitMap_bytes u unit Hm) as (Hu & Hne & H1 & H0).
  destruct (Itoa_nonneg n Hn) as (Hi & Hd & Hv).
  assert (∀ c, head u = Some c → is_digit c = false) as Hh.
  { intros c Hc. destruct u as [|c' u]; [done|]. injection Hc as ->. simpl in Hu. unfold unit_byte in Hu.
    apply andb_true_iff in Hu as [Hu _]. apply negb_true_iff, orb_false_iff in Hu as [_ Hu]. done. }
  assert (n ≤ two63)%Z as Hn63 by nia.
  pose proof (leadingInt_digits (Itoa n) u 0 Hd Hh ltac:(lia)) as HI. fold (dec_val (Itoa n)) in HI. rewrite Hv in HI.
  specialize (HI Hn63).
  destruct (Itoa n) as [|c ds] eqn:Ei; [done|]. cbn [app] in *.
  simpl in Hd. apply andb_true_iff in Hd as [Hc Hd]. destruct (is_digit_not_sign c Hc) as [E1 E2].
  unfold ParseDuration. rewrite E1, E2.
  assert (c :: ds ++ u ≠ bs "0") as Hn0.
  { intros [= _ Hz]. apply app_eq_nil in Hz as [_ ->]. done. }
  rewrite (bool_decide_false _ Hn0 : str_eqb _ _ = false).
  change (str_eqb (c :: ds ++ u) []) with false. cbn [length duration_loop].
  assert (duration_term (c :: ds ++ u) (c :: ds ++ u) = Ok (n * unit, [])%Z) as ->.
  { unfold duration_term. rewrite Hc, orb_true_r, HI. cbn [negb].
    assert ((length (c :: ds ++ u) =? length u)%nat = false) as ->.
    { apply Nat.eqb_neq. simpl. rewrite length_app. lia. }
    cbn [negb]. destruct u as [|c1 u']; [done|].
    assert (byte_eqb c1 "." = false) as ->.
    { simpl in Hu. apply andb_true_iff in Hu as [Hu _]. unfold unit_byte in Hu.
      by apply negb_true_iff, orb_false_iff in Hu as [Hu _]. }
    cbn [andb]. rewrite leadingUnit_all by done. rewrite (bool_decide_false _ Hne : str_eqb _ [] = false), Hm.
    destruct (Z.ltb_spec (two63 / unit) n) as [Hlt|]; [|done].
    exfalso. assert (two63 / unit * unit ≤ two63 < (two63 / unit + 1) * unit)%Z as Hq by (unfold two63; dlia). nia. }
  cbn [res_bind]. rewrite Z.add_0_l, Z.mod_small by (unfold two63 in *; nia).
  destruct (Z.ltb_spec two63 (n * unit)); [lia|].
  assert (∀ f d, duration_loop f (c :: ds ++ u) [] d = Ok d) as Hl by (by intros [|f] d).
  rewrite Hl. cbn [res_bind]. by destruct (Z.ltb_spec (two63 - 1) (n * unit)); [lia|].
Qed.
End Parse.
