(* ===== verification/SqlLex.v ===== *)
(** * How Postgres reads a statement that was put together from pieces

    A lexer for the parts of Postgres' scanner that decide where a token ends:
    white space, words, numbers, parameters, quoted identifiers and
    standard-conforming strings. It is the specification against which the code
    that interpolates names and literals into statements is proved: pieces of a
    statement are read one by one ([lex_app], [lex_ident], [lex_string]). *)

From S2P Require Import Prelude GoStrings.

Definition dq : byte := "034"%byte.

Inductive sql_token : Type :=
| TWord (w : bytes)
| TNumber (digits : bytes)
| TParam (digits : bytes)
| TIdent (name : bytes)
| TString (text : bytes)
| TChar (c : byte).

#[export] Instance sql_token_eq_dec : EqDecision sql_token.
Proof. solve_decision. Defined.

Definition is_space (b : byte) : bool := byte_eqb b " " || in_range 9 13 (bz b).
Definition is_letter (b : byte) : bool :=
  in_range 65 90 (bz b) || in_range 97 122 (bz b) || (bz b =? 95)%Z || (128 <=? bz b)%Z.
Definition is_word (b : byte) : bool := is_letter b || is_digit b || byte_eqb b "$".

(** The longest prefix of bytes with a property, and the rest. *)
Fixpoint span (P : byte → bool) (s : bytes) : bytes * bytes :=
  match s with
  | c :: s' => if P c then let '(w, r) := span P s' in (c :: w, r) else ([], s)
  | [] => ([], [])
  end.

(** The rest of a quoted token: up to the closing [q], doubled ones inside. *)
Fixpoint read_quoted (q : byte) (s : bytes) : option (bytes * bytes) :=
  match s with
  | [] => None
  | c :: s' =>
      if byte_eqb c q then
        match s' with
        | c2 :: s'' =>
            if byte_eqb c2 q
            then match read_quoted q s'' with Some (t, r) => Some (q :: t, r) | None => None end
            else Some ([], s')
        | [] => Some ([], [])
        end
      else match read_quoted q s' with Some (t, r) => Some (c :: t, r) | None => None end
  end.

(** The token at the start of [c :: s] (none for white space) and what follows
    it; [None] if a quoted token is not closed. *)
Definition next_token (c : byte) (s : bytes) : option (list sql_token * bytes) :=
  if is_space c then Some ([], s)
  else if byte_eqb c dq then
    match read_quoted dq s with Some (t, r) => Some ([TIdent t], r) | None => None end
  else if byte_eqb c "'" then
    match read_quoted "'" s with Some (t, r) => Some ([TString t], r) | None => None end
  else if is_letter c then let '(w, r) := span is_word s in Some ([TWord (c :: w)], r)
  else if is_digit c then let '(w, r) := span is_digit s in Some ([TNumber (c :: w)], r)
  else if byte_eqb c "$" then
    let '(w, r) := span is_digit s in
    Some ([match w with [] => TChar c | _ => TParam w end], r)
  else Some ([TChar c], s).

Fixpoint lex_fuel (fuel : nat) (s : bytes) : option (list sql_token) :=
  match s with
  | [] => Some []
  | c :: s' =>
      match fuel with
      | O => None
      | S f =>
          match next_token c s' with
          | Some (t, r) => app t <$> lex_fuel f r
          | None => None
          end
      end
  end.

(** The tokens of a statement; every token takes at least one byte. *)
Definition lex (s : bytes) : option (list sql_token) := lex_fuel (length s) s.

(** ** Fuel *)

Lemma span_app P s : let '(w, r) := span P s in s = w ++ r ∧ Forall (fun b => P b = true) w.
Proof.
  induction s as [|c s IH]; simpl; [done|]. destruct (P c) eqn:E; [|done].
  destruct (span P s) as [w r]. destruct IH as [-> IH]. split; [done|]. by constructor.
Qed.

Lemma span_length P s w r : span P s = (w, r) → length r ≤ length s.
Proof. intros Hs. pose proof (span_app P s) as Hp. rewrite Hs in Hp. destruct Hp as [-> _]. rewrite length_app. lia. Qed.

(** Quoted tokens take two steps where a quote is doubled. *)
Lemma read_quoted_ind (q : byte) (P : bytes → Prop) :
  P [] → (∀ s, (∀ c t, s = c :: t → c ≠ q) → P (q :: s)) → (∀ s, P s → P (q :: q :: s)) →
  (∀ c s, c ≠ q → P s → P (c :: s)) → ∀ s, P s.
Proof.
  intros H0 H1 H2 H3 s. remember (length s) as n eqn:Hn. revert s Hn.
  induction (lt_wf n) as [n _ IH]. intros s ->. destruct s as [|c s]; [done|].
  destruct (decide (c = q)) as [->|Hc]; [|apply H3; [done|]; by eapply IH; [|done]; simpl; lia].
  destruct s as [|d s]; [by apply H1|]. destruct (decide (d = q)) as [->|Hd].
  - apply H2. eapply IH; [|done]. simpl. lia.
  - apply H1. by intros c t [= <- <-].
Qed.

Lemma byte_neq a b : a ≠ b → byte_eqb a b = false.
Proof. intros. by apply bool_decide_eq_false. Qed.

Lemma read_quoted_length q s t r : read_quoted q s = Some (t, r) → length r < length s.
Proof.
  revert t r. induction s as [|s Hs|s IH|c s Hc IH] using (read_quoted_ind q); intros t r; cbn [read_quoted].
  - done.
  - rewrite byte_eqb_refl. destruct s as [|c s]; [intros [= <- <-]; simpl; lia|].
    rewrite byte_neq by (by eapply Hs). intros [= <- <-]. simpl. lia.
  - rewrite !byte_eqb_refl. destruct (read_quoted q s) as [[t' r']|]; [|done]. intros [= <- <-].
    specialize (IH _ _ eq_refl). simpl. lia.
  - rewrite byte_neq by done. destruct (read_quoted q s) as [[t' r']|]; [|done]. intros [= <- <-].
    specialize (IH _ _ eq_refl). simpl. lia.
Qed.

Lemma next_token_length c s t r : next_token c s = Some (t, r) → length r ≤ length s.
Proof.
  unfold next_token. intros Hx.
  assert (∀ P w r', span P s = (w, r') → length r' ≤ length s) as Hsp by (intros; by eapply span_length).
  destruct (is_space c); [by simplify_eq|].
  destruct (byte_eqb c dq); [destruct (read_quoted dq s) as [[]|] eqn:E; [|done]; simplify_eq;
    apply read_quoted_length in E; lia|].
  destruct (byte_eqb c "'"); [destruct (read_quoted "'" s) as [[]|] eqn:E; [|done]; simplify_eq;
    apply read_quoted_length in E; lia|].
  destruct (is_letter c); [destruct (span is_word s) eqn:E; simplify_eq; by eapply Hsp|].
  destruct (is_digit c); [destruct (span is_digit s) eqn:E; simplify_eq; by eapply Hsp|].
  destruct (byte_eqb c "$"); [destruct (span is_digit s) eqn:E; simplify_eq; by eapply Hsp|by simplify_eq].
Qed.

(** Fuel for every byte is enough. *)
Lemma lex_fuel_enough f s : length s ≤ f → lex_fuel f s = lex s.
Proof.
  unfold lex. revert s. induction (lt_wf f) as [f _ IH]. intros [|c s] Hf; [by destruct f|].
  destruct f as [|f]; simpl in Hf; [lia|]. cbn [lex_fuel length].
  destruct (next_token c s) as [[t r]|] eqn:E; [|done]. apply next_token_length in E.
  rewrite (IH f) by lia. destruct (decide (length s = f)) as [->|]; [by rewrite (IH f) by lia|].
  by rewrite (IH (length s)) by lia.
Qed.

Lemma lex_cons c s : lex (c :: s) = match next_token c s with Some (t, r) => app t <$> lex r | None => None end.
Proof.
  unfold lex at 1. cbn [lex_fuel length]. destruct (next_token c s) as [[t r]|] eqn:E; [|done].
  by rewrite lex_fuel_enough by (by eapply next_token_length).
Qed.

(** ** Pieces *)

(** A piece of text after which a new token begins, whatever follows. *)
Definition ends_token (c : byte) : bool :=
  is_space c || negb (is_word c || byte_eqb c dq || byte_eqb c "'").

Lemma span_app_r P s c r : P c = false → span P ((s ++ [c]) ++ r) =
  let '(w, t) := span P (s ++ [c]) in (w, t ++ r).
Proof.
  intros Hc. induction s as [|b s IH]; simpl; [by rewrite Hc|]. destruct (P b); [|done].
  rewrite IH. by destruct (span P (s ++ [c])).
Qed.

Lemma span_ends P s c w t : P c = false → span P (s ++ [c]) = (w, t) → ∃ t', t = t' ++ [c].
Proof.
  intros Hc. revert w t. induction s as [|b s IH]; intros w t; simpl.
  - rewrite Hc. intros [= <- <-]. by exists [].
  - destruct (P b); [|intros [= <- <-]; by exists (b :: s)].
    destruct (span P (s ++ [c])) as [w' t']. intros [= <- <-]. by eapply IH.
Qed.

Lemma read_quoted_app q s c r t u : c ≠ q → read_quoted q (s ++ [c]) = Some (t, u) →
  read_quoted q ((s ++ [c]) ++ r) = Some (t, u ++ r) ∧ ∃ u', u = u' ++ [c].
Proof.
  intros Hc. revert t u. induction s as [|s Hs|s IH|b s Hb IH] using (read_quoted_ind q); intros t u; cbn [app read_quoted].
  - by rewrite byte_neq.
  - rewrite byte_eqb_refl. destruct s as [|b s]; cbn [app].
    + rewrite byte_neq by done. intros [= <- <-]. split; [done|]. by exists [].
    + rewrite byte_neq by (by eapply Hs). intros [= <- <-]. split; [done|]. by exists (b :: s).
  - rewrite !byte_eqb_refl. destruct (read_quoted q (s ++ [c])) as [[t' u']|]; [|done]. intros [= <- <-].
    destruct (IH _ _ eq_refl) as [-> ?]. done.
  - rewrite byte_neq by done. destruct (read_quoted q (s ++ [c])) as [[t' u']|]; [|done]. intros [= <- <-].
    destruct (IH _ _ eq_refl) as [-> ?]. done.
Qed.

Lemma ends_token_inv c : ends_token c = true →
  is_word c = false ∧ is_digit c = false ∧ c ≠ dq ∧ c ≠ "'"%byte.
Proof.
  assert (implb (ends_token c) (negb (is_word c) && negb (is_digit c) && negb (byte_eqb c dq) &&
          negb (byte_eqb c "'")) = true) as Hb.
  { revert c. by apply byte_forall; vm_compute. }
  intros He. rewrite He in Hb. simpl in Hb. go_bool. done.
Qed.

Lemma next_token_app b s c r t u : ends_token c = true → next_token b (s ++ [c]) = Some (t, u) →
  next_token b ((s ++ [c]) ++ r) = Some (t, u ++ r) ∧ ∃ u', u = u' ++ [c].
Proof.
  intros (Hw & Hd & Hdq & Hsq)%ends_token_inv. unfold next_token.
  destruct (is_space b); [intros [= <- <-]; split; [done|]; by exists s|].
  destruct (byte_eqb b dq).
  { destruct (read_quoted dq (s ++ [c])) as [[t' u']|] eqn:E; [|done]. intros [= <- <-].
    by destruct (read_quoted_app dq s c r _ _ Hdq E) as [-> ?]. }
  destruct (byte_eqb b "'").
  { destruct (read_quoted "'" (s ++ [c])) as [[t' u']|] eqn:E; [|done]. intros [= <- <-].
    by destruct (read_quoted_app "'" s c r _ _ Hsq E) as [-> ?]. }
  rewrite !span_app_r by done.
  destruct (span is_word (s ++ [c])) as [w1 r1] eqn:E1, (span is_digit (s ++ [c])) as [w2 r2] eqn:E2.
  destruct (is_letter b); [intros [= <- <-]; split; [done|]; by eapply span_ends in E1|].
  destruct (is_digit b); [intros [= <- <-]; split; [done|]; by eapply span_ends in E2|].
  destruct (byte_eqb b "$"); [intros [= <- <-]; split; [done|]; by eapply span_ends in E2|].
  intros [= <- <-]. split; [done|]. by exists s.
Qed.

(** A closed piece is read on its own. *)
Lemma lex_app s c r ts : ends_token c = true → lex (s ++ [c]) = Some ts →
  lex ((s ++ [c]) ++ r) = app ts <$> lex r.
Proof.
  intros Hc. remember (length s) as n eqn:Hn. revert s ts Hn.
  induction (lt_wf n) as [n _ IH]. intros s ts -> Hl. destruct s as [|b s]; cbn [app] in *.
  - rewrite lex_cons in *. destruct (next_token c []) as [[t u]|] eqn:E; [|done].
    destruct (ends_token_inv _ Hc) as (Hw & Hd & Hdq & Hsq).
    assert (is_letter c = false ∧ byte_eqb c "$" = false) as [Hlt Hdl].
    { unfold is_word in Hw. go_bool. by split; [|apply byte_neq]. }
    unfold next_token in *. rewrite !(byte_neq c) in * by done. rewrite Hlt, Hd, Hdl in *.
    destruct (is_space c); simplify_eq/=; by destruct (lex r).
  - rewrite lex_cons in Hl |- *. destruct (next_token b (s ++ [c])) as [[t u]|] eqn:E; [|done].
    pose proof (next_token_length _ _ _ _ E) as Hlen.
    destruct (next_token_app b s c r t u Hc E) as [-> [u' ->]].
    apply fmap_Some in Hl as (ts' & Hl & ->). rewrite !length_app in Hlen. simpl in Hlen.
    rewrite (IH (length u')) with (ts := ts'); [|simpl; lia|done|done].
    destruct (lex r); simpl; [|done]. by rewrite app_assoc.
Qed.

Lemma ReplaceAll_byte s q new :
  ReplaceAll s [q] new = flat_map (fun c => if byte_eqb q c then new else [c]) s.
Proof.
  unfold ReplaceAll. induction s as [|c s IH]; [done|]. cbn [replace_from flat_map HasPrefix length Nat.sub].
  rewrite (HasPrefix_app [] s : HasPrefix s [] = true), andb_true_r. destruct (byte_eqb q c); by rewrite IH.
Qed.

(** Text in which the quotes are doubled is read back as it was. *)
Lemma read_quoted_escaped q s r : (∀ t, r ≠ q :: t) →
  read_quoted q (ReplaceAll s [q] [q; q] ++ q :: r) = Some (s, r).
Proof.
  intros Hr. rewrite ReplaceAll_byte. induction s as [|c s IH]; simpl.
  - rewrite byte_eqb_refl. destruct r as [|c r]; [done|]. rewrite byte_neq; [done|]. intros ->. by destruct (Hr r).
  - destruct (byte_eqb q c) eqn:E; go_bool; subst; simpl.
    + by rewrite byte_eqb_refl, IH.
    + rewrite byte_neq by done. by rewrite IH.
Qed.

Lemma read_quoted_plain q s r : q ∉ s → (∀ t, r ≠ q :: t) → read_quoted q (s ++ q :: r) = Some (s, r).
Proof.
  intros Hs Hr. rewrite <- (read_quoted_escaped q s r Hr). do 2 f_equal. rewrite ReplaceAll_byte.
  induction s as [|c s IH]; [done|]. apply not_elem_of_cons in Hs as [Hc Hs]. simpl. unfold byte_eqb at 1.
  rewrite bool_decide_false by done. simpl. by rewrite <- IH.
Qed.

(** A quoted identifier without quotes inside, and an escaped literal. *)
Lemma lex_ident t r : dq ∉ t → (∀ u, r ≠ dq :: u) → lex (dq :: t ++ dq :: r) = cons (TIdent t) <$> lex r.
Proof.
  intros Ht Hr. rewrite lex_cons. unfold next_token. change (is_space dq) with false.
  rewrite byte_eqb_refl, read_quoted_plain by done. done.
Qed.

Lemma lex_string t r : (∀ u, r ≠ x27 :: u) →
  lex (x27 :: ReplaceAll t (bs "'") (bs "''") ++ x27 :: r) = cons (TString t) <$> lex r.
Proof.
  intros Hr. rewrite lex_cons. unfold next_token. change (is_space x27) with false.
  change (byte_eqb x27 dq) with false. rewrite byte_eqb_refl.
  change (bs "'") with [x27]. change (bs "''") with [x27; x27]. by rewrite read_quoted_escaped.
Qed.

Lemma lex_string_plain t r : x27 ∉ t → (∀ u, r ≠ x27 :: u) → lex (x27 :: t ++ x27 :: r) = cons (TString t) <$> lex r.
Proof.
  intros Ht Hr. rewrite lex_cons. unfold next_token. change (is_space x27) with false.
  change (byte_eqb x27 dq) with false. by rewrite byte_eqb_refl, read_quoted_plain.
Qed.

(** A closed piece, then an identifier in quotes. *)
Lemma lex_piece_ident p c t r ts : ends_token c = true → lex (p ++ [c]) = Some ts → dq ∉ t → (∀ u, r ≠ dq :: u) →
  lex ((p ++ [c]) ++ dq :: t ++ dq :: r) = app (ts ++ [TIdent t]) <$> lex r.
Proof.
  intros Hc Hp Ht Hr. rewrite (lex_app p c _ ts Hc Hp), lex_ident by done.
  destruct (lex r); simpl; [|done]. by rewrite <- app_assoc.
Qed.

(** The identifiers and the parameters of a statement. *)
Definition idents (ts : list sql_token) : list bytes :=
  flat_map (fun t => match t with TIdent n => [n] | _ => [] end) ts.
Definition sql_params (ts : list sql_token) : list bytes :=
  flat_map (fun t => match t with TParam n => [n] | _ => [] end) ts.

(** ** Statements from a template

    A template is closed text, quoted identifiers and parameters. Each is read on
    its own if what follows it does not continue it. *)

Inductive piece : Type :=
| PLit (s : bytes) (c : byte)
| PIdent (t : bytes)
| PParam (digits : bytes).

Definition render_piece (p : piece) : bytes :=
  match p with
  | PLit s c => s ++ [c]
  | PIdent t => dq :: t ++ [dq]
  | PParam ds => x24 :: ds
  end.

Fixpoint render (ps : list piece) : bytes :=
  match ps with [] => [] | p :: ps' => render_piece p ++ render ps' end.

Definition lex_piece (p : piece) : option (list sql_token) :=
  match p with
  | PLit s c => lex (s ++ [c])
  | PIdent t => Some [TIdent t]
  | PParam ds => Some [TParam ds]
  end.

(** The tokens of the pieces, one after the other. *)
Fixpoint lex_pieces (ps : list piece) : option (list sql_token) :=
  match ps with
  | [] => Some []
  | p :: ps' => match lex_piece p with Some ts => app ts <$> lex_pieces ps' | None => None end
  end.

Definition piece_ok (p : piece) (next : option byte) : Prop :=
  match p with
  | PLit _ c => ends_token c = true ∧ is_Some (lex_piece p)
  | PIdent t => (dq ∉ t) ∧ next ≠ Some dq
  | PParam ds => ds ≠ [] ∧ forallb is_digit ds = true ∧ ∀ c, next = Some c → is_digit c = false
  end.

Fixpoint pieces_ok (ps : list piece) (r : bytes) : Prop :=
  match ps with
  | [] => True
  | p :: ps' => piece_ok p (head (render ps' ++ r)) ∧ pieces_ok ps' r
  end.

Lemma span_digits ds r : forallb is_digit ds = true → (∀ c, head r = Some c → is_digit c = false) →
  span is_digit (ds ++ r) = (ds, r).
Proof.
  intros Hd Hr. induction ds as [|d ds IH]; simpl in *.
  - destruct r as [|c r]; [done|]. simpl. by rewrite Hr.
  - apply andb_true_iff in Hd as [-> Hd]. by rewrite IH.
Qed.

Lemma lex_param ds r : ds ≠ [] → forallb is_digit ds = true → (∀ c, head r = Some c → is_digit c = false) →
  lex (x24 :: ds ++ r) = cons (TParam ds) <$> lex r.
Proof.
  intros Hne Hd Hr. rewrite lex_cons. unfold next_token. change (is_space x24) with false.
  change (byte_eqb x24 dq) with false. change (byte_eqb x24 "'") with false. change (is_letter x24) with false.
  change (is_digit x24) with false. rewrite byte_eqb_refl, span_digits by done. by destruct ds.
Qed.

Lemma lex_render ps r : pieces_ok ps r →
  lex (render ps ++ r) = match lex_pieces ps with Some ts => app ts <$> lex r | None => None end.
Proof.
  induction ps as [|p ps IH]; cbn [render lex_pieces pieces_ok]; [intros _; simpl; by destruct (lex r)|].
  intros [Hp Hps]. specialize (IH Hps). rewrite <- app_assoc.
  assert (∀ ts, lex (render_piece p ++ render ps ++ r) = app ts <$> lex (render ps ++ r) → lex_piece p = Some ts →
    lex (render_piece p ++ render ps ++ r) = match lex_piece p with
      | Some ts => match app ts <$> lex_pieces ps with Some ts => app ts <$> lex r | None => None end
      | None => None end) as Hgo.
  { intros ts -> ->. rewrite IH. destruct (lex_pieces ps); simpl; [|done]. destruct (lex r); simpl; [|done].
    by rewrite app_assoc. }
  transitivity (match lex_piece p with
      | Some ts => match app ts <$> lex_pieces ps with Some ts => app ts <$> lex r | None => None end
      | None => None end); [|by destruct (lex_piece p)].
  destruct p as [s c|t|ds]; cbn [piece_ok render_piece lex_piece] in *.
  - destruct Hp as [Hc [ts Hts]]. apply (Hgo ts); [|done]. by apply lex_app.
  - destruct Hp as [Ht Hn]. apply (Hgo [TIdent t]); [|done]. cbn [app]. rewrite <- app_assoc. cbn [app].
    apply lex_ident; [done|]. intros u Hu. apply Hn. by rewrite Hu.
  - destruct Hp as (Hne & Hd & Hn). apply (Hgo [TParam ds]); [|done]. by apply lex_param.
Qed.

Lemma render_app ps qs : render (ps ++ qs) = render ps ++ render qs.
Proof. induction ps as [|p ps IH]; simpl; [done|]. by rewrite IH, app_assoc. Qed.

Lemma pieces_ok_app ps qs r : pieces_ok ps (render qs ++ r) → pieces_ok qs r → pieces_ok (ps ++ qs) r.
Proof.
  induction ps as [|p ps IH]; simpl; [done|]. rewrite render_app, <- app_assoc. intros [Hp Hps] Hqs. auto.
Qed.

Lemma lex_pieces_app ps qs ts us : lex_pieces ps = Some ts → lex_pieces qs = Some us →
  lex_pieces (ps ++ qs) = Some (ts ++ us).
Proof.
  intros Hp Hq. revert ts Hp. induction ps as [|p ps IH]; simpl; intros ts; [by intros [= <-]|].
  destruct (lex_piece p) as [t1|]; [|done]. intros (t2 & Ht & ->)%fmap_Some. rewrite (IH _ Ht). simpl.
  by rewrite app_assoc.
Qed.

(** Two texts put together from the same pieces. *)
Ltac text_eq := repeat (progress (cbn; rewrite <- ?app_assoc)); reflexivity.

(** The side conditions of [lex_render]. *)
Ltac pieces :=
  repeat (split; [first
    [ split; [reflexivity|eexists; reflexivity]
    | split; [first [assumption | apply (bool_decide_unpack _); vm_compute; exact I]
             |let Hn := fresh in intros Hn; lazy in Hn; discriminate Hn] ]|]);
  exact I.
