(* ===== verification/Config.v ===== *)
(** * internal/config/config.go: the configuration

    [Load] as a function of the environment and the files it names, and the
    reference text of [Usage]. Parsing a float is a parameter. *)

From Stdlib Require Import Floats.SpecFloat.
From S2P Require Import Prelude GoStrings GoErrors SqlLex GoTime.

(** [os.Getenv] (empty when unset), [os.ReadFile], and [strconv.ParseFloat]. *)
Record Environment : Type := {
  Getenv : bytes → bytes;
  ReadFile : bytes → res error bytes;
}.

Class FloatParser : Type := { ParseFloat : bytes → res error spec_float }.

Record Config : Type := {
  HTTPAddr : bytes;
  ReadHeaderTimeout : Z;
  ReadTimeout : Z;
  WriteTimeout : Z;
  IdleTimeout : Z;
  MaxRequestBodyBytes : Z;
  MaxResponseBodyBytes : Z;
  InsecureHTTP : bool;
  TrustProxy : bool;
  DatabaseURL : bytes;
  MigrationsDatabaseURL : bytes;
  GatewayPassword : bytes;
  OwnerPassword : bytes;
  DatabaseMaxConns : Z;
  DatabaseMinConns : Z;
  DatabaseConnLifetime : Z;
  StatementTimeout : Z;
  IdleInTxTimeout : Z;
  MaxStatementBytes : Z;
  MaxStatementParams : Z;
  AuthCacheSize : Z;
  AuthCacheTTL : Z;
  KeyRotateOverlap : Z;
  RateLimitPerSecond : spec_float;
  RateLimitBurst : Z;
  AuditDisabled : bool;
  AuditIncludeSQL : bool;
  LogLevel : bytes;
  LogFormat : bytes;
  MetricsEnabled : bool;
  OTELEndpoint : bytes;
  MCPEnabled : bool;
  MigrateOnStart : bool;
}.

(** Durations in nanoseconds. *)
Definition Second : Z := 1000000000.
Definition Minute : Z := 60 * Second.
Definition Hour : Z := 60 * Minute.

Section Load.
Context `{UnicodeTables, GoTime, FloatParser}.
Variable env : Environment.

(** ** The helpers *)

Definition envOr (key fallback : bytes) : bytes :=
  let v := Getenv env key in if negb (str_eqb v []) then v else fallback.

Definition envBool (key : bytes) (fallback : bool) : bool :=
  let v := Getenv env key in
  if str_eqb v [] then fallback else
  match ParseBool v with
  | None => fallback
  | Some b => b
  end.

(** [fmt.Errorf("%s: %w", key, err)] *)
Definition key_error (key : bytes) (err : error) : error := wrapf (key ++ bs ": ") err.

(** The common shape of the other helpers. *)
Definition envParse {A : Type} (parse : bytes → res error A) (key : bytes) (fallback : A) : res error A :=
  let v := Getenv env key in
  if str_eqb v [] then Ok fallback else res_map_err (key_error key) (parse v).

Definition parsed_int (fn : bytes) (bits : Z) (v : bytes) : res error Z :=
  match ParseInt bits v with
  | None => Err (NumError fn v)
  | Some n => Ok n
  end.

Definition envInt (key : bytes) (fallback : Z) : res error Z := envParse (parsed_int (bs "Atoi") 64) key fallback.

Definition envInt32 (key : bytes) (fallback : Z) : res error Z := envParse (parsed_int (bs "ParseInt") 32) key fallback.

Definition envInt64 (key : bytes) (fallback : Z) : res error Z := envParse (parsed_int (bs "ParseInt") 64) key fallback.

Definition envFloat64 (key : bytes) (fallback : spec_float) : res error spec_float := envParse ParseFloat key fallback.

Definition envDuration (key : bytes) (fallback : Z) : res error Z := envParse ParseDuration key fallback.

Definition loadSecretFromFile (envName current : bytes) : res error bytes :=
  if negb (str_eqb current []) then Ok current else
  let path := Getenv env (envName ++ bs "_FILE") in
  if str_eqb path [] then Ok [] else
  match ReadFile env path with
  | Err err => Err (ErrWrap [FLit (bs "read "); FStr envName; FLit (bs "_FILE "); FQuote path; FLit (bs ": ")] err [])
  | Ok b => Ok (TrimSpace b)
  end.

(** The float64 constant 60. *)
Definition sixty : spec_float := S754_finite false 8444249301319680 (-47).

(** ** Load *)

Definition Load : res error Config :=
  let httpAddr := envOr (bs "AGENTCOOPDB_HTTP_ADDR") (bs ":8080") in
  let insecureHTTP := envBool (bs "AGENTCOOPDB_INSECURE_HTTP") false in
  let trustProxy := envBool (bs "AGENTCOOPDB_TRUST_PROXY") false in
  let databaseURL := Getenv env (bs "AGENTCOOPDB_DATABASE_URL") in
  let migrationsDatabaseURL := Getenv env (bs "AGENTCOOPDB_MIGRATIONS_DATABASE_URL") in
  let gatewayPassword := Getenv env (bs "AGENTCOOPDB_GATEWAY_PASSWORD") in
  let ownerPassword := Getenv env (bs "AGENTCOOPDB_OWNER_PASSWORD") in
  let auditDisabled := envBool (bs "AGENTCOOPDB_AUDIT_DISABLED") false in
  let auditIncludeSQL := envBool (bs "AGENTCOOPDB_AUDIT_INCLUDE_SQL") false in
  let mcpEnabled := envBool (bs "AGENTCOOPDB_MCP_ENABLED") false in
  let metricsEnabled := envBool (bs "AGENTCOOPDB_METRICS_ENABLED") true in
  let migrateOnStart := envBool (bs "AGENTCOOPDB_MIGRATE_ON_START") true in
  let logLevel := envOr (bs "AGENTCOOPDB_LOG_LEVEL") (bs "info") in
  let logFormat := envOr (bs "AGENTCOOPDB_LOG_FORMAT") (bs "json") in
  let otelEndpoint := Getenv env (bs "AGENTCOOPDB_OTEL_EXPORTER_OTLP_ENDPOINT") in
  guard! negb (str_eqb databaseURL []) else errors_New (bs "AGENTCOOPDB_DATABASE_URL is required") in
  let migrationsDatabaseURL := if str_eqb migrationsDatabaseURL [] then databaseURL else migrationsDatabaseURL in
  let! readHeaderTimeout := envDuration (bs "AGENTCOOPDB_READ_HEADER_TIMEOUT") (5 * Second) in
  let! readTimeout := envDuration (bs "AGENTCOOPDB_READ_TIMEOUT") (10 * Second) in
  let! writeTimeout := envDuration (bs "AGENTCOOPDB_WRITE_TIMEOUT") (30 * Second) in
  let! idleTimeout := envDuration (bs "AGENTCOOPDB_IDLE_TIMEOUT") (120 * Second) in
  let! statementTimeout := envDuration (bs "AGENTCOOPDB_STATEMENT_TIMEOUT") (5 * Second) in
  let! idleInTxTimeout := envDuration (bs "AGENTCOOPDB_IDLE_IN_TX_TIMEOUT") (5 * Second) in
  let! authCacheTTL := envDuration (bs "AGENTCOOPDB_AUTH_CACHE_TTL") (5 * Minute) in
  let! keyRotateOverlap := envDuration (bs "AGENTCOOPDB_KEY_ROTATE_OVERLAP") (24 * Hour) in
  let! databaseConnLifetime := envDuration (bs "AGENTCOOPDB_DATABASE_CONN_LIFETIME") (30 * Minute) in
  let! maxRequestBodyBytes := envInt64 (bs "AGENTCOOPDB_MAX_REQUEST_BODY_BYTES") 1048576 in
  let! maxResponseBodyBytes := envInt64 (bs "AGENTCOOPDB_MAX_RESPONSE_BODY_BYTES") 8388608 in
  let! maxStatementBytes := envInt (bs "AGENTCOOPDB_MAX_STATEMENT_BYTES") 262144 in
  let! maxStatementParams := envInt (bs "AGENTCOOPDB_MAX_STATEMENT_PARAMS") 1000 in
  let! authCacheSize := envInt (bs "AGENTCOOPDB_AUTH_CACHE_SIZE") 1024 in
  let! rateLimitBurst := envInt (bs "AGENTCOOPDB_RATE_LIMIT_BURST") 120 in
  let! rateLimitPerSecond := envFloat64 (bs "AGENTCOOPDB_RATE_LIMIT_PER_SECOND") sixty in
  let! databaseMaxConns := envInt32 (bs "AGENTCOOPDB_DATABASE_MAX_CONNS") 20 in
  let! databaseMinConns := envInt32 (bs "AGENTCOOPDB_DATABASE_MIN_CONNS") 2 in
  let! gatewayPassword := loadSecretFromFile (bs "AGENTCOOPDB_GATEWAY_PASSWORD") gatewayPassword in
  let! ownerPassword := loadSecretFromFile (bs "AGENTCOOPDB_OWNER_PASSWORD") ownerPassword in
  if (60 * Second <? statementTimeout)%Z then
    Err (ErrFmt [FLit (bs "statement_timeout must be <= 60s, got "); FStr (Duration_String statementTimeout)])
  else if (maxStatementParams <=? 0)%Z then Err (errors_New (bs "MAX_STATEMENT_PARAMS must be > 0"))
  else Ok {|
    HTTPAddr := httpAddr; ReadHeaderTimeout := readHeaderTimeout; ReadTimeout := readTimeout;
    WriteTimeout := writeTimeout; IdleTimeout := idleTimeout; MaxRequestBodyBytes := maxRequestBodyBytes;
    MaxResponseBodyBytes := maxResponseBodyBytes; InsecureHTTP := insecureHTTP; TrustProxy := trustProxy;
    DatabaseURL := databaseURL; MigrationsDatabaseURL := migrationsDatabaseURL; GatewayPassword := gatewayPassword;
    OwnerPassword := ownerPassword; DatabaseMaxConns := databaseMaxConns; DatabaseMinConns := databaseMinConns;
    DatabaseConnLifetime := databaseConnLifetime; StatementTimeout := statementTimeout;
    IdleInTxTimeout := idleInTxTimeout; MaxStatementBytes := maxStatementBytes;
    MaxStatementParams := maxStatementParams; AuthCacheSize := authCacheSize; AuthCacheTTL := authCacheTTL;
    KeyRotateOverlap := keyRotateOverlap; RateLimitPerSecond := rateLimitPerSecond; RateLimitBurst := rateLimitBurst;
    AuditDisabled := auditDisabled; AuditIncludeSQL := auditIncludeSQL; LogLevel := logLevel; LogFormat := logFormat;
    MetricsEnabled := metricsEnabled; OTELEndpoint := otelEndpoint; MCPEnabled := mcpEnabled;
    MigrateOnStart := migrateOnStart |}.
End Load.

(** ** Usage

    The text of the source, with a back quote for each double quote. *)

Definition unquoted : bytes := bs "Environment variables (prefix: AGENTCOOPDB_):

  HTTP server
    AGENTCOOPDB_HTTP_ADDR                    address to bind (default `:8080`)
    AGENTCOOPDB_READ_HEADER_TIMEOUT          (default `5s`)
    AGENTCOOPDB_READ_TIMEOUT                 (default `10s`)
    AGENTCOOPDB_WRITE_TIMEOUT                (default `30s`)
    AGENTCOOPDB_IDLE_TIMEOUT                 (default `120s`)
    AGENTCOOPDB_MAX_REQUEST_BODY_BYTES       (default 1048576)
    AGENTCOOPDB_MAX_RESPONSE_BODY_BYTES      (default 8388608)
    AGENTCOOPDB_INSECURE_HTTP                allow plaintext HTTP (default `false`)
    AGENTCOOPDB_TRUST_PROXY                  trust X-Real-Ip/X-Forwarded-For (default `false`)

  Database
    AGENTCOOPDB_DATABASE_URL                 [required] gateway pool URL
    AGENTCOOPDB_MIGRATIONS_DATABASE_URL      superuser URL for migrations (defaults to DATABASE_URL)
    AGENTCOOPDB_GATEWAY_PASSWORD             password for agentcoopdb_gateway role
    AGENTCOOPDB_OWNER_PASSWORD               password for agentcoopdb_owner role
    AGENTCOOPDB_DATABASE_MAX_CONNS           (default 20)
    AGENTCOOPDB_DATABASE_MIN_CONNS           (default 2)
    AGENTCOOPDB_DATABASE_CONN_LIFETIME       (default `30m`)

  SQL execution
    AGENTCOOPDB_STATEMENT_TIMEOUT            per-request timeout, max 60s (default `5s`)
    AGENTCOOPDB_IDLE_IN_TX_TIMEOUT           (default `5s`)
    AGENTCOOPDB_MAX_STATEMENT_BYTES          (default 262144)
    AGENTCOOPDB_MAX_STATEMENT_PARAMS         (default 1000)

  Auth
    AGENTCOOPDB_AUTH_CACHE_SIZE              LRU verify cache entries (default 1024)
    AGENTCOOPDB_AUTH_CACHE_TTL               (default `5m`)
    AGENTCOOPDB_KEY_ROTATE_OVERLAP           (default `24h`)

  Rate limiting
    AGENTCOOPDB_RATE_LIMIT_PER_SECOND        (default 60)
    AGENTCOOPDB_RATE_LIMIT_BURST             (default 120)

  Audit
    AGENTCOOPDB_AUDIT_DISABLED               skip all writes to audit_logs table (default `false`)
    AGENTCOOPDB_AUDIT_INCLUDE_SQL            store full SQL in audit_logs (default `false`)

  Observability
    AGENTCOOPDB_LOG_LEVEL                    (default `info`)
    AGENTCOOPDB_LOG_FORMAT                   json or text (default `json`)
    AGENTCOOPDB_METRICS_ENABLED              (default `true`)
    AGENTCOOPDB_OTEL_EXPORTER_OTLP_ENDPOINT optional OTLP collector

  MCP (embedded Streamable HTTP server)
    AGENTCOOPDB_MCP_ENABLED                  enable /v1/mcp endpoint (default `false`)

  Run-once
    AGENTCOOPDB_MIGRATE_ON_START             (default `true`)

  Secrets: every password variable also accepts a *_FILE variant
  (e.g. AGENTCOOPDB_GATEWAY_PASSWORD_FILE) for docker / swarm secrets.
".

Definition Usage : bytes := (fun b => if byte_eqb b x60 then dq else b) <$> unquoted.

(** The default a line of the reference documents. *)
Fixpoint after (sub s : bytes) : option bytes :=
  if HasPrefix s sub then Some (drop (length sub) s)
  else match s with [] => None | _ :: s' => after sub s' end.

Definition until (c : byte) (s : bytes) : bytes :=
  match IndexByte s c with Some i => take i s | None => s end.

Definition usage_default (line : bytes) : option (bytes * bytes) :=
  if HasPrefix line (bs "    AGENTCOOPDB_") then
    match after (bs "(default ") line with
    | Some r => Some (until x20 (drop 4 line), filter (fun b => b ≠ dq) (until ")" r))
    | None => None
    end
  else None.

Definition usage_defaults : list (bytes * bytes) := omap usage_default (Split Usage x0a).

(** ** What a loaded configuration satisfies *)

Section LoadFacts.
Context `{UnicodeTables, GoTime, FloatParser}.

Definition in_int32 (z : Z) : Prop := (- 2 ^ 31 ≤ z < 2 ^ 31)%Z.

Lemma ParseUint_range bits s n : ParseUint bits s = Some n → (0 ≤ n < 2 ^ bits)%Z.
Proof.
  unfold ParseUint. destruct s as [|c s]; [done|]. destruct (_ && _) eqn:E; [|done]. intros [= <-]. go_bool.
  split; [|done]. unfold dec_val.
  assert (∀ l a, forallb is_digit l = true → (0 ≤ a)%Z → (0 ≤ fold_left (fun a b => a * 10 + digit_val b)%Z l a)%Z) as Hp.
  { clear. intros l. induction l as [|b l IH]; intros a Hl Ha; simpl; [done|]. simpl in Hl. go_bool. apply IH; [done|].
    unfold is_digit, in_range in *. go_bool. unfold digit_val. lia. }
  by apply Hp.
Qed.

Lemma parsed_int_range fn bits v n : (0 < bits)%Z → parsed_int fn bits v = Ok n → (- 2 ^ (bits - 1) ≤ n < 2 ^ (bits - 1))%Z.
Proof.
  intros Hb. unfold parsed_int, ParseInt. destruct (match v with [] => _ | _ :: _ => _ end) as [neg body].
  destruct (ParseUint bits body) as [m|] eqn:E; [|done]. apply ParseUint_range in E.
  destruct neg.
  - destruct (Z.leb_spec m (2 ^ (bits - 1))); [|done]. intros [= <-]. lia.
  - destruct (Z.ltb_spec m (2 ^ (bits - 1))); [|done]. intros [= <-]. lia.
Qed.

Lemma envParse_sat {A} (P : A → Prop) env (parse : bytes → res error A) key fb x :
  (∀ v y, parse v = Ok y → P y) → P fb → envParse env parse key fb = Ok x → P x.
Proof.
  intros Hp Hf. unfold envParse. destruct (str_eqb _ []); [by intros [= <-]|].
  destruct (parse _) eqn:E; [|done]. intros [= <-]. by eapply Hp.
Qed.

Lemma envDuration_int64 env key fb x : in_int64 fb → envDuration env key fb = Ok x → in_int64 x.
Proof. apply envParse_sat. apply ParseDuration_int64. Qed.

Lemma envInt_int64 env key fb x : in_int64 fb → envInt env key fb = Ok x → in_int64 x.
Proof.
  apply envParse_sat. intros v y Hy. apply (parsed_int_range _ 64) in Hy; [|lia].
  unfold in_int64, min_int64, max_int64. lia.
Qed.

Lemma envInt64_int64 env key fb x : in_int64 fb → envInt64 env key fb = Ok x → in_int64 x.
Proof.
  apply envParse_sat. intros v y Hy. apply (parsed_int_range _ 64) in Hy; [|lia].
  unfold in_int64, min_int64, max_int64. lia.
Qed.

Lemma envInt32_int32 env key fb x : in_int32 fb → envInt32 env key fb = Ok x → in_int32 x.
Proof. apply envParse_sat. intros v y Hy. apply (parsed_int_range _ 32) in Hy; [|lia]. done. Qed.

(** Every field holds a value of its Go type, and the checks of [Load] hold. *)
Definition config_ok (c : Config) : Prop :=
  DatabaseURL c ≠ [] ∧ MigrationsDatabaseURL c ≠ [] ∧ HTTPAddr c ≠ [] ∧ LogLevel c ≠ [] ∧ LogFormat c ≠ [] ∧
  (StatementTimeout c ≤ 60 * Second)%Z ∧ (0 < MaxStatementParams c)%Z ∧
  Forall in_int64 [ReadHeaderTimeout c; ReadTimeout c; WriteTimeout c; IdleTimeout c; StatementTimeout c;
    IdleInTxTimeout c; AuthCacheTTL c; KeyRotateOverlap c; DatabaseConnLifetime c; MaxRequestBodyBytes c;
    MaxResponseBodyBytes c; MaxStatementBytes c; MaxStatementParams c; AuthCacheSize c; RateLimitBurst c] ∧
  Forall in_int32 [DatabaseMaxConns c; DatabaseMinConns c].

Lemma envOr_ne env key fb : fb ≠ [] → envOr env key fb ≠ [].
Proof. intros Hf. unfold envOr. destruct (str_eqb _ []) eqn:E; go_bool; done. Qed.

Lemma Load_ok env c : Load env = Ok c → config_ok c.
Proof.
  unfold Load. intros Hx. destruct (str_eqb (Getenv env (bs "AGENTCOOPDB_DATABASE_URL")) []) eqn:Ed; [done|].
  cbn [negb] in Hx. repeat (apply res_bind_ok in Hx as (? & ? & Hx)).
  destruct (_ <? _)%Z eqn:Es in Hx; [done|]. destruct (_ <=? 0)%Z eqn:Ep in Hx; [done|]. injection Hx as <-. go_bool.
  repeat match goal with
  | Hd : envDuration _ _ _ = Ok _ |- _ => apply envDuration_int64 in Hd; [|done]
  | Hd : envInt _ _ _ = Ok _ |- _ => apply envInt_int64 in Hd; [|done]
  | Hd : envInt64 _ _ _ = Ok _ |- _ => apply envInt64_int64 in Hd; [|done]
  | Hd : envInt32 _ _ _ = Ok _ |- _ => apply envInt32_int32 in Hd; [|done]
  end.
  unfold config_ok. cbn.
  split; [done|]. split; [by case_match; go_bool|]. do 3 (split; [by apply envOr_ne|]). split; [done|]. split; [done|].
  split; repeat (apply Forall_cons_2; [assumption|]); apply Forall_nil_2.
Qed.

(** C26: A configuration that loads is well formed: the database URLs, the
    listen address and the log settings are not empty, the statement timeout is at
    most 60 seconds, at least one parameter is allowed, and every number fits its
    machine type, whatever the environment holds. *)
Theorem Load_well_formed env c : Load env = Ok c → config_ok c.
Proof. apply Load_ok. Qed.

(** ** The documented defaults *)

(** The environment with one variable set. *)
Definition with_env (env : Environment) (v d : bytes) : Environment :=
  {| Getenv k := if str_eqb k v then d else Getenv env k; ReadFile := ReadFile env |}.

Definition documented : list (bytes * bytes) :=
  [(bs "AGENTCOOPDB_HTTP_ADDR", bs ":8080");
   (bs "AGENTCOOPDB_READ_HEADER_TIMEOUT", bs "5s");
   (bs "AGENTCOOPDB_READ_TIMEOUT", bs "10s");
   (bs "AGENTCOOPDB_WRITE_TIMEOUT", bs "30s");
   (bs "AGENTCOOPDB_IDLE_TIMEOUT", bs "120s");
   (bs "AGENTCOOPDB_MAX_REQUEST_BODY_BYTES", bs "1048576");
   (bs "AGENTCOOPDB_MAX_RESPONSE_BODY_BYTES", bs "8388608");
   (bs "AGENTCOOPDB_INSECURE_HTTP", bs "false");
   (bs "AGENTCOOPDB_TRUST_PROXY", bs "false");
   (bs "AGENTCOOPDB_DATABASE_MAX_CONNS", bs "20");
   (bs "AGENTCOOPDB_DATABASE_MIN_CONNS", bs "2");
   (bs "AGENTCOOPDB_DATABASE_CONN_LIFETIME", bs "30m");
   (bs "AGENTCOOPDB_STATEMENT_TIMEOUT", bs "5s");
   (bs "AGENTCOOPDB_IDLE_IN_TX_TIMEOUT", bs "5s");
   (bs "AGENTCOOPDB_MAX_STATEMENT_BYTES", bs "262144");
   (bs "AGENTCOOPDB_MAX_STATEMENT_PARAMS", bs "1000");
   (bs "AGENTCOOPDB_AUTH_CACHE_SIZE", bs "1024");
   (bs "AGENTCOOPDB_AUTH_CACHE_TTL", bs "5m");
   (bs "AGENTCOOPDB_KEY_ROTATE_OVERLAP", bs "24h");
   (bs "AGENTCOOPDB_RATE_LIMIT_PER_SECOND", bs "60");
   (bs "AGENTCOOPDB_RATE_LIMIT_BURST", bs "120");
   (bs "AGENTCOOPDB_AUDIT_DISABLED", bs "false");
   (bs "AGENTCOOPDB_AUDIT_INCLUDE_SQL", bs "false");
   (bs "AGENTCOOPDB_LOG_LEVEL", bs "info");
   (bs "AGENTCOOPDB_LOG_FORMAT", bs "json");
   (bs "AGENTCOOPDB_METRICS_ENABLED", bs "true");
   (bs "AGENTCOOPDB_MCP_ENABLED", bs "false");
   (bs "AGENTCOOPDB_MIGRATE_ON_START", bs "true")].

Lemma usage_documented : usage_defaults = documented.
Proof. apply (bool_decide_unpack _). by vm_compute. Qed.

Section WithEnv.
Variables (env : Environment) (v d : bytes).
Hypothesis unset : Getenv env v = [].

Lemma with_env_other key : str_eqb key v = false → Getenv (with_env env v d) key = Getenv env key.
Proof. intros Hk. simpl. by rewrite Hk. Qed.

(** Setting a variable to the default of its helper changes nothing. *)
Lemma envParse_with {A} (parse : bytes → res error A) key fb :
  (str_eqb key v = true → d ≠ [] ∧ parse d = Ok fb) → envParse (with_env env v d) parse key fb = envParse env parse key fb.
Proof.
  intros Hk. unfold envParse. destruct (str_eqb key v) eqn:E; [|by rewrite with_env_other].
  destruct (Hk eq_refl) as [Hne Hp]. apply str_eqb_eq in E as ->. simpl.
  rewrite str_eqb_refl, unset, (bool_decide_false _ Hne : str_eqb d [] = false), Hp. done.
Qed.

Lemma envOr_with key fb : (str_eqb key v = true → d = fb) → envOr (with_env env v d) key fb = envOr env key fb.
Proof.
  intros Hk. unfold envOr. destruct (str_eqb key v) eqn:E; [|by rewrite with_env_other].
  rewrite <- (Hk eq_refl). apply str_eqb_eq in E as ->. simpl. rewrite str_eqb_refl, unset. by destruct d.
Qed.

Lemma envBool_with key fb :
  (str_eqb key v = true → ParseBool d = Some fb) → envBool (with_env env v d) key fb = envBool env key fb.
Proof.
  intros Hk. unfold envBool. destruct (str_eqb key v) eqn:E; [|by rewrite with_env_other].
  apply str_eqb_eq in E as ->. simpl. rewrite str_eqb_refl, unset, (Hk eq_refl). by destruct (str_eqb d []).
Qed.

Lemma loadSecret_with name cur : str_eqb (name ++ bs "_FILE") v = false →
  loadSecretFromFile (with_env env v d) name cur = loadSecretFromFile env name cur.
Proof. intros Hk. unfold loadSecretFromFile. by rewrite with_env_other. Qed.
End WithEnv.

(** The one entry of a variable. *)
Fixpoint doc_of (l : list (bytes * bytes)) (v : bytes) : option bytes :=
  match l with
  | [] => None
  | (k, d) :: l' => if str_eqb k v then Some d else doc_of l' v
  end.

Lemma documented_unique v d : (v, d) ∈ usage_defaults → doc_of documented v = Some d.
Proof.
  rewrite usage_documented. intros Hin.
  assert (Forall (fun p => doc_of documented p.1 = Some p.2) documented) as Hall.
  { apply (bool_decide_unpack _). by vm_compute. }
  rewrite List.Forall_forall in Hall. apply (Hall (v, d)). by apply list_elem_of_In.
Qed.

(** The reference printed by -help-env is right about every default: for
    each of its 28 entries with a default, setting the variable to the documented
    value loads the same configuration as leaving it unset, whatever the rest of
    the environment is. *)
Theorem usage_defaults_agree env v d :
  (v, d) ∈ usage_defaults → Getenv env v = [] → ParseFloat (bs "60") = Ok sixty →
  Load (with_env env v d) = Load env.
Proof.
  intros Hd%documented_unique Hu Hf.
  assert (∀ key, str_eqb key v = true → doc_of documented key = Some d) as Hk by (by intros key ->%str_eqb_eq).
  assert (∀ key, doc_of documented key = None → str_eqb key v = false) as Ho.
  { intros key Hn. destruct (str_eqb key v) eqn:E; [|done]. apply Hk in E. congruence. }
  unfold Load, envDuration, envInt, envInt32, envInt64, envFloat64.
  rewrite !(with_env_other env v d) by (apply Ho; by vm_compute).
  rewrite !(loadSecret_with env v d) by (apply Ho; by vm_compute).
  rewrite !(envOr_with env v d Hu) by (intros Hx%Hk; vm_compute in Hx; by injection Hx).
  rewrite !(envBool_with env v d Hu) by (intros Hx%Hk; vm_compute in Hx; by injection Hx as <-).
  rewrite !(envParse_with env v d Hu)
    by (intros Hx%Hk; vm_compute in Hx; injection Hx as <-; split; [discriminate|first [exact Hf|by vm_compute]]).
  done.
Qed.

(** ** Malformed settings *)

Definition durations : list bytes :=
  [bs "AGENTCOOPDB_READ_HEADER_TIMEOUT"; bs "AGENTCOOPDB_READ_TIMEOUT"; bs "AGENTCOOPDB_WRITE_TIMEOUT";
   bs "AGENTCOOPDB_IDLE_TIMEOUT"; bs "AGENTCOOPDB_STATEMENT_TIMEOUT"; bs "AGENTCOOPDB_IDLE_IN_TX_TIMEOUT";
   bs "AGENTCOOPDB_AUTH_CACHE_TTL"; bs "AGENTCOOPDB_KEY_ROTATE_OVERLAP"; bs "AGENTCOOPDB_DATABASE_CONN_LIFETIME"].
Definition ints64 : list bytes :=
  [bs "AGENTCOOPDB_MAX_REQUEST_BODY_BYTES"; bs "AGENTCOOPDB_MAX_RESPONSE_BODY_BYTES"; bs "AGENTCOOPDB_MAX_STATEMENT_BYTES";
   bs "AGENTCOOPDB_MAX_STATEMENT_PARAMS"; bs "AGENTCOOPDB_AUTH_CACHE_SIZE"; bs "AGENTCOOPDB_RATE_LIMIT_BURST"].
Definition ints32 : list bytes := [bs "AGENTCOOPDB_DATABASE_MAX_CONNS"; bs "AGENTCOOPDB_DATABASE_MIN_CONNS"].
Definition bools : list bytes :=
  [bs "AGENTCOOPDB_INSECURE_HTTP"; bs "AGENTCOOPDB_TRUST_PROXY"; bs "AGENTCOOPDB_AUDIT_DISABLED";
   bs "AGENTCOOPDB_AUDIT_INCLUDE_SQL"; bs "AGENTCOOPDB_MCP_ENABLED"; bs "AGENTCOOPDB_METRICS_ENABLED";
   bs "AGENTCOOPDB_MIGRATE_ON_START"].

(** Unset, or a text its parser accepts. *)
Definition accepted (env : Environment) (valid : bytes → bool) (key : bytes) : Prop :=
  Getenv env key = [] ∨ valid (Getenv env key) = true.

Lemma envParse_accepted {A} env (parse : bytes → res error A) key fb x :
  envParse env parse key fb = Ok x → accepted env (fun v => is_ok (parse v)) key.
Proof.
  unfold envParse, accepted. destruct (str_eqb _ []) eqn:E; [go_bool; by left|].
  destruct (parse (Getenv env key)); [by right|done].
Qed.

(** The server does not start on a malformed number: if the configuration
    loads, every duration, integer and the rate that is set parses (integers
    within their width, connection counts within 32 bits). A boolean that does not
    parse is not an error: it counts as unset. *)
Theorem Load_strictness env :
  (is_ok (Load env) = true →
     Forall (accepted env (fun v => is_ok (ParseDuration v))) durations ∧
     Forall (accepted env (fun v => bool_decide (is_Some (ParseInt 64 v)))) ints64 ∧
     Forall (accepted env (fun v => bool_decide (is_Some (ParseInt 32 v)))) ints32 ∧
     accepted env (fun v => is_ok (ParseFloat v)) (bs "AGENTCOOPDB_RATE_LIMIT_PER_SECOND")) ∧
  ∀ key, key ∈ bools → ParseBool (Getenv env key) = None → Load env = Load (with_env env key []).
Proof.
  split.
  - destruct (Load env) as [c|] eqn:Hx; [intros _|done]. unfold Load in Hx.
    destruct (str_eqb (Getenv env (bs "AGENTCOOPDB_DATABASE_URL")) []); [done|]. cbn [negb] in Hx.
    repeat (apply res_bind_ok in Hx as (? & ? & Hx)). clear Hx.
    assert (∀ fn bits key fb x, envParse env (parsed_int fn bits) key fb = Ok x →
      accepted env (fun v => bool_decide (is_Some (ParseInt bits v))) key) as Hint.
    { intros fn bits key fb y [Hy|Hy]%envParse_accepted; [by left|right]. unfold parsed_int in Hy.
      destruct (ParseInt bits _) eqn:E in Hy; [|done]. rewrite E. done. }
    split; [|split; [|split]].
    + unfold durations. repeat (apply Forall_cons_2; [by eapply envParse_accepted|]). apply Forall_nil_2.
    + unfold ints64. repeat (apply Forall_cons_2; [by eapply Hint|]). apply Forall_nil_2.
    + unfold ints32. repeat (apply Forall_cons_2; [by eapply Hint|]). apply Forall_nil_2.
    + by eapply envParse_accepted.
  - intros key Hk Hb.
    assert (∀ k fb, envBool env k fb = envBool (with_env env key []) k fb) as Heq.
    { intros k fb. unfold envBool. simpl. destruct (str_eqb k key) eqn:E; [|done]. apply str_eqb_eq in E as ->.
      rewrite Hb, str_eqb_refl. by destruct (str_eqb _ []). }
    assert (∀ k, k ∉ bools → Getenv env k = Getenv (with_env env key []) k) as Hget.
    { intros k Hn. simpl. destruct (str_eqb k key) eqn:E; [|done]. by apply str_eqb_eq in E as ->. }
    unfold Load, envDuration, envInt, envInt32, envInt64, envFloat64, envParse, envOr, loadSecretFromFile.
    rewrite !Heq, !Hget by (apply (bool_decide_unpack _); by vm_compute). done.
Qed.
End LoadFacts.

(** ** Instances *)

Module ConfigDemo.
Definition unicode : UnicodeTables := {| is_print_high := fun _ => true |}.
(** Fractions as exact integers. *)
Definition time : GoTime :=
  {| frac_ns f unit digits := (f * unit / 10 ^ Z.of_nat digits)%Z; Duration_String d := Itoa d ++ bs "ns" |}.
Definition floats : FloatParser :=
  {| ParseFloat s := if str_eqb s (bs "60") then Ok sixty else Err (NumError (bs "ParseFloat") s) |}.

(** The environment the package comment speaks of: nothing but a database. *)
Definition minimal : Environment :=
  {| Getenv k := if str_eqb k (bs "AGENTCOOPDB_DATABASE_URL") then bs "postgres://gw@db/x" else [];
     ReadFile _ := Err (errors_New (bs "no such file")) |}.
End ConfigDemo.

#[local] Existing Instance ConfigDemo.unicode.
#[local] Existing Instance ConfigDemo.time.
#[local] Existing Instance ConfigDemo.floats.

Example minimal_loads : is_ok (Load ConfigDemo.minimal) = true.
Proof. by vm_compute. Qed.

Example bad_timeout : Load (with_env ConfigDemo.minimal (bs "AGENTCOOPDB_STATEMENT_TIMEOUT") (bs "1m1s")) =
  Err (ErrFmt [FLit (bs "statement_timeout must be <= 60s, got "); FStr (bs "61000000000ns")]).
Proof. by vm_compute. Qed.

Example bad_conns : Load (with_env ConfigDemo.minimal (bs "AGENTCOOPDB_DATABASE_MAX_CONNS") (bs "2147483648")) =
  Err (ErrWrap [FLit (bs "AGENTCOOPDB_DATABASE_MAX_CONNS: ")]
         (ErrFmt [FLit (bs "strconv.ParseInt: parsing "); FQuote (bs "2147483648"); FLit (bs ": value out of range")]) []).
Proof. by vm_compute. Qed.

Lemma Load_well_formed_witness : ∃ c, Load ConfigDemo.minimal = Ok c ∧ config_ok c.
Proof.
  destruct (Load ConfigDemo.minimal) as [c|e] eqn:E; [|apply (f_equal is_ok) in E; vm_compute in E; discriminate E].
  exists c. split; [reflexivity|]. exact (Load_well_formed ConfigDemo.minimal c E).
Defined.

Lemma usage_defaults_agree_witness :
  Load (with_env ConfigDemo.minimal (bs "AGENTCOOPDB_KEY_ROTATE_OVERLAP") (bs "24h")) = Load ConfigDemo.minimal.
Proof.
  apply (usage_defaults_agree ConfigDemo.minimal (bs "AGENTCOOPDB_KEY_ROTATE_OVERLAP") (bs "24h")).
  - apply (bool_decide_unpack _). by vm_compute.
  - by vm_compute.
  - by vm_compute.
Defined.
