(* ===== verification/Base64.v ===== *)
(** * encoding/base64 without padding

    [base64.RawURLEncoding] names keys and secrets, [base64.RawStdEncoding]
    is used inside the PHC string of a stored hash. The decoder follows Go's:
    carriage returns and line feeds are skipped, any other byte outside the
    alphabet is an error, and the unused low bits of a final short group are
    ignored. *)

From S2P Require Import Prelude.

Definition std_alphabet : bytes :=
  bs "ABCDEFGHIJKLMNOPQRSTUVWXYZabcdefghijklmnopqrstuvwxyz0123456789+/".
Definition url_alphabet : bytes :=
  bs "ABCDEFGHIJKLMNOPQRSTUVWXYZabcdefghijklmnopqrstuvwxyz0123456789-_".

(** The position of a byte in an alphabet. *)
Fixpoint alpha_index (alpha : bytes) (c : byte) : option Z :=
  match alpha with
  | [] => None
  | x :: alpha' => if byte_eqb x c then Some 0%Z else Z.succ <$> alpha_index alpha' c
  end.

Definition alpha_char (alpha : bytes) (i : Z) : byte := nth (Z.to_nat i) alpha x00.

Section Encoding.
Variable alpha : bytes.

Definition sextet (v shift : Z) : byte := alpha_char alpha (v / 2 ^ shift mod 64).

(** [Encoding.EncodeToString] *)
Fixpoint EncodeToString (src : bytes) : bytes :=
  match src with
  | a :: b :: c :: rest =>
      let v := (bz a * 65536 + bz b * 256 + bz c)%Z in
      sextet v 18 :: sextet v 12 :: sextet v 6 :: sextet v 0 :: EncodeToString rest
  | [a; b] =>
      let v := (bz a * 65536 + bz b * 256)%Z in [sextet v 18; sextet v 12; sextet v 6]
  | [a] => let v := (bz a * 65536)%Z in [sextet v 18; sextet v 12]
  | [] => []
  end.

(** Four sextets give three bytes, a final group of three gives two, of two
    gives one; a final single sextet is corrupt input. *)
Fixpoint decode_groups (ds : list Z) : option bytes :=
  match ds with
  | d0 :: d1 :: d2 :: d3 :: rest =>
      let v := (d0 * 2 ^ 18 + d1 * 2 ^ 12 + d2 * 2 ^ 6 + d3)%Z in
      out ← decode_groups rest;
      Some (zb (v / 65536) :: zb (v / 256) :: zb v :: out)
  | [d0; d1; d2] =>
      let v := (d0 * 2 ^ 18 + d1 * 2 ^ 12 + d2 * 2 ^ 6)%Z in
      Some [zb (v / 65536); zb (v / 256)]
  | [d0; d1] =>
      let v := (d0 * 2 ^ 18 + d1 * 2 ^ 12)%Z in Some [zb (v / 65536)]
  | [_] => None
  | [] => Some []
  end.

(** The byte [\r] or [\n], which the decoder skips. *)
Definition is_newline (b : byte) : bool := byte_eqb b x0a || byte_eqb b x0d.

(** [Encoding.DecodeString]; [None] is a [CorruptInputError]. *)
Definition DecodeString (s : bytes) : option bytes :=
  ds ← mapM (alpha_index alpha) (List.filter (fun b => negb (is_newline b)) s);
  decode_groups ds.

(** ** The round trip, for an alphabet of 64 different bytes *)

Definition alphabet_ok : bool :=
  (length alpha =? 64)%nat &&
  forallb (fun n => bool_decide (alpha_index alpha (alpha_char alpha (Z.of_nat n)) = Some (Z.of_nat n)))
    (seq 0 64) &&
  forallb (fun b => negb (is_newline b)) alpha.

Hypothesis Halpha : alphabet_ok = true.

Lemma alpha_index_char i : (0 ≤ i < 64)%Z → alpha_index alpha (alpha_char alpha i) = Some i.
Proof.
  intros Hi. pose proof Halpha as Hok. unfold alphabet_ok in Hok. apply andb_true_iff in Hok as [[Hlen Hidx]%andb_true_iff Hnl]. go_bool.
  rewrite forallb_forall in Hidx. specialize (Hidx (Z.to_nat i)).
  rewrite Z2Nat.id in Hidx by lia. apply (bool_decide_eq_true_1 _), Hidx, in_seq. lia.
Qed.

Lemma alpha_char_in i : (0 ≤ i < 64)%Z → In (alpha_char alpha i) alpha.
Proof.
  intros Hi. pose proof Halpha as Hok. unfold alphabet_ok in Hok. apply andb_true_iff in Hok as [[Hlen Hidx]%andb_true_iff Hnl]. go_bool. apply nth_In. lia.
Qed.

Lemma sextet_in v s : In (sextet v s) alpha.
Proof. apply alpha_char_in, Z.mod_pos_bound. lia. Qed.

Lemma sextet_index v s : alpha_index alpha (sextet v s) = Some (v / 2 ^ s mod 64)%Z.
Proof. apply alpha_index_char, Z.mod_pos_bound. lia. Qed.

(** Induction by groups of three bytes. *)
Lemma group3_ind (P : bytes → Prop) :
  P [] → (∀ a, P [a]) → (∀ a b, P [a; b]) → (∀ a b c r, P r → P (a :: b :: c :: r)) →
  ∀ l, P l.
Proof.
  intros H0 H1 H2 H3 l. remember (length l) as n eqn:E. revert l E.
  induction n as [n IH] using lt_wf_ind. intros [|a [|b [|c r]]] ->; auto.
  apply H3. eapply IH; [|reflexivity]. simpl; lia.
Qed.

Lemma Encode_in src : Forall (fun b => In b alpha) (EncodeToString src).
Proof.
  induction src as [| | |a b c r IH] using group3_ind; simpl;
    repeat constructor; auto using sextet_in.
Qed.

Lemma Encode_length3 src k :
  length src = (3 * k)%nat → length (EncodeToString src) = (4 * k)%nat.
Proof.
  revert k. induction src as [| | |a b c r IH] using group3_ind; simpl; intros k Hk; try lia.
  rewrite (IH (k - 1)%nat); lia.
Qed.

Lemma Encode_no_newline src :
  List.filter (fun b => negb (is_newline b)) (EncodeToString src) = EncodeToString src.
Proof.
  pose proof (Encode_in src) as H. pose proof Halpha as Hok. unfold alphabet_ok in Hok. apply andb_true_iff in Hok as [[Hlen Hidx]%andb_true_iff Hnl]. go_bool.
  rewrite forallb_forall in Hnl.
  induction H as [|x l Hx _ IH]; [done|]; simpl. by rewrite Hnl, IH by done.
Qed.

Lemma decode_encode_groups src :
  mapM (alpha_index alpha) (EncodeToString src) ≫= decode_groups = Some src.
Proof.
  induction src as [|a|a b|a b c r IH] using group3_ind; [done| | |];
    cbn [EncodeToString mapM]; rewrite !sextet_index; cbn -[Z.div Z.modulo Z.pow Z.mul Z.add].
  - pose proof (bz_range a). do 2 f_equal. apply bz_inj; rewrite bz_zb; dlia.
  - pose proof (bz_range a). pose proof (bz_range b).
    f_equal. f_equal; [|f_equal]; apply bz_inj; rewrite bz_zb; dlia.
  - destruct (mapM (alpha_index alpha) (EncodeToString r)) as [ds|]; [|done].
    cbn -[Z.div Z.modulo Z.pow Z.mul Z.add] in *. rewrite IH.
    cbn -[Z.div Z.modulo Z.pow Z.mul Z.add].
    pose proof (bz_range a). pose proof (bz_range b). pose proof (bz_range c).
    f_equal. f_equal; [|f_equal; [|f_equal]]; apply bz_inj; rewrite bz_zb; dlia.
Qed.

Lemma DecodeString_EncodeToString src : DecodeString (EncodeToString src) = Some src.
Proof. unfold DecodeString. rewrite Encode_no_newline. apply decode_encode_groups. Qed.

End Encoding.

Lemma std_alphabet_ok : alphabet_ok std_alphabet = true.
Proof. by vm_compute. Qed.

Lemma url_alphabet_ok : alphabet_ok url_alphabet = true.
Proof. by vm_compute. Qed.

#[export] Hint Resolve std_alphabet_ok url_alphabet_ok : go.
