(* ===== verification/Sha256.v ===== *)
(** * crypto/sha256 and encoding/hex

    SHA-256 (FIPS 180-4) as an executable function on byte strings, checked
    against published test vectors, and the lower-case hexadecimal encoding.
    The gateway hashes bearer tokens for the verify cache, request payloads
    for idempotency and statements for the audit log. *)

From S2P Require Import Prelude.
Local Open Scope Z_scope.

Definition w32 (z : Z) : Z := z mod 2 ^ 32.
Definition add32 (a b : Z) : Z := w32 (a + b).
Definition rotr (n x : Z) : Z := w32 (Z.lor (Z.shiftr x n) (Z.shiftl x (32 - n))).
Definition lnot32 (x : Z) : Z := Z.lxor x 0xFFFFFFFF.

Definition Ch (x y z : Z) : Z := Z.lxor (Z.land x y) (Z.land (lnot32 x) z).
Definition Maj (x y z : Z) : Z := Z.lxor (Z.land x y) (Z.lxor (Z.land x z) (Z.land y z)).
Definition bSig0 (x : Z) : Z := Z.lxor (rotr 2 x) (Z.lxor (rotr 13 x) (rotr 22 x)).
Definition bSig1 (x : Z) : Z := Z.lxor (rotr 6 x) (Z.lxor (rotr 11 x) (rotr 25 x)).
Definition sSig0 (x : Z) : Z := Z.lxor (rotr 7 x) (Z.lxor (rotr 18 x) (Z.shiftr x 3)).
Definition sSig1 (x : Z) : Z := Z.lxor (rotr 17 x) (Z.lxor (rotr 19 x) (Z.shiftr x 10)).

(** The constants, as the standard defines them: the first 32 bits of the
    fractional parts of the roots of the first primes. *)

Definition is_prime (n : Z) : bool :=
  forallb (fun d => negb (n mod Z.of_nat d =? 0)) (seq 2 (Z.to_nat (Z.sqrt n) - 1)).

Definition primes : list Z :=
  List.filter is_prime (Z.of_nat <$> seq 2 310).

(** The largest [r] with [r ^ 3 <= n], by bisection of the bits of [r]. *)
Fixpoint cbrt_bits (bits : nat) (n r : Z) : Z :=
  match bits with
  | O => r
  | S k =>
      let r' := r + 2 ^ Z.of_nat k in
      cbrt_bits k n (if r' * r' * r' <=? n then r' else r)
  end.

Definition K256 : list Z :=
  Eval vm_compute in (fun p => w32 (cbrt_bits 40 (p * 2 ^ 96) 0)) <$> take 64 primes.

Definition H256 : list Z :=
  Eval vm_compute in (fun p => w32 (Z.sqrt (p * 2 ^ 64))) <$> take 8 primes.

(** Big-endian bytes of a number. *)
Fixpoint be_bytes (n : nat) (z : Z) : bytes :=
  match n with
  | O => []
  | S n' => be_bytes n' (z / 256) ++ [zb z]
  end.

Fixpoint be_words (s : bytes) : list Z :=
  match s with
  | a :: b :: c :: d :: s' =>
      bz a * 2 ^ 24 + bz b * 2 ^ 16 + bz c * 2 ^ 8 + bz d :: be_words s'
  | _ => []
  end.

(** Padding to a multiple of 64 bytes, with the bit length at the end. *)
Definition pad (s : bytes) : bytes :=
  let l := length s in
  s ++ x80 :: repeat x00 ((119 - l mod 64) mod 64) ++ be_bytes 8 (8 * Z.of_nat l).

(** The message schedule, most recent word first. *)
Fixpoint extend (n : nat) (w : list Z) : list Z :=
  match n with
  | O => w
  | S n' =>
      extend n' (add32 (add32 (sSig1 (nth 1 w 0)) (nth 6 w 0))
                       (add32 (sSig0 (nth 14 w 0)) (nth 15 w 0)) :: w)
  end.

Definition round (st : list Z) (kw : Z * Z) : list Z :=
  match st with
  | [a; b; c; d; e; f; g; h] =>
      let t1 := add32 (add32 h (bSig1 e)) (add32 (Ch e f g) (add32 kw.1 kw.2)) in
      let t2 := add32 (bSig0 a) (Maj a b c) in
      [add32 t1 t2; a; b; c; add32 d t1; e; f; g]
  | _ => st
  end.

Definition compress (st w16 : list Z) : list Z :=
  let w := rev (extend 48 (rev w16)) in
  zip_with add32 st (fold_left round (zip K256 w) st).

Fixpoint blocks (fuel : nat) (ws : list Z) (st : list Z) : list Z :=
  match fuel with
  | O => st
  | S f => match ws with
           | [] => st
           | _ => blocks f (drop 16 ws) (compress st (take 16 ws))
           end
  end.

(** [sha256.Sum256]; the number of blocks is below the number of words. *)
Definition Sum256 (s : bytes) : bytes :=
  let ws := be_words (pad s) in
  concat (be_bytes 4 <$> blocks (length ws) ws H256).

(** ** encoding/hex *)

Definition hex_digit (z : Z) : byte := nth (Z.to_nat z) (bs "0123456789abcdef") x00.

(** [hex.EncodeToString] *)
Definition hex_encode (s : bytes) : bytes :=
  concat ((fun b => [hex_digit (bz b / 16); hex_digit (bz b mod 16)]) <$> s).

Example Sum256_empty :
  hex_encode (Sum256 []) =
  bs "e3b0c44298fc1c149afbf4c8996fb92427ae41e4649b934ca495991b7852b855".
Proof. by vm_compute. Qed.

Example Sum256_abc :
  hex_encode (Sum256 (bs "abc")) =
  bs "ba7816bf8f01cfea414140de5dae2223b00361a396177a9cb410ff61f20015ad".
Proof. by vm_compute. Qed.

Example Sum256_two_blocks :
  hex_encode (Sum256 (bs "abcdbcdecdefdefgefghfghighijhijkijkljklmklmnlmnomnopnopq")) =
  bs "248d6a61d20638b8e5c026930c3e6039a33ce45964ff2167f6ecedd419db06c1".
Proof. by vm_compute. Qed.

(** ** Hexadecimal text is injective *)

Lemma hex_pair_inj a b :
  hex_digit (bz a / 16) = hex_digit (bz b / 16) →
  hex_digit (bz a mod 16) = hex_digit (bz b mod 16) → a = b.
Proof.
  assert (∀ x y, 0 ≤ x < 16 → 0 ≤ y < 16 → hex_digit x = hex_digit y → x = y) as Hd.
  { intros x y Hx Hy.
    assert (forallb (fun n => forallb (fun m =>
      implb (byte_eqb (hex_digit (Z.of_nat n)) (hex_digit (Z.of_nat m))) (n =? m)%nat)
      (seq 0 16)) (seq 0 16) = true) as Hall by (by vm_compute).
    rewrite forallb_forall in Hall. specialize (Hall (Z.to_nat x) ltac:(apply in_seq; lia)).
    rewrite forallb_forall in Hall. specialize (Hall (Z.to_nat y) ltac:(apply in_seq; lia)).
    rewrite !Z2Nat.id in Hall by lia. intros E. rewrite E, byte_eqb_refl in Hall. simpl in Hall.
    go_bool. lia. }
  intros H1 H2. pose proof (bz_range a). pose proof (bz_range b).
  apply Hd in H1; [|dlia..]. apply Hd in H2; [|dlia..]. apply bz_inj. dlia.
Qed.

Lemma hex_encode_inj s t : hex_encode s = hex_encode t → s = t.
Proof.
  revert t. induction s as [|a s IH]; intros [|b t]; simpl; [done..|].
  intros H. injection H as H1 H2 H3. f_equal; [by apply hex_pair_inj|by apply IH].
Qed.
