(* ===== verification/AuthKey.v ===== *)
(** * internal/auth/key.go: API keys

    The bearer token format [acd_<env>_<key_id>_<secret>], its parser and its
    generator, the PHC encoding of argon2id hashes, their verification, and the
    row of [api_keys]. argon2id itself is a parameter; random bytes are
    arguments, one per [rand.Read] of the source. *)

From S2P Require Import Prelude GoStrings GoErrors Base64 Sha256.

(** ** Key environments *)

Definition EnvLive : bytes := bs "live".
Definition EnvDev : bytes := bs "dev".
Definition EnvTest : bytes := bs "test".

Definition IsValid (e : bytes) : bool :=
  str_eqb e EnvLive || str_eqb e EnvDev || str_eqb e EnvTest.

Definition argonTime : Z := 2.
Definition argonMemory : Z := 64 * 1024.
Definition argonThreads : Z := 2.
Definition argonKeyLen : Z := 32.
Definition argonSaltLen : nat := 16.
Definition keyIDRawBytes : nat := 12.
Definition secretRawBytes : nat := 24.
Definition keyIDEncodedLen : nat := 16.
Definition secretEncodedLen : nat := 32.

(** [argon2.Version] of golang.org/x/crypto/argon2 (the PHC field [v=19]). *)
Definition argon2_Version : Z := 19.

Record ParsedKey : Type := {
  pk_Env : bytes;
  pk_KeyID : bytes;
  pk_Secret : bytes;
  pk_FullToken : bytes;
}.

(** ** Parsing a token *)

Definition ParseBearer (header0 : bytes) : res error ParsedKey :=
  let header1 := TrimSpace header0 in
  if str_eqb header1 [] then Err ErrInvalidKey else
  let header := TrimSpace (TrimPrefix header1 (bs "Bearer ")) in
  if negb (HasPrefix header (bs "acd_")) then Err ErrInvalidKey else
  let rest := drop (length (bs "acd_")) header in
  match IndexByte rest "_" with
  | None | Some O => Err ErrInvalidKey
  | Some sep =>
      let env := take sep rest in
      if negb (IsValid env) then Err ErrInvalidKey else
      let rest := drop (sep + 1) rest in
      if negb (length rest =? keyIDEncodedLen + 1 + secretEncodedLen)%nat then Err ErrInvalidKey else
      if negb (bool_decide (rest !! keyIDEncodedLen = Some "_"%byte)) then Err ErrInvalidKey else
      Ok {| pk_Env := env;
            pk_KeyID := take keyIDEncodedLen rest;
            pk_Secret := drop (keyIDEncodedLen + 1) rest;
            pk_FullToken := header |}
  end.

(** ** Generating a token *)

(** The token string [acd_<env>_<keyID>_<secret>]. *)
Definition format_token (env keyID secret : bytes) : bytes :=
  bs "acd_" ++ env ++ bs "_" ++ keyID ++ bs "_" ++ secret.

(** [Mint(env)]; [idRand] and [secRand] are the outcomes of the two reads from
    crypto/rand. *)
Definition Mint (idRand secRand : res error bytes) (env : bytes) : res error (bytes * bytes * bytes) :=
  if negb (IsValid env) then
    Err (ErrFmt [FLit (bs "auth.Mint: invalid env "); FQuote env])
  else
    let! idBytes := idRand in
    let! secBytes := secRand in
    let keyID := EncodeToString url_alphabet idBytes in
    let secret := EncodeToString url_alphabet secBytes in
    Ok (keyID, secret, format_token env keyID secret).

(** ** fmt.Sscanf for the formats of VerifySecret *)

(** [ss.SkipSpace] with newlines not counted as space; [None] is an error. *)
Fixpoint skip_space (fuel : nat) (s : bytes) : option bytes :=
  match fuel, s with
  | S f, _ :: _ =>
      let '(r, w) := DecodeRune s in
      if (r =? 10)%Z then None
      else if IsSpace r then skip_space f (drop w s) else Some s
  | _, _ => Some s
  end.

Fixpoint span_digits (s : bytes) : bytes * bytes :=
  match s with
  | c :: s' => if is_digit c then let '(d, r) := span_digits s' in (c :: d, r) else ([], s)
  | [] => ([], [])
  end.

(** [%d] into a signed 64-bit integer, and into an unsigned one of [bits] bits. *)
Definition scan_int (s : bytes) : option (Z * bytes) :=
  s ← skip_space (length s) s;
  let '(sign, s) :=
    match s with
    | c :: s' => if byte_eqb c "+" || byte_eqb c "-" then ([c], s') else ([], s)
    | [] => ([], s)
    end in
  let '(ds, rest) := span_digits s in
  match ds with
  | [] => None
  | _ => n ← ParseInt 64 (sign ++ ds); Some (n, rest)
  end.

Definition scan_uint (bits : Z) (s : bytes) : option (Z * bytes) :=
  s ← skip_space (length s) s;
  let '(ds, rest) := span_digits s in
  match ds with
  | [] => None
  | _ => n ← ParseUint 64 ds; if (n <? 2 ^ bits)%Z then Some (n, rest) else None
  end.

(** Literal text of a format must be matched byte for byte. *)
Definition scan_lit (lit s : bytes) : option bytes :=
  if HasPrefix s lit then Some (drop (length lit) s) else None.

(** [fmt.Sscanf(s, "v=%d", &version)]; input after the last verb is ignored. *)
Definition scan_version (s : bytes) : option Z :=
  s ← scan_lit (bs "v=") s; fst <$> scan_int s.

(** [fmt.Sscanf(s, "m=%d,t=%d,p=%d", &m, &t, &p)] with uint32, uint32, uint8. *)
Definition scan_params (s : bytes) : option (Z * Z * Z) :=
  s ← scan_lit (bs "m=") s;
  '(m, s) ← scan_uint 32 s;
  s ← scan_lit (bs ",t=") s;
  '(t, s) ← scan_uint 32 s;
  s ← scan_lit (bs ",p=") s;
  '(p, _) ← scan_uint 8 s;
  Some (m, t, p).

(** ** Constant-time comparison *)

Definition subtleConstantTimeEq (a b : bytes) : bool :=
  if negb (length a =? length b)%nat then false else
  (fold_left (fun v p => Z.lor v (Z.lxor (bz (fst p)) (bz (snd p)))) (zip a b) 0 =? 0)%Z.

(** ** Hashing and verification, over an argon2id implementation *)

(** [argon2.IDKey] panics on a time or thread count below one. *)
Definition IDKey_panics (time threads : Z) : bool := (time <? 1)%Z || (threads <? 1)%Z.

Section Argon2.
(** [argon2.IDKey(password, salt, time, memory, threads, keyLen)], on the
    parameters it does not reject. *)
Variable IDKey : bytes → bytes → Z → Z → Z → Z → bytes.

(** The PHC string of a hash. *)
Definition format_phc (salt hash : bytes) : bytes :=
  bs "$argon2id$v=" ++ Itoa argon2_Version ++ bs "$m=" ++ Itoa argonMemory ++
  bs ",t=" ++ Itoa argonTime ++ bs ",p=" ++ Itoa argonThreads ++
  bs "$" ++ EncodeToString std_alphabet salt ++ bs "$" ++ EncodeToString std_alphabet hash.

(** [HashSecret(secret)]; [saltRand] is the outcome of the read from
    crypto/rand. The pinned parameters are in the domain of [IDKey]. *)
Definition HashSecret (saltRand : res error bytes) (secret : bytes) : res error bytes :=
  let! salt := saltRand in
  let hash := IDKey secret salt argonTime argonMemory argonThreads argonKeyLen in
  Ok (format_phc salt hash).

(** [VerifySecret(secret, phc)]; [None] is a panic of argon2. *)
Definition VerifySecret (secret phc : bytes) : option (res error unit) :=
  match Split phc "$" with
  | [_; alg; ver; params; saltB64; hashB64] =>
      if negb (str_eqb alg (bs "argon2id")) then Some (Err ErrInvalidKey) else
      match scan_version ver with
      | None => Some (Err ErrInvalidKey)
      | Some version =>
          if negb (version =? argon2_Version)%Z then Some (Err ErrInvalidKey) else
          match scan_params params with
          | None => Some (Err ErrInvalidKey)
          | Some (m, t, p) =>
              match DecodeString std_alphabet saltB64 with
              | None => Some (Err ErrInvalidKey)
              | Some salt =>
                  match DecodeString std_alphabet hashB64 with
                  | None => Some (Err ErrInvalidKey)
                  | Some want =>
                      if negb (Z.of_nat (length want) =? argonKeyLen)%Z
                      then Some (Err ErrInvalidKey) else
                      if IDKey_panics t p then None else
                      let got := IDKey secret salt t m p argonKeyLen in
                      if subtleConstantTimeEq got want then Some (Ok tt)
                      else Some (Err ErrInvalidKey)
                  end
              end
          end
      end
  | _ => Some (Err ErrInvalidKey)
  end.

(** [DummyHash()]; [saltRand] is the salt drawn the one time the hash is computed. *)
Definition DummyHash (saltRand : res error bytes) : bytes :=
  match HashSecret saltRand (bs "agentcoopdb_dummy_secret_for_timing_safety") with
  | Ok h => h
  | Err _ => []
  end.

End Argon2.

(** Method [CacheKey] of [*ParsedKey]. *)
Definition CacheKey (p : ParsedKey) : bytes := hex_encode (Sum256 (pk_FullToken p)).

(** ** Rows of api_keys *)

(** Times are nanoseconds; a nil pointer is [None]. *)
Record KeyRecord : Type := {
  kr_ID : bytes;
  kr_WorkspaceID : bytes;
  kr_KeyID : bytes;
  kr_SecretHash : bytes;
  kr_Env : bytes;
  kr_PgRole : bytes;
  kr_Name : bytes;
  kr_CreatedAt : Z;
  kr_LastUsedAt : option Z;
  kr_ExpiresAt : option Z;
  kr_RevokedAt : option Z;
  kr_ReplacesKeyID : option bytes;
}.

(** Method [Active(now)] of [*KeyRecord]. *)
Definition Active (r : KeyRecord) (now : Z) : bool :=
  match kr_RevokedAt r with
  | Some _ => false
  | None =>
      match kr_ExpiresAt r with
      | Some e => (now <? e)%Z
      | None => true
      end
  end.

(** ** The token format *)

Lemma IsValid_cases env :
  IsValid env = true → env = bs "live" ∨ env = bs "dev" ∨ env = bs "test".
Proof.
  unfold IsValid, EnvLive, EnvDev, EnvTest. rewrite !orb_true_iff, !str_eqb_eq. tauto.
Qed.

Lemma IsValid_shape env : IsValid env = true → ("_"%byte ∉ env) ∧ length env ≠ 0.
Proof.
  intros H%IsValid_cases; destruct H as [->|[->| ->]]; (split; [|done]);
    apply (bool_decide_unpack _); by vm_compute.
Qed.

Lemma url_char_plain b : In b url_alphabet → plain b = true.
Proof. apply forallb_forall. by vm_compute. Qed.

Lemma format_token_ends env keyID secret u c :
  secret = u ++ [c] →
  ∃ t v, format_token env keyID secret = "a"%byte :: t ∧
         format_token env keyID secret = v ++ [c].
Proof.
  intros ->. unfold format_token.
  eexists _, (bs "acd_" ++ env ++ bs "_" ++ keyID ++ bs "_" ++ u).
  split; [reflexivity|]. by rewrite <- !app_assoc.
Qed.

(** The parser on a token of the right shape, already stripped of blanks. *)
Definition parse_token (header : bytes) : res error ParsedKey :=
  if negb (HasPrefix header (bs "acd_")) then Err ErrInvalidKey else
  let rest := drop (length (bs "acd_")) header in
  match IndexByte rest "_" with
  | None | Some O => Err ErrInvalidKey
  | Some sep =>
      let env := take sep rest in
      if negb (IsValid env) then Err ErrInvalidKey else
      let rest := drop (sep + 1) rest in
      if negb (length rest =? keyIDEncodedLen + 1 + secretEncodedLen)%nat then Err ErrInvalidKey else
      if negb (bool_decide (rest !! keyIDEncodedLen = Some "_"%byte)) then Err ErrInvalidKey else
      Ok {| pk_Env := env; pk_KeyID := take keyIDEncodedLen rest;
            pk_Secret := drop (keyIDEncodedLen + 1) rest; pk_FullToken := header |}
  end.

Lemma ParseBearer_parse_token h :
  TrimSpace h ≠ [] →
  ParseBearer h = parse_token (TrimSpace (TrimPrefix (TrimSpace h) (bs "Bearer "))).
Proof.
  intros H. unfold ParseBearer. cbv zeta.
  destruct (str_eqb (TrimSpace h) []) eqn:E; [go_bool; done|done].
Qed.

Lemma parse_format_token env keyID secret :
  IsValid env = true → length keyID = 16 → length secret = 32 →
  parse_token (format_token env keyID secret) =
  Ok {| pk_Env := env; pk_KeyID := keyID; pk_Secret := secret;
        pk_FullToken := format_token env keyID secret |}.
Proof.
  intros Hv Hk Hs. destruct (IsValid_shape _ Hv) as [Hu Hl].
  unfold parse_token, format_token. rewrite HasPrefix_app, drop_app_length. cbn [negb].
  change (bs "_") with ["_"%byte]. cbn [app]. rewrite IndexByte_app by done. cbv zeta.
  destruct (length env) as [|n] eqn:En; [done|].
  rewrite take_app_exact, Hv by done. cbn [negb].
  replace (drop (S n + 1) (env ++ "_"%byte :: keyID ++ "_"%byte :: secret))
    with (keyID ++ "_"%byte :: secret)
    by (rewrite <- En, <- drop_drop, drop_app_length; done).
  assert (length (keyID ++ "_"%byte :: secret) = 49) as ->
    by (rewrite length_app; simpl; lia).
  assert ((keyID ++ "_"%byte :: secret) !! keyIDEncodedLen = Some "_"%byte) as ->
    by (by rewrite lookup_app_r, Hk by (unfold keyIDEncodedLen; lia)).
  rewrite (bool_decide_true (_ = _)) by done. cbn -[take drop app bs].
  rewrite (take_app_exact keyID) by done.
  replace (drop 17 (keyID ++ "_"%byte :: secret)) with secret; [done|].
  change 17 with (16 + 1). by rewrite <- Hk, <- drop_drop, drop_app_length.
Qed.

Lemma parse_token_inv h p :
  parse_token h = Ok p →
  IsValid (pk_Env p) = true ∧ length (pk_KeyID p) = 16 ∧ length (pk_Secret p) = 32 ∧
  pk_FullToken p = h ∧ h = format_token (pk_Env p) (pk_KeyID p) (pk_Secret p).
Proof.
  unfold parse_token. intros H.
  destruct (HasPrefix h (bs "acd_")) eqn:Hp; [|done]. cbn [negb] in H.
  apply HasPrefix_spec in Hp as [rest ->]. rewrite drop_app_length in H. cbv zeta in H.
  destruct (IndexByte rest "_") as [[|n]|] eqn:Hi; [done| |done].
  apply IndexByte_Some in Hi as (env & t & -> & Hn & Hu).
  rewrite take_app_exact in H by done.
  destruct (IsValid env) eqn:Hv; [|done]. cbn [negb] in H.
  rewrite <- Hn, <- drop_drop, drop_app_length in H. cbn [drop] in H.
  rewrite drop_0 in H. destruct (Nat.eqb (length t) _) eqn:Hl; [|done]. cbn [negb] in H. go_bool.
  case_bool_decide as Hx; [|done]. cbn [negb] in H. simplify_eq; simpl.
  unfold keyIDEncodedLen, secretEncodedLen in *.
  rewrite length_take, length_drop. repeat split; [done|lia|lia|].
  unfold format_token. do 3 f_equal. simpl. f_equal.
  rewrite <- (take_drop_middle _ _ _ Hx) at 1. done.
Qed.

Lemma format_token_inj e1 k1 s1 e2 k2 s2 :
  IsValid e1 = true → length k1 = 16 → length s1 = 32 →
  IsValid e2 = true → length k2 = 16 → length s2 = 32 →
  format_token e1 k1 s1 = format_token e2 k2 s2 → e1 = e2 ∧ k1 = k2 ∧ s1 = s2.
Proof.
  intros Hv1 Hk1 Hs1 ??? E. pose proof (parse_format_token e1 k1 s1 Hv1 Hk1 Hs1) as Hp.
  rewrite E, parse_format_token in Hp by done. naive_solver.
Qed.

Lemma ParseBearer_inv h p :
  ParseBearer h = Ok p →
  IsValid (pk_Env p) = true ∧ length (pk_KeyID p) = 16 ∧ length (pk_Secret p) = 32 ∧
  pk_FullToken p = TrimSpace (TrimPrefix (TrimSpace h) (bs "Bearer ")) ∧
  pk_FullToken p = format_token (pk_Env p) (pk_KeyID p) (pk_Secret p).
Proof.
  intros H. destruct (decide (TrimSpace h = [])) as [E|E].
  - unfold ParseBearer in H. by rewrite E in H.
  - rewrite ParseBearer_parse_token in H by done.
    apply parse_token_inv in H as (? & ? & ? & Hf & Heq). rewrite Hf. auto.
Qed.

(** Blanks around the header and after the scheme name are ignored. *)
Lemma ParseBearer_format_token ws1 ws2 ws3 env keyID secret (scheme : bool) u c :
  Forall (fun b => blank b = true) ws1 → Forall (fun b => blank b = true) ws2 →
  Forall (fun b => blank b = true) ws3 →
  IsValid env = true → length keyID = 16 → length secret = 32 →
  secret = u ++ [c] → plain c = true →
  ParseBearer (ws1 ++ (if scheme then bs "Bearer " ++ ws3 else []) ++
               format_token env keyID secret ++ ws2) =
  Ok {| pk_Env := env; pk_KeyID := keyID; pk_Secret := secret;
        pk_FullToken := format_token env keyID secret |}.
Proof.
  intros H1 H2 H3 Hv Hk Hs Hsec Hc.
  destruct (format_token_ends env keyID secret u c Hsec) as (t & v & Ea & Eb).
  assert (TrimSpace (format_token env keyID secret) = format_token env keyID secret) as Hid
    by (by eapply TrimSpace_id).
  rewrite <- (parse_format_token env keyID secret) by done.
  destruct scheme.
  - rewrite app_assoc with (l := ws1).
    assert (TrimSpace (ws1 ++ (bs "Bearer " ++ ws3 ++ format_token env keyID secret) ++ ws2) =
            bs "Bearer " ++ ws3 ++ format_token env keyID secret) as Ht.
    { eapply TrimSpace_around with (b := "B"%byte); [done..|reflexivity| |done|exact Hc].
      rewrite Eb, !app_assoc. done. }
    rewrite <- !app_assoc in Ht |- *.
    rewrite ParseBearer_parse_token; rewrite Ht; [|done].
    rewrite TrimPrefix_app. f_equal.
    rewrite <- (app_nil_r (format_token env keyID secret)) at 1.
    eapply TrimSpace_around; try done; by constructor.
  - cbn [app].
    assert (TrimSpace (ws1 ++ format_token env keyID secret ++ ws2) =
            format_token env keyID secret) as Ht by (by eapply TrimSpace_around).
    rewrite ParseBearer_parse_token; rewrite Ht; [|by rewrite Ea].
    f_equal. by rewrite Ea in Hid |- *.
Qed.

Lemma encoded_last src :
  length src ≠ 0 → ∃ u c, EncodeToString url_alphabet src = u ++ [c] ∧ plain c = true.
Proof.
  intros Hl. pose proof (Encode_in url_alphabet url_alphabet_ok src) as Hin.
  destruct (EncodeToString url_alphabet src) as [|x l _] eqn:E using rev_ind.
  - destruct src as [|? [|? [|? ?]]]; done.
  - exists l, x. split; [done|]. apply Forall_app in Hin as [_ Hx].
    inversion Hx; subst. by apply url_char_plain.
Qed.

Lemma Mint_parse ws1 ws2 ws3 (scheme : bool) env idB secB keyID secret token :
  Forall (fun b => blank b = true) ws1 → Forall (fun b => blank b = true) ws2 →
  Forall (fun b => blank b = true) ws3 →
  length idB = keyIDRawBytes → length secB = secretRawBytes →
  Mint (Ok idB) (Ok secB) env = Ok (keyID, secret, token) →
  ParseBearer (ws1 ++ (if scheme then bs "Bearer " ++ ws3 else []) ++ token ++ ws2) =
  Ok {| pk_Env := env; pk_KeyID := keyID; pk_Secret := secret; pk_FullToken := token |}.
Proof.
  intros H1 H2 H3 Hi Hs. unfold Mint. destruct (IsValid env) eqn:Hv; cbn [negb res_bind]; [|done].
  intros [= <- <- <-].
  destruct (encoded_last secB) as (u & c & Hu & Hc); [by rewrite Hs|].
  eapply ParseBearer_format_token; try done.
  - by apply (Encode_length3 _ _ 4).
  - by apply (Encode_length3 _ _ 8).
Qed.

(** C27: Every token [Mint] produces is accepted by [ParseBearer], whatever the
    12 and 24 random bytes are (underscores in the base64url text included),
    with or without the Bearer scheme and with blanks around it, and the parser
    returns exactly the environment, key id and secret that were minted. *)
Theorem ParseBearer_Mint ws1 ws2 ws3 (scheme : bool) env idB secB :
  Forall (fun b => blank b = true) ws1 → Forall (fun b => blank b = true) ws2 →
  Forall (fun b => blank b = true) ws3 →
  IsValid env = true → length idB = keyIDRawBytes → length secB = secretRawBytes →
  ∃ keyID secret token,
    Mint (Ok idB) (Ok secB) env = Ok (keyID, secret, token) ∧
    ParseBearer (ws1 ++ (if scheme then bs "Bearer " ++ ws3 else []) ++ token ++ ws2) =
    Ok {| pk_Env := env; pk_KeyID := keyID; pk_Secret := secret; pk_FullToken := token |}.
Proof.
  intros H1 H2 H3 Hv Hi Hs. eexists _, _, _.
  assert (Mint (Ok idB) (Ok secB) env = Ok (_, _, _)) as Hm
    by (unfold Mint; rewrite Hv; reflexivity).
  split; [exact Hm|]. by eapply Mint_parse.
Qed.

Lemma ParseBearer_Mint_witness :
  ∃ keyID secret token,
    Mint (Ok (repeat xff 12)) (Ok (repeat xfb 24)) (bs "live") = Ok (keyID, secret, token) ∧
    ParseBearer ([x20] ++ (if true then bs "Bearer " ++ [] else []) ++ token ++ [x0a]) =
    Ok {| pk_Env := bs "live"; pk_KeyID := keyID; pk_Secret := secret; pk_FullToken := token |}.
Proof.
  apply (ParseBearer_Mint [x20] [x0a] [] true (bs "live") (repeat xff 12) (repeat xfb 24));
    repeat constructor.
Defined.

(** A header [ParseBearer] accepts is, after trimming and removal of the
    scheme, exactly the concatenation of the parsed fields in the documented
    format: a known environment, a 16-byte key id and a 32-byte secret; and the
    token text determines these fields uniquely. *)
Theorem ParseBearer_sound h1 h2 p1 p2 :
  ParseBearer h1 = Ok p1 → ParseBearer h2 = Ok p2 →
  (IsValid (pk_Env p1) = true ∧ length (pk_KeyID p1) = keyIDEncodedLen ∧
   length (pk_Secret p1) = secretEncodedLen ∧
   pk_FullToken p1 = format_token (pk_Env p1) (pk_KeyID p1) (pk_Secret p1) ∧
   pk_FullToken p1 = TrimSpace (TrimPrefix (TrimSpace h1) (bs "Bearer "))) ∧
  (pk_FullToken p1 = pk_FullToken p2 → p1 = p2).
Proof.
  intros H1%ParseBearer_inv H2%ParseBearer_inv.
  destruct H1 as (Hv1 & Hk1 & Hs1 & Ht1 & Hf1), H2 as (Hv2 & Hk2 & Hs2 & Ht2 & Hf2).
  split; [by repeat split|]. intros E.
  rewrite Hf1, Hf2 in E. apply format_token_inj in E as (?&?&?); [|done..].
  destruct p1, p2; simpl in *; congruence.
Qed.

Lemma ParseBearer_sound_witness :
  ∃ p, ParseBearer (bs " Bearer acd_dev_0123456789abc_ef_0123456789abcdef0123456789abcde_") = Ok p ∧
       pk_KeyID p = bs "0123456789abc_ef".
Proof.
  eexists. split; [by vm_compute|].
  assert (Hp : ParseBearer (bs "acd_dev_0123456789abc_ef_0123456789abcdef0123456789abcde_") =
    Ok {| pk_Env := bs "dev"; pk_KeyID := bs "0123456789abc_ef";
          pk_Secret := bs "0123456789abcdef0123456789abcde_";
          pk_FullToken := bs "acd_dev_0123456789abc_ef_0123456789abcdef0123456789abcde_" |})
    by (by vm_compute).
  destruct (ParseBearer_sound _ _ _ _ Hp Hp) as [(_ & _ & _ & _ & _) _]. by vm_compute.
Defined.

(** ** Comparison and verification *)

Lemma lxor_byte_zero a b : Z.lxor (bz a) (bz b) = 0%Z ↔ a = b.
Proof. rewrite Z.lxor_eq_0_iff. split; [apply bz_inj|congruence]. Qed.

Lemma fold_lor_zero (l : list (byte * byte)) v :
  fold_left (fun v p => Z.lor v (Z.lxor (bz (fst p)) (bz (snd p)))) l v = 0%Z ↔
  v = 0%Z ∧ Forall (fun p => fst p = snd p) l.
Proof.
  revert v. induction l as [|[a b] l IH]; intros v; simpl; [naive_solver|].
  rewrite IH, Z.lor_eq_0_iff, lxor_byte_zero, Forall_cons_iff. simpl. tauto.
Qed.

Lemma consttime_eq a b : subtleConstantTimeEq a b = bool_decide (a = b).
Proof.
  unfold subtleConstantTimeEq. destruct (Nat.eqb_spec (length a) (length b)) as [Hl|Hl];
    cbn [negb]; [|symmetry; apply bool_decide_eq_false; congruence].
  apply Bool.eq_iff_eq_true. rewrite Z.eqb_eq, fold_lor_zero, bool_decide_eq_true.
  revert b Hl. induction a as [|x a IH]; intros [|y b] Hl; simpl in *; try done.
  injection Hl as Hl. rewrite Forall_cons_iff; simpl. specialize (IH _ Hl).
  split; [|intros [= -> ->]; naive_solver]. intros [_ [-> ?]]. f_equal. naive_solver.
Qed.

(** The accumulating comparison of [subtleConstantTimeEq] (or-ing the xor of
    every pair of bytes) decides equality of byte strings: no length or position
    is lost, for arrays of any lengths. *)
Theorem subtleConstantTimeEq_spec a b : subtleConstantTimeEq a b = true ↔ a = b.
Proof. rewrite consttime_eq. apply bool_decide_eq_true. Qed.

Lemma std_char_no_dollar b : In b std_alphabet → b ≠ "$"%byte.
Proof. intros H ->. by vm_compute in H; intuition. Qed.

Lemma std_encoded_no_dollar src : "$"%byte ∉ EncodeToString std_alphabet src.
Proof.
  intros Hin. pose proof (Encode_in std_alphabet std_alphabet_ok src) as Hf.
  rewrite Forall_forall in Hf. apply list_elem_of_In, Hf in Hin.
  by apply std_char_no_dollar in Hin.
Qed.

Lemma format_phc_split salt hash :
  Split (format_phc salt hash) "$" =
  [[]; bs "argon2id"; bs "v=19"; bs "m=65536,t=2,p=2";
   EncodeToString std_alphabet salt; EncodeToString std_alphabet hash].
Proof.
  assert (format_phc salt hash =
    "$"%byte :: bs "argon2id" ++ "$"%byte :: bs "v=19" ++ "$"%byte :: bs "m=65536,t=2,p=2" ++
    "$"%byte :: EncodeToString std_alphabet salt ++ "$"%byte :: EncodeToString std_alphabet hash)
    as -> by reflexivity.
  rewrite Split_cons_sep, !Split_app_sep, Split_no_sep; try done.
  1, 2: apply std_encoded_no_dollar.
  all: apply (bool_decide_unpack _); by vm_compute.
Qed.

Section Argon2Facts.
Variable IDKey : bytes → bytes → Z → Z → Z → Z → bytes.

(** Against a hash the gateway stored, [VerifySecret] recomputes argon2id with
    the salt and the pinned cost parameters. *)
Lemma VerifySecret_stored secret salt hash :
  length hash = 32 →
  VerifySecret IDKey secret (format_phc salt hash) =
  Some (if bool_decide (IDKey secret salt argonTime argonMemory argonThreads argonKeyLen = hash)
        then Ok tt else Err ErrInvalidKey).
Proof.
  intros Hl. unfold VerifySecret. rewrite format_phc_split.
  change (scan_version (bs "v=19")) with (Some 19%Z).
  change (scan_params (bs "m=65536,t=2,p=2")) with (Some (65536, 2, 2)%Z).
  rewrite !DecodeString_EncodeToString by apply std_alphabet_ok.
  rewrite Hl. cbn -[subtleConstantTimeEq]. rewrite consttime_eq.
  change argonTime with 2%Z. change argonMemory with 65536%Z.
  change argonThreads with 2%Z. change argonKeyLen with 32%Z. by case_bool_decide.
Qed.

Lemma VerifySecret_HashSecret_ok secret salt phc :
  length (IDKey secret salt argonTime argonMemory argonThreads argonKeyLen) = 32 →
  HashSecret IDKey (Ok salt) secret = Ok phc →
  VerifySecret IDKey secret phc = Some (Ok tt).
Proof.
  unfold HashSecret. simpl. intros Hl [= <-]. rewrite VerifySecret_stored by done.
  by rewrite bool_decide_true.
Qed.

(** Verifying against the dummy hash costs time and cannot panic. *)
Lemma VerifySecret_DummyHash secret saltRand :
  (∀ pw salt, length (IDKey pw salt argonTime argonMemory argonThreads argonKeyLen) = 32) →
  VerifySecret IDKey secret (DummyHash IDKey saltRand) ≠ None.
Proof.
  intros Hl. unfold DummyHash, HashSecret. destruct saltRand as [salt|e]; simpl; [|done].
  by rewrite VerifySecret_stored.
Qed.

(** C28: A secret hashed with [HashSecret] is accepted by [VerifySecret], and
    any other presented secret is accepted exactly when argon2id maps it, with
    the stored salt and the pinned cost parameters, to the same 32 bytes; no
    secret makes the verification of a stored hash panic. The whole PHC text
    format (printing, splitting, number scanning, base64) is covered. *)
Theorem VerifySecret_HashSecret secret salt :
  Z.of_nat (length (IDKey secret salt argonTime argonMemory argonThreads argonKeyLen)) =
    argonKeyLen →
  ∃ phc, HashSecret IDKey (Ok salt) secret = Ok phc ∧
    VerifySecret IDKey secret phc = Some (Ok tt) ∧
    ∀ other,
      (VerifySecret IDKey other phc = Some (Ok tt) ↔
       IDKey other salt argonTime argonMemory argonThreads argonKeyLen =
       IDKey secret salt argonTime argonMemory argonThreads argonKeyLen) ∧
      VerifySecret IDKey other phc ≠ None.
Proof.
  intros Hl. eexists. split; [reflexivity|].
  split; [|intros other]; rewrite VerifySecret_stored by (unfold argonKeyLen in *; lia).
  - by rewrite bool_decide_true.
  - case_bool_decide; split; naive_solver.
Qed.
End Argon2Facts.

(** A stand-in for argon2id with its interface: 32 bytes from the password. *)
Definition toy_IDKey (pw salt : bytes) (t m p len : Z) : bytes :=
  take 32 (pw ++ repeat x00 32).

Lemma toy_IDKey_length pw salt t m p len : length (toy_IDKey pw salt t m p len) = 32.
Proof. unfold toy_IDKey. rewrite length_take, length_app, repeat_length. lia. Qed.

Lemma VerifySecret_HashSecret_witness :
  ∃ phc, HashSecret toy_IDKey (Ok (repeat x07 16)) (bs "s3cret") = Ok phc ∧
    VerifySecret toy_IDKey (bs "s3cret") phc = Some (Ok tt) ∧
    VerifySecret toy_IDKey (bs "other") phc ≠ Some (Ok tt).
Proof.
  destruct (VerifySecret_HashSecret toy_IDKey (bs "s3cret") (repeat x07 16))
    as (phc & H1 & H2 & H3); [by vm_compute|].
  exists phc. split; [exact H1|split; [exact H2|]].
  destruct (H3 (bs "other")) as [-> _]. by vm_compute.
Defined.

(** ** Active keys *)

(** A key is usable at [now] exactly when it is not revoked and its expiry,
    if any, lies strictly in the future; so once inactive it stays inactive. *)
Theorem Active_spec r now now' :
  (Active r now = true ↔ kr_RevokedAt r = None ∧ ∀ e, kr_ExpiresAt r = Some e → (now < e)%Z) ∧
  ((now ≤ now')%Z → Active r now = false → Active r now' = false).
Proof.
  unfold Active. destruct (kr_RevokedAt r), (kr_ExpiresAt r) as [e|]; split;
    rewrite ?Z.ltb_lt, ?Z.ltb_ge; try naive_solver lia.
Qed.
