(* ===== verification/Lru.v ===== *)
(** * The LRU cache interface (github.com/hashicorp/golang-lru/v2)

    The gateway uses a bounded LRU map from strings for the verify cache and
    for the per-key token buckets. The package is not part of the repository:
    clients are proved against the class [LRU] and its documented laws
    [LRULaws], and a list implementation shows that the laws can be met. *)

From S2P Require Import Prelude.
From stdpp Require Export gmap.

Class LRU (V : Type) : Type := {
  lru : Type;
  lru_new : nat → lru;
  lru_get : lru → bytes → option V * lru;
  lru_add : lru → bytes → V → lru;
  lru_remove : lru → bytes → lru;
  lru_len : lru → nat;
  (** the entries held, and the capacity *)
  lru_contents : lru → gmap bytes V;
  lru_cap : lru → nat;
}.

Class LRULaws (V : Type) `{LRU V} : Prop := {
  lru_new_contents n : lru_contents (lru_new n) = ∅;
  lru_new_cap n : lru_cap (lru_new n) = n;
  lru_get_value c k : (lru_get c k).1 = lru_contents c !! k;
  lru_get_contents c k : lru_contents (lru_get c k).2 = lru_contents c;
  lru_get_cap c k : lru_cap (lru_get c k).2 = lru_cap c;
  lru_add_same c k v : 0 < lru_cap c → lru_contents (lru_add c k v) !! k = Some v;
  lru_add_value c k v w : lru_contents (lru_add c k v) !! k = Some w → w = v;
  lru_add_other c k v k' w :
    k' ≠ k → lru_contents (lru_add c k v) !! k' = Some w → lru_contents c !! k' = Some w;
  (** no eviction below the capacity *)
  lru_add_room c k v :
    size (lru_contents c) < lru_cap c → lru_contents (lru_add c k v) = <[k:=v]> (lru_contents c);
  lru_add_cap c k v : lru_cap (lru_add c k v) = lru_cap c;
  lru_remove_contents c k : lru_contents (lru_remove c k) = delete k (lru_contents c);
  lru_remove_cap c k : lru_cap (lru_remove c k) = lru_cap c;
  lru_len_contents c : lru_len c = size (lru_contents c);
}.

(** ** A list implementation, most recently used first *)

Section ListLru.
Context {V : Type}.

Definition ll_drop (k : bytes) (l : list (bytes * V)) : list (bytes * V) :=
  List.filter (fun p => negb (str_eqb p.1 k)) l.

Definition ll_find (k : bytes) (l : list (bytes * V)) : option V :=
  snd <$> List.find (fun p => str_eqb p.1 k) l.

Definition ll_map (l : list (bytes * V)) : gmap bytes V := list_to_map l.

Definition ll_ok (cap : nat) (l : list (bytes * V)) : Prop := NoDup l.*1 ∧ length l ≤ cap.

Record list_lru : Type := {
  ll_items : list (bytes * V);
  ll_cap : nat;
  ll_valid : ll_ok ll_cap ll_items;
}.

Lemma ll_map_find k l : ll_map l !! k = ll_find k l.
Proof.
  unfold ll_map, ll_find. induction l as [|[k' v] l IH]; simpl; [apply lookup_empty|].
  destruct (str_eqb k' k) eqn:E; go_bool.
  - subst. apply lookup_insert_eq.
  - by rewrite lookup_insert_ne.
Qed.

Lemma ll_map_drop k l : ll_map (ll_drop k l) = delete k (ll_map l).
Proof.
  unfold ll_map, ll_drop. induction l as [|[k' v] l IH]; simpl; [by rewrite delete_empty|].
  destruct (str_eqb k' k) eqn:E; go_bool; simpl; rewrite IH.
  - subst. by rewrite delete_insert_eq.
  - by rewrite delete_insert_ne.
Qed.

Lemma ll_drop_keys k l x : x ∈ (ll_drop k l).*1 → x ≠ k ∧ x ∈ l.*1.
Proof.
  intros [[y v] [-> Hy]]%list_elem_of_fmap. apply list_elem_of_In, filter_In in Hy as [Hy Hk].
  simpl in *. go_bool. split; [done|]. apply list_elem_of_fmap. exists (y, v).
  split; [done|by apply list_elem_of_In].
Qed.

Lemma ll_drop_NoDup k l : NoDup l.*1 → NoDup (ll_drop k l).*1.
Proof.
  induction l as [|[k' v] l IH]; simpl; [done|]. intros [Hn Hnd]%NoDup_cons.
  destruct (str_eqb k' k); simpl; [by apply IH|]. apply NoDup_cons. split; [|by apply IH].
  by intros [_ ?]%ll_drop_keys.
Qed.

Lemma ll_cons_NoDup k v l : NoDup l.*1 → NoDup ((k, v) :: ll_drop k l).*1.
Proof.
  intros Hnd. simpl. apply NoDup_cons. split; [|by apply ll_drop_NoDup].
  by intros [? _]%ll_drop_keys.
Qed.

Lemma ll_take_NoDup n (l : list (bytes * V)) : NoDup l.*1 → NoDup (take n l).*1.
Proof.
  intros Hnd. rewrite <- (take_drop n l), fmap_app in Hnd. by apply NoDup_app in Hnd as [? _].
Qed.

Lemma ll_drop_length k l : length (ll_drop k l) ≤ length l.
Proof. apply List.filter_length_le. Qed.

Lemma ll_drop_found k v l : ll_find k l = Some v → length (ll_drop k l) < length l.
Proof.
  unfold ll_find, ll_drop. induction l as [|[k' w] l IH]; simpl; [done|].
  destruct (str_eqb k' k); simpl; intros H.
  - pose proof (ll_drop_length k l). unfold ll_drop in *. lia.
  - specialize (IH H). lia.
Qed.

Lemma ll_map_size cap l : ll_ok cap l → size (ll_map l) = length l.
Proof.
  intros [Hnd _]. unfold ll_map. induction l as [|[k v] l IH]; simpl in *; [apply map_size_empty|].
  apply NoDup_cons in Hnd as [Hn Hnd]. rewrite map_size_insert_None, IH; [done..|].
  by apply not_elem_of_list_to_map_1.
Qed.

(** Dropping a suffix only loses entries. *)
Lemma ll_take_sub n l k v : ll_map (take n l) !! k = Some v → ll_map l !! k = Some v.
Proof.
  rewrite !ll_map_find. unfold ll_find. revert n.
  induction l as [|[k' w] l IH]; intros [|n]; simpl; try done.
  destruct (str_eqb k' k); [done|]. by apply IH.
Qed.

Lemma ll_front_ok cap k v l :
  ll_ok cap l → ll_find k l = Some v → ll_ok cap ((k, v) :: ll_drop k l).
Proof.
  intros [Hnd Hl] Hf. split; [by apply ll_cons_NoDup|]. apply ll_drop_found in Hf. simpl. lia.
Qed.

Lemma ll_add_ok cap k v l : ll_ok cap l → ll_ok cap (take cap ((k, v) :: ll_drop k l)).
Proof.
  intros [Hnd Hl]. split; [by apply ll_take_NoDup, ll_cons_NoDup|]. rewrite length_take. lia.
Qed.

Lemma ll_remove_ok cap k l : ll_ok cap l → ll_ok cap (ll_drop k l).
Proof.
  intros [Hnd Hl]. split; [by apply ll_drop_NoDup|]. pose proof (ll_drop_length k l). lia.
Qed.

Lemma ll_nil_ok cap : ll_ok cap [].
Proof. split; [constructor|simpl; lia]. Qed.

Definition ll_touch (c : list_lru) (k : bytes) (o : option V) :
    ll_find k (ll_items c) = o → option V * list_lru :=
  match o with
  | Some v => fun H =>
      (Some v, {| ll_items := (k, v) :: ll_drop k (ll_items c); ll_cap := ll_cap c;
                  ll_valid := ll_front_ok _ _ _ _ (ll_valid c) H |})
  | None => fun _ => (None, c)
  end.

Definition ll_get (c : list_lru) (k : bytes) : option V * list_lru := ll_touch c k _ eq_refl.

Definition ll_add (c : list_lru) (k : bytes) (v : V) : list_lru :=
  {| ll_items := take (ll_cap c) ((k, v) :: ll_drop k (ll_items c)); ll_cap := ll_cap c;
     ll_valid := ll_add_ok _ _ _ _ (ll_valid c) |}.

Definition ll_remove (c : list_lru) (k : bytes) : list_lru :=
  {| ll_items := ll_drop k (ll_items c); ll_cap := ll_cap c;
     ll_valid := ll_remove_ok _ _ _ (ll_valid c) |}.

#[export] Instance list_LRU : LRU V := {|
  lru := list_lru;
  lru_new n := {| ll_items := []; ll_cap := n; ll_valid := ll_nil_ok n |};
  lru_get := ll_get;
  lru_add := ll_add;
  lru_remove := ll_remove;
  lru_len c := length (ll_items c);
  lru_contents c := ll_map (ll_items c);
  lru_cap := ll_cap;
|}.

Lemma ll_touch_items c k o (H : ll_find k (ll_items c) = o) :
  (ll_touch c k o H).1 = o ∧
  ll_map (ll_items (ll_touch c k o H).2) = ll_map (ll_items c) ∧
  ll_cap (ll_touch c k o H).2 = ll_cap c.
Proof.
  destruct o as [v|]; simpl; [|done]. repeat split.
  unfold ll_map; simpl. fold (ll_map (ll_drop k (ll_items c))).
  rewrite ll_map_drop, insert_delete_eq. apply insert_id. by rewrite ll_map_find.
Qed.

Lemma ll_get_items c k :
  (ll_get c k).1 = ll_map (ll_items c) !! k ∧
  ll_map (ll_items (ll_get c k).2) = ll_map (ll_items c) ∧
  ll_cap (ll_get c k).2 = ll_cap c.
Proof. rewrite ll_map_find. apply ll_touch_items. Qed.

#[export] Instance list_LRULaws : LRULaws V.
Proof.
  split; simpl; try done.
  - intros c k. apply ll_get_items.
  - intros c k. apply ll_get_items.
  - intros c k. apply ll_get_items.
  - intros c k v Hc. destruct (ll_cap c) as [|n]; [lia|]. simpl. apply lookup_insert_eq.
  - intros c k v w H. destruct (ll_cap c) as [|n]; simpl in H; [done|].
    unfold ll_map in H; simpl in H. rewrite lookup_insert_eq in H. congruence.
  - intros c k v k' w Hne H. apply ll_take_sub in H. unfold ll_map in H; simpl in H.
    rewrite lookup_insert_ne in H by done. fold (ll_map (ll_drop k (ll_items c))) in H.
    rewrite ll_map_drop, lookup_delete_ne in H by done. done.
  - intros c k v Hs. rewrite (ll_map_size (ll_cap c)) in Hs by apply ll_valid.
    rewrite take_ge by (simpl; pose proof (ll_drop_length k (ll_items c)); lia).
    unfold ll_map at 1; simpl. fold (ll_map (ll_drop k (ll_items c))).
    by rewrite ll_map_drop, insert_delete_eq.
  - intros c k. apply ll_map_drop.
  - intros c. symmetry. eapply ll_map_size, ll_valid.
Qed.
End ListLru.
Arguments list_lru : clear implicits.
