(* ===== verification/AuthCache.v ===== *)
(** * internal/auth/cache.go: the verify cache

    A TTL and LRU cache of verified key records with a set of forcibly evicted
    row ids, over any [LRU] implementation. Every method takes the current time
    where the source calls [time.Now]. The specification is the history of
    operations: what the last [Put] of a token stored, and whether a row was
    revoked since the last [Put] of any of its tokens. These are sequential;
    AuthMiddleware.v interleaves the steps of which the methods consist. *)

From S2P Require Import Prelude GoErrors AuthKey Lru.

Record cachedKey : Type := { ck_rec : KeyRecord; ck_verifiedAt : Z }.

Definition minute : Z := 60 * 1000000000.

Section Cache.
Context `{LRU cachedKey}.

Record VerifyCache : Type := {
  vc_lru : lru;
  vc_ttl : Z;
  vc_revoked : gset bytes;
}.

(** [NewVerifyCache(size, ttl)]; [lru.New] only fails for a size below one. *)
Definition NewVerifyCache (size ttl : Z) : VerifyCache :=
  let size := if (size <=? 0)%Z then 1024%Z else size in
  let ttl := if (ttl <=? 0)%Z then (5 * minute)%Z else ttl in
  {| vc_lru := lru_new (Z.to_nat size); vc_ttl := ttl; vc_revoked := ∅ |}.

Definition set_lru (c : VerifyCache) (l : lru) : VerifyCache :=
  {| vc_lru := l; vc_ttl := vc_ttl c; vc_revoked := vc_revoked c |}.

(** The parts of [Get] and [Put] that touch what requests share. The mutex guards
    the set of evicted rows only, and the LRU has a lock of its own, so these, and
    not the methods, are the steps in which requests interleave. *)

(** [c.lru.Get(token)] *)
Definition cache_lookup (c : VerifyCache) (token : bytes) : option cachedKey * VerifyCache :=
  let '(v, l) := lru_get (vc_lru c) token in (v, set_lru c l).

(** [time.Since(v.verifiedAt) > c.ttl] *)
Definition cache_stale (c : VerifyCache) (v : cachedKey) (now : Z) : bool := (vc_ttl c <? now - ck_verifiedAt v)%Z.

(** [c.revoked[v.rec.ID]], under the read lock *)
Definition cache_marked (c : VerifyCache) (v : cachedKey) : bool := bool_decide (kr_ID (ck_rec v) ∈ vc_revoked c).

(** [c.lru.Remove(token)] *)
Definition cache_evict (c : VerifyCache) (token : bytes) : VerifyCache := set_lru c (lru_remove (vc_lru c) token).

(** [delete(c.revoked, rec.ID)], under the lock *)
Definition cache_unmark (c : VerifyCache) (rec : KeyRecord) : VerifyCache :=
  {| vc_lru := vc_lru c; vc_ttl := vc_ttl c; vc_revoked := vc_revoked c ∖ {[kr_ID rec]} |}.

(** [c.lru.Add(token, &cachedKey{rec, verifiedAt})] *)
Definition cache_add (c : VerifyCache) (token : bytes) (rec : KeyRecord) (verifiedAt : Z) : VerifyCache :=
  set_lru c (lru_add (vc_lru c) token {| ck_rec := rec; ck_verifiedAt := verifiedAt |}).

(** [Get(token)] at time [now], by a request that is alone *)
Definition cache_Get (c : VerifyCache) (token : bytes) (now : Z) : option KeyRecord * VerifyCache :=
  match cache_lookup c token with
  | (None, c) => (None, c)
  | (Some v, c) =>
      if cache_stale c v now then (None, cache_evict c token)
      else if cache_marked c v then (None, cache_evict c token)
      else (Some (ck_rec v), c)
  end.

(** [Put(token, rec)] at time [now], by a request that is alone *)
Definition cache_Put (c : VerifyCache) (token : bytes) (rec : KeyRecord) (now : Z) : VerifyCache :=
  cache_add (cache_unmark c rec) token rec now.

(** [RevokeByDBID(keyDBID)] *)
Definition RevokeByDBID (c : VerifyCache) (keyDBID : bytes) : VerifyCache :=
  if str_eqb keyDBID [] then c else
  {| vc_lru := vc_lru c; vc_ttl := vc_ttl c; vc_revoked := {[keyDBID]} ∪ vc_revoked c |}.

(** [Len()] *)
Definition cache_Len (c : VerifyCache) : nat := lru_len (vc_lru c).

(** ** Histories *)

Inductive cache_op : Type :=
| OpGet (token : bytes) (now : Z)
| OpPut (token : bytes) (rec : KeyRecord) (now : Z)
| OpRevoke (keyDBID : bytes).

Definition apply_op (c : VerifyCache) (o : cache_op) : VerifyCache :=
  match o with
  | OpGet token now => (cache_Get c token now).2
  | OpPut token rec now => cache_Put c token rec now
  | OpRevoke id => RevokeByDBID c id
  end.

Definition run_ops (c : VerifyCache) (ops : list cache_op) : VerifyCache := fold_left apply_op ops c.

(** What the most recent [Put] of a token stored. *)
Definition last_put (token : bytes) (ops : list cache_op) : option cachedKey :=
  fold_left (fun acc o =>
    match o with
    | OpPut t rec now => if str_eqb t token then Some {| ck_rec := rec; ck_verifiedAt := now |} else acc
    | _ => acc
    end) ops None.

(** Whether row [id] was revoked after the last [Put] of one of its tokens. *)
Definition revoked_since (id : bytes) (ops : list cache_op) : bool :=
  fold_left (fun acc o =>
    match o with
    | OpPut _ rec _ => if str_eqb (kr_ID rec) id then false else acc
    | OpRevoke i => if str_eqb i id && negb (str_eqb i []) then true else acc
    | OpGet _ _ => acc
    end) ops false.

Context `{!LRULaws cachedKey}.

Lemma cache_Get_effect c token now :
  (∀ t e, lru_contents (vc_lru (cache_Get c token now).2) !! t = Some e →
          lru_contents (vc_lru c) !! t = Some e) ∧
  vc_revoked (cache_Get c token now).2 = vc_revoked c ∧
  vc_ttl (cache_Get c token now).2 = vc_ttl c.
Proof.
  unfold cache_Get, cache_lookup, cache_evict. pose proof (lru_get_contents (vc_lru c) token) as Hc.
  destruct (lru_get (vc_lru c) token) as [[v|] l]; simpl in Hc; repeat case_match; simpl;
    rewrite ?lru_remove_contents, ?Hc; repeat split; try done.
  all: intros t e [_ ?]%lookup_delete_Some; done.
Qed.

Lemma cache_Get_hit c token now rec :
  (cache_Get c token now).1 = Some rec →
  ∃ v, lru_contents (vc_lru c) !! token = Some v ∧ ck_rec v = rec ∧
       (now - ck_verifiedAt v ≤ vc_ttl c)%Z ∧ kr_ID rec ∉ vc_revoked c.
Proof.
  unfold cache_Get, cache_lookup. pose proof (lru_get_value (vc_lru c) token) as Hv.
  destruct (lru_get (vc_lru c) token) as [[v|] l]; simpl in Hv; [|done].
  unfold cache_stale, cache_marked. repeat case_match; simpl; intros; simplify_eq/=. go_bool. exists v. by repeat split.
Qed.

Lemma run_ops_ttl c ops : vc_ttl (run_ops c ops) = vc_ttl c.
Proof.
  unfold run_ops. induction ops as [|o ops IH] using rev_ind; [done|].
  rewrite fold_left_app; simpl. rewrite <- IH. destruct o; simpl; [apply cache_Get_effect|done|].
  unfold RevokeByDBID. by case_match.
Qed.

Lemma last_put_app token ops o :
  last_put token (ops ++ [o]) =
  match o with
  | OpPut t rec now =>
      if str_eqb t token then Some {| ck_rec := rec; ck_verifiedAt := now |} else last_put token ops
  | _ => last_put token ops
  end.
Proof. unfold last_put. by rewrite fold_left_app. Qed.

Lemma revoked_since_app id ops o :
  revoked_since id (ops ++ [o]) =
  match o with
  | OpPut _ rec _ => if str_eqb (kr_ID rec) id then false else revoked_since id ops
  | OpRevoke i => if str_eqb i id && negb (str_eqb i []) then true else revoked_since id ops
  | OpGet _ _ => revoked_since id ops
  end.
Proof. unfold revoked_since. by rewrite fold_left_app. Qed.

Lemma cache_Put_refines c ops t rec now token e :
  (∀ token e, lru_contents (vc_lru c) !! token = Some e → last_put token ops = Some e) →
  lru_contents (vc_lru (cache_Put c t rec now)) !! token = Some e →
  last_put token (ops ++ [OpPut t rec now]) = Some e.
Proof.
  intros IH He. simpl in He. rewrite last_put_app.
  destruct (str_eqb t token) eqn:E; go_bool.
  - subst. by apply lru_add_value in He as ->.
  - by apply lru_add_other, IH in He.
Qed.

Lemma RevokeByDBID_revoked c i id :
  id ∈ vc_revoked (RevokeByDBID c i) ↔
  (str_eqb i id && negb (str_eqb i []) = true ∨ id ∈ vc_revoked c).
Proof.
  unfold RevokeByDBID. destruct (str_eqb i []) eqn:E; simpl.
  - rewrite andb_false_r. naive_solver.
  - rewrite andb_true_r, str_eqb_eq. set_solver.
Qed.

Lemma RevokeByDBID_lru c i : vc_lru (RevokeByDBID c i) = vc_lru c.
Proof. unfold RevokeByDBID. by case_match. Qed.

(** The cache state refines the history. *)
Lemma run_ops_refines size ttl ops :
  (∀ token e, lru_contents (vc_lru (run_ops (NewVerifyCache size ttl) ops)) !! token = Some e →
              last_put token ops = Some e) ∧
  (∀ id, id ∈ vc_revoked (run_ops (NewVerifyCache size ttl) ops) ↔ revoked_since id ops = true).
Proof.
  unfold run_ops. induction ops as [|o ops [IH1 IH2]] using rev_ind.
  { simpl. rewrite lru_new_contents. split; [|set_solver]. intros ??. by rewrite lookup_empty. }
  rewrite !fold_left_app; cbn [fold_left apply_op].
  set (c := fold_left apply_op ops (NewVerifyCache size ttl)) in *.
  destruct o as [t now|t rec now|i]; cbn [apply_op].
  - destruct (cache_Get_effect c t now) as (He & Hr & _). rewrite Hr.
    split; intros; rewrite ?last_put_app, ?revoked_since_app; auto.
  - split; [intros token e; by apply cache_Put_refines|].
    intros id. rewrite revoked_since_app. simpl. rewrite elem_of_difference, not_elem_of_singleton, IH2.
    destruct (str_eqb (kr_ID rec) id) eqn:E; go_bool; naive_solver.
  - split; [intros; rewrite last_put_app; apply IH1; by rewrite RevokeByDBID_lru in *|].
    intros id. rewrite RevokeByDBID_revoked, revoked_since_app, IH2. case_match; naive_solver.
Qed.

(** Whatever the order of gets, puts and revocations on the verify cache and
    whatever the LRU evicts, a record [Get] returns is the one the last [Put] of
    that very token stored, it was stored at most [ttl] ago, and its row has not
    been revoked since the last [Put] of a token of that row. *)
Theorem cache_Get_sound size ttl ops token now rec :
  (cache_Get (run_ops (NewVerifyCache size ttl) ops) token now).1 = Some rec →
  ∃ t, last_put token ops = Some {| ck_rec := rec; ck_verifiedAt := t |} ∧
       (now - t ≤ vc_ttl (NewVerifyCache size ttl))%Z ∧
       revoked_since (kr_ID rec) ops = false.
Proof.
  intros (v & Hv & <- & Ht & Hr)%cache_Get_hit.
  destruct (run_ops_refines size ttl ops) as [H1 H2].
  rewrite run_ops_ttl in Ht. exists (ck_verifiedAt v). split; [by destruct v; apply H1|].
  split; [done|]. rewrite H2 in Hr. by apply not_true_is_false.
Qed.

(** After [RevokeByDBID id] no token bound to that row is served from the
    cache, at any later time and through any further gets, puts of other rows and
    revocations, until a record of that row is put again. *)
Theorem cache_revoke_effective size ttl before after id token now rec :
  id ≠ [] →
  Forall (fun o => match o with OpPut _ r _ => kr_ID r ≠ id | _ => True end) after →
  (cache_Get (run_ops (NewVerifyCache size ttl) (before ++ OpRevoke id :: after)) token now).1 =
    Some rec →
  kr_ID rec ≠ id.
Proof.
  intros Hid Hafter (v & _ & <- & _ & Hr)%cache_Get_hit Heq.
  destruct (run_ops_refines size ttl (before ++ OpRevoke id :: after)) as [_ H2].
  apply Hr, H2. rewrite Heq. clear H2 Hr.
  replace (before ++ OpRevoke id :: after) with ((before ++ [OpRevoke id]) ++ after)
    by (by rewrite <- app_assoc).
  induction after as [|o after IH] using rev_ind.
  - rewrite app_nil_r, revoked_since_app, str_eqb_refl. simpl.
    unfold str_eqb. by rewrite bool_decide_false.
  - apply Forall_app in Hafter as [Ha Ho]. inversion Ho as [|? ? Ho' _]; subst.
    rewrite app_assoc, revoked_since_app, IH by done.
    destruct o; [done| |by case_match].
    unfold str_eqb. by rewrite bool_decide_false.
Qed.

(** A record just put is served for [ttl]. *)
Lemma cache_Get_Put c token rec t now :
  0 < lru_cap (vc_lru c) → (now - t ≤ vc_ttl c)%Z →
  (cache_Get (cache_Put c token rec t) token now).1 = Some rec.
Proof.
  intros Hcap Ht. unfold cache_Get, cache_lookup.
  pose proof (lru_get_value (vc_lru (cache_Put c token rec t)) token) as Hv.
  simpl in *. rewrite lru_add_same in Hv by done.
  destruct (lru_get _ token) as [o l]; simpl in Hv; subst o.
  unfold cache_stale, cache_marked. simpl.
  rewrite (proj2 (Z.ltb_ge _ _)) by done. rewrite bool_decide_false by set_solver. done.
Qed.
End Cache.
Arguments VerifyCache {_}.

(** ** Examples *)

Definition demo_rec (id : bytes) (expires : option Z) : KeyRecord :=
  {| kr_ID := id; kr_WorkspaceID := bs "w"; kr_KeyID := bs "k"; kr_SecretHash := [];
     kr_Env := EnvDev; kr_PgRole := bs "dbuser"; kr_Name := []; kr_CreatedAt := 0;
     kr_LastUsedAt := None; kr_ExpiresAt := expires; kr_RevokedAt := None;
     kr_ReplacesKeyID := None |}.

Lemma cache_Get_sound_witness :
  ∃ t, last_put (bs "T") [OpPut (bs "T") (demo_rec (bs "1") None) 5; OpRevoke (bs "2")] =
         Some {| ck_rec := demo_rec (bs "1") None; ck_verifiedAt := t |} ∧
       (7 - t ≤ vc_ttl (NewVerifyCache 2 100))%Z ∧
       revoked_since (kr_ID (demo_rec (bs "1") None))
         [OpPut (bs "T") (demo_rec (bs "1") None) 5; OpRevoke (bs "2")] = false.
Proof. apply (cache_Get_sound 2 100 _ (bs "T") 7 (demo_rec (bs "1") None)). by vm_compute. Defined.

Lemma cache_revoke_effective_witness : kr_ID (demo_rec (bs "2") None) ≠ bs "1".
Proof.
  apply (cache_revoke_effective 2 100 [OpPut (bs "T") (demo_rec (bs "1") None) 5;
    OpPut (bs "U") (demo_rec (bs "2") None) 5] [OpGet (bs "T") 6] (bs "1") (bs "U") 7).
  - done.
  - repeat constructor.
  - by vm_compute.
Defined.

(** The flag of a revoked row is cleared by a [Put] under any token of the
    row, so an entry cached under another token before the revocation is served
    again: the record put before [RevokeByDBID "1"], without the expiry the row
    has since got, is returned after it. *)
Theorem cache_revoke_undone :
  (cache_Get (run_ops (NewVerifyCache 8 100)
     [OpPut (bs "acd_live_X") (demo_rec (bs "1") None) 0;
      OpRevoke (bs "1");
      OpPut (bs "acd_dev_X") (demo_rec (bs "1") (Some 50%Z)) 10])
     (bs "acd_live_X") 60).1 = Some (demo_rec (bs "1") None) ∧
  Active (demo_rec (bs "1") None) 60 = true ∧ Active (demo_rec (bs "1") (Some 50%Z)) 60 = false.
Proof. by vm_compute. Qed.
