(* ===== verification/ControlPlane.v ===== *)
(** * The control-plane database

    The tables of migrations 0001 and 0002 that the gateway reads and writes,
    and the computation type of code that talks to them through a pgx pool: a
    state monad with errors in which any call may fail. A failed call has no
    effect ([Fail]) or an unknown one, reported as an error after it happened
    ([Ambiguous]); a transaction rolls back unless its commit took effect. *)

From S2P Require Import Prelude GoStrings GoErrors AuthKey.
From stdpp Require Export gmap.

(** ** github.com/google/uuid *)

Class UuidLib : Type := {
  uuid : Type;
  #[global] uuid_eq_dec :: EqDecision uuid;
  #[global] uuid_countable :: Countable uuid;
  uuid_Parse : bytes → res error uuid;
  uuid_String : uuid → bytes;
}.

Class UuidLaws `{UuidLib} : Prop := {
  uuid_Parse_String u : uuid_Parse (uuid_String u) = Ok u;
  uuid_String_ne u : uuid_String u ≠ [];
}.

(** A model of the package: identifiers are non-empty texts. *)
Definition text_uuid_Parse (s : bytes) : res error { s : bytes | bool_decide (s ≠ []) } :=
  match decide (s ≠ []) with
  | left H => Ok (exist _ s (bool_decide_pack _ H))
  | right _ => Err (errors_New (bs "invalid UUID length: 0"))
  end.

Definition text_uuid : UuidLib := {|
  uuid := { s : bytes | bool_decide (s ≠ []) };
  uuid_Parse := text_uuid_Parse;
  uuid_String := proj1_sig;
|}.

Lemma text_uuid_laws : @UuidLaws text_uuid.
Proof.
  split; [|intros [s Hs]; simpl; exact (bool_decide_unpack _ Hs)].
  intros [s Hs]. simpl. unfold text_uuid_Parse. case_decide as Hd.
  - do 2 f_equal. apply proof_irrel.
  - exfalso. exact (bool_decide_unpack _ Hs Hd).
Qed.

(** ** Tables *)

Section Tables.
Context `{UuidLib}.

(** A row of api_keys; the primary key [id] is the key of the table. *)
Record key_row : Type := {
  kw_workspace : uuid;
  kw_key_id : bytes;
  kw_secret_hash : bytes;
  kw_env : bytes;
  kw_pg_role : bytes;
  kw_name : option bytes;
  kw_created_at : Z;
  kw_last_used_at : option Z;
  kw_expires_at : option Z;
  kw_revoked_at : option Z;
  kw_replaces : option uuid;
}.

Inductive IdempotencyState : Type := StatePending | StateDone | StateFailed.

(** A row of idempotency_keys; [(workspace_id, key)] is unique. *)
Record idem_row : Type := {
  ir_id : uuid;
  ir_request_hash : bytes;
  ir_state : IdempotencyState;
  ir_status_code : option Z;
  ir_response_body : option bytes;
  ir_created_at : Z;
  ir_completed_at : option Z;
  ir_expires_at : Z;
}.

Record Db : Type := {
  db_workspaces : gmap uuid bytes;
  db_keys : gmap uuid key_row;
  db_idem : gmap (uuid * bytes) idem_row;
  db_roles : gset bytes;
  db_gateway_roles : gset bytes;
}.

Definition set_workspaces (d : Db) (m : gmap uuid bytes) : Db :=
  {| db_workspaces := m; db_keys := db_keys d; db_idem := db_idem d;
     db_roles := db_roles d; db_gateway_roles := db_gateway_roles d |}.

Definition set_keys (d : Db) (m : gmap uuid key_row) : Db :=
  {| db_workspaces := db_workspaces d; db_keys := m; db_idem := db_idem d;
     db_roles := db_roles d; db_gateway_roles := db_gateway_roles d |}.

Definition set_idem (d : Db) (m : gmap (uuid * bytes) idem_row) : Db :=
  {| db_workspaces := db_workspaces d; db_keys := db_keys d; db_idem := m;
     db_roles := db_roles d; db_gateway_roles := db_gateway_roles d |}.

(** ** Computations *)

Inductive fault : Type :=
| NoFault
| Fail (e : error)
| Ambiguous (e : error).

Record world : Type := {
  w_db : Db;
  w_dbnow : Z;             (** the server's now() *)
  w_faults : list fault;   (** outcomes of the coming calls; none left: no fault *)
}.

Definition set_db (w : world) (d : Db) : world :=
  {| w_db := d; w_dbnow := w_dbnow w; w_faults := w_faults w |}.

Definition next_fault (w : world) : fault * world :=
  match w_faults w with
  | [] => (NoFault, w)
  | f :: fs => (f, {| w_db := w_db w; w_dbnow := w_dbnow w; w_faults := fs |})
  end.

Definition M (A : Type) : Type := world → world * res error A.

Definition mret {A} (a : A) : M A := fun w => (w, Ok a).
Definition mfail {A} (e : error) : M A := fun w => (w, Err e).
Definition mlift {A} (r : res error A) : M A := fun w => (w, r).
Definition mbind {A B} (c : M A) (k : A → M B) : M B :=
  fun w => match c w with
           | (w', Ok a) => k a w'
           | (w', Err e) => (w', Err e)
           end.

(** The error a caller adds context to: [fmt.Errorf("<pre>%w", err)]. *)
Definition mwrap {A} (pre : bytes) (c : M A) : M A :=
  fun w => let '(w', r) := c w in (w', res_map_err (wrapf pre) r).

(** One statement sent to the server: [f] is its effect at the server's clock. *)
Definition exec {A} (f : Z → Db → Db * res error A) : M A :=
  fun w => match next_fault w with
           | (NoFault, w') => let '(d, r) := f (w_dbnow w') (w_db w') in (set_db w' d, r)
           | (Fail e, w') => (w', Err e)
           | (Ambiguous e, w') => (set_db w' (f (w_dbnow w') (w_db w')).1, Err e)
           end.

(** [BeginTx], the statements, [Commit], with a deferred [Rollback]. *)
Definition with_tx {A} (stmts : M A) : M A :=
  fun w => match next_fault w with
           | (NoFault, w1) =>
               match stmts w1 with
               | (w2, Err e) => (set_db w2 (w_db w1), Err e)
               | (w2, Ok a) =>
                   match next_fault w2 with
                   | (NoFault, w3) => (w3, Ok a)
                   | (Fail e, w3) => (set_db w3 (w_db w1), Err e)
                   | (Ambiguous e, w3) => (w3, Err e)
                   end
               end
           | (Fail e, w1) => (w1, Err e)
           | (Ambiguous e, w1) => (w1, Err e)
           end.

End Tables.

Notation "'let*' x ':=' c 'in' k" := (mbind c (fun x => k))
  (at level 10, x pattern, c at level 100, k at level 200) : go_scope.

(** Runs the pure steps of a computation. *)
Ltac munfold H := unfold mbind, mret, mfail, mlift, mwrap in H; simpl in H.

(** ** Facts about computations *)

Section Facts.
Context `{UuidLib}.

Definition clean (w : world) : Prop := w_faults w = [].

Definition unambiguous (w : world) : Prop := Forall (fun f => ∀ e, f ≠ Ambiguous e) (w_faults w).

Lemma next_fault_clean w : clean w → next_fault w = (NoFault, w).
Proof. unfold clean, next_fault. by intros ->. Qed.

Lemma exec_clean {A} (f : Z → Db → Db * res error A) w :
  clean w → exec f w = (set_db w (f (w_dbnow w) (w_db w)).1, (f (w_dbnow w) (w_db w)).2).
Proof. intros Hw. unfold exec. rewrite next_fault_clean by done. by destruct (f _ _). Qed.

Lemma next_fault_db w f w' : next_fault w = (f, w') → w_db w' = w_db w ∧ w_dbnow w' = w_dbnow w.
Proof. unfold next_fault. by destruct (w_faults w); intros [= <- <-]. Qed.

Lemma next_fault_unambiguous w f w' :
  unambiguous w → next_fault w = (f, w') → unambiguous w' ∧ ∀ e, f ≠ Ambiguous e.
Proof.
  unfold unambiguous, next_fault. destruct (w_faults w) eqn:E; intros Hu [= <- <-].
  - by rewrite E.
  - inversion Hu; subst. by split.
Qed.

(** A computation that keeps ambiguous faults out. *)
Definition keeps_unambiguous {A} (c : M A) : Prop :=
  ∀ w w' r, c w = (w', r) → unambiguous w → unambiguous w'.

Lemma keeps_exec {A} (f : Z → Db → Db * res error A) : keeps_unambiguous (exec f).
Proof.
  intros w w' r Hx Hu. unfold exec in Hx. destruct (next_fault w) as [g w1] eqn:E.
  destruct (next_fault_unambiguous _ _ _ Hu E) as [Hu1 Hne].
  destruct g; [destruct (f _ _)| |]; simplify_eq; done.
Qed.

Lemma keeps_bind {A B} (c : M A) (k : A → M B) :
  keeps_unambiguous c → (∀ a, keeps_unambiguous (k a)) → keeps_unambiguous (mbind c k).
Proof.
  intros Hc Hk w w' r Hx Hu. unfold mbind in Hx. destruct (c w) as [w1 [a|e]] eqn:E.
  - eapply Hk; [done|]. by eapply Hc.
  - simplify_eq. by eapply Hc.
Qed.

Lemma keeps_lift {A} (r : res error A) : keeps_unambiguous (mlift r).
Proof. intros w w' r' [= <- <-]. done. Qed.

Lemma keeps_ret {A} (a : A) : keeps_unambiguous (mret a).
Proof. intros w w' r' [= <- <-]. done. Qed.

Lemma keeps_fail {A} (e : error) : keeps_unambiguous (@mfail _ A e).
Proof. intros w w' r' [= <- <-]. done. Qed.

Lemma keeps_wrap {A} p (c : M A) : keeps_unambiguous c → keeps_unambiguous (mwrap p c).
Proof.
  intros Hc w w' r Hx Hu. unfold mwrap in Hx. destruct (c w) eqn:E. simplify_eq. by eapply Hc.
Qed.

(** A failed transaction leaves the tables as they were, whichever of its calls
    failed, unless the commit itself was ambiguous. *)
Lemma with_tx_atomic {A} (stmts : M A) w w' e :
  keeps_unambiguous stmts → unambiguous w → with_tx stmts w = (w', Err e) → w_db w' = w_db w.
Proof.
  intros Hk Hu Hx. unfold with_tx in Hx. destruct (next_fault w) as [f w1] eqn:E1.
  destruct (next_fault_unambiguous _ _ _ Hu E1) as [Hu1 Hf].
  apply next_fault_db in E1 as [Hd _].
  destruct f; [|by simplify_eq|by exfalso; eapply Hf].
  destruct (stmts w1) as [w2 [a|e']] eqn:E2; [|by simplify_eq].
  destruct (next_fault w2) as [g w3] eqn:E3.
  destruct (next_fault_unambiguous w2 g w3) as [_ Hg]; [by eapply Hk|done|].
  destruct g; simplify_eq; [done|by exfalso; eapply Hg].
Qed.

Lemma with_tx_clean {A} (stmts : M A) w w2 a :
  clean w → stmts w = (w2, Ok a) → clean w2 → with_tx stmts w = (w2, Ok a).
Proof.
  intros Hw Hs Hw2. unfold with_tx. by rewrite next_fault_clean, Hs, next_fault_clean.
Qed.

(** A call that succeeded had its effect; so had a transaction. *)
Lemma exec_Ok {A} (f : Z → Db → Db * res error A) w w' a :
  exec f w = (w', Ok a) →
  f (w_dbnow w) (w_db w) = (w_db w', Ok a) ∧ w_dbnow w' = w_dbnow w.
Proof.
  unfold exec. destruct (next_fault w) as [g w1] eqn:E. apply next_fault_db in E as [Hd Hn].
  rewrite <- Hd, <- Hn. destruct g; try done.
  destruct (f _ _) as [d r] eqn:Ef. intros [= <- ->]. done.
Qed.

Lemma with_tx_Ok {A} (stmts : M A) w w' a :
  with_tx stmts w = (w', Ok a) →
  ∃ w1 w2, w_db w1 = w_db w ∧ w_dbnow w1 = w_dbnow w ∧ stmts w1 = (w2, Ok a) ∧
           w_db w' = w_db w2.
Proof.
  unfold with_tx. destruct (next_fault w) as [f w1] eqn:E1. apply next_fault_db in E1 as [Hd Hn].
  destruct f; try done. destruct (stmts w1) as [w2 [b|e]] eqn:E2; [|done].
  destruct (next_fault w2) as [g w3] eqn:E3. apply next_fault_db in E3 as [Hd3 _].
  destruct g; try done. intros [= <- <-]. exists w1, w2. repeat split; congruence.
Qed.

(** Whatever a transaction reports, it had its whole effect or none. *)
Lemma with_tx_inv {A} (stmts : M A) w w' r :
  with_tx stmts w = (w', r) →
  w_db w' = w_db w ∨
  ∃ w1 w2 a, w_db w1 = w_db w ∧ w_dbnow w1 = w_dbnow w ∧ stmts w1 = (w2, Ok a) ∧ w_db w' = w_db w2.
Proof.
  unfold with_tx. destruct (next_fault w) as [f w1] eqn:E1. apply next_fault_db in E1 as [Hd Hn].
  destruct f; [|intros [= <- <-]; by left..].
  destruct (stmts w1) as [w2 [a|e]] eqn:E2; [|intros [= <- <-]; by left].
  destruct (next_fault w2) as [g w3] eqn:E3. apply next_fault_db in E3 as [Hd3 _].
  destruct g; intros [= <- <-]; [right| |right]; [|by left|]; by exists w1, w2, a.
Qed.

Lemma mbind_Ok {A B} (c : M A) (k : A → M B) w w' b :
  mbind c k w = (w', Ok b) → ∃ w1 a, c w = (w1, Ok a) ∧ k a w1 = (w', Ok b).
Proof. unfold mbind. destruct (c w) as [w1 [a|e]]; naive_solver. Qed.

Lemma mwrap_Ok {A} p (c : M A) w w' a : mwrap p c w = (w', Ok a) → c w = (w', Ok a).
Proof. unfold mwrap. destruct (c w) as [w1 [x|e]]; simpl; congruence. Qed.

(** An invariant of the tables kept by a computation, whatever fails. *)
Definition preserves {A} (P : Db → Prop) (c : M A) : Prop :=
  ∀ w w' r, c w = (w', r) → P (w_db w) → P (w_db w').

Lemma preserves_exec {A} P (f : Z → Db → Db * res error A) :
  (∀ now d, P d → P (f now d).1) → preserves P (exec f).
Proof.
  intros Hf w w' r Hx Hp. unfold exec in Hx. destruct (next_fault w) as [g w1] eqn:E.
  apply next_fault_db in E as [Hd _]. rewrite <- Hd in Hp.
  specialize (Hf (w_dbnow w1) _ Hp).
  destruct g; [destruct (f _ _)| |]; simplify_eq/=; done.
Qed.

Lemma preserves_bind {A B} P (c : M A) (k : A → M B) :
  preserves P c → (∀ a, preserves P (k a)) → preserves P (mbind c k).
Proof.
  intros Hc Hk w w' r Hx Hp. unfold mbind in Hx. destruct (c w) as [w1 [a|e]] eqn:E.
  - eapply Hk; [done|]. by eapply Hc.
  - simplify_eq. by eapply Hc.
Qed.

Lemma preserves_pure {A} P (c : M A) : (∀ w, (c w).1 = w) → preserves P c.
Proof. intros Hc w w' r Hx Hp. specialize (Hc w). rewrite Hx in Hc; simpl in Hc. by subst. Qed.

Lemma preserves_map {A B} P (c : M A) (g : res error A → res error B) :
  preserves P c → preserves P (fun w => let '(w', r) := c w in (w', g r)).
Proof. intros Hc w w' r Hx Hp. destruct (c w) eqn:E. simplify_eq. by eapply Hc. Qed.

Lemma preserves_wrap {A} P p (c : M A) : preserves P c → preserves P (mwrap p c).
Proof. apply preserves_map. Qed.

Lemma preserves_tx {A} P (stmts : M A) : preserves P stmts → preserves P (with_tx stmts).
Proof.
  intros Hs w w' r Hx Hp. unfold with_tx in Hx. destruct (next_fault w) as [f w1] eqn:E1.
  apply next_fault_db in E1 as [Hd _]. rewrite <- Hd in Hp.
  destruct f as [|e0|e0]; try (by simplify_eq).
  destruct (stmts w1) as [w2 [a|e']] eqn:E2; [|by simplify_eq].
  pose proof (Hs _ _ _ E2 Hp) as Hp2. destruct (next_fault w2) as [g w3] eqn:E3.
  apply next_fault_db in E3 as [Hd3 _]. destruct g; simplify_eq/=; congruence.
Qed.

End Facts.

#[export] Hint Resolve keeps_exec keeps_bind keeps_lift keeps_ret keeps_fail keeps_wrap : go.
#[export] Hint Resolve preserves_exec preserves_bind preserves_wrap preserves_tx : go.
