(* ===== verification/AuthStore.v ===== *)
(** * internal/auth/store.go: the api_keys table

    Lookup, creation, revocation and rotation of API keys, each with every
    statement of the source in its order, inside the transaction the source
    opens. Random bytes and fresh UUIDs are arguments. *)

From S2P Require Import Prelude GoStrings GoErrors AuthKey ControlPlane.

Definition pg_error (code msg : bytes) : error :=
  PgErr {| pg_Severity := bs "ERROR"; pg_Code := code; pg_Message := msg |}.

Section Store.
Context `{UuidLib}.
Variable IDKey : bytes → bytes → Z → Z → Z → Z → bytes.

(** ** Statements on api_keys *)

(** The row with a key_id; the column is UNIQUE. *)
Definition find_by_key_id (d : Db) (kid : bytes) : option (uuid * key_row) :=
  List.find (fun p => str_eqb (kw_key_id p.2) kid) (map_to_list (db_keys d)).

(** [INSERT INTO api_keys] with the constraints of migration 0001. *)
Definition insert_key (id : uuid) (row : key_row) (d : Db) : Db * res error unit :=
  if negb (IsValid (kw_env row)) then (d, Err (pg_error (bs "23514") (bs "api_keys_env_check")))
  else if bool_decide (is_Some (db_keys d !! id))
  then (d, Err (pg_error (bs "23505") (bs "api_keys_pkey")))
  else match find_by_key_id d (kw_key_id row) with
       | Some _ => (d, Err (pg_error (bs "23505") (bs "api_keys_key_id_key")))
       | None =>
           if negb (bool_decide (is_Some (db_workspaces d !! kw_workspace row)))
           then (d, Err (pg_error (bs "23503") (bs "api_keys_workspace_id_fkey")))
           else if match kw_replaces row with
                   | Some old => negb (bool_decide (is_Some (db_keys d !! old)))
                   | None => false
                   end
           then (d, Err (pg_error (bs "23503") (bs "api_keys_replaces_key_id_fkey")))
           else (set_keys d (<[id := row]> (db_keys d)), Ok tt)
       end.

(** [UPDATE api_keys SET ... WHERE id = $1] *)
Definition update_key (id : uuid) (f : key_row → key_row) (d : Db) : Db :=
  set_keys d (alter f id (db_keys d)).

Definition set_last_used (now : Z) (r : key_row) : key_row :=
  {| kw_workspace := kw_workspace r; kw_key_id := kw_key_id r; kw_secret_hash := kw_secret_hash r;
     kw_env := kw_env r; kw_pg_role := kw_pg_role r; kw_name := kw_name r;
     kw_created_at := kw_created_at r; kw_last_used_at := Some now;
     kw_expires_at := kw_expires_at r; kw_revoked_at := kw_revoked_at r;
     kw_replaces := kw_replaces r |}.

(** [SET revoked_at = now() ... AND revoked_at IS NULL] *)
Definition set_revoked (now : Z) (r : key_row) : key_row :=
  match kw_revoked_at r with
  | Some _ => r
  | None =>
      {| kw_workspace := kw_workspace r; kw_key_id := kw_key_id r; kw_secret_hash := kw_secret_hash r;
         kw_env := kw_env r; kw_pg_role := kw_pg_role r; kw_name := kw_name r;
         kw_created_at := kw_created_at r; kw_last_used_at := kw_last_used_at r;
         kw_expires_at := kw_expires_at r; kw_revoked_at := Some now;
         kw_replaces := kw_replaces r |}
  end.

(** [SET expires_at = now() + $2 ... AND revoked_at IS NULL] *)
Definition set_expires (e : Z) (r : key_row) : key_row :=
  match kw_revoked_at r with
  | Some _ => r
  | None =>
      {| kw_workspace := kw_workspace r; kw_key_id := kw_key_id r; kw_secret_hash := kw_secret_hash r;
         kw_env := kw_env r; kw_pg_role := kw_pg_role r; kw_name := kw_name r;
         kw_created_at := kw_created_at r; kw_last_used_at := kw_last_used_at r;
         kw_expires_at := Some e; kw_revoked_at := kw_revoked_at r;
         kw_replaces := kw_replaces r |}
  end.

(** [NULLIF($7, '')] and [coalesce(name, '')] *)
Definition nullif_empty (s : bytes) : option bytes := if str_eqb s [] then None else Some s.
Definition coalesce_empty (s : option bytes) : bytes := default [] s.

(** ** The store *)

Definition record_of_row (id : uuid) (r : key_row) : KeyRecord :=
  {| kr_ID := uuid_String id; kr_WorkspaceID := uuid_String (kw_workspace r);
     kr_KeyID := kw_key_id r; kr_SecretHash := kw_secret_hash r; kr_Env := kw_env r;
     kr_PgRole := kw_pg_role r; kr_Name := coalesce_empty (kw_name r);
     kr_CreatedAt := kw_created_at r; kr_LastUsedAt := kw_last_used_at r;
     kr_ExpiresAt := kw_expires_at r; kr_RevokedAt := kw_revoked_at r;
     kr_ReplacesKeyID := uuid_String <$> kw_replaces r |}.

Definition select_by_key_id (kid : bytes) : M KeyRecord :=
  exec (fun _ d => (d, match find_by_key_id d kid with
                       | Some (id, r) => Ok (record_of_row id r)
                       | None => Err ErrNoRows
                       end)).

Definition FindByKeyID (keyID : bytes) : M KeyRecord :=
  fun w => let '(w', r) := select_by_key_id keyID w in
           (w', res_map_err (fun e => if error_Is e ErrNoRows then ErrKeyNotFound
                                      else wrapf (bs "api_keys lookup: ") e) r).

Definition TouchLastUsed (id : bytes) : M unit :=
  let* idUUID := mlift (uuid_Parse id) in
  exec (fun now d => (update_key idUUID (set_last_used now) d, Ok tt)).

Record CreateKeyInput : Type := {
  ci_WorkspaceID : bytes;
  ci_Env : bytes;
  ci_PgRole : bytes;
  ci_Name : bytes;
  ci_ExpiresAt : option Z;
}.

Record CreatedKey : Type := {
  ck_ID : bytes;
  ck_KeyID : bytes;
  ck_FullToken : bytes;
  ck_Record : KeyRecord;
}.

(** What one call of Create or Rotate draws: the two reads of [Mint], the salt
    of [HashSecret] and [uuid.New]. *)
Record Draw : Type := {
  dr_id : res error bytes;
  dr_secret : res error bytes;
  dr_salt : res error bytes;
  dr_uuid : uuid;
}.

Definition role_exists_check (role : bytes) : M bool :=
  mwrap (bs "role exists check: ") (exec (fun _ d => (d, Ok (bool_decide (role ∈ db_roles d))))).

Definition role_member_check (role : bytes) : M bool :=
  mwrap (bs "role membership check: ")
    (exec (fun _ d => (d, Ok (bool_decide (role ∈ db_gateway_roles d))))).

(** [Create(in)]; [appNow] is the [time.Now] of the returned record. *)
Definition Create (dr : Draw) (appNow : Z) (cin : CreateKeyInput) : M CreatedKey :=
  if negb (IsValid (ci_Env cin)) then
    mfail (ErrFmt [FLit (bs "auth.Create: invalid env "); FQuote (ci_Env cin)])
  else
    let* wsID := mwrap (bs "workspace_id: ") (mlift (uuid_Parse (ci_WorkspaceID cin))) in
    let* (keyID, secret, fullToken) := mlift (Mint (dr_id dr) (dr_secret dr) (ci_Env cin)) in
    let* hash := mlift (HashSecret IDKey (dr_salt dr) secret) in
    let id := dr_uuid dr in
    let* _ := with_tx (
      let* roleOK := role_exists_check (ci_PgRole cin) in
      if negb roleOK then
        mfail (ErrFmt [FLit (bs "postgres role "); FQuote (ci_PgRole cin); FLit (bs " does not exist")])
      else
        let* memberOK := role_member_check (ci_PgRole cin) in
        if negb memberOK then
          mfail (ErrFmt [FLit (bs "agentcoopdb_gateway is not a member of "); FQuote (ci_PgRole cin);
                         FLit (bs " — run: GRANT "); FQuote (ci_PgRole cin);
                         FLit (bs " TO agentcoopdb_gateway")])
        else
          mwrap (bs "insert api_keys: ")
            (exec (fun now d =>
               insert_key id {| kw_workspace := wsID; kw_key_id := keyID; kw_secret_hash := hash;
                                kw_env := ci_Env cin; kw_pg_role := ci_PgRole cin;
                                kw_name := nullif_empty (ci_Name cin); kw_created_at := now;
                                kw_last_used_at := None; kw_expires_at := ci_ExpiresAt cin;
                                kw_revoked_at := None; kw_replaces := None |} d))) in
    mret {| ck_ID := uuid_String id; ck_KeyID := keyID; ck_FullToken := fullToken;
            ck_Record :=
              {| kr_ID := uuid_String id; kr_WorkspaceID := ci_WorkspaceID cin; kr_KeyID := keyID;
                 kr_SecretHash := hash; kr_Env := ci_Env cin; kr_PgRole := ci_PgRole cin;
                 kr_Name := ci_Name cin; kr_CreatedAt := appNow; kr_LastUsedAt := None;
                 kr_ExpiresAt := ci_ExpiresAt cin; kr_RevokedAt := None;
                 kr_ReplacesKeyID := None |} |}.

(** [Revoke(id)] *)
Definition Revoke (id : bytes) : M unit :=
  let* idUUID := mlift (uuid_Parse id) in
  exec (fun now d => (update_key idUUID (set_revoked now) d, Ok tt)).

(** [SELECT workspace_id, env, pg_role, coalesce(name, '')] of the old key. *)
Definition select_for_rotate (oldUUID : uuid) : M (uuid * bytes * bytes * bytes) :=
  fun w => let '(w', r) := exec (fun _ d => (d, match db_keys d !! oldUUID with
                  | Some r => Ok (kw_workspace r, kw_env r, kw_pg_role r, coalesce_empty (kw_name r))
                  | None => Err ErrNoRows
                  end)) w in
           (w', res_map_err (fun e => if error_Is e ErrNoRows then ErrKeyNotFound else e) r).

(** ** [$2::interval] of [overlap.String()]

    Go prints a duration below a millisecond in µs or ns, which are no units of
    Postgres; below a second in ms; and else as hours, minutes and seconds without
    the leading units that are zero. A minus sign stands before the whole text, and
    Postgres reads it as the sign of the first unit only. An interval is a number of
    microseconds. All times here are in nanoseconds. *)

Definition round_us (ns : Z) : Z :=
  let q := (ns / 1000)%Z in
  let up := ((500 <? ns mod 1000) || ((ns mod 1000 =? 500) && Z.odd q))%Z in
  ((q + (if up then 1 else 0)) * 1000)%Z.

Definition invalid_interval : error :=
  PgErr {| pg_Severity := bs "ERROR"; pg_Code := bs "22007"; pg_Message := bs "invalid input syntax for type interval" |}.

Definition pg_interval (d : Z) : res error Z :=
  let a := Z.abs d in
  let signed x := (if d <? 0 then - x else x)%Z in
  let s := round_us (a mod (60 * 1000000000)) in
  let m := ((a / (60 * 1000000000)) mod 60 * (60 * 1000000000))%Z in
  let h := (a / (3600 * 1000000000) * (3600 * 1000000000))%Z in
  if (d =? 0)%Z then Ok 0%Z
  else if (a <? 1000000)%Z then Err invalid_interval
  else if (a <? 1000000000)%Z then Ok (signed (round_us a))
  else if (h =? 0)%Z then if (m =? 0)%Z then Ok (signed s) else Ok (signed m + s)%Z
  else Ok (signed h + m + s)%Z.

(** The transaction of [Rotate]. *)
Definition rotate_tx (dr : Draw) (appNow : Z) (oldUUID : uuid) (overlap : Z) : M CreatedKey :=
  let* (wsID, env, pgRole, nameVal) := select_for_rotate oldUUID in
  let* (keyID, secret, fullToken) := mlift (Mint (dr_id dr) (dr_secret dr) env) in
  let* hash := mlift (HashSecret IDKey (dr_salt dr) secret) in
  let newID := dr_uuid dr in
  let* _ := exec (fun now d =>
    insert_key newID {| kw_workspace := wsID; kw_key_id := keyID; kw_secret_hash := hash;
                        kw_env := env; kw_pg_role := pgRole; kw_name := nullif_empty nameVal;
                        kw_created_at := now; kw_last_used_at := None; kw_expires_at := None;
                        kw_revoked_at := None; kw_replaces := Some oldUUID |} d) in
  let* _ := exec (fun now d =>
    match pg_interval overlap with
    | Ok interval => (update_key oldUUID (set_expires (now + interval)) d, Ok tt)
    | Err e => (d, Err e)
    end) in
  mret {| ck_ID := uuid_String newID; ck_KeyID := keyID; ck_FullToken := fullToken;
          ck_Record :=
            {| kr_ID := uuid_String newID; kr_WorkspaceID := uuid_String wsID; kr_KeyID := keyID;
               kr_SecretHash := hash; kr_Env := env; kr_PgRole := pgRole; kr_Name := nameVal;
               kr_CreatedAt := appNow; kr_LastUsedAt := None; kr_ExpiresAt := None;
               kr_RevokedAt := None; kr_ReplacesKeyID := None |} |}.

(** [Rotate(oldID, overlap)] *)
Definition Rotate (dr : Draw) (appNow : Z) (oldID : bytes) (overlap : Z) : M CreatedKey :=
  let* oldUUID := mlift (uuid_Parse oldID) in
  with_tx (rotate_tx dr appNow oldUUID overlap).

(** ** Integrity of the table *)

Record keys_wf (d : Db) : Prop := {
  wf_key_id i j r s : db_keys d !! i = Some r → db_keys d !! j = Some s →
                      kw_key_id r = kw_key_id s → i = j;
  wf_env i r : db_keys d !! i = Some r → IsValid (kw_env r) = true;
  wf_workspace i r : db_keys d !! i = Some r → is_Some (db_workspaces d !! kw_workspace r);
}.

Lemma find_by_key_id_Some d kid i r :
  find_by_key_id d kid = Some (i, r) → db_keys d !! i = Some r ∧ kw_key_id r = kid.
Proof.
  unfold find_by_key_id. intros [Hin Hk]%find_some. simpl in Hk. go_bool.
  by rewrite <- list_elem_of_In, elem_of_map_to_list in Hin.
Qed.

Lemma find_by_key_id_None d kid i r :
  find_by_key_id d kid = None → db_keys d !! i = Some r → kw_key_id r ≠ kid.
Proof.
  unfold find_by_key_id. intros Hn Hi Hk.
  apply elem_of_map_to_list, list_elem_of_In in Hi.
  apply (find_none _ _ Hn) in Hi. simpl in Hi. go_bool. done.
Qed.

Lemma find_by_key_id_unique d i r :
  keys_wf d → db_keys d !! i = Some r → find_by_key_id d (kw_key_id r) = Some (i, r).
Proof.
  intros Hwf Hi. destruct (find_by_key_id d (kw_key_id r)) as [[j s]|] eqn:E.
  - apply find_by_key_id_Some in E as [Hj Hk]. f_equal.
    assert (i = j) as -> by (by eapply wf_key_id). by simplify_eq.
  - by eapply find_by_key_id_None in E.
Qed.

Lemma insert_key_Ok id row d d' :
  insert_key id row d = (d', Ok tt) →
  IsValid (kw_env row) = true ∧ db_keys d !! id = None ∧
  find_by_key_id d (kw_key_id row) = None ∧ is_Some (db_workspaces d !! kw_workspace row) ∧
  d' = set_keys d (<[id := row]> (db_keys d)).
Proof.
  unfold insert_key. intros Hx. go_inv Hx; go_bool; repeat split; try done.
  all: by apply eq_None_not_Some.
Qed.

Lemma insert_key_Err id row d : (insert_key id row d).2 ≠ Ok tt → (insert_key id row d).1 = d.
Proof. unfold insert_key. repeat case_match; simpl; congruence. Qed.

Lemma insert_key_wf id row d : keys_wf d → keys_wf (insert_key id row d).1.
Proof.
  intros Hwf. destruct (insert_key id row d) as [d' [[]|e]] eqn:E; simpl.
  - apply insert_key_Ok in E as (Hv & Hid & Hk & Hws & ->).
    split; simpl.
    + intros i j r s. rewrite !lookup_insert_Some.
      intros [[<- <-]|[Hi Hr]] [[<- <-]|[Hj Hs]] Heq; [done| | |by eapply wf_key_id].
      * by destruct (find_by_key_id_None _ _ _ _ Hk Hs).
      * by destruct (find_by_key_id_None _ _ _ _ Hk Hr).
    + intros i r [[<- <-]|[_ Hr]]%lookup_insert_Some; [done|by eapply wf_env].
    + intros i r [[<- <-]|[_ Hr]]%lookup_insert_Some; [done|by eapply wf_workspace].
  - pose proof (insert_key_Err id row d) as Hd. rewrite E in Hd. simpl in Hd. by rewrite Hd.
Qed.

(** The columns an update of the store never touches. *)
Definition same_identity (r s : key_row) : Prop :=
  kw_workspace s = kw_workspace r ∧ kw_key_id s = kw_key_id r ∧ kw_env s = kw_env r ∧
  kw_secret_hash s = kw_secret_hash r ∧ kw_pg_role s = kw_pg_role r.

Lemma set_last_used_identity now r : same_identity r (set_last_used now r).
Proof. by repeat split. Qed.

Lemma set_revoked_identity now r : same_identity r (set_revoked now r).
Proof. unfold set_revoked. by case_match; repeat split. Qed.

Lemma set_expires_identity e r : same_identity r (set_expires e r).
Proof. unfold set_expires. by case_match; repeat split. Qed.

Lemma lookup_update_key id f d i s :
  db_keys (update_key id f d) !! i = Some s →
  ∃ r, db_keys d !! i = Some r ∧ (s = r ∨ s = f r).
Proof.
  simpl. rewrite lookup_alter. case_decide; [subst|eauto].
  intros Hs. apply fmap_Some in Hs as (r & Hr & ->). eauto.
Qed.

Lemma update_key_wf id f d :
  (∀ r, same_identity r (f r)) → keys_wf d → keys_wf (update_key id f d).
Proof.
  intros Hf Hwf.
  assert (∀ i s, db_keys (update_key id f d) !! i = Some s →
                 ∃ r, db_keys d !! i = Some r ∧ same_identity r s) as Hl.
  { intros i s (r & Hr & [-> | ->])%lookup_update_key; exists r; split; try done. }
  split.
  - intros i j r s (r' & Hr & Hi)%Hl (s' & Hs & Hj)%Hl Heq.
    eapply wf_key_id; [done..|]. destruct Hi as (_ & <- & _), Hj as (_ & <- & _). done.
  - intros i r (r' & Hr & Hi)%Hl. destruct Hi as (_ & _ & -> & _). by eapply wf_env.
  - intros i r (r' & Hr & Hi)%Hl. destruct Hi as (-> & _). by eapply wf_workspace in Hr.
Qed.

(** ** Invariant: every operation keeps the table well formed *)

Lemma FindByKeyID_preserves P kid : preserves P (FindByKeyID kid).
Proof. apply preserves_map, preserves_exec. done. Qed.

Lemma TouchLastUsed_wf id : preserves keys_wf (TouchLastUsed id).
Proof.
  apply preserves_bind; [by apply preserves_pure|]. intros u. apply preserves_exec.
  intros now d. apply update_key_wf, set_last_used_identity.
Qed.

Lemma Revoke_wf id : preserves keys_wf (Revoke id).
Proof.
  apply preserves_bind; [by apply preserves_pure|]. intros u. apply preserves_exec.
  intros now d. apply update_key_wf, set_revoked_identity.
Qed.

Lemma Create_wf dr now cin : preserves keys_wf (Create dr now cin).
Proof.
  unfold Create. destruct (IsValid _); simpl; [|by apply preserves_pure].
  repeat (apply preserves_bind; [by apply preserves_pure|]; intros).
  destruct a0 as [[keyID secret] tok].
  apply preserves_bind; [by apply preserves_pure|]. intros hash.
  apply preserves_bind; [|intros; by apply preserves_pure].
  apply preserves_tx, preserves_bind; [by apply preserves_wrap, preserves_exec|]. intros [].
  - apply preserves_bind; [by apply preserves_wrap, preserves_exec|]. intros []; simpl.
    + apply preserves_wrap, preserves_exec. intros. by apply insert_key_wf.
    + by apply preserves_pure.
  - by apply preserves_pure.
Qed.

Lemma Rotate_wf dr now oldID overlap : preserves keys_wf (Rotate dr now oldID overlap).
Proof.
  unfold Rotate. apply preserves_bind; [by apply preserves_pure|]. intros u.
  apply preserves_tx, preserves_bind; [by apply preserves_map, preserves_exec|].
  intros [[[ws env] role] name].
  apply preserves_bind; [by apply preserves_pure|]. intros [[keyID secret] tok].
  apply preserves_bind; [by apply preserves_pure|]. intros hash.
  apply preserves_bind; [apply preserves_exec; intros; by apply insert_key_wf|]. intros _.
  apply preserves_bind; [apply preserves_exec|intros; by apply preserves_pure].
  intros now' d Hd. destruct (pg_interval overlap); [|done]. by apply update_key_wf; [apply set_expires_identity|].
Qed.

(** The api_keys table stays well formed (unique key ids, known environments,
    existing workspaces) through every operation of the store, whichever database
    calls fail and however ambiguous their failure is. *)
Theorem store_keeps_keys_wf :
  (∀ kid, preserves keys_wf (FindByKeyID kid)) ∧
  (∀ id, preserves keys_wf (TouchLastUsed id)) ∧
  (∀ id, preserves keys_wf (Revoke id)) ∧
  (∀ dr now cin, preserves keys_wf (Create dr now cin)) ∧
  (∀ dr now oldID overlap, preserves keys_wf (Rotate dr now oldID overlap)).
Proof.
  auto using FindByKeyID_preserves, TouchLastUsed_wf, Revoke_wf, Create_wf, Rotate_wf.
Qed.

(** ** Atomicity *)

Lemma Create_keeps_faults dr now cin w w' e :
  unambiguous w → Create dr now cin w = (w', Err e) → w_db w' = w_db w.
Proof.
  unfold Create. intros Hu Hx. destruct (IsValid _); munfold Hx; [|by simplify_eq].
  destruct (uuid_Parse _) as [ws|]; simpl in Hx; [|by simplify_eq].
  destruct (Mint _ _ _) as [[[kid sec] tok]|]; simpl in Hx; [|by simplify_eq].
  destruct (HashSecret _ _ _) as [hash|]; simpl in Hx; [|by simplify_eq].
  destruct (with_tx _ _) as [w1 [[]|e1]] eqn:E in Hx; simplify_eq.
  eapply with_tx_atomic in E; [done| |done].
  apply keeps_bind; [by apply keeps_wrap, keeps_exec|]. intros []; [|apply keeps_fail].
  apply keeps_bind; [by apply keeps_wrap, keeps_exec|]. intros []; [|apply keeps_fail].
  apply keeps_wrap, keeps_exec.
Qed.

Lemma Rotate_keeps_faults dr now oldID overlap w w' e :
  unambiguous w → Rotate dr now oldID overlap w = (w', Err e) → w_db w' = w_db w.
Proof.
  unfold Rotate. intros Hu Hx. unfold mbind at 1, mlift at 1 in Hx.
  destruct (uuid_Parse oldID) as [u|]; [|by simplify_eq].
  eapply with_tx_atomic in Hx; [done| |done].
  apply keeps_bind.
  { intros v v' r Hv Huv. unfold select_for_rotate in Hv. destruct (exec _ v) eqn:E.
    simplify_eq. by eapply keeps_exec. }
  intros [[[ws env] role] name]. apply keeps_bind; [apply keeps_lift|].
  intros [[keyID secret] tok]. apply keeps_bind; [apply keeps_lift|]. intros hash.
  apply keeps_bind; [apply keeps_exec|]. intros _.
  apply keeps_bind; [apply keeps_exec|]. intros _. apply keeps_ret.
Qed.

(** Creating or rotating a key is all or nothing: when any call of the
    operation fails (the role checks, the inserts, the update of the old row, the
    begin or the commit) the database is left exactly as it was, so a rotation
    never leaves a new key beside an old one without expiry, or the reverse. *)
Theorem create_rotate_atomic dr now cin oldID overlap w w' e :
  unambiguous w →
  Create dr now cin w = (w', Err e) ∨ Rotate dr now oldID overlap w = (w', Err e) →
  w_db w' = w_db w.
Proof. intros Hu [Hx|Hx]; [by eapply Create_keeps_faults|by eapply Rotate_keeps_faults]. Qed.

(** ** What a successful operation did *)

(** The row [Create] inserts. *)
Definition created_row (wsID : uuid) (keyID hash : bytes) (dbnow : Z) (cin : CreateKeyInput) : key_row :=
  {| kw_workspace := wsID; kw_key_id := keyID; kw_secret_hash := hash;
     kw_env := ci_Env cin; kw_pg_role := ci_PgRole cin; kw_name := nullif_empty (ci_Name cin);
     kw_created_at := dbnow; kw_last_used_at := None; kw_expires_at := ci_ExpiresAt cin;
     kw_revoked_at := None; kw_replaces := None |}.

Lemma Create_Ok dr now cin w w' ck :
  Create dr now cin w = (w', Ok ck) →
  ∃ wsID keyID secret token hash,
    uuid_Parse (ci_WorkspaceID cin) = Ok wsID ∧
    Mint (dr_id dr) (dr_secret dr) (ci_Env cin) = Ok (keyID, secret, token) ∧
    HashSecret IDKey (dr_salt dr) secret = Ok hash ∧
    ci_PgRole cin ∈ db_roles (w_db w) ∧ ci_PgRole cin ∈ db_gateway_roles (w_db w) ∧
    insert_key (dr_uuid dr) (created_row wsID keyID hash (w_dbnow w) cin) (w_db w) = (w_db w', Ok tt) ∧
    ck_ID ck = uuid_String (dr_uuid dr) ∧ ck_KeyID ck = keyID ∧ ck_FullToken ck = token.
Proof.
  unfold Create. destruct (IsValid _); cbn [negb]; [|done]. intros Hx.
  apply mbind_Ok in Hx as (w1 & wsID & [= <- Hws]%mwrap_Ok & Hx).
  apply mbind_Ok in Hx as (w2 & [[keyID secret] tok] & [= <- Hm] & Hx).
  apply mbind_Ok in Hx as (w3 & hash & [= <- Hh] & Hx).
  apply mbind_Ok in Hx as (w4 & [] & Htx & [= <- <-]).
  apply with_tx_Ok in Htx as (v1 & v2 & Hd1 & Hn1 & Htx & Hd2).
  apply mbind_Ok in Htx as (v3 & b & Hb%mwrap_Ok & Htx).
  apply exec_Ok in Hb as [[= Hd3 Hb] Hn3]. destruct b; cbn [negb] in Htx; [|done].
  apply mbind_Ok in Htx as (v4 & b & Hb2%mwrap_Ok & Htx).
  apply exec_Ok in Hb2 as [[= Hd4 Hb2] Hn4]. destruct b; cbn [negb] in Htx; [|done].
  apply mwrap_Ok, exec_Ok in Htx as [Hins _]. go_bool.
  exists wsID, keyID, secret, tok, hash. rewrite Hd2.
  rewrite <- Hd4, <- Hd3, Hd1, Hn4, Hn3, Hn1 in Hins.
  repeat split; try done; congruence.
Qed.

(** Whatever [Create] reports, it inserted its row or changed nothing. *)
Lemma Create_rows dr now cin w w' r :
  Create dr now cin w = (w', r) →
  w_db w' = w_db w ∨
  ∃ wsID keyID hash, uuid_Parse (ci_WorkspaceID cin) = Ok wsID ∧ ci_PgRole cin ∈ db_gateway_roles (w_db w) ∧
    insert_key (dr_uuid dr) (created_row wsID keyID hash (w_dbnow w) cin) (w_db w) = (w_db w', Ok tt).
Proof.
  unfold Create. destruct (IsValid _); cbn [negb]; [|intros [= <- <-]; by left].
  unfold mwrap at 1, mlift at 1, mbind at 1. destruct (uuid_Parse (ci_WorkspaceID cin)) as [wsID|e] eqn:Hws;
    cbn [res_map_err]; [|intros [= <- <-]; by left].
  unfold mlift at 1, mbind at 1. destruct (Mint _ _ _) as [[[keyID secret] tok]|e] eqn:Hm;
    [|intros [= <- <-]; by left].
  unfold mlift at 1, mbind at 1. destruct (HashSecret _ _ _) as [hash|e] eqn:Hh; [|intros [= <- <-]; by left].
  unfold mbind at 1. destruct (with_tx _ w) as [w1 rt] eqn:Htx. intros Hx.
  assert (w' = w1) as -> by (destruct rt; unfold mret in Hx; by simplify_eq). clear Hx.
  apply with_tx_inv in Htx as [?|(v1 & v2 & [] & Hd1 & Hn1 & Htx & Hd2)]; [by left|right].
  apply mbind_Ok in Htx as (v3 & b & Hb%mwrap_Ok & Htx).
  apply exec_Ok in Hb as [[= Hd3 Hb] Hn3]. destruct b; cbn [negb] in Htx; [|done].
  apply mbind_Ok in Htx as (v4 & b & Hb2%mwrap_Ok & Htx).
  apply exec_Ok in Hb2 as [[= Hd4 Hb2] Hn4]. destruct b; cbn [negb] in Htx; [|done].
  apply mwrap_Ok, exec_Ok in Htx as [Hins _]. go_bool. exists wsID, keyID, hash. rewrite Hd2.
  rewrite <- Hd4, <- Hd3, Hd1, Hn4, Hn3, Hn1 in Hins. split; [done|]. split; [congruence|done].
Qed.

(** The row [Rotate] inserts for the old row [o]. *)
Definition rotated_row (old : uuid) (o : key_row) (keyID hash : bytes) (dbnow : Z) : key_row :=
  {| kw_workspace := kw_workspace o; kw_key_id := keyID; kw_secret_hash := hash;
     kw_env := kw_env o; kw_pg_role := kw_pg_role o;
     kw_name := nullif_empty (coalesce_empty (kw_name o));
     kw_created_at := dbnow; kw_last_used_at := None; kw_expires_at := None;
     kw_revoked_at := None; kw_replaces := Some old |}.

Lemma rotate_tx_Ok dr now old overlap v v' ck :
  rotate_tx dr now old overlap v = (v', Ok ck) →
  ∃ interval o keyID secret token hash d1,
    pg_interval overlap = Ok interval ∧ db_keys (w_db v) !! old = Some o ∧
    Mint (dr_id dr) (dr_secret dr) (kw_env o) = Ok (keyID, secret, token) ∧
    HashSecret IDKey (dr_salt dr) secret = Ok hash ∧
    insert_key (dr_uuid dr) (rotated_row old o keyID hash (w_dbnow v)) (w_db v) = (d1, Ok tt) ∧
    w_db v' = update_key old (set_expires (w_dbnow v + interval)) d1 ∧
    ck_ID ck = uuid_String (dr_uuid dr) ∧ ck_KeyID ck = keyID ∧ ck_FullToken ck = token.
Proof.
  unfold rotate_tx. intros Hx.
  apply mbind_Ok in Hx as (v3 & [[[ws env] role] name] & Hsel & Hx).
  unfold select_for_rotate in Hsel. destruct (exec _ v) as [u [r|e]] eqn:Ee; simplify_eq/=.
  apply exec_Ok in Ee as [[= Hd3 Ho] Hn3].
  destruct (db_keys (w_db v) !! old) as [o|] eqn:Hlo; simplify_eq/=.
  apply mbind_Ok in Hx as (v4 & [[keyID secret] tok] & [= <- Hm] & Hx).
  apply mbind_Ok in Hx as (v5 & hash & [= <- Hh] & Hx).
  apply mbind_Ok in Hx as (v6 & [] & Hi & Hx). apply exec_Ok in Hi as [Hi Hn6].
  apply mbind_Ok in Hx as (v7 & [] & Hu & [= <- <-]). apply exec_Ok in Hu as [Hu Hn7].
  destruct (pg_interval overlap) as [interval|]; [|done]. injection Hu as Hd7.
  rewrite <- Hd3, Hn3 in Hi. rewrite Hn6, Hn3 in Hd7.
  exists interval, o, keyID, secret, tok, hash, (w_db v6).
  repeat split; try done; try congruence.
Qed.

Lemma Rotate_Ok dr now oldID overlap w w' ck :
  Rotate dr now oldID overlap w = (w', Ok ck) →
  ∃ interval old o keyID secret token hash d1,
    pg_interval overlap = Ok interval ∧ uuid_Parse oldID = Ok old ∧ db_keys (w_db w) !! old = Some o ∧
    Mint (dr_id dr) (dr_secret dr) (kw_env o) = Ok (keyID, secret, token) ∧
    HashSecret IDKey (dr_salt dr) secret = Ok hash ∧
    insert_key (dr_uuid dr) (rotated_row old o keyID hash (w_dbnow w)) (w_db w) = (d1, Ok tt) ∧
    w_db w' = update_key old (set_expires (w_dbnow w + interval)) d1 ∧
    ck_ID ck = uuid_String (dr_uuid dr) ∧ ck_KeyID ck = keyID ∧ ck_FullToken ck = token.
Proof.
  unfold Rotate. intros Hx. apply mbind_Ok in Hx as (w1 & old & [= <- Hold] & Hx).
  apply with_tx_Ok in Hx as (v1 & v2 & Hd1 & Hn1 & Hx & Hd2).
  apply rotate_tx_Ok in Hx as (iv & o & kid & sec & tok & hash & d1 & Hx). rewrite Hd1, Hn1, <- Hd2 in Hx.
  exists iv, old, o, kid, sec, tok, hash, d1. naive_solver.
Qed.

(** Whatever [Rotate] reports, it did all of it or nothing. *)
Lemma Rotate_rows dr now oldID overlap w w' r :
  Rotate dr now oldID overlap w = (w', r) →
  w_db w' = w_db w ∨
  ∃ interval old o keyID hash d1, uuid_Parse oldID = Ok old ∧ db_keys (w_db w) !! old = Some o ∧
    pg_interval overlap = Ok interval ∧
    insert_key (dr_uuid dr) (rotated_row old o keyID hash (w_dbnow w)) (w_db w) = (d1, Ok tt) ∧
    w_db w' = update_key old (set_expires (w_dbnow w + interval)) d1.
Proof.
  unfold Rotate, mbind at 1, mlift at 1. destruct (uuid_Parse oldID) as [old|]; [|intros [= <- <-]; by left].
  intros [?|(v1 & v2 & ck & Hd1 & Hn1 & Hx & Hd2)]%with_tx_inv; [by left|right].
  apply rotate_tx_Ok in Hx as (iv & o & kid & sec & tok & hash & d1 & Hx). rewrite Hd1, Hn1, <- Hd2 in Hx.
  exists iv, old, o, kid, hash, d1. naive_solver.
Qed.

(** Looking up a row of a well-formed table without failures. *)
Lemma FindByKeyID_row w id r :
  keys_wf (w_db w) → clean w → db_keys (w_db w) !! id = Some r →
  FindByKeyID (kw_key_id r) w = (w, Ok (record_of_row id r)).
Proof.
  intros Hwf Hc Hr. unfold FindByKeyID, select_by_key_id. rewrite exec_clean by done. simpl.
  rewrite (find_by_key_id_unique _ _ _ Hwf Hr). simpl. by destruct w.
Qed.

(** argon2id returns as many bytes as it is asked for. *)
Hypothesis IDKey_length : ∀ pw salt,
  length (IDKey pw salt argonTime argonMemory argonThreads argonKeyLen) = 32.

(** A minted token names the row it was stored in and carries its secret. *)
Lemma minted_usable dr idB secB env keyID secret token hash w id r :
  dr_id dr = Ok idB → length idB = keyIDRawBytes →
  dr_secret dr = Ok secB → length secB = secretRawBytes →
  Mint (dr_id dr) (dr_secret dr) env = Ok (keyID, secret, token) →
  HashSecret IDKey (dr_salt dr) secret = Ok hash →
  keys_wf (w_db w) → clean w → db_keys (w_db w) !! id = Some r →
  kw_key_id r = keyID → kw_secret_hash r = hash →
  ∃ p, ParseBearer (bs "Bearer " ++ token) = Ok p ∧
       FindByKeyID (pk_KeyID p) w = (w, Ok (record_of_row id r)) ∧
       VerifySecret IDKey (pk_Secret p) (kw_secret_hash r) = Some (Ok tt).
Proof.
  intros Hi Hil Hs Hsl Hm Hh Hwf Hc Hr <- <-. rewrite Hi, Hs in Hm.
  eexists. split; [|split].
  - assert (bs "Bearer " ++ token = [] ++ (if true then bs "Bearer " ++ [] else []) ++ token ++ [])
      as -> by (by rewrite !app_nil_r).
    eapply (Mint_parse [] [] [] true); by try constructor.
  - simpl. by apply FindByKeyID_row.
  - simpl. destruct (dr_salt dr) as [salt|]; [|done]. by eapply VerifySecret_HashSecret_ok.
Qed.

(** What a successful [Create] promises its caller. *)
Lemma Create_usable_ok dr idB secB now cin w w' w'' ck :
  dr_id dr = Ok idB → length idB = keyIDRawBytes →
  dr_secret dr = Ok secB → length secB = secretRawBytes →
  keys_wf (w_db w) → Create dr now cin w = (w', Ok ck) →
  clean w'' → w_db w'' = w_db w' →
  ci_PgRole cin ∈ db_roles (w_db w) ∧ ci_PgRole cin ∈ db_gateway_roles (w_db w) ∧
  ∃ p rec, ParseBearer (bs "Bearer " ++ ck_FullToken ck) = Ok p ∧
    FindByKeyID (pk_KeyID p) w'' = (w'', Ok rec) ∧
    VerifySecret IDKey (pk_Secret p) (kr_SecretHash rec) = Some (Ok tt) ∧
    kr_ID rec = ck_ID ck ∧
    (∃ u, uuid_Parse (ci_WorkspaceID cin) = Ok u ∧ kr_WorkspaceID rec = uuid_String u) ∧
    kr_PgRole rec = ci_PgRole cin ∧ kr_Env rec = ci_Env cin ∧
    ∀ t, (∀ e, ci_ExpiresAt cin = Some e → (t < e)%Z) → Active rec t = true.
Proof.
  intros Hi Hil Hs Hsl Hwf Hx Hc Hd. pose proof (Create_wf _ _ _ _ _ _ Hx Hwf) as Hwf'.
  apply Create_Ok in Hx as (wsID & kid & sec & tok & hash & Hws & Hm & Hh & Hr & Hg & Hins & HI & HK & HT).
  split; [done|]. split; [done|]. rewrite <- Hd in Hwf', Hins.
  apply insert_key_Ok in Hins as (_ & _ & _ & _ & Hd').
  assert (db_keys (w_db w'') !! dr_uuid dr = Some (created_row wsID kid hash (w_dbnow w) cin)) as Hrow
    by (rewrite Hd'; apply lookup_insert_eq).
  destruct (minted_usable dr idB secB _ _ _ _ _ w'' _ _ Hi Hil Hs Hsl Hm Hh Hwf' Hc Hrow)
    as (p & Hp & Hf & Hv); [done..|].
  exists p. eexists. rewrite HT, HI, Hws. repeat split; try done; [by eexists|].
  intros t Ht. unfold Active; simpl. destruct (ci_ExpiresAt cin); [|done]. apply Z.ltb_lt; auto.
Qed.

(** A key that [Create] reports as created works: its token parses, the
    lookup by its key id finds the new row, the secret verifies against the stored
    hash, the record carries the requested workspace, role and environment, and it
    is active until the requested expiry. [Create] only succeeds for a role that
    exists and that the gateway is a member of. *)
Theorem Create_usable dr idB secB now cin w w' w'' ck :
  dr_id dr = Ok idB → length idB = keyIDRawBytes →
  dr_secret dr = Ok secB → length secB = secretRawBytes →
  keys_wf (w_db w) → Create dr now cin w = (w', Ok ck) →
  clean w'' → w_db w'' = w_db w' →
  ci_PgRole cin ∈ db_roles (w_db w) ∧ ci_PgRole cin ∈ db_gateway_roles (w_db w) ∧
  ∃ p rec, ParseBearer (bs "Bearer " ++ ck_FullToken ck) = Ok p ∧
    FindByKeyID (pk_KeyID p) w'' = (w'', Ok rec) ∧
    VerifySecret IDKey (pk_Secret p) (kr_SecretHash rec) = Some (Ok tt) ∧
    kr_ID rec = ck_ID ck ∧
    (∃ u, uuid_Parse (ci_WorkspaceID cin) = Ok u ∧ kr_WorkspaceID rec = uuid_String u) ∧
    kr_PgRole rec = ci_PgRole cin ∧ kr_Env rec = ci_Env cin ∧
    ∀ t, (∀ e, ci_ExpiresAt cin = Some e → (t < e)%Z) → Active rec t = true.
Proof. apply Create_usable_ok. Qed.

(** The tables after a rotation. *)
Lemma Rotate_tables dr now oldID overlap w w' ck old o :
  Rotate dr now oldID overlap w = (w', Ok ck) →
  uuid_Parse oldID = Ok old → db_keys (w_db w) !! old = Some o →
  old ≠ dr_uuid dr ∧
  (∃ interval, pg_interval overlap = Ok interval ∧
     db_keys (w_db w') !! old = Some (set_expires (w_dbnow w + interval) o)) ∧
  ∀ i, i ≠ old → i ≠ dr_uuid dr → db_keys (w_db w') !! i = db_keys (w_db w) !! i.
Proof.
  intros (iv & old' & o' & kid & sec & tok & hash & d1 & Hiv & Hp & Ho & Hm & Hh & Hins & Hd & _)%Rotate_Ok Hp' Ho'.
  assert (old' = old) as -> by congruence. assert (o' = o) as -> by congruence.
  apply insert_key_Ok in Hins as (_ & Hfresh & _ & _ & ->).
  assert (old ≠ dr_uuid dr) as Hne by congruence.
  rewrite Hd. unfold update_key; simpl. split; [done|]. split.
  - exists iv. split; [done|]. rewrite lookup_alter_eq, lookup_insert_ne by done. by rewrite Ho.
  - intros i H1 H2. by rewrite lookup_alter_ne, lookup_insert_ne by done.
Qed.

Lemma round_us_exact a : (a mod 1000 = 0)%Z → round_us a = a.
Proof. intros Ha. unfold round_us. rewrite Ha. simpl. dlia. Qed.

(** An overlap of whole microseconds that is not negative is the interval. *)
Lemma pg_interval_exact d interval :
  (0 ≤ d)%Z → (d mod 1000 = 0)%Z → pg_interval d = Ok interval → interval = d.
Proof.
  intros H0 Hm. unfold pg_interval. rewrite Z.abs_eq by done. rewrite (proj2 (Z.ltb_ge d 0)) by done. cbv zeta.
  rewrite !round_us_exact by dlia.
  destruct (Z.eqb_spec d 0) as [->|]; [by intros [= <-]|].
  destruct (Z.ltb_spec d 1000000); [done|]. destruct (Z.ltb_spec d 1000000000); [by intros [= <-]|].
  destruct (Z.eqb_spec (d / (3600 * 1000000000) * (3600 * 1000000000)) 0);
    [destruct (Z.eqb_spec ((d / (60 * 1000000000)) mod 60 * (60 * 1000000000)) 0)|]; intros [= <-]; dlia.
Qed.

(** C32: A successful rotation adds one working key with the workspace, role and
    environment of the old one, linked to it and without expiry, gives the old key
    (unless it is revoked) an expiry of now plus the overlap, as Postgres reads its
    text, and no other change, and touches no other row. For an overlap of whole
    microseconds that is not negative the text is read as the overlap itself. *)
Theorem Rotate_spec dr idB secB now oldID overlap w w' w'' ck :
  dr_id dr = Ok idB → length idB = keyIDRawBytes →
  dr_secret dr = Ok secB → length secB = secretRawBytes →
  keys_wf (w_db w) → Rotate dr now oldID overlap w = (w', Ok ck) →
  clean w'' → w_db w'' = w_db w' →
  ∃ old o p rec,
    uuid_Parse oldID = Ok old ∧ db_keys (w_db w) !! old = Some o ∧
    ParseBearer (bs "Bearer " ++ ck_FullToken ck) = Ok p ∧
    FindByKeyID (pk_KeyID p) w'' = (w'', Ok rec) ∧
    VerifySecret IDKey (pk_Secret p) (kr_SecretHash rec) = Some (Ok tt) ∧
    kr_WorkspaceID rec = uuid_String (kw_workspace o) ∧ kr_PgRole rec = kw_pg_role o ∧
    kr_Env rec = kw_env o ∧ kr_ReplacesKeyID rec = Some (uuid_String old) ∧
    (∀ t, Active rec t = true) ∧
    (∃ interval, db_keys (w_db w') !! old = Some (set_expires (w_dbnow w + interval) o) ∧
       pg_interval overlap = Ok interval ∧ ((0 ≤ overlap)%Z → (overlap mod 1000 = 0)%Z → interval = overlap)) ∧
    ∀ i, i ≠ old → i ≠ dr_uuid dr → db_keys (w_db w') !! i = db_keys (w_db w) !! i.
Proof.
  intros Hi Hil Hs Hsl Hwf Hx Hc Hd. pose proof (Rotate_wf _ _ _ _ _ _ _ Hx Hwf) as Hwf'.
  pose proof Hx as (iv & old & o & kid & sec & tok & hash & d1 & Hiv & Hp & Ho & Hm & Hh & Hins & Hd1 & _ & _ & HT)%Rotate_Ok.
  destruct (Rotate_tables _ _ _ _ _ _ _ _ _ Hx Hp Ho) as (Hne & (iv' & Hiv' & Hold) & Hrest).
  apply insert_key_Ok in Hins as (_ & _ & _ & _ & ->).
  assert (db_keys (w_db w'') !! dr_uuid dr = Some (rotated_row old o kid hash (w_dbnow w))) as Hrow
    by (rewrite Hd, Hd1; unfold update_key; simpl; by rewrite lookup_alter_ne, lookup_insert_eq).
  rewrite <- Hd in Hwf'.
  destruct (minted_usable dr idB secB _ _ _ _ _ w'' _ _ Hi Hil Hs Hsl Hm Hh Hwf' Hc Hrow)
    as (p & Hpb & Hf & Hv); [done..|].
  exists old, o, p. eexists. rewrite HT. repeat (split; [done|]). split; [|done].
  exists iv'. split; [done|]. split; [done|]. intros. by apply pg_interval_exact.
Qed.

(** The overlap window is not a bound on the life of a rotated key: while it
    is still active the old key may rotate again, and every rotation moves its
    expiry to now plus the overlap, so after a second rotation it is active past
    the end of the first window. *)
Theorem Rotate_renews_old_key dr1 dr2 n1 n2 oldID overlap interval old o w0 w1 w1' w2 ck1 ck2 t :
  pg_interval overlap = Ok interval →
  uuid_Parse oldID = Ok old → db_keys (w_db w0) !! old = Some o → kw_revoked_at o = None →
  Rotate dr1 n1 oldID overlap w0 = (w1, Ok ck1) → w_db w1' = w_db w1 →
  Rotate dr2 n2 oldID overlap w1' = (w2, Ok ck2) →
  (t < w_dbnow w1' + interval)%Z →
  ∃ r, db_keys (w_db w2) !! old = Some r ∧ Active (record_of_row old r) t = true.
Proof.
  intros Hiv Hp Ho Hrev H1 Hd H2 Ht.
  destruct (Rotate_tables _ _ _ _ _ _ _ _ _ H1 Hp Ho) as (_ & (iv1 & _ & Ho1) & _). rewrite <- Hd in Ho1.
  destruct (Rotate_tables _ _ _ _ _ _ _ _ _ H2 Hp Ho1) as (_ & (iv2 & Hiv2 & Ho2) & _).
  assert (iv2 = interval) as -> by congruence.
  eexists. split; [exact Ho2|]. unfold Active, set_expires; simpl.
  rewrite Hrev; simpl. apply Z.ltb_lt. lia.
Qed.

(** Overlaps that are not read as they were meant: half a millisecond is refused,
    and minus ninety minutes is minus one hour and thirty minutes. *)
Theorem overlap_misread :
  pg_interval 500000 = Err invalid_interval ∧ pg_interval (- (90 * 60 * 1000000000)) = Ok (- (30 * 60 * 1000000000))%Z.
Proof. by vm_compute. Qed.

End Store.

(** ** A concrete store *)

Module Demo.
#[local] Existing Instance text_uuid.

Definition uid (s : bytes) : uuid :=
  match uuid_Parse s with Ok u => u | Err _ => exist _ [x00] I end.

Definition row0 : key_row :=
  {| kw_workspace := uid (bs "ws"); kw_key_id := bs "key0"; kw_secret_hash := bs "h";
     kw_env := EnvLive; kw_pg_role := bs "dbadmin"; kw_name := None; kw_created_at := 0;
     kw_last_used_at := None; kw_expires_at := None; kw_revoked_at := None; kw_replaces := None |}.

Definition db0 : Db :=
  {| db_workspaces := {[uid (bs "ws") := bs "default"]}; db_keys := {[uid (bs "old") := row0]};
     db_idem := ∅; db_roles := {[bs "dbadmin"; bs "dbuser"]};
     db_gateway_roles := {[bs "dbadmin"; bs "dbuser"]} |}.

Definition w0 : world := {| w_db := db0; w_dbnow := 1000; w_faults := [] |}.

Definition draw (c : byte) : Draw :=
  {| dr_id := Ok (repeat c 12); dr_secret := Ok (repeat c 24); dr_salt := Ok (repeat c 16);
     dr_uuid := uid [c] |}.

Definition cin : CreateKeyInput :=
  {| ci_WorkspaceID := bs "ws"; ci_Env := EnvDev; ci_PgRole := bs "dbuser"; ci_Name := bs "app";
     ci_ExpiresAt := None |}.

Lemma db0_wf : keys_wf db0.
Proof.
  split; unfold db0; simpl.
  - intros i j r s [<- <-]%lookup_singleton_Some [<- <-]%lookup_singleton_Some. done.
  - intros i r [<- <-]%lookup_singleton_Some. done.
  - intros i r [<- <-]%lookup_singleton_Some. simpl. rewrite lookup_singleton_eq. eauto.
Qed.
End Demo.

Lemma create_rotate_atomic_witness :
  w_db (Create toy_IDKey (Demo.draw x61) 0 Demo.cin
         {| w_db := Demo.db0; w_dbnow := 0;
            w_faults := [NoFault; NoFault; NoFault; NoFault; Fail ErrNoRows] |}).1 = Demo.db0.
Proof.
  destruct (Create toy_IDKey (Demo.draw x61) 0 Demo.cin _) as [w' r] eqn:E.
  apply (create_rotate_atomic toy_IDKey (Demo.draw x61) 0 Demo.cin [] 0
    {| w_db := Demo.db0; w_dbnow := 0;
       w_faults := [NoFault; NoFault; NoFault; NoFault; Fail ErrNoRows] |} w' ErrNoRows).
  - repeat constructor; congruence.
  - left. rewrite E. apply (f_equal snd) in E. vm_compute in E. by rewrite <- E.
Defined.

Lemma Create_usable_witness :
  ∃ ck p rec, (Create toy_IDKey (Demo.draw x61) 0 Demo.cin Demo.w0).2 = Ok ck ∧
    ParseBearer (bs "Bearer " ++ ck_FullToken ck) = Ok p ∧ kr_PgRole rec = bs "dbuser" ∧
    VerifySecret toy_IDKey (pk_Secret p) (kr_SecretHash rec) = Some (Ok tt).
Proof.
  destruct (Create toy_IDKey (Demo.draw x61) 0 Demo.cin Demo.w0) as [w' r] eqn:E.
  destruct r as [ck|e]; [|apply (f_equal snd) in E; vm_compute in E; discriminate E].
  destruct (Create_usable toy_IDKey (fun pw salt => toy_IDKey_length pw salt _ _ _ _)
    (Demo.draw x61) (repeat x61 12) (repeat x61 24) 0 Demo.cin Demo.w0 w'
    {| w_db := w_db w'; w_dbnow := 5; w_faults := [] |} ck)
    as (_ & _ & p & rec & Hp & _ & Hv & _ & _ & Hr & _);
    [reflexivity|reflexivity|reflexivity|reflexivity|exact Demo.db0_wf|exact E|reflexivity|reflexivity|].
  exists ck, p, rec. split; [reflexivity|]. split; [exact Hp|]. split; [exact Hr|exact Hv].
Defined.

Lemma Rotate_spec_witness :
  ∃ ck o p rec, (Rotate toy_IDKey (Demo.draw x61) 0 (bs "old") 50000000 Demo.w0).2 = Ok ck ∧
    (∃ old, db_keys (w_db Demo.w0) !! old = Some o) ∧
    ParseBearer (bs "Bearer " ++ ck_FullToken ck) = Ok p ∧ kr_PgRole rec = kw_pg_role o ∧
    VerifySecret toy_IDKey (pk_Secret p) (kr_SecretHash rec) = Some (Ok tt).
Proof.
  destruct (Rotate toy_IDKey (Demo.draw x61) 0 (bs "old") 50000000 Demo.w0) as [w' r] eqn:E.
  destruct r as [ck|e]; [|apply (f_equal snd) in E; vm_compute in E; discriminate E].
  destruct (Rotate_spec toy_IDKey (fun pw salt => toy_IDKey_length pw salt _ _ _ _)
    (Demo.draw x61) (repeat x61 12) (repeat x61 24) 0 (bs "old") 50000000 Demo.w0 w'
    {| w_db := w_db w'; w_dbnow := 5; w_faults := [] |} ck)
    as (old & o & p & rec & _ & Ho & Hp & _ & Hv & _ & Hr & _);
    [reflexivity|reflexivity|reflexivity|reflexivity|exact Demo.db0_wf|exact E|reflexivity|reflexivity|].
  exists ck, o, p, rec. split; [reflexivity|]. split; [exists old; exact Ho|].
  split; [exact Hp|]. split; [exact Hr|exact Hv].
Defined.

Lemma Rotate_renews_old_key_witness :
  ∃ w1 w2 ck1 ck2 r,
    Rotate toy_IDKey (Demo.draw x61) 0 (bs "old") 50000000 Demo.w0 = (w1, Ok ck1) ∧
    Rotate toy_IDKey (Demo.draw x62) 0 (bs "old") 50000000
      {| w_db := w_db w1; w_dbnow := 40001000; w_faults := [] |} = (w2, Ok ck2) ∧
    db_keys (w_db w2) !! Demo.uid (bs "old") = Some r ∧
    Active (record_of_row (Demo.uid (bs "old")) r) 85000000 = true.
Proof.
  destruct (Rotate toy_IDKey (Demo.draw x61) 0 (bs "old") 50000000 Demo.w0) as [w1 r1] eqn:E1.
  destruct r1 as [ck1|]; [|apply (f_equal snd) in E1; vm_compute in E1; discriminate E1].
  destruct (Rotate toy_IDKey (Demo.draw x62) 0 (bs "old") 50000000
    {| w_db := w_db w1; w_dbnow := 40001000; w_faults := [] |}) as [w2 r2] eqn:E2.
  destruct r2 as [ck2|].
  - destruct (Rotate_renews_old_key toy_IDKey (Demo.draw x61) (Demo.draw x62) 0 0 (bs "old") 50000000 50000000
      (Demo.uid (bs "old")) Demo.row0 Demo.w0 w1
      {| w_db := w_db w1; w_dbnow := 40001000; w_faults := [] |} w2 ck1 ck2 85000000)
      as (r & Hr & Ha); [by vm_compute|by vm_compute|by vm_compute|reflexivity|exact E1|reflexivity|exact E2|reflexivity|].
    exists w1, w2, ck1, ck2, r. split; [reflexivity|]. split; [exact E2|]. split; [exact Hr|exact Ha].
  - exfalso. apply (f_equal fst) in E1. simpl in E1. subst w1.
    apply (f_equal snd) in E2. vm_compute in E2. discriminate E2.
Defined.
