(* ===== verification/AuthMiddleware.v ===== *)
(** * internal/auth/middleware.go: authenticating a request

    [Authenticate] turns an Authorization header into a [WorkspaceContext]. It
    runs against the [KeyFinder] interface of the source, which the store of
    api_keys implements, and the verify cache. [Authenticate] is the handler run
    without interruption; [thread_step] cuts it at its accesses to the cache's LRU
    and set of evicted rows, the store and the clock, and [Sys] interleaves the steps of any number of requests with other
    writers of the database, revocations and the passing of time. *)

From S2P Require Import Prelude GoStrings GoErrors Base64 Sha256 AuthKey Lru AuthCache ControlPlane AuthStore.

(** ** Rendering an error *)

(** The digits of [itoa]: [acc] is [buf[pos:]]; [None] is an index out of range. *)
Fixpoint itoa_loop (fuel : nat) (i : Z) (pos : Z) (acc : bytes) : option (Z * bytes) :=
  if (i >? 0)%Z then
    match fuel with
    | O => None
    | S f =>
        let pos := (pos - 1)%Z in
        if (pos <? 0)%Z then None
        else itoa_loop f (Z.quot i 10) pos (zb (48 + Z.rem i 10) :: acc)
    end
  else Some (pos, acc).

Definition itoa (i : Z) : option bytes :=
  if (i =? 0)%Z then Some (bs "0") else
  let neg := (i <? 0)%Z in
  let i := if neg then wrap64 (- i) else i in
  '(pos, acc) ← itoa_loop 20 i 20 [];
  if neg then (if (pos - 1 <? 0)%Z then None else Some ("-"%byte :: acc)) else Some acc.

(** A response the middleware writes itself. *)
Record auth_response : Type := {
  ar_status : Z;
  ar_headers : list (bytes * bytes);
  ar_body : bytes;
}.

Definition quote_mark : byte := "034"%byte.

(** A JSON string literal of the source without escapes. *)
Definition jq (s : bytes) : bytes := quote_mark :: s ++ [quote_mark].

Definition writeAuthError (status : Z) (code detail : bytes) : option auth_response :=
  st ← itoa status;
  Some {| ar_status := status;
          ar_headers := [(bs "Content-Type", bs "application/problem+json");
                         (bs "WWW-Authenticate", bs "Bearer realm=" ++ jq (bs "agentcoopdb"))];
          ar_body := bs "{" ++ jq (bs "type") ++ bs ":" ++ jq (bs "about:blank") ++ bs "," ++
                     jq (bs "title") ++ bs ":" ++ jq code ++ bs "," ++
                     jq (bs "status") ++ bs ":" ++ st ++ bs "," ++
                     jq (bs "detail") ++ bs ":" ++ jq detail ++ bs "}" |}.

(** ** Workspace contexts *)

Record WorkspaceContext : Type := {
  ws_WorkspaceID : bytes;
  ws_KeyID : bytes;
  ws_KeyDBID : bytes;
  ws_PgRole : bytes;
  ws_Env : bytes;
}.

Definition ws_of (rec : KeyRecord) : WorkspaceContext :=
  {| ws_WorkspaceID := kr_WorkspaceID rec; ws_KeyID := kr_KeyID rec; ws_KeyDBID := kr_ID rec;
     ws_PgRole := kr_PgRole rec; ws_Env := kr_Env rec |}.

(** ** The lookup interface *)

Class KeyFinder (W : Type) : Type := {
  kf_FindByKeyID : bytes → W → W * res error KeyRecord;
  kf_TouchLastUsed : bytes → W → W * res error unit;
}.

(** What the middleware relies on: the record found has the key id asked for. *)
Class KeyFinderLaws (W : Type) `{KeyFinder W} : Prop := {
  kf_find_key_id kid w w' rec : kf_FindByKeyID kid w = (w', Ok rec) → kr_KeyID rec = kid;
}.

#[export] Instance store_KeyFinder `{UuidLib} : KeyFinder world := {|
  kf_FindByKeyID := FindByKeyID;
  kf_TouchLastUsed := TouchLastUsed;
|}.

#[export] Instance store_KeyFinderLaws `{UuidLib} : KeyFinderLaws world.
Proof.
  split. simpl. intros kid w w' rec. unfold FindByKeyID, select_by_key_id.
  destruct (exec _ w) as [w1 [r|e]] eqn:E; simpl; [|by repeat case_match].
  intros [= <- <-]. apply exec_Ok in E as [[= _ Hr] _].
  destruct (find_by_key_id _ kid) as [[id row]|] eqn:Ef; simplify_eq/=.
  by apply find_by_key_id_Some in Ef as [_ ?].
Qed.

(** ** The handler *)

(** What a request ends with: a response, the next handler with the context and
    a background [TouchLastUsed] of the row, or a panic. *)
Inductive auth_outcome : Type :=
| Reject (r : auth_response)
| Next (ws : WorkspaceContext) (touch : bytes)
| Panicked.

Definition reject (status : Z) (code detail : bytes) : auth_outcome :=
  match writeAuthError status code detail with
  | Some r => Reject r
  | None => Panicked
  end.

Definition reject_parse : auth_outcome :=
  reject 401 (bs "missing_or_invalid_api_key")
    (bs "Authorization header must be 'Bearer acd_<env>_<id>_<secret>'").

(** The [switch] on the error of [resolve]. *)
Definition reject_resolve (e : error) : auth_outcome :=
  if error_Is e ErrKeyNotFound || error_Is e ErrInvalidKey
  then reject 401 (bs "invalid_api_key") (bs "the supplied API key is not valid")
  else reject 500 (bs "auth_internal") (bs "internal authentication error").

(** The tail of the handler, from [rec.Active(time.Now())] on. *)
Definition admit_record (rec : KeyRecord) (now : Z) : auth_outcome :=
  if negb (Active rec now)
  then reject 401 (bs "key_inactive") (bs "this key is revoked or expired")
  else Next (ws_of rec) (kr_ID rec).

Section Middleware.
Context `{LRU cachedKey}.
Context {W : Type} `{KeyFinder W}.
Variable IDKey : bytes → bytes → Z → Z → Z → Z → bytes.
Variable dummySalt : res error bytes.

(** [resolve(p)]; the cache reads the clock in [Get] and in [Put]. [None] is a
    panic of argon2 on the parameters of a stored hash. *)
Definition resolve (tget tput : Z) (p : ParsedKey) (c : VerifyCache) (w : W)
  : (VerifyCache * W) * option (res error KeyRecord) :=
  let cacheKey := CacheKey p in
  match cache_Get c cacheKey tget with
  | (Some rec, c) => ((c, w), Some (Ok rec))
  | (None, c) =>
      match kf_FindByKeyID (pk_KeyID p) w with
      | (w, Err e) =>
          match VerifySecret IDKey (pk_Secret p) (DummyHash IDKey dummySalt) with
          | None => ((c, w), None)
          | Some _ => ((c, w), Some (Err e))
          end
      | (w, Ok rec) =>
          match VerifySecret IDKey (pk_Secret p) (kr_SecretHash rec) with
          | None => ((c, w), None)
          | Some (Err e) => ((c, w), Some (Err e))
          | Some (Ok _) => ((cache_Put c cacheKey rec tput, w), Some (Ok rec))
          end
      end
  end.

Definition Authenticate (tget tput tact : Z) (header : bytes) (c : VerifyCache) (w : W)
  : (VerifyCache * W) * auth_outcome :=
  match ParseBearer header with
  | Err _ => ((c, w), reject_parse)
  | Ok parsed =>
      match resolve tget tput parsed c w with
      | (s, None) => (s, Panicked)
      | (s, Some (Err e)) => (s, reject_resolve e)
      | (s, Some (Ok rec)) => (s, admit_record rec tact)
      end
  end.

(** [RevokeFromCache(keyDBID)] *)
Definition RevokeFromCache (c : VerifyCache) (keyDBID : bytes) : VerifyCache := RevokeByDBID c keyDBID.

(** ** The handler cut at its calls *)

(** A request between two of its accesses to what requests share: the LRU, the set
    of evicted rows, the store and the clock. *)
Inductive thread : Type :=
| TGet (p : ParsedKey)
| TAge (p : ParsedKey) (v : cachedKey)
| TMark (p : ParsedKey) (v : cachedKey)
| TEvict (p : ParsedKey)
| TFind (p : ParsedKey)
| TVerify (p : ParsedKey) (rec : KeyRecord)
| TUnmark (p : ParsedKey) (rec : KeyRecord)
| TStamp (p : ParsedKey) (rec : KeyRecord)
| TAdd (p : ParsedKey) (rec : KeyRecord) (verifiedAt : Z)
| TCheck (p : ParsedKey) (rec : KeyRecord)
| TDone (o : auth_outcome).

Definition thread_start (header : bytes) : thread :=
  match ParseBearer header with
  | Err _ => TDone reject_parse
  | Ok p => TGet p
  end.

Definition thread_step (now : Z) (t : thread) (c : VerifyCache) (w : W) : thread * (VerifyCache * W) :=
  match t with
  | TGet p =>
      match cache_lookup c (CacheKey p) with
      | (Some v, c) => (TAge p v, (c, w))
      | (None, c) => (TFind p, (c, w))
      end
  | TAge p v => (if cache_stale c v now then TEvict p else TMark p v, (c, w))
  | TMark p v => (if cache_marked c v then TEvict p else TCheck p (ck_rec v), (c, w))
  | TEvict p => (TFind p, (cache_evict c (CacheKey p), w))
  | TFind p =>
      match kf_FindByKeyID (pk_KeyID p) w with
      | (w, Err e) =>
          match VerifySecret IDKey (pk_Secret p) (DummyHash IDKey dummySalt) with
          | None => (TDone Panicked, (c, w))
          | Some _ => (TDone (reject_resolve e), (c, w))
          end
      | (w, Ok rec) => (TVerify p rec, (c, w))
      end
  | TVerify p rec =>
      match VerifySecret IDKey (pk_Secret p) (kr_SecretHash rec) with
      | None => (TDone Panicked, (c, w))
      | Some (Err e) => (TDone (reject_resolve e), (c, w))
      | Some (Ok _) => (TUnmark p rec, (c, w))
      end
  | TUnmark p rec => (TStamp p rec, (cache_unmark c rec, w))
  | TStamp p rec => (TAdd p rec now, (c, w))
  | TAdd p rec verifiedAt => (TCheck p rec, (cache_add c (CacheKey p) rec verifiedAt, w))
  | TCheck p rec => (TDone (admit_record rec now), (c, w))
  | TDone o => (TDone o, (c, w))
  end.

Fixpoint run_thread (nows : list Z) (t : thread) (c : VerifyCache) (w : W) : thread * (VerifyCache * W) :=
  match nows with
  | [] => (t, (c, w))
  | now :: nows =>
      let '(t, (c, w)) := thread_step now t c w in run_thread nows t c w
  end.

End Middleware.

(** ** Rendering *)

Lemma itoa_loop_spec k : ∀ i fuel n pos acc,
  (0 < i < 10 ^ Z.of_nat k)%Z → (i < 10 ^ Z.of_nat n)%Z → k ≤ fuel → (Z.of_nat k ≤ pos)%Z →
  ∃ pos', itoa_loop fuel i pos acc = Some (pos', dec_aux n i acc) ∧ (pos - Z.of_nat k ≤ pos')%Z.
Proof.
  induction k as [|k IH]; intros i fuel n pos acc Hi Hn Hf Hp; [simpl in Hi; lia|].
  destruct fuel as [|fuel]; [lia|]. destruct n as [|n]; [simpl in Hn; lia|].
  rewrite Nat2Z.inj_succ, Z.pow_succ_r in Hi, Hn by lia.
  simpl. destruct (Z.gtb_spec i 0); [|lia]. rewrite (proj2 (Z.ltb_ge _ _)) by lia.
  rewrite Z.quot_div_nonneg, Z.rem_mod_nonneg by lia. change (zb (48 + i mod 10)) with (digit (i mod 10)).
  destruct (Z.eqb_spec (i / 10) 0) as [E|E].
  - rewrite E. exists (pos - 1)%Z. split; [destruct fuel; reflexivity|lia].
  - edestruct (IH (i / 10)%Z fuel n (pos - 1)%Z (digit (i mod 10) :: acc)) as (pos' & -> & Hpos);
      [|dlia|lia|lia|eexists; split; [done|lia]].
    split; dlia.
Qed.

(** [itoa] agrees with strconv.Itoa. *)
Lemma itoa_pos i : (0 < i < 10 ^ 19)%Z → ∃ pos, itoa_loop 20 i 20 [] = Some (pos, Itoa i) ∧ (1 ≤ pos)%Z.
Proof.
  intros Hi. edestruct (itoa_loop_spec 19 i 20 (Z.to_nat (Z.log2 i) + 1) 20 []) as (pos & Hl & Hp);
    [exact Hi|apply dec_fuel; lia|lia|lia|].
  exists pos. rewrite Hl. unfold Itoa. rewrite (proj2 (Z.ltb_ge _ _)) by lia. split; [done|lia].
Qed.

(** [itoa] never writes outside its 20-byte buffer and prints every 64-bit
    integer as strconv.Itoa does, except the least one, whose negation overflows:
    for it the result is a lone minus sign. *)
Theorem itoa_spec i :
  in_int64 i → itoa i = Some (if (i =? min_int64)%Z then bs "-" else Itoa i).
Proof.
  unfold in_int64. intros Hi. destruct (Z.eqb_spec i min_int64) as [->|Hm]; [by vm_compute|].
  unfold min_int64, max_int64 in *. unfold itoa.
  destruct (Z.eqb_spec i 0) as [->|H0]; [done|]. destruct (Z.ltb_spec i 0).
  - rewrite wrap64_id by (unfold in_int64, min_int64, max_int64; lia).
    destruct (itoa_pos (- i)) as (pos & -> & Hp); [lia|].
    unfold base.mbind, option_bind. rewrite (proj2 (Z.ltb_ge _ _)) by lia. by rewrite (Itoa_neg i).
  - destruct (itoa_pos i) as (pos & -> & Hp); [lia|]. done.
Qed.

Lemma itoa_spec_witness : itoa (-401) = Some (bs "-401") ∧ itoa min_int64 = Some (bs "-").
Proof.
  split; [apply (itoa_spec (-401))|apply (itoa_spec min_int64)];
    unfold in_int64, min_int64, max_int64; lia.
Defined.

Lemma reject_status st code d r : reject st code d = Reject r → ar_status r = st.
Proof. unfold reject, writeAuthError. destruct (itoa st); simpl; [by intros [= <-]|done]. Qed.

(** A refusal is a 401, or a 500 when the lookup itself failed. *)
Lemma Authenticate_Reject `{LRU cachedKey} {W : Type} `{KeyFinder W} IDKey dummySalt tget tput tact header c (w : W) r :
  (Authenticate IDKey dummySalt tget tput tact header c w).2 = Reject r → ar_status r = 401%Z ∨ ar_status r = 500%Z.
Proof.
  unfold Authenticate. destruct (ParseBearer header) as [p|];
    [|intros Hx; left; exact (reject_status _ _ _ _ Hx)].
  destruct (resolve _ _ _ _ _ _ _) as [s [[rec|e]|]]; cbn [snd]; [| |done].
  - unfold admit_record. destruct (negb (Active rec tact)); [|done]. intros Hx. left. exact (reject_status _ _ _ _ Hx).
  - unfold reject_resolve. destruct (_ || _); intros Hx; [left|right]; exact (reject_status _ _ _ _ Hx).
Qed.

(** ** The system: many requests, one cache, a changing database *)

Section System.
Context `{LRU cachedKey, !LRULaws cachedKey}.
Context {W : Type} `{KeyFinder W, !KeyFinderLaws W}.
Variable IDKey : bytes → bytes → Z → Z → Z → Z → bytes.
Variable dummySalt : res error bytes.

(** The steps of a request after a miss. *)
Lemma run_from_find tget tput tact p c (w : W) :
  run_thread IDKey dummySalt [tget; tget; tget; tput; tput; tact] (TFind p) c w =
  let '(s, o) := match kf_FindByKeyID (pk_KeyID p) w with
    | (w, Err e) =>
        match VerifySecret IDKey (pk_Secret p) (DummyHash IDKey dummySalt) with
        | None => ((c, w), Panicked) | Some _ => ((c, w), reject_resolve e) end
    | (w, Ok rec) =>
        match VerifySecret IDKey (pk_Secret p) (kr_SecretHash rec) with
        | None => ((c, w), Panicked) | Some (Err e) => ((c, w), reject_resolve e)
        | Some (Ok _) => ((cache_Put c (CacheKey p) rec tput, w), admit_record rec tact) end
    end in (TDone o, s).
Proof.
  cbn [run_thread thread_step]. destruct (kf_FindByKeyID (pk_KeyID p) w) as [w1 [rec|e]].
  - cbn [thread_step]. by destruct (VerifySecret IDKey (pk_Secret p) (kr_SecretHash rec)) as [[]|].
  - by destruct (VerifySecret IDKey (pk_Secret p) (DummyHash IDKey dummySalt)) as [[]|].
Qed.

Lemma run_step now nows t c (w : W) t' c' w' :
  thread_step IDKey dummySalt now t c w = (t', (c', w')) →
  run_thread IDKey dummySalt (now :: nows) t c w = run_thread IDKey dummySalt nows t' c' w'.
Proof. intros Hs. cbn [run_thread]. by rewrite Hs. Qed.

(** The steps of a request that meets no other: the handler [Authenticate]. *)
Lemma run_thread_Authenticate tget tput tact header c w :
  ∃ nows, run_thread IDKey dummySalt nows (thread_start header) c w =
    let '(s, o) := Authenticate IDKey dummySalt tget tput tact header c w in (TDone o, s).
Proof.
  unfold thread_start, Authenticate, resolve. destruct (ParseBearer header) as [p|]; [|by exists []].
  assert (∀ c1 : VerifyCache, ∃ nows, run_thread IDKey dummySalt nows (TFind p) c1 w =
    let '(s, o) := match kf_FindByKeyID (pk_KeyID p) w with
      | (w, Err e) =>
          match VerifySecret IDKey (pk_Secret p) (DummyHash IDKey dummySalt) with
          | None => ((c1, w), Panicked) | Some _ => ((c1, w), reject_resolve e) end
      | (w, Ok rec) =>
          match VerifySecret IDKey (pk_Secret p) (kr_SecretHash rec) with
          | None => ((c1, w), Panicked) | Some (Err e) => ((c1, w), reject_resolve e)
          | Some (Ok _) => ((cache_Put c1 (CacheKey p) rec tput, w), admit_record rec tact) end
      end in (TDone o, s)) as Hm by (intros c1; eexists; apply (run_from_find tget tput tact)).
  unfold cache_Get. destruct (cache_lookup c (CacheKey p)) as [[v|] c1] eqn:El.
  - assert (∀ now, thread_step IDKey dummySalt now (TGet p) c w = (TAge p v, (c1, w))) as H1 by (intros; cbn; by rewrite El).
    destruct (cache_stale c1 v tget) eqn:Es; [|destruct (cache_marked c1 v) eqn:Em].
    + destruct (Hm (cache_evict c1 (CacheKey p))) as [nows Hn]. exists (tget :: tget :: tget :: nows).
      rewrite (run_step _ _ _ _ _ _ _ _ (H1 _)). erewrite run_step by (cbn; by rewrite Es).
      erewrite run_step by reflexivity. rewrite Hn. by repeat case_match; simplify_eq.
    + destruct (Hm (cache_evict c1 (CacheKey p))) as [nows Hn]. exists (tget :: tget :: tget :: tget :: nows).
      rewrite (run_step _ _ _ _ _ _ _ _ (H1 _)). erewrite run_step by (cbn; by rewrite Es).
      erewrite run_step by (cbn; by rewrite Em). erewrite run_step by reflexivity. rewrite Hn. by repeat case_match; simplify_eq.
    + exists [tget; tget; tget; tact]. rewrite (run_step _ _ _ _ _ _ _ _ (H1 _)). erewrite run_step by (cbn; by rewrite Es).
      erewrite run_step by (cbn; by rewrite Em). done.
  - destruct (Hm c1) as [nows Hn]. exists (tget :: nows). erewrite run_step by (cbn; by rewrite El). rewrite Hn.
    by repeat case_match; simplify_eq.
Qed.

(** A request in flight: when it began, when it read the store. *)
Record flight : Type := { fl_start : Z; fl_read : Z; fl_thread : thread }.

(** What was observed: records the store returned, records put in the cache
    (with the time of the read behind them), and requests let through. *)
Record Sys : Type := {
  sys_cache : VerifyCache;
  sys_w : W;
  sys_now : Z;
  sys_flights : gmap nat flight;
  sys_reads : list (bytes * KeyRecord * Z);
  sys_puts : list (ParsedKey * KeyRecord * Z * Z);
  sys_log : list (ParsedKey * WorkspaceContext * Z * Z);
}.

Inductive event : Type :=
| ETick (t : Z)
| EDatabase (w : W)
| ERevoke (keyDBID : bytes)
| ESpawn (i : nat) (header : bytes)
| ERun (i : nat).

Definition new_reads (t t' : thread) (now : Z) : list (bytes * KeyRecord * Z) :=
  match t, t' with
  | TFind p, TVerify _ rec => [(pk_KeyID p, rec, now)]
  | _, _ => []
  end.

Definition new_puts (t : thread) (tread : Z) : list (ParsedKey * KeyRecord * Z * Z) :=
  match t with
  | TAdd p rec verifiedAt => [(p, rec, tread, verifiedAt)]
  | _ => []
  end.

Definition new_log (t t' : thread) (start now : Z) : list (ParsedKey * WorkspaceContext * Z * Z) :=
  match t, t' with
  | TCheck p _, TDone (Next ws _) => [(p, ws, start, now)]
  | _, _ => []
  end.

Definition run_flight (s : Sys) (i : nat) (f : flight) : Sys :=
  let t := fl_thread f in
  let now := sys_now s in
  let '(t', (c, w)) := thread_step IDKey dummySalt now t (sys_cache s) (sys_w s) in
  {| sys_cache := c; sys_w := w; sys_now := now;
     sys_flights := <[i := {| fl_start := fl_start f;
                              fl_read := match t with TFind _ => now | _ => fl_read f end;
                              fl_thread := t' |}]> (sys_flights s);
     sys_reads := new_reads t t' now ++ sys_reads s;
     sys_puts := new_puts t (fl_read f) ++ sys_puts s;
     sys_log := new_log t t' (fl_start f) now ++ sys_log s |}.

Definition sys_apply (e : event) (s : Sys) : option Sys :=
  match e with
  | ETick t =>
      if (sys_now s <=? t)%Z
      then Some {| sys_cache := sys_cache s; sys_w := sys_w s; sys_now := t;
                   sys_flights := sys_flights s; sys_reads := sys_reads s;
                   sys_puts := sys_puts s; sys_log := sys_log s |}
      else None
  | EDatabase w =>
      Some {| sys_cache := sys_cache s; sys_w := w; sys_now := sys_now s;
              sys_flights := sys_flights s; sys_reads := sys_reads s;
              sys_puts := sys_puts s; sys_log := sys_log s |}
  | ERevoke id =>
      Some {| sys_cache := RevokeFromCache (sys_cache s) id; sys_w := sys_w s; sys_now := sys_now s;
              sys_flights := sys_flights s; sys_reads := sys_reads s;
              sys_puts := sys_puts s; sys_log := sys_log s |}
  | ESpawn i header =>
      match sys_flights s !! i with
      | Some _ => None
      | None =>
          Some {| sys_cache := sys_cache s; sys_w := sys_w s; sys_now := sys_now s;
                  sys_flights := <[i := {| fl_start := sys_now s; fl_read := sys_now s;
                                           fl_thread := thread_start header |}]> (sys_flights s);
                  sys_reads := sys_reads s; sys_puts := sys_puts s; sys_log := sys_log s |}
      end
  | ERun i => run_flight s i <$> sys_flights s !! i
  end.

Definition sys_init (size ttl : Z) (w : W) (now : Z) : Sys :=
  {| sys_cache := NewVerifyCache size ttl; sys_w := w; sys_now := now; sys_flights := ∅;
     sys_reads := []; sys_puts := []; sys_log := [] |}.

Inductive reachable (s0 : Sys) : Sys → Prop :=
| reach_init : reachable s0 s0
| reach_step s e s' : reachable s0 s → sys_apply e s = Some s' → reachable s0 s'.

Fixpoint run_events (es : list event) (s : Sys) : option Sys :=
  match es with
  | [] => Some s
  | e :: es => s' ← sys_apply e s; run_events es s'
  end.

(** ** The invariant *)

Definition parsed (p : ParsedKey) : Prop := ∃ h, ParseBearer h = Ok p.

Definition verified (p : ParsedKey) (rec : KeyRecord) : Prop :=
  VerifySecret IDKey (pk_Secret p) (kr_SecretHash rec) = Some (Ok tt).

(** The record a request is about to use was put under the same digest, by this
    request or at most a ttl before it looked. *)
Definition accounted (ttl : Z) (puts : list (ParsedKey * KeyRecord * Z * Z))
    (p : ParsedKey) (rec : KeyRecord) (start : Z) : Prop :=
  parsed p ∧ ∃ q tr tv, CacheKey q = CacheKey p ∧ (q, rec, tr, tv) ∈ puts ∧
    (start ≤ tr ∨ start ≤ tv + ttl)%Z.

Definition flight_ok (ttl : Z) (s : Sys) (f : flight) : Prop :=
  (fl_start f ≤ sys_now s)%Z ∧
  match fl_thread f with
  | TGet p | TEvict p | TFind p => parsed p
  | TAge p v => parsed p ∧ ∃ q tr, CacheKey q = CacheKey p ∧ (q, ck_rec v, tr, ck_verifiedAt v) ∈ sys_puts s
  | TMark p v => accounted ttl (sys_puts s) p (ck_rec v) (fl_start f)
  | TVerify p rec =>
      parsed p ∧ (pk_KeyID p, rec, fl_read f) ∈ sys_reads s ∧
      (fl_start f ≤ fl_read f ≤ sys_now s)%Z
  | TUnmark p rec | TStamp p rec =>
      parsed p ∧ (pk_KeyID p, rec, fl_read f) ∈ sys_reads s ∧
      (fl_start f ≤ fl_read f ≤ sys_now s)%Z ∧ verified p rec
  | TAdd p rec tv =>
      parsed p ∧ (pk_KeyID p, rec, fl_read f) ∈ sys_reads s ∧
      (fl_start f ≤ fl_read f ≤ sys_now s)%Z ∧ verified p rec ∧ (fl_read f ≤ tv)%Z
  | TCheck p rec => accounted ttl (sys_puts s) p rec (fl_start f)
  | TDone _ => True
  end.

Record sys_inv (ttl : Z) (s : Sys) : Prop := {
  inv_ttl : vc_ttl (sys_cache s) = ttl;
  inv_cache k v : lru_contents (vc_lru (sys_cache s)) !! k = Some v →
    ∃ q tr, CacheKey q = k ∧ (q, ck_rec v, tr, ck_verifiedAt v) ∈ sys_puts s;
  inv_puts q rec tr tv : (q, rec, tr, tv) ∈ sys_puts s →
    parsed q ∧ verified q rec ∧ (pk_KeyID q, rec, tr) ∈ sys_reads s ∧ (tr ≤ tv)%Z;
  inv_reads kid rec tr : (kid, rec, tr) ∈ sys_reads s → kr_KeyID rec = kid;
  inv_flights i f : sys_flights s !! i = Some f → flight_ok ttl s f;
  inv_log p ws start t : (p, ws, start, t) ∈ sys_log s →
    ∃ rec, accounted ttl (sys_puts s) p rec start ∧ ws = ws_of rec ∧ Active rec t = true;
}.

Lemma accounted_mono ttl puts puts' p rec start :
  puts ⊆ puts' → accounted ttl puts p rec start → accounted ttl puts' p rec start.
Proof. intros Hs (Hp & q & tr & tv & Hk & Hin & Ht). split; [done|]. exists q, tr, tv. auto. Qed.

Lemma flight_ok_mono ttl s s' f :
  (sys_now s ≤ sys_now s')%Z → sys_reads s ⊆ sys_reads s' → sys_puts s ⊆ sys_puts s' →
  flight_ok ttl s f → flight_ok ttl s' f.
Proof.
  intros Hn Hr Hp [Hs Hf]. split; [lia|].
  destruct (fl_thread f); try done; try (by eapply accounted_mono).
  - destruct Hf as (? & q & tr & ? & ?). split; [done|]. exists q, tr. auto.
  - destruct Hf as (? & ? & ?). repeat split; auto; lia.
  - destruct Hf as (? & ? & ? & ?). repeat split; auto; lia.
  - destruct Hf as (? & ? & ? & ?). repeat split; auto; lia.
  - destruct Hf as (? & ? & ? & ? & ?). repeat split; auto; lia.
Qed.

Lemma sys_init_inv size ttl w now :
  sys_inv (vc_ttl (NewVerifyCache size ttl)) (sys_init size ttl w now).
Proof.
  split; try done; simpl.
  - intros k v. by rewrite lru_new_contents, lookup_empty.
  - intros ???? []%elem_of_nil.
  - intros ??? []%elem_of_nil.
  - intros ???? []%elem_of_nil.
Qed.

(** A step of one request keeps the invariant if what it adds is justified. *)
Lemma sys_inv_extend ttl s i c w f' nr np nl :
  let s' := {| sys_cache := c; sys_w := w; sys_now := sys_now s;
               sys_flights := <[i := f']> (sys_flights s);
               sys_reads := nr ++ sys_reads s; sys_puts := np ++ sys_puts s;
               sys_log := nl ++ sys_log s |} in
  sys_inv ttl s → vc_ttl c = ttl →
  (∀ k v, lru_contents (vc_lru c) !! k = Some v →
     lru_contents (vc_lru (sys_cache s)) !! k = Some v ∨
     ∃ q tr, CacheKey q = k ∧ (q, ck_rec v, tr, ck_verifiedAt v) ∈ np) →
  (∀ q rec tr tv, (q, rec, tr, tv) ∈ np →
     parsed q ∧ verified q rec ∧ (pk_KeyID q, rec, tr) ∈ sys_reads s ∧ (tr ≤ tv)%Z) →
  (∀ kid rec tr, (kid, rec, tr) ∈ nr → kr_KeyID rec = kid) →
  flight_ok ttl s' f' →
  (∀ p ws start t, (p, ws, start, t) ∈ nl →
     ∃ rec, accounted ttl (sys_puts s) p rec start ∧ ws = ws_of rec ∧ Active rec t = true) →
  sys_inv ttl s'.
Proof.
  intros s' Hi Ht Hc Hp Hr Hf Hl. split; simpl; [done|..].
  - intros k v [Hk|(q & tr & ? & ?)]%Hc.
    + destruct (inv_cache _ _ Hi _ _ Hk) as (q & tr & ? & ?). exists q, tr. set_solver.
    + exists q, tr. set_solver.
  - intros q rec tr tv [Hin|Hin]%elem_of_app;
      [apply Hp in Hin as (? & ? & ? & ?)|apply (inv_puts _ _ Hi) in Hin as (? & ? & ? & ?)];
      repeat split; set_solver.
  - intros kid rec tr [Hin|Hin]%elem_of_app; [by eapply Hr|by eapply (inv_reads _ _ Hi)].
  - intros j f [[<- <-]|[_ Hj]]%lookup_insert_Some; [done|].
    eapply flight_ok_mono; [| | |by eapply (inv_flights _ _ Hi)]; simpl; set_solver by lia.
  - intros p ws start t [Hin|Hin]%elem_of_app;
      [apply Hl in Hin as (rec & Ha & ?)|apply (inv_log _ _ Hi) in Hin as (rec & Ha & ?)];
      exists rec; (split; [eapply accounted_mono; [|exact Ha]; set_solver|done]).
Qed.

(** Steps that add nothing to the records observed. *)
Lemma sys_inv_quiet ttl s i c w f' :
  sys_inv ttl s → vc_ttl c = ttl →
  (∀ k v, lru_contents (vc_lru c) !! k = Some v → lru_contents (vc_lru (sys_cache s)) !! k = Some v) →
  flight_ok ttl s f' →
  sys_inv ttl {| sys_cache := c; sys_w := w; sys_now := sys_now s;
                 sys_flights := <[i := f']> (sys_flights s);
                 sys_reads := sys_reads s; sys_puts := sys_puts s; sys_log := sys_log s |}.
Proof.
  intros Hi Ht Hc Hf. apply (sys_inv_extend ttl s i c w f' [] [] []); auto.
  all: intros *; by intros ?%elem_of_nil.
Qed.

(** The part of the invariant a request that reads the cache relies on. *)
Ltac open_flight Hi Hf Ht Hs Hp :=
  pose proof (inv_flights _ _ Hi _ _ Hf) as [Hs Hp]; rewrite Ht in Hp; unfold run_flight; rewrite Ht; cbn [thread_step].

Lemma run_TGet ttl s i f p :
  sys_inv ttl s → sys_flights s !! i = Some f → fl_thread f = TGet p → sys_inv ttl (run_flight s i f).
Proof.
  intros Hi Hf Ht. open_flight Hi Hf Ht Hs Hp. unfold cache_lookup.
  pose proof (lru_get_contents (vc_lru (sys_cache s)) (CacheKey p)) as Hc.
  pose proof (lru_get_value (vc_lru (sys_cache s)) (CacheKey p)) as Hv.
  destruct (lru_get _ _) as [[v|] l]; simpl in Hc, Hv; apply sys_inv_quiet; simpl; rewrite ?Hc; auto;
    try apply (inv_ttl _ _ Hi); split; simpl; auto. split; [done|].
  destruct (inv_cache _ _ Hi _ _ (eq_sym Hv)) as (q & tr & Hk & Hin). by exists q, tr.
Qed.

Lemma run_TAge ttl s i f p v :
  sys_inv ttl s → sys_flights s !! i = Some f → fl_thread f = TAge p v → sys_inv ttl (run_flight s i f).
Proof.
  intros Hi Hf Ht. open_flight Hi Hf Ht Hs Hp. destruct Hp as (Hp & q & tr & Hk & Hin).
  destruct (cache_stale _ _ _) eqn:E; apply sys_inv_quiet; auto; try apply (inv_ttl _ _ Hi); split; simpl; auto.
  split; [done|]. unfold cache_stale in E. apply Z.ltb_ge in E. rewrite (inv_ttl _ _ Hi) in E.
  exists q, tr, (ck_verifiedAt v). repeat split; auto. right. lia.
Qed.

Lemma run_TMark ttl s i f p v :
  sys_inv ttl s → sys_flights s !! i = Some f → fl_thread f = TMark p v → sys_inv ttl (run_flight s i f).
Proof.
  intros Hi Hf Ht. open_flight Hi Hf Ht Hs Hp.
  destruct (cache_marked _ _); apply sys_inv_quiet; auto; try apply (inv_ttl _ _ Hi); split; simpl; auto. apply Hp.
Qed.

Lemma run_TEvict ttl s i f p :
  sys_inv ttl s → sys_flights s !! i = Some f → fl_thread f = TEvict p → sys_inv ttl (run_flight s i f).
Proof.
  intros Hi Hf Ht. open_flight Hi Hf Ht Hs Hp. apply sys_inv_quiet; auto; [apply (inv_ttl _ _ Hi)| |by split].
  intros k v. simpl. rewrite lru_remove_contents. by intros [_ ?]%lookup_delete_Some.
Qed.

Lemma run_TFind ttl s i f p :
  sys_inv ttl s → sys_flights s !! i = Some f → fl_thread f = TFind p → sys_inv ttl (run_flight s i f).
Proof.
  intros Hi Hf Ht. pose proof (inv_flights _ _ Hi _ _ Hf) as [Hs Hp]. rewrite Ht in Hp.
  unfold run_flight. rewrite Ht. simpl.
  destruct (kf_FindByKeyID (pk_KeyID p) (sys_w s)) as [w1 [rec|e]] eqn:E.
  - apply kf_find_key_id in E.
    apply (sys_inv_extend ttl s i _ w1 _ [(pk_KeyID p, rec, sys_now s)] [] []); auto.
    + apply (inv_ttl _ _ Hi).
    + set_solver.
    + intros kid rec' tr. rewrite list_elem_of_singleton. naive_solver.
    + split; [done|]. simpl. split; [done|]. split; [set_solver|lia].
    + intros * ?%elem_of_nil. done.
  - destruct (VerifySecret _ _ _) as [[]|]; apply sys_inv_quiet; auto; try apply (inv_ttl _ _ Hi); by split.
Qed.

Lemma run_TVerify ttl s i f p rec :
  sys_inv ttl s → sys_flights s !! i = Some f → fl_thread f = TVerify p rec →
  sys_inv ttl (run_flight s i f).
Proof.
  intros Hi Hf Ht. pose proof (inv_flights _ _ Hi _ _ Hf) as [Hs Hp]. rewrite Ht in Hp.
  unfold run_flight. rewrite Ht. simpl.
  destruct (VerifySecret _ _ _) as [[[]|]|] eqn:E; apply sys_inv_quiet; auto;
    try apply (inv_ttl _ _ Hi); split; simpl; auto.
  destruct Hp as (? & ? & ? & ?). by repeat split.
Qed.

Lemma run_TUnmark ttl s i f p rec :
  sys_inv ttl s → sys_flights s !! i = Some f → fl_thread f = TUnmark p rec → sys_inv ttl (run_flight s i f).
Proof.
  intros Hi Hf Ht. open_flight Hi Hf Ht Hs Hp. apply sys_inv_quiet; auto; [apply (inv_ttl _ _ Hi)|]. by split.
Qed.

Lemma run_TStamp ttl s i f p rec :
  sys_inv ttl s → sys_flights s !! i = Some f → fl_thread f = TStamp p rec → sys_inv ttl (run_flight s i f).
Proof.
  intros Hi Hf Ht. open_flight Hi Hf Ht Hs Hp. destruct Hp as (? & ? & ? & ?).
  apply sys_inv_quiet; auto; [apply (inv_ttl _ _ Hi)|]. split; [done|]. simpl. repeat split; auto; lia.
Qed.

Lemma run_TAdd ttl s i f p rec tv :
  sys_inv ttl s → sys_flights s !! i = Some f → fl_thread f = TAdd p rec tv → sys_inv ttl (run_flight s i f).
Proof.
  intros Hi Hf Ht. open_flight Hi Hf Ht Hs Hp. destruct Hp as (Hp & Hin & Htm & Hv & Htv).
  apply (sys_inv_extend ttl s i _ (sys_w s) _ [] [(p, rec, fl_read f, tv)] []); auto.
  - apply (inv_ttl _ _ Hi).
  - intros k v Hk. simpl in Hk. destruct (decide (k = CacheKey p)) as [->|Hne].
    + apply lru_add_value in Hk as ->. right. exists p, (fl_read f). set_solver.
    + left. by eapply lru_add_other.
  - intros q r tr tv' [= -> -> -> ->]%list_elem_of_singleton. repeat split; auto; lia.
  - intros * ?%elem_of_nil. done.
  - split; [done|]. simpl. split; [done|]. exists p, (fl_read f), tv.
    split; [done|]. split; [set_solver|]. left. lia.
  - intros * ?%elem_of_nil. done.
Qed.

Lemma run_TCheck ttl s i f p rec :
  sys_inv ttl s → sys_flights s !! i = Some f → fl_thread f = TCheck p rec →
  sys_inv ttl (run_flight s i f).
Proof.
  intros Hi Hf Ht. pose proof (inv_flights _ _ Hi _ _ Hf) as [Hs Hp]. rewrite Ht in Hp.
  unfold run_flight. rewrite Ht. cbn [thread_step].
  apply (sys_inv_extend ttl s i _ (sys_w s) _ [] []
    (new_log (TCheck p rec) (TDone (admit_record rec (sys_now s))) (fl_start f) (sys_now s))); auto.
  - apply (inv_ttl _ _ Hi).
  - intros * ?%elem_of_nil. done.
  - intros * ?%elem_of_nil. done.
  - by split.
  - unfold admit_record, reject. intros q ws start t.
    destruct (Active rec (sys_now s)) eqn:Ea; simpl.
    + intros [= -> -> -> ->]%list_elem_of_singleton. by exists rec.
    + intros []%elem_of_nil.
Qed.

Lemma sys_apply_inv ttl e s s' : sys_inv ttl s → sys_apply e s = Some s' → sys_inv ttl s'.
Proof.
  intros Hi Hx. destruct e as [t|w|id|i h|i]; simpl in Hx.
  - destruct (Z.leb_spec (sys_now s) t); simplify_eq. destruct Hi as [? ? ? ? Hfl ?].
    split; simpl; auto. intros i f Hf. eapply flight_ok_mono; [| | |by eapply Hfl]; simpl; done || lia.
  - simplify_eq. destruct Hi as [? ? ? ? Hfl ?]. split; simpl; auto.
  - simplify_eq. destruct Hi as [? ? ? ? Hfl ?]. unfold RevokeFromCache.
    split; simpl; auto; [by unfold RevokeByDBID; case_match|by rewrite RevokeByDBID_lru].
  - destruct (sys_flights s !! i) eqn:E; simplify_eq. apply sys_inv_quiet; auto.
    + apply (inv_ttl _ _ Hi).
    + split; simpl; [lia|]. unfold thread_start. destruct (ParseBearer h) eqn:Eh; [by eexists|done].
  - destruct (sys_flights s !! i) as [f|] eqn:E; simplify_eq/=.
    destruct (fl_thread f) eqn:Ef;
      eauto using run_TGet, run_TAge, run_TMark, run_TEvict, run_TFind, run_TVerify, run_TUnmark, run_TStamp, run_TAdd,
        run_TCheck.
    unfold run_flight. rewrite Ef. cbn [thread_step]. apply sys_inv_quiet; auto.
    + apply (inv_ttl _ _ Hi).
    + destruct (inv_flights _ _ Hi _ _ E) as [Hs _]. by split.
Qed.

Lemma reachable_inv size ttl w now s :
  reachable (sys_init size ttl w now) s → sys_inv (vc_ttl (NewVerifyCache size ttl)) s.
Proof. induction 1 as [|s e s' _ IH]; [apply sys_init_inv|by eapply sys_apply_inv]. Qed.

Lemma run_events_reachable es s0 s s' :
  reachable s0 s → run_events es s = Some s' → reachable s0 s'.
Proof.
  revert s. induction es as [|e es IH]; intros s Hs Hx; simpl in Hx; [by simplify_eq|].
  destruct (sys_apply e s) as [s1|] eqn:E; simpl in Hx; [|done].
  eapply IH; [|done]. by eapply reach_step.
Qed.

(** Equal cache keys come from equal tokens or from a collision of SHA-256. *)
Lemma CacheKey_eq p q :
  parsed p → parsed q → CacheKey q = CacheKey p →
  (pk_FullToken q ≠ pk_FullToken p ∧ Sum256 (pk_FullToken q) = Sum256 (pk_FullToken p)) ∨ q = p.
Proof.
  intros [h Hh] [h' Hh'] E. apply ParseBearer_inv in Hh as (Hv & Hk & Hs & _ & Hf).
  apply ParseBearer_inv in Hh' as (Hv' & Hk' & Hs' & _ & Hf').
  apply hex_encode_inj in E. destruct (decide (pk_FullToken q = pk_FullToken p)) as [Et|]; [|by left].
  right. rewrite Hf, Hf' in Et. apply format_token_inj in Et as (? & ? & ?); try done.
  destruct p, q; simpl in *; congruence.
Qed.

(** C2: Authentication is sound under concurrency. Whatever the interleaving of
    requests, revocations and changes of the database by others, a request that
    was let through with a context [ws] carried a token whose secret was verified
    by argon2id against the hash of a record that the store returned for exactly
    the key id of the token; [ws] is that record's workspace, role and row, and
    the record was neither revoked nor expired at that moment. The one way
    around is an explicit SHA-256 collision between two well-formed tokens. *)
Theorem authenticated_sound size ttl w now s p ws start t :
  reachable (sys_init size ttl w now) s → (p, ws, start, t) ∈ sys_log s →
  (∃ q, parsed q ∧ pk_FullToken q ≠ pk_FullToken p ∧
        Sum256 (pk_FullToken q) = Sum256 (pk_FullToken p)) ∨
  ∃ rec tr, (pk_KeyID p, rec, tr) ∈ sys_reads s ∧ kr_KeyID rec = pk_KeyID p ∧
    verified p rec ∧ ws = ws_of rec ∧ Active rec t = true.
Proof.
  intros Hi%reachable_inv Hl.
  destruct (inv_log _ _ Hi _ _ _ _ Hl) as (rec & (Hp & q & tr & tv & Hk & Hin & _) & Hws & Ha).
  destruct (inv_puts _ _ Hi _ _ _ _ Hin) as (Hq & Hv & Hr & _).
  destruct (CacheKey_eq p q Hp Hq Hk) as [[Hne He]|Heq]; [left; eauto|right; subst q].
  exists rec, tr. repeat split; auto. by apply (inv_reads _ _ Hi) in Hr.
Qed.

(** C12: Revocation takes effect within a bounded time, whether or not the row is
    evicted from the cache, which the races below can undo. If from time [T] on
    every read of row [id] returns it as revoked, and a request takes at most [D]
    from reading that row to the time stamp of the entry it caches, then every
    request let through as [id] began before [T + ttl + D], [ttl] being the lifetime
    of cache entries; it is let through later than that only by the time the request
    itself takes. *)
Theorem revocation_bounded size ttl w now s id T D p ws start t :
  reachable (sys_init size ttl w now) s → (0 ≤ D)%Z →
  (∀ kid rec tr, (kid, rec, tr) ∈ sys_reads s → kr_ID rec = id → (T ≤ tr)%Z → kr_RevokedAt rec ≠ None) →
  (∀ q rec tr tv, (q, rec, tr, tv) ∈ sys_puts s → kr_ID rec = id → (tv - tr ≤ D)%Z) →
  (p, ws, start, t) ∈ sys_log s → ws_KeyDBID ws = id →
  (start < T + vc_ttl (NewVerifyCache size ttl) + D)%Z.
Proof.
  intros Hi%reachable_inv HD Hrev Hdelay Hl Hid.
  destruct (inv_log _ _ Hi _ _ _ _ Hl) as (rec & (_ & q & tr & tv & _ & Hin & Ht) & -> & Ha).
  destruct (inv_puts _ _ Hi _ _ _ _ Hin) as (_ & _ & Hr & _).
  specialize (Hdelay _ _ _ _ Hin Hid). specialize (Hrev _ _ _ Hr Hid).
  assert (0 < vc_ttl (NewVerifyCache size ttl))%Z as Hpos
    by (simpl; unfold minute; destruct (Z.leb_spec ttl 0); lia).
  assert (tr < T)%Z; [|lia]. apply Z.nle_gt. intros Hle. specialize (Hrev Hle).
  unfold Active in Ha. by destruct (kr_RevokedAt rec).
Qed.

End System.

(** ** The middleware over the store *)

Section WithStore.
Context `{UuidLib, !UuidLaws, LRU cachedKey, !LRULaws cachedKey}.
Variable IDKey : bytes → bytes → Z → Z → Z → Z → bytes.
Variable dummySalt : res error bytes.

Lemma cache_Get_miss c k now :
  lru_contents (vc_lru c) !! k = None → (cache_Get c k now).1 = None.
Proof.
  intros Hn. unfold cache_Get, cache_lookup. pose proof (lru_get_value (vc_lru c) k) as Hv.
  destruct (lru_get (vc_lru c) k) as [[v|] l]; simpl in Hv; [congruence|done].
Qed.

(** A request for a token that is not cached. *)
Lemma Authenticate_miss tget tput tact header p rec c (w w' : world) :
  ParseBearer header = Ok p → (cache_Get c (CacheKey p) tget).1 = None →
  FindByKeyID (pk_KeyID p) w = (w', Ok rec) →
  VerifySecret IDKey (pk_Secret p) (kr_SecretHash rec) = Some (Ok tt) →
  Authenticate IDKey dummySalt tget tput tact header c w =
  ((cache_Put (cache_Get c (CacheKey p) tget).2 (CacheKey p) rec tput, w'), admit_record rec tact).
Proof.
  intros Hp Hg Hf Hv. unfold Authenticate, resolve. rewrite Hp.
  destruct (cache_Get c (CacheKey p) tget) as [[?|] c1]; simpl in *; [done|].
  by rewrite Hf, Hv.
Qed.

Hypothesis IDKey_length : ∀ pw salt,
  length (IDKey pw salt argonTime argonMemory argonThreads argonKeyLen) = 32.

(** End to end, a key created through the store authenticates: presenting
    the returned token as a bearer token, on a gateway that has not cached it and
    before the requested expiry, lets the request through as the requested
    workspace, role and environment, and schedules the touch of the new row. *)
Theorem created_key_authenticates dr idB secB now cin w w' w'' ck c tget tput tact :
  dr_id dr = Ok idB → length idB = keyIDRawBytes →
  dr_secret dr = Ok secB → length secB = secretRawBytes →
  keys_wf (w_db w) → Create IDKey dr now cin w = (w', Ok ck) →
  clean w'' → w_db w'' = w_db w' →
  (∀ e, ci_ExpiresAt cin = Some e → (tact < e)%Z) →
  (∀ k, lru_contents (vc_lru c) !! k = None) →
  ∃ c' ws, Authenticate IDKey dummySalt tget tput tact (bs "Bearer " ++ ck_FullToken ck) c w'' =
             ((c', w''), Next ws (ck_ID ck)) ∧
    ws_KeyDBID ws = ck_ID ck ∧ ws_PgRole ws = ci_PgRole cin ∧ ws_Env ws = ci_Env cin ∧
    ∃ u, uuid_Parse (ci_WorkspaceID cin) = Ok u ∧ ws_WorkspaceID ws = uuid_String u.
Proof.
  intros Hi Hil Hs Hsl Hwf Hx Hc Hd Hexp Hcold.
  destruct (Create_usable_ok IDKey IDKey_length dr idB secB now cin w w' w'' ck Hi Hil Hs Hsl Hwf Hx Hc Hd)
    as (_ & _ & p & rec & Hp & Hf & Hv & Hid & Hws & Hr & He & Ha).
  rewrite (Authenticate_miss _ _ _ _ p rec c w'' w'' Hp) by (by rewrite ?cache_Get_miss).
  unfold admit_record. rewrite (Ha tact Hexp). simpl. rewrite Hid.
  eexists _, (ws_of rec). by repeat split.
Qed.

(** After a successful [Revoke] of a row its record is inactive. *)
Lemma Revoke_effect id u w w' r :
  uuid_Parse id = Ok u → Revoke id w = (w', Ok tt) → db_keys (w_db w') !! u = Some r →
  kw_revoked_at r ≠ None.
Proof.
  intros Hp Hx Hr. unfold Revoke in Hx. apply mbind_Ok in Hx as (w1 & u' & [= <- Hu] & Hx).
  apply exec_Ok in Hx as [[= Hd] _]. assert (u' = u) as -> by congruence.
  rewrite <- Hd in Hr. unfold update_key in Hr. simpl in Hr. rewrite lookup_alter_eq in Hr.
  apply fmap_Some in Hr as (r0 & _ & ->). unfold set_revoked. by destruct (kw_revoked_at r0) eqn:?; simpl; congruence.
Qed.

Lemma FindByKeyID_Ok kid w w' rec :
  FindByKeyID kid w = (w', Ok rec) →
  ∃ id r, db_keys (w_db w) !! id = Some r ∧ kw_key_id r = kid ∧ rec = record_of_row id r.
Proof.
  unfold FindByKeyID, select_by_key_id. destruct (exec _ w) as [w1 [x|e]] eqn:E; simpl; [|by repeat case_match].
  intros [= <- <-]. apply exec_Ok in E as [[= _ Hr] _].
  destruct (find_by_key_id _ kid) as [[id row]|] eqn:Ef; simplify_eq/=.
  apply find_by_key_id_Some in Ef as [??]. by exists id, row.
Qed.

Lemma uuid_String_inj u v : uuid_String u = uuid_String v → u = v.
Proof. intros E. pose proof (uuid_Parse_String u). rewrite E, uuid_Parse_String in *. congruence. Qed.

(** Revoking a key and evicting it from the cache, as the gateway does, is
    immediate for later requests: whatever was cached before and whatever header
    is presented, the next request is not let through as that row. *)
Theorem revoked_key_rejected id u w w' c tget tput tact header ws touch :
  uuid_Parse id = Ok u → id = uuid_String u →
  Revoke id w = (w', Ok tt) →
  (Authenticate IDKey dummySalt tget tput tact header (RevokeFromCache c id) w').2 = Next ws touch →
  ws_KeyDBID ws ≠ id.
Proof.
  intros Hp Hid Hx Ha Heq. unfold Authenticate, resolve in Ha.
  destruct (ParseBearer header) as [p|]; [|done].
  pose proof (cache_Get_hit (RevokeFromCache c id) (CacheKey p) tget) as Hh.
  destruct (cache_Get _ _ _) as [[rec|] c1]; simpl in Ha, Hh.
  - unfold admit_record in Ha. destruct (Active rec tact); simpl in Ha; [|done]. injection Ha as <- <-. simpl in Heq.
    destruct (Hh rec eq_refl) as (_ & _ & _ & _ & Hr). apply Hr, RevokeByDBID_revoked. left.
    rewrite Heq, str_eqb_refl, Hid. unfold str_eqb. by rewrite bool_decide_false by apply uuid_String_ne.
  - destruct (FindByKeyID (pk_KeyID p) w') as [w1 [rec|e]] eqn:Ef; simpl in Ha.
    + destruct (VerifySecret _ _ _) as [[]|]; simpl in Ha; [|unfold reject_resolve in Ha; by case_match|done].
      unfold admit_record in Ha. destruct (Active rec tact) eqn:Hact; simpl in Ha; [|done].
      injection Ha as <- <-. simpl in Heq.
      apply FindByKeyID_Ok in Ef as (v & r & Hr & _ & ->). simpl in Heq.
      rewrite Hid in Heq. apply uuid_String_inj in Heq as ->.
      pose proof (Revoke_effect _ _ _ _ _ Hp Hx Hr) as Hrev.
      unfold Active in Hact. simpl in Hact. by destruct (kw_revoked_at r).
    + destruct (VerifySecret _ _ _) as [[]|]; simpl in Ha; try done; unfold reject_resolve in Ha; by case_match.
Qed.
End WithStore.

(** ** A concrete gateway *)

Module MwDemo.
#[local] Existing Instance text_uuid.

(** The database after creating a key, and after revoking it. *)
Definition w1 : world := (Create toy_IDKey (Demo.draw x61) 0 Demo.cin Demo.w0).1.
Definition w2 : world := (Revoke (bs "a") w1).1.

Definition header : bytes :=
  bs "Bearer acd_dev_" ++ EncodeToString url_alphabet (repeat x61 12) ++ bs "_" ++
  EncodeToString url_alphabet (repeat x61 24).

Definition init : Sys := sys_init (W := world) 8 100 w1 0.

(** A request that reads the row before the revocation and caches it after. *)
Definition race : list (event (W := world)) :=
  ESpawn 1 header :: repeat (ERun 1) 3 ++ [ETick 10; EDatabase w2; ERevoke (bs "a")] ++ repeat (ERun 1) 4 ++
  [ETick 20; ESpawn 2 header] ++ repeat (ERun 2) 4.

(** Request 1 has cached the row; after its revocation request 3 looks the old
    entry up, request 2 evicts it, reads the row and clears the mark, and only then
    request 3 asks for the mark. *)
Definition window : list (event (W := world)) :=
  ESpawn 1 header :: repeat (ERun 1) 7 ++ [ETick 10; EDatabase w2; ERevoke (bs "a"); ETick 20; ESpawn 2 header; ESpawn 3 header] ++
  repeat (ERun 3) 2 ++ repeat (ERun 2) 7 ++ repeat (ERun 3) 2 ++ repeat (ERun 2) 3.

Definition run (es : list (event (W := world))) : option Sys :=
  run_events toy_IDKey (Ok (repeat x00 16)) es init.

Definition key : ParsedKey :=
  match ParseBearer header with Ok p => p | Err _ => Build_ParsedKey [] [] [] [] end.

Definition ws : WorkspaceContext :=
  {| ws_WorkspaceID := bs "ws"; ws_KeyID := pk_KeyID key; ws_KeyDBID := bs "a";
     ws_PgRole := bs "dbuser"; ws_Env := EnvDev |}.

(** One request, from header to log. *)
Definition one : list (event (W := world)) :=
  ESpawn 1 header :: repeat (ERun 1) 3 ++ ETick 3 :: repeat (ERun 1) 4.

Lemma one_log : (sys_log <$> run one) = Some [(key, ws, 0%Z, 3%Z)].
Proof. by vm_compute. Qed.

Lemma race_log : (sys_log <$> run race) = Some [(key, ws, 20%Z, 20%Z); (key, ws, 0%Z, 10%Z)].
Proof. by vm_compute. Qed.

Lemma race_reads : ((fun s => snd <$> sys_reads s) <$> run race) = Some [0%Z].
Proof. by vm_compute. Qed.

Lemma race_puts : ((fun s => (fun e => (e.1.2, e.2)) <$> sys_puts s) <$> run race) = Some [(0, 10)%Z].
Proof. by vm_compute. Qed.
End MwDemo.

#[local] Existing Instance text_uuid.
#[local] Existing Instance text_uuid_laws.

Lemma authenticated_sound_witness :
  ∃ s, MwDemo.run MwDemo.one = Some s ∧
    ((∃ q, parsed q ∧ pk_FullToken q ≠ pk_FullToken MwDemo.key ∧
           Sum256 (pk_FullToken q) = Sum256 (pk_FullToken MwDemo.key)) ∨
     ∃ rec tr, (pk_KeyID MwDemo.key, rec, tr) ∈ sys_reads s ∧ kr_KeyID rec = pk_KeyID MwDemo.key ∧
       verified toy_IDKey MwDemo.key rec ∧ MwDemo.ws = ws_of rec ∧ Active rec 3 = true).
Proof.
  destruct (MwDemo.run MwDemo.one) as [s|] eqn:E;
    [|apply (f_equal (fmap sys_now)) in E; vm_compute in E; discriminate E].
  exists s. split; [reflexivity|].
  apply (authenticated_sound toy_IDKey (Ok (repeat x00 16)) 8 100 MwDemo.w1 0 s MwDemo.key MwDemo.ws 0 3).
  - eapply run_events_reachable; [apply reach_init|exact E].
  - pose proof MwDemo.one_log as Hl. rewrite E in Hl. injection Hl as ->. by left.
Defined.

Lemma revocation_bounded_witness : (20 < 4 + 100 + 10)%Z.
Proof.
  destruct (MwDemo.run MwDemo.race) as [s|] eqn:E;
    [|apply (f_equal (fmap sys_now)) in E; vm_compute in E; discriminate E].
  assert (reachable toy_IDKey (Ok (repeat x00 16)) MwDemo.init s) as Hr
    by (eapply run_events_reachable; [apply reach_init|exact E]).
  apply (revocation_bounded toy_IDKey (Ok (repeat x00 16)) 8 100 MwDemo.w1 0 s (bs "a") 4 10
           MwDemo.key MwDemo.ws 20 20); [exact Hr|lia|..|reflexivity].
  - intros kid rec tr Hin _ Ht. pose proof MwDemo.race_reads as Hl. rewrite E in Hl. injection Hl as Hl.
    apply (list_elem_of_fmap_2 snd) in Hin. rewrite Hl in Hin. apply list_elem_of_singleton in Hin.
    simpl in Hin. lia.
  - intros q rec tr tv Hin _. pose proof MwDemo.race_puts as Hl. rewrite E in Hl. injection Hl as Hl.
    apply (list_elem_of_fmap_2 (fun e => (e.1.2, e.2))) in Hin. rewrite Hl in Hin.
    apply list_elem_of_singleton in Hin. simpl in Hin. injection Hin as -> ->. lia.
  - pose proof MwDemo.race_log as Hl. rewrite E in Hl. injection Hl as ->. by left.
Defined.

(** Eviction is not a barrier for requests in flight: a request that read
    its row before the row was revoked and evicted still puts the old record in
    the cache afterwards, and the put clears the eviction mark; request 2, which
    starts at 20, is let through as row "a", revoked and evicted at 10. *)
Theorem revoke_race :
  ((fun s => (fun e => (e.1.2, ws_KeyDBID e.1.1.2)) <$> sys_log s) <$> MwDemo.run MwDemo.race) =
    Some [(20%Z, bs "a"); (0%Z, bs "a")] ∧
  ((fun r => kw_revoked_at r) <$> db_keys (w_db MwDemo.w2) !! Demo.uid (bs "a")) = Some (Some 1000%Z).
Proof. split; by vm_compute. Qed.

(** Two requests after a revocation are enough to undo it for one of them: the
    one finds the old entry, the other reads the revoked row and, caching it, clears
    the eviction mark before the first has asked for it. Both start at 20, after
    row "a" was revoked and evicted with no request in flight, and one is let
    through. *)
Theorem revoke_window :
  ((fun s => (fun e => (e.1.2, ws_KeyDBID e.1.1.2)) <$> sys_log s) <$> MwDemo.run MwDemo.window) =
    Some [(20%Z, bs "a"); (0%Z, bs "a")] ∧
  ((fun r => kw_revoked_at r) <$> db_keys (w_db MwDemo.w2) !! Demo.uid (bs "a")) = Some (Some 1000%Z).
Proof. split; by vm_compute. Qed.

Lemma created_key_authenticates_witness :
  ∃ ck c' ws, (Create toy_IDKey (Demo.draw x61) 0 Demo.cin Demo.w0).2 = Ok ck ∧
    (Authenticate toy_IDKey (Ok []) 1 2 3 (bs "Bearer " ++ ck_FullToken ck) (NewVerifyCache 8 100)
       {| w_db := w_db MwDemo.w1; w_dbnow := 5; w_faults := [] |}) =
    ((c', {| w_db := w_db MwDemo.w1; w_dbnow := 5; w_faults := [] |}), Next ws (ck_ID ck)) ∧
    ws_PgRole ws = bs "dbuser".
Proof.
  unfold MwDemo.w1. destruct (Create toy_IDKey (Demo.draw x61) 0 Demo.cin Demo.w0) as [w' r] eqn:E.
  destruct r as [ck|e]; [|apply (f_equal snd) in E; vm_compute in E; discriminate E].
  destruct (created_key_authenticates toy_IDKey (Ok []) (fun pw salt => toy_IDKey_length pw salt _ _ _ _)
    (Demo.draw x61) (repeat x61 12) (repeat x61 24) 0 Demo.cin Demo.w0 w'
    {| w_db := w_db w'; w_dbnow := 5; w_faults := [] |} ck (NewVerifyCache 8 100) 1 2 3)
    as (c' & ws & Ha & _ & Hr & _);
    [reflexivity|reflexivity|reflexivity|reflexivity|exact Demo.db0_wf|exact E|reflexivity|reflexivity
    |intros e He; discriminate He|intros k; apply lookup_empty|].
  exists ck, c', ws. split; [reflexivity|]. split; [exact Ha|exact Hr].
Defined.

Lemma revoked_key_rejected_witness : bs "old" ≠ bs "a".
Proof.
  destruct (Revoke (bs "a") MwDemo.w1) as [w' r] eqn:E.
  destruct r as [[]|e]; [|apply (f_equal snd) in E; vm_compute in E; discriminate E].
  apply (revoked_key_rejected toy_IDKey (Ok []) (bs "a") (Demo.uid (bs "a")) MwDemo.w1 w'
    (cache_Put (NewVerifyCache 8 100) (CacheKey MwDemo.key) (demo_rec (bs "old") None) 0)
    1 2 3 MwDemo.header (ws_of (demo_rec (bs "old") None)) (bs "old")).
  - reflexivity.
  - reflexivity.
  - exact E.
  - reflexivity.
Defined.
