(* ===== verification/GoContext.v ===== *)
(** * Request contexts

    The values the packages put into a [context.Context]: the authenticated workspace
    (internal/auth), the request id (internal/httpapi) and a logger
    (internal/observability), each under a key of an unexported type of its package,
    so that keys of different packages never meet. A handler reads its tenant with
    [MustFromContext], which panics without one. *)

From S2P Require Import Prelude GoStrings GoErrors Observability AuthKey Lru AuthCache ControlPlane AuthStore AuthMiddleware.

(** ** package context *)

(** [wsCtxKey] of auth and [loggerKey] of observability are both the constant 0, of
    two types; [requestIDKey{}] is a value of a third. *)
Inductive ctx_key : Type :=
| auth_ctxKey (n : Z)
| observability_ctxKey (n : Z)
| requestIDKey.

#[export] Instance ctx_key_eq_dec : EqDecision ctx_key.
Proof. solve_decision. Defined.

(** A value stored in a context; a pointer may be nil. *)
Inductive ctx_val : Type :=
| VWorkspace (ws : option WorkspaceContext)
| VLogger (l : option Logger)
| VString (s : bytes).

Definition Context : Type := list (ctx_key * ctx_val).

Definition WithValue (ctx : Context) (k : ctx_key) (v : ctx_val) : Context := (k, v) :: ctx.

Fixpoint Value (ctx : Context) (k : ctx_key) : option ctx_val :=
  match ctx with
  | [] => None
  | (k', v) :: ctx => if decide (k' = k) then Some v else Value ctx k
  end.

(** ** internal/auth *)

Definition wsCtxKey : ctx_key := auth_ctxKey 0.

Definition NewContext (ctx : Context) (ws : option WorkspaceContext) : Context := WithValue ctx wsCtxKey (VWorkspace ws).

Definition auth_FromContext (ctx : Context) : option WorkspaceContext :=
  match Value ctx wsCtxKey with
  | Some (VWorkspace ws) => ws
  | _ => None
  end.

(** [None] is the panic. *)
Definition MustFromContext (ctx : Context) : option WorkspaceContext :=
  match auth_FromContext ctx with
  | None => None
  | Some ws => Some ws
  end.

(** ** internal/observability *)

Definition loggerKey : ctx_key := observability_ctxKey 0.

Definition WithLogger (ctx : Context) (l : option Logger) : Context := WithValue ctx loggerKey (VLogger l).

(** [dflt] is slog.Default(). *)
Definition log_FromContext (dflt : Logger) (ctx : Context) : Logger :=
  match Value ctx loggerKey with
  | Some (VLogger (Some l)) => l
  | _ => dflt
  end.

(** ** internal/httpapi *)

Definition GetRequestID (ctx : Context) : bytes :=
  match Value ctx requestIDKey with
  | Some (VString id) => id
  | _ => []
  end.

Definition WithRequestID (ctx : Context) (id : bytes) : Context := WithValue ctx requestIDKey (VString id).

(** ** The middleware *)

(** [NewMiddleware]: [None] is the panic for a missing store or cache; a missing
    logger is the default one. *)
Definition NewMiddleware {ST C : Type} (dflt : Logger) (store : option ST) (cache : option C) (logger : option Logger)
  : option (ST * C * Logger) :=
  match store, cache with
  | Some s, Some c => Some (s, c, default dflt logger)
  | _, _ => None
  end.

(** The context [Authenticate] calls the next handler with; [None] if it does not. *)
Definition next_ctx (ctx : Context) (o : auth_outcome) : option Context :=
  match o with
  | Next ws _ => Some (NewContext ctx (Some ws))
  | Reject _ | Panicked => None
  end.

Lemma Value_with ctx k k' v : Value (WithValue ctx k v) k' = if decide (k = k') then Some v else Value ctx k'.
Proof. done. Qed.

(** The values of a request's context do not get in each other's way. A handler
    behind the authentication finds the workspace it authenticated, whatever ids and
    loggers were attached inside or outside of it, and never panics; without the
    authentication it does. The request id and the logger are the last ones attached,
    and a logger is found even if none or a nil one was. *)
Theorem context_isolated ctx o ctx' ws touch id l dflt :
  o = Next ws touch → next_ctx (WithRequestID ctx id) o = Some ctx' →
  MustFromContext (WithLogger ctx' l) = Some ws ∧
  MustFromContext (WithRequestID ctx' id) = Some ws ∧
  GetRequestID (WithLogger ctx' l) = id ∧
  log_FromContext dflt (WithLogger ctx' l) = default dflt l ∧
  log_FromContext dflt ctx' = log_FromContext dflt ctx ∧
  (auth_FromContext ctx = None → MustFromContext (WithLogger (WithRequestID ctx id) l) = None).
Proof.
  intros -> [= <-]. unfold MustFromContext, auth_FromContext, GetRequestID, log_FromContext.
  destruct l; repeat split; try done; unfold WithLogger, WithRequestID; rewrite !Value_with; simpl; by intros ->.
Qed.
