(* ===== verification/Tenant.v ===== *)
(** * internal/tenant/tenant.go: the workspace and role of a transaction

    A connection is a log of the commands sent on it and a server that answers
    them, whatever its answers are. [Setup] is translated statement by statement.
    The specification is an interpreter of settings: SET, SET LOCAL and set_config
    are read from the tokens of a statement the way Postgres reads them, with values
    that belong to the transaction or to the session; what any other statement sets,
    a client's for instance, is left open. *)

From stdpp Require Import gmap.
From S2P Require Import Prelude GoStrings GoErrors SqlLex.

(** ** Commands on a connection *)

Section Conn.
Context {V : Type}.

(** A parameter of a statement: a Go string, or a value of the request. *)
Inductive arg : Type :=
| AStr (s : bytes)
| AVal (v : V).

Inductive cmd : Type :=
| CBegin
| CExec (sql : bytes) (args : list arg)
| CQuery (sql : bytes) (args : list arg)
| CCommit
| CRollback.

(** The answer to a query: column names, the rows as they are read, and the
    error [rows.Err] reports at the end. *)
Record rowset : Type := {
  rs_columns : list bytes;
  rs_rows : list (res error (list V));
  rs_err : option error;
}.

(** A server: the rows affected by a command, or the rows of a query. *)
Record PgServer (S : Type) : Type := {
  srv_exec : cmd → S → S * res error Z;
  srv_query : bytes → list arg → S → S * res error rowset;
}.
Arguments srv_exec {S} _ _ _.
Arguments srv_query {S} _ _ _ _.

Section Session.
Context {S : Type}.
Variable srv : PgServer S.

Record conn : Type := { cn_state : S; cn_log : list cmd }.

Definition X (A : Type) : Type := conn → conn * res error A.

Definition xret {A} (a : A) : X A := fun c => (c, Ok a).
Definition xfail {A} (e : error) : X A := fun c => (c, Err e).
Definition xbind {A B} (x : X A) (k : A → X B) : X B :=
  fun c => match x c with
           | (c', Ok a) => k a c'
           | (c', Err e) => (c', Err e)
           end.
Definition xmap_err {A} (f : error → error) (x : X A) : X A :=
  fun c => let '(c', r) := x c in (c', res_map_err f r).

Definition send (m : cmd) : X Z :=
  fun c => let '(s, r) := srv_exec srv m (cn_state c) in
           ({| cn_state := s; cn_log := cn_log c ++ [m] |}, r).

Definition send_query (sql : bytes) (args : list arg) : X rowset :=
  fun c => let '(s, r) := srv_query srv sql args (cn_state c) in
           ({| cn_state := s; cn_log := cn_log c ++ [CQuery sql args] |}, r).

End Session.
End Conn.
Arguments arg : clear implicits.
Arguments cmd : clear implicits.
Arguments conn : clear implicits.
Arguments rowset : clear implicits.
Arguments PgServer : clear implicits.
Arguments srv_exec {V S} _ _ _.
Arguments srv_query {V S} _ _ _ _.

Notation "'let+' x ':=' c 'in' k" := (xbind c (fun x => k))
  (at level 10, x pattern, c at level 100, k at level 200) : go_scope.

(** ** Role names *)

(** [for _, r := range s] over the runes of [s]. *)
Definition isSafeRoleName (s : bytes) : bool :=
  if str_eqb s [] || (63 <? Z.of_nat (length s))%Z then false
  else forallb (fun r => ((97 <=? r) && (r <=? 122))%Z || ((48 <=? r) && (r <=? 57))%Z ||
                         (r =? 95)%Z) (runes s).

(** ** Setup *)

Definition Milliseconds (d : Z) : Z := Z.quot d 1000000.


Definition stmt_timeout_sql `{UnicodeTables} (d : Z) : bytes :=
  Sprintf [FLit (bs "SET LOCAL statement_timeout = '"); FInt (Milliseconds d); FLit (bs "ms'")].

Definition idle_timeout_sql `{UnicodeTables} (d : Z) : bytes :=
  Sprintf [FLit (bs "SET LOCAL idle_in_transaction_session_timeout = '"); FInt (Milliseconds d);
           FLit (bs "ms'")].

Definition workspace_sql : bytes := bs "SELECT set_config('app.workspace_id', $1, true)".

Definition role_sql (pgRole : bytes) : bytes := bs "SET LOCAL ROLE " ++ [dq] ++ pgRole ++ [dq].

Definition search_path_sql : bytes := bs "SET LOCAL search_path TO public".

Section Setup.
Context `{UnicodeTables} {V S : Type}.
Variable srv : PgServer V S.

Definition Setup (workspaceID pgRole : bytes) (stmtTimeout idleTimeout : Z) : X unit :=
  if str_eqb workspaceID [] then xfail (errors_New (bs "tenant.Setup: empty workspace_id")) else
  if str_eqb pgRole [] then xfail (errors_New (bs "tenant.Setup: empty pg_role")) else
  let+ _ := xmap_err (wrapf (bs "set statement_timeout: "))
              (send srv (CExec (stmt_timeout_sql stmtTimeout) [])) in
  let+ _ := xmap_err (wrapf (bs "set idle_in_transaction_session_timeout: "))
              (send srv (CExec (idle_timeout_sql idleTimeout) [])) in
  let+ _ := xmap_err (wrapf (bs "set app.workspace_id: "))
              (send srv (CExec workspace_sql [AStr workspaceID])) in
  if negb (isSafeRoleName pgRole)
  then xfail (ErrFmt [FLit (bs "unsafe pg_role identifier: "); FQuote pgRole]) else
  let+ _ := xmap_err (wrapf (bs "set local role: ")) (send srv (CExec (role_sql pgRole) [])) in
  let+ _ := xmap_err (wrapf (bs "set search_path: ")) (send srv (CExec search_path_sql [])) in
  xret tt.
End Setup.

(** ** Specification: what the statements mean to Postgres *)

(** A change of a setting, for the transaction ([SET LOCAL]) or for the session;
    [None] resets it to its default. *)
Record change : Type := { ch_local : bool; ch_name : bytes; ch_value : option bytes }.

(** The settings of a connection: the values of the session, what they were when
    the open transaction began, and the values local to it. *)
Record settings : Type := {
  g_tx : bool;
  g_session : gmap bytes bytes;
  g_saved : gmap bytes bytes;
  g_local : gmap bytes (option bytes);
}.

Definition connected : settings := {| g_tx := false; g_session := ∅; g_saved := ∅; g_local := ∅ |}.

Definition effective (g : settings) (name : bytes) : option bytes :=
  match g_local g !! name with Some v => v | None => g_session g !! name end.

Definition set_value (name : bytes) (v : option bytes) (m : gmap bytes bytes) : gmap bytes bytes :=
  match v with Some v => <[name := v]> m | None => delete name m end.

(** [SET LOCAL] outside a transaction has no effect; a [SET] ends a [SET LOCAL]
    before it. *)
Definition apply_change (g : settings) (ch : change) : settings :=
  if ch_local ch then
    if g_tx g then {| g_tx := true; g_session := g_session g; g_saved := g_saved g;
                      g_local := <[ch_name ch := ch_value ch]> (g_local g) |}
    else g
  else {| g_tx := g_tx g; g_session := set_value (ch_name ch) (ch_value ch) (g_session g); g_saved := g_saved g;
          g_local := delete (ch_name ch) (g_local g) |}.

(** Keywords and unquoted names are folded to lower case. *)
Definition lower (s : bytes) : bytes := (fun b => if in_range 65 90 (bz b) then zb (bz b + 32) else b) <$> s.
Definition keyword (w k : bytes) : bool := str_eqb (lower w) k.

Definition role_name : bytes := bs "role".

(** The role [none], however it is written, is no role: the one that logged in. *)
Definition role_value (role : bytes) : option bytes := if str_eqb role (bs "none") then None else Some role.

Definition change_to (local : bool) (name : bytes) (v : option bytes) : change :=
  {| ch_local := local; ch_name := name;
     ch_value := if str_eqb name role_name then v ≫= role_value else v |}.

Definition read_value (t : sql_token) : option (option bytes) :=
  match t with
  | TString v | TIdent v | TNumber v => Some (Some v)
  | TWord w => Some (if keyword w (bs "default") then None else Some (lower w))
  | _ => None
  end.

(** [SET [SESSION | LOCAL] ROLE v] and [SET [SESSION | LOCAL] name { TO | = } v] *)
Definition read_assignment (local : bool) (ts : list sql_token) : option change :=
  match ts with
  | [TWord r; v] => if keyword r role_name then change_to local role_name <$> read_value v else None
  | [TWord n; TWord to; v] => if keyword to (bs "to") then change_to local (lower n) <$> read_value v else None
  | [TWord n; TChar c; v] => if byte_eqb c "=" then change_to local (lower n) <$> read_value v else None
  | _ => None
  end.

Definition read_set (ts : list sql_token) : option change :=
  match ts with
  | TWord s :: TWord l :: ts' =>
      if negb (keyword s (bs "set")) then None
      else if keyword l (bs "local") then read_assignment true ts'
      else if keyword l (bs "session") then read_assignment false ts'
      else read_assignment false (TWord l :: ts')
  | _ => None
  end.

Section Interp.
Context {V : Type}.

(** [SELECT set_config('name', $1, true)] with the value as its parameter. *)
Definition read_set_config (ts : list sql_token) (args : list (arg V)) : option change :=
  match ts, args with
  | [TWord s; TWord f; TChar o; TString name; TChar c1; TParam n; TChar c2; TWord local; TChar c], [AStr v] =>
      if keyword s (bs "select") && keyword f (bs "set_config") && byte_eqb o "(" && byte_eqb c1 "," &&
         str_eqb n (bs "1") && byte_eqb c2 "," && byte_eqb c ")"
      then Some (change_to (keyword local (bs "true")) (lower name) (Some v)) else None
  | _, _ => None
  end.

(** What the statements that are not of these forms set: functions, blocks, lists
    of values, RESET and the like. *)
Variable does : bytes → list (arg V) → list change.

Definition changes (sql : bytes) (args : list (arg V)) : list change :=
  match lex sql with
  | Some ts =>
      match read_set ts with
      | Some ch => [ch]
      | None => match read_set_config ts args with Some ch => [ch] | None => does sql args end
      end
  | None => does sql args
  end.

(** A transaction begins on a connection that has none: pgxpool closes one that is
    returned inside a transaction. What was local ends with it, and so does, when
    it is rolled back, what it set for the session. *)
Definition interp (g : settings) (m : cmd V) : settings :=
  match m with
  | CBegin => {| g_tx := true; g_session := g_session g; g_saved := g_session g; g_local := ∅ |}
  | CCommit => {| g_tx := false; g_session := g_session g; g_saved := g_session g; g_local := ∅ |}
  | CRollback =>
      let m := if g_tx g then g_saved g else g_session g in
      {| g_tx := false; g_session := m; g_saved := m; g_local := ∅ |}
  | CExec sql args | CQuery sql args => fold_left apply_change (changes sql args) g
  end.

Definition settings_of (log : list (cmd V)) : settings := fold_left interp log connected.

(** What the gateway cares about: is a transaction open, and the settings in
    effect; [None] is the default of the connection. *)
Record session : Type := {
  se_tx : bool;
  se_role : option bytes;
  se_workspace : option bytes;
  se_path : option bytes;
  se_stmt_ms : option Z;
  se_idle_ms : option Z;
}.

(** A value like [5000ms]; a limit of 0 means no limit to Postgres. *)
Definition read_ms (s : bytes) : option Z :=
  let n := (length s - 2)%nat in
  if str_eqb (drop n s) (bs "ms") then ParseInt 64 (take n s) else None.

Definition workspace_setting : bytes := bs "app.workspace_id".
Definition path_setting : bytes := bs "search_path".
Definition stmt_setting : bytes := bs "statement_timeout".
Definition idle_setting : bytes := bs "idle_in_transaction_session_timeout".

Definition view (g : settings) : session :=
  {| se_tx := g_tx g; se_role := effective g role_name; se_workspace := effective g workspace_setting;
     se_path := effective g path_setting; se_stmt_ms := effective g stmt_setting ≫= read_ms;
     se_idle_ms := effective g idle_setting ≫= read_ms |}.

Definition session_of (log : list (cmd V)) : session := view (settings_of log).

End Interp.

Lemma apply_changes chs : ∀ g,
  let g' := fold_left apply_change chs g in
  g_tx g' = g_tx g ∧ g_saved g' = g_saved g ∧
  ∀ name, g_session g' !! name ≠ g_session g !! name → ∃ ch, ch ∈ chs ∧ ch_local ch = false ∧ ch_name ch = name.
Proof.
  induction chs as [|ch chs IH]; intros g; cbn [fold_left]; [done|].
  destruct (IH (apply_change g ch)) as (Ht & Hs & Hn). unfold apply_change in *.
  destruct (ch_local ch) eqn:El.
  { destruct (g_tx g) eqn:Et; cbn [g_tx g_saved g_session] in *; (split; [congruence|]); (split; [done|]);
      intros name Hne; destruct (Hn name Hne) as (ch' & ? & ?); exists ch'; (split; [by right|done]). }
  cbn [g_tx g_saved g_session] in *. split; [done|]. split; [done|]. intros name Hne.
  destruct (decide (ch_name ch = name)) as [<-|Hd]; [exists ch; split; [left|done]|].
  destruct (Hn name) as (ch' & ? & ?); [|exists ch'; split; [by right|done]].
  unfold set_value. destruct (ch_value ch); [by rewrite lookup_insert_ne|by rewrite lookup_delete_ne].
Qed.

(** ** Role names are ASCII identifiers *)

Definition safe_byte (b : byte) : bool :=
  in_range 97 122 (bz b) || in_range 48 57 (bz b) || (bz b =? 95)%Z.

Lemma lor_ge_128 a b : (0 ≤ a)%Z → (0 ≤ b)%Z → (128 ≤ a ∨ 128 ≤ b)%Z → (128 ≤ Z.lor a b)%Z.
Proof.
  intros Ha Hb Hab. assert (Z.lor a b ≠ 0)%Z as Hn by (rewrite Z.lor_eq_0_iff; lia).
  assert (0 ≤ Z.lor a b)%Z as Hp by (by apply Z.lor_nonneg).
  apply (Z.log2_le_pow2 _ 7); [lia|]. rewrite Z.log2_lor by done.
  destruct Hab as [Hx|Hx]; apply (Z.log2_le_pow2 _ 7) in Hx; lia.
Qed.

(** A finite check over the bytes of a range. *)
Lemma byte_range_check (P : byte → bool) lo hi b :
  forallb (fun n => implb (in_range lo hi (bz (zb (Z.of_nat n)))) (P (zb (Z.of_nat n)))) (seq 0 256) = true →
  in_range lo hi (bz b) = true → P b = true.
Proof.
  intros Hc Hb. pose proof (byte_forall (fun b => implb (in_range lo hi (bz b)) (P b)) Hc b) as H.
  simpl in H. by rewrite Hb in H.
Qed.

Lemma shl_land_nonneg b m k : (0 ≤ Z.shiftl (Z.land (bz b) m) k)%Z.
Proof. apply Z.shiftl_nonneg, Z.land_nonneg. left. apply bz_range. Qed.

Lemma land_bz_nonneg b m : (0 ≤ Z.land (bz b) m)%Z.
Proof. apply Z.land_nonneg. left. apply bz_range. Qed.

Lemma lor_nonneg2 x y : (0 ≤ x → 0 ≤ y → 0 ≤ Z.lor x y)%Z.
Proof. intros. by apply Z.lor_nonneg. Qed.

#[local] Hint Resolve shl_land_nonneg land_bz_nonneg lor_nonneg2 : core.

(** Bits of a byte of a range, shifted, reach 128. *)
Ltac byte_bits m k lo hi :=
  apply Z.leb_le;
  apply (byte_range_check (fun b => 128 <=? Z.shiftl (Z.land (bz b) m) k)%Z lo hi);
  [by vm_compute|].

Lemma in_range_succ lo hi z :
  in_range lo hi z = true → z ≠ lo → in_range (lo + 1) hi z = true.
Proof.
  unfold in_range. intros [Hx Hy]%andb_true_iff Hne. go_bool.
  apply andb_true_iff. split; apply Z.leb_le; lia.
Qed.

Lemma rune2_high b b1 :
  in_range 0xC2 0xDF (bz b) = true →
  (128 ≤ Z.lor (Z.shiftl (Z.land (bz b) 0x1F) 6) (Z.land (bz b1) 0x3F))%Z.
Proof. intros Hb. apply lor_ge_128; auto. left. by byte_bits 31%Z 6%Z 0xC2%Z 0xDF%Z. Qed.

Lemma rune3_high b b1 b2 :
  in_range 0xE0 0xEF (bz b) = true →
  in_range (if (bz b =? 0xE0)%Z then 0xA0%Z else 0x80%Z)
           (if (bz b =? 0xED)%Z then 0x9F%Z else 0xBF%Z) (bz b1) = true →
  (128 ≤ Z.lor (Z.shiftl (Z.land (bz b) 0x0F) 12)
           (Z.lor (Z.shiftl (Z.land (bz b1) 0x3F) 6) (Z.land (bz b2) 0x3F)))%Z.
Proof.
  intros Hb Hb1. apply lor_ge_128; auto. destruct (Z.eqb_spec (bz b) 0xE0) as [Eq|Ne].
  - right. apply lor_ge_128; auto. left. rewrite Eq in Hb1. simpl in Hb1.
    by byte_bits 63%Z 6%Z 0xA0%Z 0xBF%Z.
  - left. apply in_range_succ in Hb; [|done]. by byte_bits 15%Z 12%Z 0xE1%Z 0xEF%Z.
Qed.

Lemma rune4_high b b1 b2 b3 :
  in_range 0xF0 0xF4 (bz b) = true →
  in_range (if (bz b =? 0xF0)%Z then 0x90%Z else 0x80%Z)
           (if (bz b =? 0xF4)%Z then 0x8F%Z else 0xBF%Z) (bz b1) = true →
  (128 ≤ Z.lor (Z.shiftl (Z.land (bz b) 0x07) 18)
           (Z.lor (Z.shiftl (Z.land (bz b1) 0x3F) 12)
              (Z.lor (Z.shiftl (Z.land (bz b2) 0x3F) 6) (Z.land (bz b3) 0x3F))))%Z.
Proof.
  intros Hb Hb1. apply lor_ge_128; auto. destruct (Z.eqb_spec (bz b) 0xF0) as [Eq|Ne].
  - right. apply lor_ge_128; auto. left. rewrite Eq in Hb1. simpl in Hb1.
    by byte_bits 63%Z 12%Z 0x90%Z 0xBF%Z.
  - left. apply in_range_succ in Hb; [|done]. by byte_bits 7%Z 18%Z 0xF1%Z 0xF4%Z.
Qed.

(** A byte outside ASCII never starts an ASCII rune. *)
Lemma DecodeRune_high b s : (128 ≤ bz b)%Z → (128 ≤ (DecodeRune (b :: s)).1)%Z.
Proof.
  intros Hb. unfold DecodeRune. rewrite (proj2 (Z.ltb_ge _ _)) by lia.
  destruct (in_range 0xC2 0xDF (bz b)) eqn:E2.
  { destruct s as [|b1 s]; [done|]. destruct (is_cont b1); [|done]. by apply rune2_high. }
  destruct (in_range 0xE0 0xEF (bz b)) eqn:E3.
  { destruct s as [|b1 [|b2 s]]; [done..|]. cbv zeta.
    destruct (in_range _ _ (bz b1)) eqn:E; [|done]. destruct (is_cont b2); [|done].
    by apply rune3_high. }
  destruct (in_range 0xF0 0xF4 (bz b)) eqn:E4; [|done].
  destruct s as [|b1 [|b2 [|b3 s]]]; [done..|]. cbv zeta.
  destruct (in_range _ _ (bz b1)) eqn:E; [|done].
  destruct (is_cont b2); [|done]. destruct (is_cont b3); [|done]. by apply rune4_high.
Qed.

Definition safe_rune (r : Z) : bool :=
  ((97 <=? r) && (r <=? 122))%Z || ((48 <=? r) && (r <=? 57))%Z || (r =? 95)%Z.

Lemma runes_safe f s :
  length s ≤ f → forallb safe_rune (runes_fuel f s) = forallb safe_byte s.
Proof.
  revert s. induction f as [|f IH]; intros [|b s] Hf; try done; cbn [length] in Hf; [lia|].
  cbn [runes_fuel forallb]. destruct (Z.ltb_spec (bz b) 128) as [Hb|Hb].
  - rewrite (DecodeRune_ascii b s) by done. simpl. rewrite drop_0, IH by lia. done.
  - pose proof (DecodeRune_high b s Hb) as Hr. destruct (DecodeRune (b :: s)) as [r w]. simpl in *.
    assert (safe_rune r = false) as -> by (unfold safe_rune; repeat case_match; lia).
    assert (safe_byte b = false) as -> by (unfold safe_byte, in_range; lia). done.
Qed.

Lemma isSafeRoleName_bytes s :
  isSafeRoleName s = true ↔ 1 ≤ length s ≤ 63 ∧ forallb safe_byte s = true.
Proof.
  unfold isSafeRoleName, runes. fold safe_rune.
  change (fun r => ((97 <=? r) && (r <=? 122))%Z || ((48 <=? r) && (r <=? 57))%Z || (r =? 95)%Z)
    with safe_rune. rewrite runes_safe by done.
  destruct s as [|b s]; [simpl; split; [done|lia]|]. unfold str_eqb.
  rewrite bool_decide_false by done. cbn [orb].
  destruct (Z.ltb_spec 63 (Z.of_nat (length (b :: s)))) as [Hl|Hl]; cbn [length] in *.
  - split; [done|lia].
  - split; [intros Hx; split; [lia|exact Hx]|by intros [_ ?]].
Qed.

Lemma safe_no_quote s : forallb safe_byte s = true → dq ∉ s.
Proof.
  intros Hs Hin%list_elem_of_In. rewrite forallb_forall in Hs. by specialize (Hs _ Hin).
Qed.

(** ** The statements mean what they say *)

(** The characters of a safe identifier need no escape. *)
Lemma safe_plain `{UnicodeTables} s : forallb safe_byte s = true → Quote s = dq :: s ++ [dq] ∧ dq ∉ s.
Proof.
  intros Hs. split; [|by apply safe_no_quote]. apply Quote_plain. rewrite forallb_forall in Hs.
  apply List.Forall_forall. intros b Hb%Hs. revert b Hb.
  assert (∀ b, implb (safe_byte b) (quote_plain b) = true) as Hall by (by apply byte_forall; vm_compute).
  intros b Hb. specialize (Hall b). by rewrite Hb in Hall.
Qed.

Lemma Itoa_no_quote z : x27 ∉ Itoa z.
Proof.
  assert (∀ z, (0 ≤ z)%Z → x27 ∉ Itoa z) as Hp.
  { intros y (_ & Hd & _)%Itoa_nonneg Hin%list_elem_of_In. rewrite forallb_forall in Hd. by specialize (Hd _ Hin). }
  destruct (Z.ltb_spec z 0); [|by apply Hp]. rewrite Itoa_neg by done. apply not_elem_of_cons. split; [done|]. apply Hp. lia.
Qed.

Lemma lex_role_sql role : dq ∉ role →
  lex (role_sql role) = Some [TWord (bs "SET"); TWord (bs "LOCAL"); TWord (bs "ROLE"); TIdent role].
Proof.
  intros Hr. unfold role_sql.
  change (bs "SET LOCAL ROLE " ++ [dq] ++ role ++ [dq]) with ((bs "SET LOCAL ROLE" ++ [x20]) ++ dq :: role ++ dq :: []).
  by rewrite (lex_piece_ident (bs "SET LOCAL ROLE") x20 role [] [TWord (bs "SET"); TWord (bs "LOCAL"); TWord (bs "ROLE")]).
Qed.

Lemma role_changes {V} (does : bytes → list (arg V) → list change) role args : dq ∉ role →
  changes does (role_sql role) args = [{| ch_local := true; ch_name := role_name; ch_value := role_value role |}].
Proof. intros Hr. unfold changes. by rewrite lex_role_sql. Qed.

(** C23: A role name is safe exactly when it is 1 to 63 bytes of lower-case
    ASCII letters, digits and underscores, multi-byte and invalid UTF-8 included
    in what is refused. The tokens of the statement built from a safe name are SET
    LOCAL ROLE and that name as one identifier, and Postgres reads them as setting
    exactly that role for the transaction, and nothing else, whatever other
    statements may do; the one exception is the safe name none, which is read as
    setting no role, so that the role that logged in stays in effect. *)
Theorem isSafeRoleName_spec s :
  (isSafeRoleName s = true ↔
   1 ≤ length s ≤ 63 ∧ Forall (fun b => in_range 97 122 (bz b) = true ∨ in_range 48 57 (bz b) = true ∨
                                        b = "_"%byte) s) ∧
  (isSafeRoleName s = true →
   lex (role_sql s) = Some [TWord (bs "SET"); TWord (bs "LOCAL"); TWord (bs "ROLE"); TIdent s] ∧
   ∀ V (does : bytes → list (arg V) → list change),
     changes does (role_sql s) [] =
       [{| ch_local := true; ch_name := bs "role"; ch_value := if decide (s = bs "none") then None else Some s |}]).
Proof.
  rewrite isSafeRoleName_bytes. split.
  - apply and_iff_compat_l. rewrite forallb_forall, List.Forall_forall.
    apply forall_proper. intros b. apply forall_proper. intros _. unfold safe_byte.
    rewrite !orb_true_iff, Z.eqb_eq. change 95%Z with (bz "_"). split.
    + intros [[?|?]|?%bz_inj]; auto.
    + intros [?|[?| ->]]; auto.
  - intros [_ Hs%safe_no_quote]. split; [by apply lex_role_sql|]. intros V does. rewrite role_changes by done.
    unfold role_value, str_eqb. by case_bool_decide; destruct (decide _).
Qed.

Section Timeouts.
Context `{UnicodeTables}.

Lemma read_ms_Itoa z : in_int64 z → read_ms (Itoa z ++ bs "ms") = Some z.
Proof.
  intros Hz. unfold read_ms. rewrite length_app.
  replace (length (Itoa z) + length (bs "ms") - 2)%nat with (length (Itoa z)) by (simpl; lia).
  rewrite drop_app_length, str_eqb_refl, take_app_length. by apply Atoi_Itoa.
Qed.

Lemma ms_no_quote z : x27 ∉ Itoa z ++ bs "ms".
Proof. rewrite elem_of_app. intros [Hz|Hz]; [by apply Itoa_no_quote in Hz|]. set_solver. Qed.

(** A timeout statement: [SET LOCAL name = '<n>ms']. *)
Lemma timeout_changes {V} (does : bytes → list (arg V) → list change) p name z :
  lex (p ++ [x20]) = Some [TWord (bs "SET"); TWord (bs "LOCAL"); TWord name; TChar "="] →
  str_eqb (lower name) role_name = false →
  changes does (p ++ x20 :: x27 :: Itoa z ++ bs "ms'") [] =
    [{| ch_local := true; ch_name := lower name; ch_value := Some (Itoa z ++ bs "ms") |}].
Proof.
  intros Hp Hn. unfold changes.
  replace (p ++ x20 :: x27 :: Itoa z ++ bs "ms'") with ((p ++ [x20]) ++ x27 :: (Itoa z ++ bs "ms") ++ x27 :: [])
    by (by rewrite <- !app_assoc).
  rewrite (lex_app p x20 _ _ eq_refl Hp), lex_string_plain by (done || apply ms_no_quote).
  cbn [fmap option_fmap option_map lex lex_fuel length app].
  cbn -[lower role_name str_eqb Itoa bs]. unfold change_to. by rewrite Hn.
Qed.

Lemma stmt_changes {V} (does : bytes → list (arg V) → list change) d :
  changes does (stmt_timeout_sql d) [] =
    [{| ch_local := true; ch_name := stmt_setting; ch_value := Some (Itoa (Milliseconds d) ++ bs "ms") |}].
Proof.
  unfold stmt_timeout_sql, Sprintf. cbn [fmap list_fmap concat]. rewrite app_nil_r.
  by apply (timeout_changes does (bs "SET LOCAL statement_timeout =") (bs "statement_timeout") (Milliseconds d)).
Qed.

Lemma idle_changes {V} (does : bytes → list (arg V) → list change) d :
  changes does (idle_timeout_sql d) [] =
    [{| ch_local := true; ch_name := idle_setting; ch_value := Some (Itoa (Milliseconds d) ++ bs "ms") |}].
Proof.
  unfold idle_timeout_sql, Sprintf. cbn [fmap list_fmap concat]. rewrite app_nil_r.
  by apply (timeout_changes does (bs "SET LOCAL idle_in_transaction_session_timeout =")
              (bs "idle_in_transaction_session_timeout") (Milliseconds d)).
Qed.

Lemma Milliseconds_int64 d : in_int64 d → in_int64 (Milliseconds d).
Proof. unfold in_int64, min_int64, max_int64, Milliseconds. intros. dlia. Qed.
End Timeouts.

(** ** Setup as a sequence of commands *)

Section SetupFacts.
Context `{UnicodeTables} {V S : Type}.
Variable srv : PgServer V S.

Definition setup_cmds (workspaceID pgRole : bytes) (stmtTimeout idleTimeout : Z) : list (cmd V) :=
  [CExec (stmt_timeout_sql stmtTimeout) []; CExec (idle_timeout_sql idleTimeout) [];
   CExec workspace_sql [AStr workspaceID]; CExec (role_sql pgRole) []; CExec search_path_sql []].

(** A computation that sends a prefix of [cmds], and all of them when it succeeds. *)
Definition sends {A} (x : X (V := V) (S := S) A) (cmds : list (cmd V)) : Prop :=
  ∀ c c' r, x c = (c', r) →
    ∃ n, cn_log c' = cn_log c ++ take n cmds ∧ (∀ a, r = Ok a → length cmds ≤ n).

Lemma sends_ret {A} (a : A) : sends (xret a) [].
Proof. intros c c' r [= <- <-]. exists 0. simpl. rewrite app_nil_r. split; [done|lia]. Qed.

Lemma sends_fail {A} e cmds : sends (@xfail V S A e) cmds.
Proof. intros c c' r [= <- <-]. exists 0. simpl. by rewrite app_nil_r. Qed.

Lemma sends_send m : sends (send srv m) [m].
Proof.
  intros c c' r Hx. unfold send in Hx. destruct (srv_exec _ _ _). simplify_eq.
  exists 1. split; [done|simpl; lia].
Qed.

Lemma sends_query sql args : sends (send_query srv sql args) [CQuery sql args].
Proof.
  intros c c' r Hx. unfold send_query in Hx. destruct (srv_query _ _ _ _). simplify_eq.
  exists 1. split; [done|simpl; lia].
Qed.

Lemma sends_map_err {A} f (x : X A) cmds : sends x cmds → sends (xmap_err f x) cmds.
Proof.
  intros Hs c c' r Hx. unfold xmap_err in Hx. destruct (x c) as [c1 r1] eqn:E. simplify_eq.
  destruct (Hs _ _ _ E) as (n & Hl & Hn). exists n. split; [done|].
  destruct r1 as [x1|e1]; simpl; [|done]. intros a _. by apply (Hn x1).
Qed.

Lemma sends_bind {A B} (x : X A) (k : A → X B) m cmds :
  sends x [m] → (∀ a, sends (k a) cmds) → sends (xbind x k) (m :: cmds).
Proof.
  intros Hs Hk c c' r Hx. unfold xbind in Hx. destruct (x c) as [c1 [a|e]] eqn:E.
  - destruct (Hs _ _ _ E) as (n & Hl & Hn). specialize (Hn a eq_refl). simpl in Hn.
    destruct (Hk a _ _ _ Hx) as (n' & Hl' & Hn'). exists (Datatypes.S n').
    rewrite Hl', Hl, <- app_assoc. destruct n; [lia|]. simpl. rewrite take_nil.
    split; [done|]. intros b Hb. specialize (Hn' b Hb). lia.
  - simplify_eq. destruct (Hs _ _ _ E) as (n & Hl & _). 
    destruct n as [|n]; [by exists 0|exists 1]. rewrite Hl. simpl. by rewrite take_nil.
Qed.

Lemma Setup_sends ws role st idle : sends (Setup srv ws role st idle) (setup_cmds ws role st idle).
Proof.
  unfold Setup. destruct (str_eqb ws []); [apply sends_fail|].
  destruct (str_eqb role []); [apply sends_fail|].
  apply sends_bind; [apply sends_map_err, sends_send|intros _].
  apply sends_bind; [apply sends_map_err, sends_send|intros _].
  apply sends_bind; [apply sends_map_err, sends_send|intros _].
  destruct (isSafeRoleName role); [|apply sends_fail].
  apply sends_bind; [apply sends_map_err, sends_send|intros _].
  apply sends_bind; [apply sends_map_err, sends_send|intros _]. apply sends_ret.
Qed.

Lemma xbind_Ok {A B} (x : X A) (k : A → X B) (c c' : conn V S) b :
  xbind x k c = (c', Ok b) → ∃ c1 a, x c = (c1, Ok a) ∧ k a c1 = (c', Ok b).
Proof. unfold xbind. destruct (x c) as [c1 [a|e]]; naive_solver. Qed.

Lemma Setup_Ok ws role st idle c c' :
  Setup srv ws role st idle c = (c', Ok tt) →
  cn_log c' = cn_log c ++ setup_cmds ws role st idle ∧ ws ≠ [] ∧ isSafeRoleName role = true.
Proof.
  intros Hx. destruct (Setup_sends ws role st idle c c' (Ok tt) Hx) as (n & Hl & Hn).
  specialize (Hn tt eq_refl). rewrite take_ge in Hl by done. split; [done|].
  unfold Setup in Hx. destruct (str_eqb ws []) eqn:E1; [done|]. destruct (str_eqb role []); [done|].
  go_bool. split; [done|].
  do 3 (apply xbind_Ok in Hx as (? & ? & _ & Hx)). by destruct (isSafeRoleName role).
Qed.

(** The session once the statements have run in a transaction. *)
Definition tenant_session (ws role : bytes) (st idle : Z) : session :=
  {| se_tx := true; se_role := role_value role; se_workspace := Some ws; se_path := Some (bs "public");
     se_stmt_ms := Some (Milliseconds st); se_idle_ms := Some (Milliseconds idle) |}.

(** The settings then: all five are local to the transaction, and the session's
    are what they were. *)
Definition tenant_local (ws role : bytes) (st idle : Z) : gmap bytes (option bytes) :=
  <[path_setting := Some (bs "public")]> (<[role_name := role_value role]> (<[workspace_setting := Some ws]>
    (<[idle_setting := Some (Itoa (Milliseconds idle) ++ bs "ms")]>
      (<[stmt_setting := Some (Itoa (Milliseconds st) ++ bs "ms")]> ∅)))).

Lemma setup_settings does log ws role st idle :
  isSafeRoleName role = true →
  settings_of does (log ++ CBegin :: setup_cmds ws role st idle) =
  {| g_tx := true; g_session := g_session (settings_of does log); g_saved := g_session (settings_of does log);
     g_local := tenant_local ws role st idle |}.
Proof.
  intros [_ Hr%safe_no_quote]%isSafeRoleName_bytes. unfold settings_of. rewrite fold_left_app.
  generalize (fold_left (interp does) log connected). intros g.
  cbn [fold_left setup_cmds interp]. rewrite stmt_changes, idle_changes, role_changes by done.
  reflexivity.
Qed.

Lemma setup_session does log ws role st idle :
  in_int64 st → in_int64 idle → isSafeRoleName role = true →
  session_of does (log ++ CBegin :: setup_cmds ws role st idle) = tenant_session ws role st idle.
Proof.
  intros Hst Hidle Hr. unfold session_of. rewrite setup_settings by done. unfold view, effective, tenant_local. cbn [g_local g_tx].
  repeat (rewrite lookup_insert_eq || rewrite lookup_insert_ne by done).
  cbn [mbind option_bind]. rewrite !read_ms_Itoa by (by apply Milliseconds_int64). done.
Qed.

(** The connection once a transaction is closed, whatever was sent in it: nothing
    local is left, a rollback restores the session, and after a commit the
    session differs from before only in what was set for the session. *)
Definition released (before after : settings) (committed : bool) (chs : list change) : Prop :=
  g_tx after = false ∧ g_local after = ∅ ∧
  (committed = false → g_session after = g_session before) ∧
  ∀ name, g_session after !! name ≠ g_session before !! name → ∃ ch, ch ∈ chs ∧ ch_local ch = false ∧ ch_name ch = name.

Definition cmd_changes (does : bytes → list (arg V) → list change) (m : cmd V) : list change :=
  match m with CExec sql args | CQuery sql args => changes does sql args | _ => [] end.

(** Statements inside a transaction, the closing command not among them. *)
Definition is_stmt (m : cmd V) : Prop := match m with CExec _ _ | CQuery _ _ => True | _ => False end.

Lemma fold_stmts does ms : ∀ g, Forall is_stmt ms →
  fold_left (interp does) ms g = fold_left apply_change (ms ≫= cmd_changes does) g.
Proof.
  induction ms as [|m ms IH]; intros g Hm; [done|]. apply Forall_cons_1 in Hm as [Hm Hms].
  cbn [fold_left mbind list_bind]. rewrite fold_left_app. rewrite IH by done. by destruct m.
Qed.

Lemma tx_released does log ms (committed : bool) :
  Forall is_stmt ms →
  released (settings_of does log) (settings_of does (log ++ CBegin :: ms ++ [if committed then CCommit else CRollback]))
    committed (ms ≫= cmd_changes does).
Proof.
  intros Hm. unfold settings_of. rewrite fold_left_app. generalize (fold_left (interp does) log connected). intros g.
  cbn [fold_left]. rewrite fold_left_app, (fold_stmts does ms) by done.
  destruct (apply_changes (ms ≫= cmd_changes does) (interp does g CBegin)) as (Ht & Hs & Hn).
  destruct committed; cbn [fold_left interp] in *; [by repeat split|].
  rewrite Ht. cbn [g_tx]. rewrite Hs. by repeat split.
Qed.

Lemma setup_stmts ws role st idle n : Forall is_stmt (take n (setup_cmds ws role st idle)).
Proof. apply Forall_take. by repeat constructor. Qed.

Lemma setup_local does ws role st idle : isSafeRoleName role = true →
  Forall (fun ch => ch_local ch = true) (setup_cmds ws role st idle ≫= cmd_changes does).
Proof.
  intros [_ Hr%safe_no_quote]%isSafeRoleName_bytes. cbn [mbind list_bind setup_cmds cmd_changes].
  rewrite stmt_changes, idle_changes, role_changes by done. by repeat constructor.
Qed.
End SetupFacts.

(** The role name none passes the check, is not a role, and makes the gateway run
    the tenant's statement as its own login role. *)
Theorem none_role_is_login `{UnicodeTables} {V} (does : bytes → list (arg V) → list change) log ws st idle :
  isSafeRoleName (bs "none") = true ∧
  effective (settings_of does (log ++ CBegin :: setup_cmds ws (bs "none") st idle)) role_name = None.
Proof. split; [done|]. by rewrite setup_settings. Qed.
