(* ===== verification/SqlValidator.v ===== *)
(** * internal/sql/validator.go: static checks on a statement

    Postgres' own parser and scanner (pg_query_go) are parameters; the checks,
    their order, the classification of the parsed node and the placeholder count
    are translated. *)

From S2P Require Import Prelude GoStrings GoErrors.

(** ** The parts of pg_query the validator looks at *)

(** The [oneof] of a parsed statement: the cases the source names, with the
    length of a RETURNING list where it reads one. *)
Inductive pg_node : Type :=
| Node_SelectStmt
| Node_InsertStmt (returning : nat)
| Node_UpdateStmt (returning : nat)
| Node_DeleteStmt (returning : nat)
| Node_CreateStmt
| Node_CreateRoleStmt
| Node_CreatedbStmt
| Node_DropStmt
| Node_AlterTableStmt
| Node_AlterRoleStmt
| Node_GrantStmt
| Node_GrantRoleStmt
| Node_VacuumStmt
| Node_ExplainStmt
| Node_TruncateStmt
| Node_CopyStmt
| Node_TransactionStmt
| Node_IndexStmt
| Node_ViewStmt
| Node_CreateExtensionStmt
| Node_RenameStmt
| Node_VariableSetStmt
| Node_VariableShowStmt
| Node_other.

#[export] Instance pg_node_eq_dec : EqDecision pg_node.
Proof. solve_decision. Defined.

(** A token of the scanner: byte offsets into the statement (int32). *)
Record scan_token : Type := { tok_Start : Z; tok_End : Z }.

(** [pg_query.Parse] and [pg_query.Scan]; a nil tree or a nil node is [None]. *)
Class PgQuery : Type := {
  pgq_Parse : bytes → res error (option (list (option pg_node)));
  pgq_Scan : bytes → res error (list scan_token);
}.

(** ** Configuration and results *)

Record ValidatorConfig : Type := { vcfg_MaxStatementBytes : Z; vcfg_MaxStatementParams : Z }.

Definition NewValidator (cfg : ValidatorConfig) : ValidatorConfig :=
  {| vcfg_MaxStatementBytes :=
       if (vcfg_MaxStatementBytes cfg <=? 0)%Z then (256 * 1024)%Z else vcfg_MaxStatementBytes cfg;
     vcfg_MaxStatementParams :=
       if (vcfg_MaxStatementParams cfg <=? 0)%Z then 1000%Z else vcfg_MaxStatementParams cfg |}.

Record Result : Type := {
  r_Command : bytes;
  r_IsSelect : bool;
  r_HasReturning : bool;
  r_PlaceholderCount : Z;
}.

Definition classify (node : option pg_node) : bytes :=
  match node with
  | None => bs "UNKNOWN"
  | Some n =>
      match n with
      | Node_SelectStmt => bs "SELECT"
      | Node_InsertStmt _ => bs "INSERT"
      | Node_UpdateStmt _ => bs "UPDATE"
      | Node_DeleteStmt _ => bs "DELETE"
      | Node_CreateStmt => bs "CREATE TABLE"
      | Node_CreateRoleStmt => bs "CREATE ROLE"
      | Node_CreatedbStmt => bs "CREATE DATABASE"
      | Node_DropStmt => bs "DROP"
      | Node_AlterTableStmt => bs "ALTER TABLE"
      | Node_AlterRoleStmt => bs "ALTER ROLE"
      | Node_GrantStmt => bs "GRANT"
      | Node_GrantRoleStmt => bs "GRANT ROLE"
      | Node_VacuumStmt => bs "VACUUM"
      | Node_ExplainStmt => bs "EXPLAIN"
      | Node_TruncateStmt => bs "TRUNCATE"
      | Node_CopyStmt => bs "COPY"
      | Node_TransactionStmt => bs "TRANSACTION"
      | Node_IndexStmt => bs "CREATE INDEX"
      | Node_ViewStmt => bs "CREATE VIEW"
      | Node_CreateExtensionStmt => bs "CREATE EXTENSION"
      | Node_RenameStmt => bs "RENAME"
      | Node_VariableSetStmt => bs "SET"
      | Node_VariableShowStmt => bs "SHOW"
      | Node_other => bs "OTHER"
      end
  end.

Definition returningPresent (node : option pg_node) : bool :=
  match node with
  | Some (Node_InsertStmt n) | Some (Node_UpdateStmt n) | Some (Node_DeleteStmt n) => (0 <? n)%nat
  | _ => false
  end.

(** ** Placeholders *)

(** The loop body: the number of the token if it is a placeholder. *)
Definition placeholder_num (sqlText : bytes) (tok : scan_token) : option Z :=
  let start := tok_Start tok in
  let end_ := tok_End tok in
  if (start <? 0)%Z || (Z.of_nat (length sqlText) <? end_)%Z || (end_ <=? start)%Z then None else
  let text := take (Z.to_nat (end_ - start)) (drop (Z.to_nat start) sqlText) in
  if (length text <? 2)%nat || negb (bool_decide (text !! 0 = Some "$"%byte)) then None else
  Atoi (drop 1 text).

Section Validator.
Context `{UnicodeTables, PgQuery}.

Definition countPlaceholders (sqlText : bytes) : res error Z :=
  let! tokens := pgq_Scan sqlText in
  Ok (fold_left (fun max tok =>
        match placeholder_num sqlText tok with
        | None => max
        | Some n => if (max <? n)%Z then n else max
        end) tokens 0%Z).

(** [Validate(sqlText, params)] of a validator with configuration [cfg]; only
    the number of parameters matters. *)
Definition Validate (cfg : ValidatorConfig) (sqlText : bytes) (nparams : nat) : res error Result :=
  let n := Z.of_nat nparams in
  if str_eqb sqlText [] then Err (ValidationError (bs "empty_statement") (bs "sql is empty")) else
  if (vcfg_MaxStatementBytes cfg <? Z.of_nat (length sqlText))%Z then
    Err (ValidationError (bs "statement_too_large")
           (Sprintf [FLit (bs "statement is "); FInt (Z.of_nat (length sqlText)); FLit (bs " bytes (max ");
                     FInt (vcfg_MaxStatementBytes cfg); FLit (bs ")")]))
  else if (vcfg_MaxStatementParams cfg <? n)%Z then
    Err (ValidationError (bs "too_many_params")
           (Sprintf [FLit (bs "got "); FInt n; FLit (bs " params (max ");
                     FInt (vcfg_MaxStatementParams cfg); FLit (bs ")")]))
  else
  match pgq_Parse sqlText with
  | Err e => Err (ValidationError (bs "parse_error") (ErrorText e))
  | Ok None | Ok (Some []) => Err (ValidationError (bs "empty_statement") (bs "no statement found"))
  | Ok (Some (stmt :: rest)) =>
      if negb (length (stmt :: rest) =? 1)%nat then
        Err (ValidationError (bs "multiple_statements")
               (Sprintf [FLit (bs "expected 1 statement, got "); FInt (Z.of_nat (length (stmt :: rest)));
                         FLit (bs " (use one POST per statement)")]))
      else
        let cmd := classify stmt in
        let isSelect := str_eqb cmd (bs "SELECT") in
        let hasReturning := returningPresent stmt in
        match countPlaceholders sqlText with
        | Err e => Err (ValidationError (bs "parse_error") (ErrorText e))
        | Ok placeholders =>
            if negb (placeholders =? n)%Z then
              Err (ValidationError (bs "params_mismatch")
                     (Sprintf [FLit (bs "statement has "); FInt placeholders;
                               FLit (bs " $N placeholders but "); FInt n;
                               FLit (bs " params were supplied")]))
            else Ok {| r_Command := cmd; r_IsSelect := isSelect; r_HasReturning := hasReturning;
                       r_PlaceholderCount := placeholders |}
        end
  end.

(** ** Facts *)

Lemma count_max sqlText tokens m0 :
  let m := fold_left (fun max tok => match placeholder_num sqlText tok with
                                     | None => max
                                     | Some n => if (max <? n)%Z then n else max
                                     end) tokens m0 in
  (m0 ≤ m)%Z ∧ (∀ tok n, In tok tokens → placeholder_num sqlText tok = Some n → (n ≤ m)%Z) ∧
  (m = m0 ∨ ∃ tok, In tok tokens ∧ placeholder_num sqlText tok = Some m).
Proof.
  revert m0. induction tokens as [|t ts IH]; intros m0; simpl; [split; [lia|]; split; [done|by left]|].
  set (m1 := match placeholder_num sqlText t with
             | None => m0 | Some n => if (m0 <? n)%Z then n else m0 end).
  assert ((m0 ≤ m1)%Z ∧ (∀ n, placeholder_num sqlText t = Some n → (n ≤ m1)%Z) ∧
          (m1 = m0 ∨ placeholder_num sqlText t = Some m1)) as (H1 & H2 & H3).
  { unfold m1. destruct (placeholder_num sqlText t) as [n|]; [|split; [lia|]; split; [done|by left]].
    destruct (Z.ltb_spec m0 n); (split; [lia|]); split; [naive_solver lia|by right|naive_solver lia|by left]. }
  destruct (IH m1) as (I1 & I2 & I3). split; [lia|]. split.
  - intros tok n [<-|Hin] Hn; [specialize (H2 _ Hn); lia|by eapply I2].
  - destruct I3 as [-> |(tok & ? & ?)]; [|right; eauto].
    destruct H3 as [-> |H3]; [by left|right; eauto].
Qed.








(** In an accepted statement every placeholder token [$k] of Postgres'
    scanner has a parameter, and a non-empty parameter list is used up to its
    last element. *)
Theorem Validate_placeholders cfg sqlText nparams r tokens :
  Validate cfg sqlText nparams = Ok r → pgq_Scan sqlText = Ok tokens →
  (∀ tok k, In tok tokens → placeholder_num sqlText tok = Some k → (k ≤ Z.of_nat nparams)%Z) ∧
  (nparams ≠ 0%nat → ∃ tok, In tok tokens ∧ placeholder_num sqlText tok = Some (Z.of_nat nparams)).
Proof.
  intros Hv Hs. assert (countPlaceholders sqlText = Ok (Z.of_nat nparams)) as Hc.
  { unfold Validate in Hv. repeat (case_match; try done). simplify_eq. go_bool. by subst. }
  unfold countPlaceholders in Hc. rewrite Hs in Hc. simpl in Hc. injection Hc as Hc.
  destruct (count_max sqlText tokens 0) as (_ & H2 & H3). rewrite Hc in H2, H3.
  split; [done|]. intros Hn. destruct H3; [lia|done].
Qed.

(** Every rejection of the validator is a [ValidationError] with one of its
    six documented codes. *)
Theorem Validate_rejects cfg sqlText nparams e :
  Validate cfg sqlText nparams = Err e →
  ∃ code msg, e = ValidationError code msg ∧
    code ∈ [bs "empty_statement"; bs "statement_too_large"; bs "too_many_params"; bs "parse_error";
            bs "multiple_statements"; bs "params_mismatch"].
Proof.
  unfold Validate. intros Hx.
  repeat (go_case_in Hx; simplify_eq/=; try (do 2 eexists; split; [reflexivity|]); 
    try (apply (bool_decide_unpack _); by vm_compute)).
Qed.
End Validator.

(** ** A concrete parser *)

Module ValidatorDemo.
(** A parser that knows one statement, with its tokens. *)
Definition select2 : bytes := bs "SELECT $2".

Definition parser : PgQuery := {|
  pgq_Parse s := if str_eqb s select2 then Ok (Some [Some Node_SelectStmt])
                 else Err (errors_New (bs "syntax error"));
  pgq_Scan s := Ok [{| tok_Start := 0; tok_End := 6 |}; {| tok_Start := 7; tok_End := 9 |}];
|}.

Definition unicode : UnicodeTables := {| is_print_high := fun _ => true |}.
Definition cfg : ValidatorConfig := NewValidator {| vcfg_MaxStatementBytes := 0; vcfg_MaxStatementParams := 0 |}.
End ValidatorDemo.

#[local] Existing Instance ValidatorDemo.parser.
#[local] Existing Instance ValidatorDemo.unicode.

Lemma Validate_placeholders_witness :
  ∃ tok, In tok [{| tok_Start := 0; tok_End := 6 |}; {| tok_Start := 7; tok_End := 9 |}] ∧
         placeholder_num ValidatorDemo.select2 tok = Some 2%Z.
Proof.
  destruct (Validate_placeholders ValidatorDemo.cfg ValidatorDemo.select2 2
    {| r_Command := bs "SELECT"; r_IsSelect := true; r_HasReturning := false; r_PlaceholderCount := 2 |}
    [{| tok_Start := 0; tok_End := 6 |}; {| tok_Start := 7; tok_End := 9 |}]) as [_ Hx];
    [by vm_compute|reflexivity|].
  by apply Hx.
Defined.

Lemma Validate_rejects_witness :
  ∃ e code msg, Validate ValidatorDemo.cfg ValidatorDemo.select2 1 = Err e ∧ e = ValidationError code msg ∧
    code ∈ [bs "empty_statement"; bs "statement_too_large"; bs "too_many_params"; bs "parse_error";
            bs "multiple_statements"; bs "params_mismatch"].
Proof.
  destruct (Validate ValidatorDemo.cfg ValidatorDemo.select2 1) as [r|e] eqn:E;
    [vm_compute in E; discriminate E|].
  destruct (Validate_rejects ValidatorDemo.cfg ValidatorDemo.select2 1 e E) as (code & msg & He & Hc).
  exists e, code, msg. split; [reflexivity|]. split; [exact He|exact Hc].
Defined.
