(* ===== verification/SqlExecutor.v ===== *)
(** * internal/sql/executor.go: running a validated statement

    One request transaction: begin, tenant setup, the user's statement, commit,
    with a deferred rollback on every other path. The server is any [PgServer];
    encoding a row as JSON, done only to measure it, is a parameter. *)

From S2P Require Import Prelude GoStrings GoErrors SqlValidator Tenant.

Record ExecutorConfig : Type := {
  ec_StatementTimeout : Z;
  ec_IdleInTxTimeout : Z;
  ec_MaxResponseBytes : Z;
}.

Definition second : Z := 1000000000.

Definition NewExecutor (cfg : ExecutorConfig) : ExecutorConfig :=
  {| ec_StatementTimeout :=
       if (ec_StatementTimeout cfg <=? 0)%Z then (5 * second)%Z else ec_StatementTimeout cfg;
     ec_IdleInTxTimeout :=
       if (ec_IdleInTxTimeout cfg <=? 0)%Z then (5 * second)%Z else ec_IdleInTxTimeout cfg;
     ec_MaxResponseBytes := ec_MaxResponseBytes cfg |}.

Definition classifyPgErr (e : error) : error :=
  match As_PgError e with
  | Some pg => SqlError pg
  | None => e
  end.

Section Executor.
Context `{UnicodeTables} {V S : Type}.
Variable srv : PgServer V S.
(** [json.Marshal(values)], empty when it fails *)
Variable marshal_row : list V → bytes.

Record Response : Type := {
  rp_Command : bytes;
  rp_Columns : list bytes;
  rp_Rows : list (list V);
  rp_RowsAffected : Z;
  rp_DurationMS : Z;
}.

Record ExecuteInput : Type := {
  ei_WorkspaceID : bytes;
  ei_PgRole : bytes;
  ei_SQL : bytes;
  ei_Params : list V;
  ei_Result : option Result;
}.

(** [for rows.Next()]: [approx] is [approxBytes], an int64. *)
Fixpoint read_rows (maxBytes approx : Z) (acc : list (list V)) (rows : list (res error (list V)))
  : res error (list (list V)) :=
  match rows with
  | [] => Ok acc
  | Err e :: _ => Err (classifyPgErr e)
  | Ok values :: rest =>
      if (0 <? maxBytes)%Z then
        let approx := wrap64 (approx + wrap64 (Z.of_nat (length (marshal_row values)) + 1)) in
        if (maxBytes <? approx)%Z then Err ErrResponseTooLarge
        else read_rows maxBytes approx (acc ++ [values]) rest
      else read_rows maxBytes approx (acc ++ [values]) rest
  end.

Definition user_args (params : list V) : list (arg V) := AVal <$> params.

(** From [tenant.Setup] to the point before [tx.Commit]; the duration is set later. *)
Definition execute_body (cfg : ExecutorConfig) (ein : ExecuteInput) (r : Result) : X Response :=
  let+ _ := xmap_err (wrapf (bs "tenant setup: "))
              (Setup srv (ei_WorkspaceID ein) (ei_PgRole ein) (ec_StatementTimeout cfg)
                 (ec_IdleInTxTimeout cfg)) in
  if r_IsSelect r || r_HasReturning r then
    let+ rows := xmap_err classifyPgErr (send_query srv (ei_SQL ein) (user_args (ei_Params ein))) in
    match read_rows (ec_MaxResponseBytes cfg) 0 [] (rs_rows rows) with
    | Err e => xfail e
    | Ok out =>
        match rs_err rows with
        | Some e => xfail (classifyPgErr e)
        | None => xret {| rp_Command := r_Command r; rp_Columns := rs_columns rows; rp_Rows := out;
                          rp_RowsAffected := Z.of_nat (length out); rp_DurationMS := 0 |}
        end
    end
  else
    let+ tag := xmap_err classifyPgErr (send srv (CExec (ei_SQL ein) (user_args (ei_Params ein)))) in
    xret {| rp_Command := r_Command r; rp_Columns := []; rp_Rows := []; rp_RowsAffected := tag;
            rp_DurationMS := 0 |}.

Definition set_duration (r : Response) (ms : Z) : Response :=
  {| rp_Command := rp_Command r; rp_Columns := rp_Columns r; rp_Rows := rp_Rows r;
     rp_RowsAffected := rp_RowsAffected r; rp_DurationMS := ms |}.

(** [Execute(in)]; [t0] and [t1] are the two readings of the clock. After an
    attempted commit the deferred [Rollback] finds the transaction closed and
    sends nothing. *)
Definition Execute (cfg : ExecutorConfig) (t0 t1 : Z) (ein : ExecuteInput) : X Response :=
  match ei_Result ein with
  | None => xfail (errors_New (bs "executor.Execute: nil validator result"))
  | Some r =>
      let+ _ := xmap_err (wrapf (bs "begin: ")) (send srv CBegin) in
      fun c =>
        match execute_body cfg ein r c with
        | (c, Err e) => ((send srv CRollback c).1, Err e)
        | (c, Ok resp) =>
            match send srv CCommit c with
            | (c, Err e) => (c, Err (classifyPgErr e))
            | (c, Ok _) => (c, Ok (set_duration resp (Milliseconds (t1 - t0))))
            end
        end
  end.

(** ** Traces *)

(** The user's statement as a command. *)
Definition user_cmd (ein : ExecuteInput) (r : Result) : cmd V :=
  if r_IsSelect r || r_HasReturning r then CQuery (ei_SQL ein) (user_args (ei_Params ein))
  else CExec (ei_SQL ein) (user_args (ei_Params ein)).

Definition setup_of (cfg : ExecutorConfig) (ein : ExecuteInput) : list (cmd V) :=
  setup_cmds (ei_WorkspaceID ein) (ei_PgRole ein) (ec_StatementTimeout cfg) (ec_IdleInTxTimeout cfg).

Lemma send_log m c : cn_log (send srv m c).1 = cn_log c ++ [m].
Proof. unfold send. by destruct (srv_exec _ _ _). Qed.

Lemma send_query_log sql args c : cn_log (send_query srv sql args c).1 = cn_log c ++ [CQuery sql args].
Proof. unfold send_query. by destruct (srv_query _ _ _ _). Qed.

(** What the body sent: part of the setup and an error, or the setup accepted by
    the server, then the user's statement once. *)
Lemma body_trace cfg ein r c c' res :
  execute_body cfg ein r c = (c', res) →
  (∃ n e, cn_log c' = cn_log c ++ take n (setup_of cfg ein) ∧ res = Err e) ∨
  (cn_log c' = cn_log c ++ setup_of cfg ein ++ [user_cmd ein r] ∧
   isSafeRoleName (ei_PgRole ein) = true ∧ ei_WorkspaceID ein ≠ []).
Proof.
  unfold execute_body. intros Hx. unfold xbind at 1, xmap_err at 1 in Hx.
  destruct (Setup srv _ _ _ _ c) as [c1 [[]|e]] eqn:Es; simpl in Hx.
  - right. apply Setup_Ok in Es as (Hl & Hws & Hr). rewrite app_assoc.
    split; [|done]. fold (setup_of cfg ein) in Hl. rewrite <- Hl. unfold user_cmd.
    destruct (r_IsSelect r || r_HasReturning r); unfold xbind, xmap_err in Hx.
    + rewrite <- (send_query_log (ei_SQL ein) (user_args (ei_Params ein)) c1).
      destruct (send_query srv _ _ c1) as [c2 [rows|e]]; simpl in Hx; [|by simplify_eq].
      destruct (read_rows _ _ _ _); [destruct (rs_err rows)|]; unfold xfail, xret in Hx; by simplify_eq.
    + rewrite <- (send_log (CExec (ei_SQL ein) (user_args (ei_Params ein))) c1).
      destruct (send srv _ c1) as [c2 [tag|e]]; simpl in Hx; unfold xret in Hx; by simplify_eq.
  - left. destruct (Setup_sends srv _ _ _ _ _ _ _ Es) as (n & Hl & _). simplify_eq.
    exists n, (wrapf (bs "tenant setup: ") e). by rewrite Hl.
Qed.

Definition closing (t : list (cmd V)) : Prop := t = [CCommit] ∨ t = [CRollback].

(** The possible traces of [Execute]. *)
Lemma Execute_trace cfg t0 t1 ein r c c' res :
  ei_Result ein = Some r → Execute cfg t0 t1 ein c = (c', res) →
  (cn_log c' = cn_log c ++ [CBegin] ∧ is_ok res = false) ∨
  (∃ n, cn_log c' = cn_log c ++ CBegin :: take n (setup_of cfg ein) ++ [CRollback] ∧ is_ok res = false) ∨
  (∃ fin, cn_log c' = cn_log c ++ CBegin :: setup_of cfg ein ++ user_cmd ein r :: fin ∧ closing fin ∧
     (is_ok res = true → fin = [CCommit]) ∧
     isSafeRoleName (ei_PgRole ein) = true ∧ ei_WorkspaceID ein ≠ []).
Proof.
  intros Hr Hx. unfold Execute in Hx. rewrite Hr in Hx. unfold xbind, xmap_err in Hx.
  pose proof (send_log CBegin c) as Hb.
  destruct (send srv CBegin c) as [c1 [z|e]]; simpl in Hx, Hb; [|left; by simplify_eq]. right.
  destruct (execute_body cfg ein r c1) as [c2 rb] eqn:Eb.
  destruct (body_trace _ _ _ _ _ _ Eb) as [(n & e & Hl & ->)|(Hl & Hs & Hw)].
  - left. exists n. simplify_eq. rewrite send_log, Hl, Hb, <- !app_assoc. done.
  - right. destruct rb as [resp|e].
    + pose proof (send_log CCommit c2) as Hc. exists [CCommit].
      destruct (send srv CCommit c2) as [c3 [z'|e]]; simpl in *; simplify_eq;
        rewrite Hc, Hl, Hb, <- !app_assoc; (split; [done|]; split; [by left|done]).
    + exists [CRollback]. simplify_eq. rewrite send_log, Hl, Hb, <- !app_assoc.
      split; [done|]. split; [by right|done].
Qed.

(** ** Sizes *)

Definition row_size (values : list V) : Z := Z.of_nat (length (marshal_row values)) + 1.

Definition rows_size (rows : list (list V)) : Z := foldr (fun v n => row_size v + n)%Z 0%Z rows.

Lemma rows_size_app a b : rows_size (a ++ b) = (rows_size a + rows_size b)%Z.
Proof. induction a as [|x a IH]; simpl; lia. Qed.

Lemma read_rows_Ok maxBytes rows acc out approx :
  (0 < maxBytes)%Z →
  (∀ v, Ok v ∈ rows → (maxBytes + row_size v ≤ max_int64)%Z) →
  approx = rows_size acc → (0 ≤ approx ≤ maxBytes)%Z →
  read_rows maxBytes approx acc rows = Ok out →
  ∃ vs, out = acc ++ vs ∧ rows = Ok <$> vs ∧ (rows_size out ≤ maxBytes)%Z.
Proof.
  intros Hm. revert acc approx. induction rows as [|[v|e] rows IH]; intros acc approx Hr Ha Hb Hx; simpl in Hx.
  - simplify_eq. exists []. rewrite app_nil_r. repeat split; lia.
  - rewrite (proj2 (Z.ltb_lt _ _) Hm) in Hx.
    assert (maxBytes + row_size v ≤ max_int64)%Z as Hv by (apply Hr; left).
    unfold row_size in Hv.
    rewrite (wrap64_id (Z.of_nat _ + 1)) in Hx by (unfold in_int64, min_int64 in *; lia).
    rewrite wrap64_id in Hx by (unfold in_int64, min_int64 in *; lia).
    destruct (Z.ltb_spec maxBytes (approx + (Z.of_nat (length (marshal_row v)) + 1))); [done|].
    assert (∀ u, Ok u ∈ rows → (maxBytes + row_size u ≤ max_int64)%Z) as Hr' by (intros; apply Hr; by right).
    assert (approx + (Z.of_nat (length (marshal_row v)) + 1) = rows_size (acc ++ [v]))%Z as Ha'
      by (rewrite rows_size_app; unfold rows_size at 2, row_size; simpl; lia).
    destruct (IH _ _ Hr' Ha' ltac:(lia) Hx) as (vs & -> & -> & Hs).
    exists (v :: vs). rewrite <- app_assoc in *. done.
  - done.
Qed.

Lemma user_changes does ein r :
  cmd_changes does (user_cmd ein r) = changes does (ei_SQL ein) (user_args (ei_Params ein)).
Proof. unfold user_cmd. by destruct (_ || _). Qed.

(** The connection after the statement: what the setup changed was local. *)
Lemma user_released does log cfg ein r (committed : bool) :
  isSafeRoleName (ei_PgRole ein) = true →
  released (settings_of does log)
    (settings_of does (log ++ CBegin :: setup_of cfg ein ++ user_cmd ein r :: [if committed then CCommit else CRollback]))
    committed (changes does (ei_SQL ein) (user_args (ei_Params ein))).
Proof.
  intros Hs. rewrite <- (user_changes does ein r).
  pose proof (tx_released does log (setup_of cfg ein ++ [user_cmd ein r]) committed) as Hr.
  rewrite <- (app_assoc (setup_of cfg ein)) in Hr. destruct Hr as (Ht & Hl & Hb & Hn).
  { apply Forall_app. split; [by repeat constructor|]. constructor; [|done]. unfold user_cmd. by destruct (_ || _). }
  repeat (split; [done|]). intros name Hne. destruct (Hn name Hne) as (ch & Hin & Hc & Hname).
  exists ch. split; [|done]. rewrite bind_app in Hin. apply elem_of_app in Hin as [Hin|Hin].
  - pose proof (setup_local does (ei_WorkspaceID ein) _ (ec_StatementTimeout cfg) (ec_IdleInTxTimeout cfg) Hs) as Hf.
    rewrite List.Forall_forall in Hf. apply list_elem_of_In in Hin. specialize (Hf ch Hin). congruence.
  - cbn [mbind list_bind] in Hin. by rewrite app_nil_r in Hin.
Qed.

(** C11: The user's statement only ever runs as the tenant. Whatever the server
    answers, [Execute] sends it at most once, inside the transaction it began,
    after the server has accepted the whole setup; at that point the session, as
    Postgres reads the statements sent, has the role and the workspace of the
    request, search_path public and both timeouts. Every transaction begun is
    closed by a commit or a rollback, and a failed setup or begin means the
    statement is never sent. Once it is closed, nothing local to the transaction
    is left on the connection; a rollback leaves the settings of the session as
    they were, and a commit changes only those the user's own statement set for
    the session. *)
Theorem Execute_isolated does cfg t0 t1 ein r c c' res :
  ei_Result ein = Some r → in_int64 (ec_StatementTimeout cfg) → in_int64 (ec_IdleInTxTimeout cfg) →
  Execute cfg t0 t1 ein c = (c', res) →
  let before := settings_of does (cn_log c) in
  let after := settings_of does (cn_log c') in
  (∃ n fin, cn_log c' = cn_log c ++ take n (CBegin :: setup_of cfg ein) ++ fin ∧ is_ok res = false ∧
     (fin = [] ∧ n = 1 ∨ fin = [CRollback] ∧ released before after false [])) ∨
  (∃ committed : bool,
     cn_log c' = (cn_log c ++ CBegin :: setup_of cfg ein) ++ user_cmd ein r :: [if committed then CCommit else CRollback] ∧
     (is_ok res = true → committed = true) ∧
     session_of does (cn_log c ++ CBegin :: setup_of cfg ein) =
       tenant_session (ei_WorkspaceID ein) (ei_PgRole ein)
         (ec_StatementTimeout cfg) (ec_IdleInTxTimeout cfg) ∧
     released before after committed (changes does (ei_SQL ein) (user_args (ei_Params ein)))).
Proof.
  intros Hr Hst Hid Hx. destruct (Execute_trace _ _ _ _ _ _ _ _ Hr Hx)
    as [(Hl & Ho)|[(n & Hl & Ho)|(fin & Hl & Hc & Hf & Hs & _)]]; cbv zeta.
  - left. exists 1, []. rewrite Hl. simpl. auto.
  - left. exists (Datatypes.S n), [CRollback]. rewrite Hl. split; [done|]. split; [done|]. right. split; [done|].
    destruct (tx_released does (cn_log c) (take n (setup_of cfg ein)) false) as (? & ? & Hb & _); [apply setup_stmts|].
    repeat (split; [done|]). intros name Hne. by rewrite Hb in Hne.
  - right. assert (∃ b : bool, fin = [if b then CCommit else CRollback]) as [b ->]
      by (destruct Hc as [-> | ->]; [by exists true|by exists false]).
    exists b. rewrite Hl, <- app_assoc. split; [done|]. split; [by destruct b; [|intros H1%Hf]|].
    split; [by apply setup_session|]. by apply user_released.
Qed.

(** A statement is reported as done only if the server acknowledged its
    commit: a response means the last command was a commit the server accepted,
    and an error before the commit means the transaction was rolled back. *)
Theorem Execute_commit cfg t0 t1 ein r c c' res :
  ei_Result ein = Some r → Execute cfg t0 t1 ein c = (c', res) →
  (∀ resp, res = Ok resp →
     ∃ c1 n, send srv CCommit c1 = (c', Ok n) ∧
       cn_log c1 = cn_log c ++ CBegin :: setup_of cfg ein ++ [user_cmd ein r]) ∧
  (∀ e, res = Err e →
     cn_log c' = cn_log c ++ [CBegin] ∨
     (∃ c1 e1, send srv CCommit c1 = (c', Err e1) ∧ e = classifyPgErr e1) ∨
     ∃ log, cn_log c' = log ++ [CRollback]).
Proof.
  intros Hr Hx. unfold Execute in Hx. rewrite Hr in Hx. unfold xbind, xmap_err in Hx.
  pose proof (send_log CBegin c) as Hb.
  destruct (send srv CBegin c) as [c1 [z|e]]; simpl in Hx, Hb; [|simplify_eq; naive_solver].
  destruct (execute_body cfg ein r c1) as [c2 rb] eqn:Eb.
  destruct (body_trace _ _ _ _ _ _ Eb) as [(n & e & Hl & ->)|(Hl & _)].
  - simplify_eq. split; [done|]. right. right. rewrite send_log. eauto.
  - destruct rb as [resp|e].
    + destruct (send srv CCommit c2) as [c3 [z'|e']] eqn:Ec; simplify_eq; split; try done.
      * intros _ _. exists c2, z'. split; [done|]. by rewrite Hl, Hb, <- app_assoc.
      * intros _ [= <-]. right. left. eauto.
    + simplify_eq. split; [done|]. right. right. rewrite send_log. eauto.
Qed.

(** C34: A response within a configured limit is complete and small: when
    [MaxResponseBytes] is positive, the rows of a successful query are all the
    rows the server sent, none of them failed to decode, and their JSON, with a
    separator each, takes at most [MaxResponseBytes] bytes. *)
Theorem Execute_bounded cfg t0 t1 ein r c c' resp :
  ei_Result ein = Some r → r_IsSelect r || r_HasReturning r = true →
  (0 < ec_MaxResponseBytes cfg)%Z →
  (∀ s sql args s' rs v, srv_query srv sql args s = (s', Ok rs) → Ok v ∈ rs_rows rs →
     (ec_MaxResponseBytes cfg + row_size v ≤ max_int64)%Z) →
  Execute cfg t0 t1 ein c = (c', Ok resp) →
  ∃ s s' rs, srv_query srv (ei_SQL ein) (user_args (ei_Params ein)) s = (s', Ok rs) ∧
    rs_rows rs = Ok <$> rp_Rows resp ∧ rp_Columns resp = rs_columns rs ∧ rs_err rs = None ∧
    rp_RowsAffected resp = Z.of_nat (length (rp_Rows resp)) ∧
    (rows_size (rp_Rows resp) ≤ ec_MaxResponseBytes cfg)%Z.
Proof.
  intros Hr Hq Hm Hsz Hx. unfold Execute in Hx. rewrite Hr in Hx.
  apply xbind_Ok in Hx as (c1 & z & _ & Hx).
  destruct (execute_body cfg ein r c1) as [c2 [rsp|e]] eqn:Eb; [|done].
  destruct (send srv CCommit c2) as [c3 [z'|e]]; simplify_eq/=.
  unfold execute_body in Eb. rewrite Hq in Eb. apply xbind_Ok in Eb as (c4 & _ & _ & Eb).
  apply xbind_Ok in Eb as (c5 & rs & Hqr & Eb). unfold xmap_err, send_query in Hqr.
  destruct (srv_query srv _ _ (cn_state c4)) as [s' [rs'|e]] eqn:Esq; simplify_eq/=.
  destruct (read_rows _ _ _ _) as [out|e] eqn:Err; [|done].
  destruct (rs_err rs) eqn:Ee; [done|]. unfold xret in Eb. simplify_eq/=.
  apply read_rows_Ok in Err as (vs & Ho & Hrows & Hs); [|done| |done|lia].
  - simpl in Ho. subst vs. by exists (cn_state c4), s', rs.
  - intros v Hv. by eapply Hsz.
Qed.

End Executor.
Arguments ExecuteInput : clear implicits.
Arguments Response : clear implicits.

(** The executor's default applies to timeouts that are not positive, but a
    configured timeout below a millisecond is sent as 0 milliseconds, which
    Postgres reads as no limit: the limit sent is positive exactly for the other
    configurations. *)
Theorem NewExecutor_timeout cfg :
  (1 ≤ Milliseconds (ec_StatementTimeout (NewExecutor cfg)))%Z ↔
  (ec_StatementTimeout cfg ≤ 0 ∨ 1000000 ≤ ec_StatementTimeout cfg)%Z.
Proof.
  unfold NewExecutor, Milliseconds, second; simpl.
  destruct (Z.leb_spec (ec_StatementTimeout cfg) 0); [split; [by left|done]|]. split.
  - intros. right. dlia.
  - intros [?|?]; dlia.
Qed.

(** ** A concrete server *)

Module ExecDemo.
#[local] Existing Instance ValidatorDemo.unicode.

(** Accepts every command and answers a query with one row of one text. *)
Definition server : PgServer bytes unit := {|
  srv_exec m s := (s, Ok 1%Z);
  srv_query sql args s :=
    (s, Ok {| rs_columns := [bs "x"]; rs_rows := [Ok [bs "hello"]]; rs_err := None |});
|}.

Definition marshal (row : list bytes) : bytes := concat row.

Definition cfg : ExecutorConfig :=
  NewExecutor {| ec_StatementTimeout := 0; ec_IdleInTxTimeout := 0; ec_MaxResponseBytes := 100 |}.

Definition result : Result :=
  {| r_Command := bs "SELECT"; r_IsSelect := true; r_HasReturning := false; r_PlaceholderCount := 0 |}.

Definition input : ExecuteInput bytes :=
  {| ei_WorkspaceID := bs "w"; ei_PgRole := bs "dbuser"; ei_SQL := bs "SELECT x FROM t";
     ei_Params := []; ei_Result := Some result |}.

Definition start : conn bytes unit := {| cn_state := tt; cn_log := [] |}.
End ExecDemo.

#[local] Existing Instance ValidatorDemo.unicode.

(** A request whose statement sets the time zone of the session. *)
Definition set_zone : ExecuteInput bytes :=
  {| ei_WorkspaceID := bs "w"; ei_PgRole := bs "dbuser"; ei_SQL := bs "SET TimeZone TO 'Asia/Tokyo'";
     ei_Params := []; ei_Result := Some {| r_Command := bs "SET"; r_IsSelect := false; r_HasReturning := false;
                                           r_PlaceholderCount := 0 |} |}.

Lemma Execute_isolated_witness :
  ∃ c' resp, Execute ExecDemo.server ExecDemo.marshal ExecDemo.cfg 0 5000000 set_zone ExecDemo.start = (c', Ok resp) ∧
  released connected (settings_of (fun _ _ => []) (cn_log c')) true
    [{| ch_local := false; ch_name := bs "timezone"; ch_value := Some (bs "Asia/Tokyo") |}].
Proof.
  destruct (Execute ExecDemo.server ExecDemo.marshal ExecDemo.cfg 0 5000000 set_zone ExecDemo.start)
    as [c' [resp|e]] eqn:E; [|apply (f_equal snd) in E; vm_compute in E; discriminate E].
  exists c', resp. split; [reflexivity|].
  destruct (Execute_isolated ExecDemo.server ExecDemo.marshal (fun _ _ => []) ExecDemo.cfg 0 5000000 set_zone
              {| r_Command := bs "SET"; r_IsSelect := false; r_HasReturning := false; r_PlaceholderCount := 0 |}
              ExecDemo.start c' (Ok resp)) as [(n & fin & _ & Hno & _)|(b & _ & Hb & _ & Hr)].
  - reflexivity.
  - unfold in_int64, min_int64, max_int64. vm_compute. split; discriminate.
  - unfold in_int64, min_int64, max_int64. vm_compute. split; discriminate.
  - exact E.
  - discriminate Hno.
  - rewrite (Hb eq_refl) in Hr. exact Hr.
Defined.

(** What one tenant sets for the session is in effect for the next: after a
    request that sets the time zone, another workspace's statement on the same
    connection runs in that time zone, and so does the gateway itself. *)
Theorem session_set_survives :
  let x1 := Execute ExecDemo.server ExecDemo.marshal ExecDemo.cfg 0 0 set_zone ExecDemo.start in
  let x2 := Execute ExecDemo.server ExecDemo.marshal ExecDemo.cfg 0 0
              {| ei_WorkspaceID := bs "other"; ei_PgRole := bs "dbuser"; ei_SQL := bs "SELECT now()";
                 ei_Params := []; ei_Result := Some ExecDemo.result |} x1.1 in
  let at_select := settings_of (fun _ _ => []) (take 14 (cn_log x2.1)) in
  is_ok x1.2 = true ∧ is_ok x2.2 = true ∧
  effective (settings_of (fun _ _ => []) (cn_log x1.1)) (bs "timezone") = Some (bs "Asia/Tokyo") ∧
  cn_log x2.1 !! 14 = Some (CQuery (bs "SELECT now()") []) ∧
  effective at_select workspace_setting = Some (bs "other") ∧
  effective at_select (bs "timezone") = Some (bs "Asia/Tokyo").
Proof. vm_compute. repeat split. Qed.

Lemma Execute_commit_witness :
  ∃ c' resp c1 n,
    Execute ExecDemo.server ExecDemo.marshal ExecDemo.cfg 0 5000000 ExecDemo.input ExecDemo.start = (c', Ok resp) ∧
    send ExecDemo.server CCommit c1 = (c', Ok n) ∧
    cn_log c1 = [] ++ CBegin :: setup_of ExecDemo.cfg ExecDemo.input ++
                [user_cmd ExecDemo.input ExecDemo.result].
Proof.
  destruct (Execute ExecDemo.server ExecDemo.marshal ExecDemo.cfg 0 5000000 ExecDemo.input ExecDemo.start)
    as [c' [resp|e]] eqn:E; [|apply (f_equal snd) in E; vm_compute in E; discriminate E].
  destruct (Execute_commit ExecDemo.server ExecDemo.marshal ExecDemo.cfg 0 5000000 ExecDemo.input
              ExecDemo.result ExecDemo.start c' (Ok resp)) as [Hok _]; [reflexivity|exact E|].
  destruct (Hok resp eq_refl) as (c1 & n & Hs & Hl).
  exists c', resp, c1, n. split; [reflexivity|]. split; [exact Hs|exact Hl].
Defined.

Lemma Execute_bounded_witness :
  ∃ resp, (Execute ExecDemo.server ExecDemo.marshal ExecDemo.cfg 0 5000000 ExecDemo.input ExecDemo.start).2 = Ok resp ∧
    (rows_size ExecDemo.marshal (rp_Rows resp) ≤ 100)%Z.
Proof.
  destruct (Execute ExecDemo.server ExecDemo.marshal ExecDemo.cfg 0 5000000 ExecDemo.input ExecDemo.start)
    as [c' [resp|e]] eqn:E; [|apply (f_equal snd) in E; vm_compute in E; discriminate E].
  destruct (Execute_bounded ExecDemo.server ExecDemo.marshal ExecDemo.cfg 0 5000000 ExecDemo.input
              ExecDemo.result ExecDemo.start c' resp) as (_ & _ & _ & _ & _ & _ & _ & _ & Hs).
  - reflexivity.
  - reflexivity.
  - reflexivity.
  - intros s sql args s' rs v [= <- <-] Hv. apply list_elem_of_singleton in Hv. injection Hv as ->.
    vm_compute. discriminate.
  - exact E.
  - exists resp. split; [reflexivity|exact Hs].
Defined.
