(* ===== verification/HttpErrors.v ===== *)
(** * internal/httpapi/errors.go: errors as problem details

    [MapError] and the SQLSTATE table, and that no layer between the Postgres
    server and the HTTP response changes how a server error is reported. *)

From S2P Require Import Prelude GoStrings GoErrors Tenant SqlValidator SqlExecutor.

Record Problem : Type := {
  pr_Type : bytes;
  pr_Title : bytes;
  pr_Status : Z;
  pr_Detail : bytes;
  pr_Instance : bytes;
  pr_SQLState : bytes;
}.

(** A [Problem] literal with the other fields zero. *)
Definition mk_problem (title : bytes) (status : Z) (detail sqlstate : bytes) : Problem :=
  {| pr_Type := []; pr_Title := title; pr_Status := status; pr_Detail := detail;
     pr_Instance := []; pr_SQLState := sqlstate |}.

Definition one_of (s : bytes) (l : list bytes) : bool := existsb (str_eqb s) l.

Definition mapPgError (pg : PgError) : Problem :=
  let code := pg_Code pg in
  let '(status, title) :=
    if one_of code [bs "42501"] then (403%Z, bs "permission_denied")
    else if one_of code [bs "42P01"; bs "42883"] then (400%Z, bs "undefined_object")
    else if one_of code [bs "23505"] then (409%Z, bs "unique_violation")
    else if one_of code [bs "23502"; bs "23503"; bs "23514"] then (409%Z, bs "integrity_violation")
    else if one_of code [bs "22001"; bs "22003"; bs "22P02"; bs "22008"] then (400%Z, bs "invalid_input")
    else if one_of code [bs "57014"] then (408%Z, bs "statement_timeout")
    else if one_of code [bs "53300"] then (503%Z, bs "too_many_connections")
    else if one_of code [bs "40001"] then (409%Z, bs "serialization_failure")
    else if one_of code [bs "40P01"] then (409%Z, bs "deadlock_detected")
    else (500%Z, bs "database_error") in
  mk_problem title status (pg_Message pg) code.

Definition MapError `{UnicodeTables} (err : option error) : Problem :=
  match err with
  | None => mk_problem (bs "ok") 200 [] []
  | Some e =>
      if error_Is e ErrResponseTooLarge then mk_problem (bs "response_too_large") 413 (ErrorText e) []
      else match As_ValidationError e with
      | Some (code, msg) => mk_problem code 400 msg []
      | None =>
          match As_SqlError e with
          | Some pg => mapPgError pg
          | None =>
              match As_PgError e with
              | Some pg => mapPgError pg
              | None => mk_problem (bs "internal") 500 (ErrorText e) []
              end
          end
      end
  end.

(** ** Server errors pass through every layer *)

(** The innermost error of a chain of wrappers. *)
Fixpoint root (e : error) : error :=
  match e with
  | ErrWrap _ e' _ => root e'
  | _ => e
  end.

Lemma As_PgError_root e pg :
  As_PgError e = Some pg ↔ root e = PgErr pg ∨ root e = SqlError pg.
Proof. induction e; simpl; naive_solver. Qed.

Lemma Is_root_too_large e : error_Is e ErrResponseTooLarge = true → root e = ErrResponseTooLarge.
Proof.
  induction e; simpl; unfold bool_decide; repeat (case_decide; simpl); try done; auto.
Qed.

Lemma As_ValidationError_root e code msg :
  As_ValidationError e = Some (code, msg) → root e = ValidationError code msg.
Proof. induction e; simpl; naive_solver. Qed.

Lemma As_SqlError_root e pg : As_SqlError e = Some pg → root e = SqlError pg.
Proof. induction e; simpl; naive_solver. Qed.

Section MapErrorFacts.
Context `{UnicodeTables}.

Lemma MapError_pg e pg : As_PgError e = Some pg → MapError (Some e) = mapPgError pg.
Proof.
  intros Hpg. pose proof Hpg as Hr%As_PgError_root. unfold MapError.
  destruct (error_Is e ErrResponseTooLarge) eqn:E1; [apply Is_root_too_large in E1; destruct Hr; congruence|].
  destruct (As_ValidationError e) as [[code msg]|] eqn:E2;
    [apply As_ValidationError_root in E2; destruct Hr; congruence|].
  destruct (As_SqlError e) as [pg'|] eqn:E3; [|by rewrite Hpg].
  apply As_SqlError_root in E3. destruct Hr; congruence.
Qed.

Lemma As_PgError_classify e pg : As_PgError e = Some pg → As_PgError (classifyPgErr e) = Some pg.
Proof. intros Hpg. unfold classifyPgErr. by rewrite Hpg. Qed.

Lemma mapPgError_status pg : pr_Status (mapPgError pg) ∈ [400; 403; 408; 409; 413; 500; 503]%Z.
Proof.
  unfold mapPgError. repeat (destruct (one_of _ _)); apply (bool_decide_unpack _); by vm_compute.
Qed.

Lemma MapError_status e : pr_Status (MapError (Some e)) ∈ [400; 403; 408; 409; 413; 500; 503]%Z.
Proof.
  unfold MapError. destruct (error_Is e _); [apply (bool_decide_unpack _); by vm_compute|].
  destruct (As_ValidationError e) as [[]|]; [apply (bool_decide_unpack _); by vm_compute|].
  destruct (As_SqlError e); [apply mapPgError_status|]. destruct (As_PgError e); [apply mapPgError_status|].
  apply (bool_decide_unpack _); by vm_compute.
Qed.

Lemma MapError_400 e : (400 ≤ pr_Status (MapError (Some e)))%Z.
Proof. pose proof (MapError_status e) as Hs. rewrite !elem_of_cons, elem_of_nil in Hs. lia. Qed.

(** The status of a response to an error is one of eight documented codes;
    the code of a Postgres error survives any number of wrappers the layers add:
    the problem has the status and title of the SQLSTATE table and carries the
    SQLSTATE and the server's message. *)
Theorem MapError_spec e :
  pr_Status (MapError (Some e)) ∈ [400; 403; 408; 409; 413; 500; 503]%Z ∧
  (∀ pg, As_PgError e = Some pg →
     MapError (Some e) = mapPgError pg ∧ MapError (Some (classifyPgErr e)) = mapPgError pg ∧
     (∀ pre, MapError (Some (wrapf pre e)) = mapPgError pg) ∧
     pr_SQLState (mapPgError pg) = pg_Code pg ∧ pr_Detail (mapPgError pg) = pg_Message pg).
Proof.
  split; [apply MapError_status|]. intros pg Hpg. split; [by apply MapError_pg|].
  split; [by apply MapError_pg, As_PgError_classify|]. split; [intros; by apply MapError_pg|].
  unfold mapPgError. by repeat (destruct (one_of _ _)).
Qed.

(** The statuses and titles of the SQLSTATEs; 500 and database_error for the rest. *)
Definition sqlstates : list (bytes * (Z * bytes)) :=
  [(bs "42501", (403%Z, bs "permission_denied"));
   (bs "42P01", (400%Z, bs "undefined_object")); (bs "42883", (400%Z, bs "undefined_object"));
   (bs "23505", (409%Z, bs "unique_violation"));
   (bs "23502", (409%Z, bs "integrity_violation")); (bs "23503", (409%Z, bs "integrity_violation"));
   (bs "23514", (409%Z, bs "integrity_violation"));
   (bs "22001", (400%Z, bs "invalid_input")); (bs "22003", (400%Z, bs "invalid_input"));
   (bs "22008", (400%Z, bs "invalid_input")); (bs "22P02", (400%Z, bs "invalid_input"));
   (bs "57014", (408%Z, bs "statement_timeout")); (bs "53300", (503%Z, bs "too_many_connections"));
   (bs "40001", (409%Z, bs "serialization_failure")); (bs "40P01", (409%Z, bs "deadlock_detected"))].

(** The problem that reports the server's error: its code and message, and the
    status and title of its row, if it has one. *)
Definition reports (pg : PgError) (p : Problem) : Prop :=
  pr_SQLState p = pg_Code pg ∧ pr_Detail p = pg_Message pg ∧
  (∀ row, (pg_Code pg, row) ∈ sqlstates → (pr_Status p, pr_Title p) = row) ∧
  (pg_Code pg ∉ sqlstates.*1 → (pr_Status p, pr_Title p) = (500%Z, bs "database_error")).

Lemma mapPgError_reports pg : reports pg (mapPgError pg).
Proof.
  unfold reports, mapPgError. destruct pg as [sev code msg]. cbn [pg_Code pg_Message].
  assert (∀ l, one_of code l = true ↔ code ∈ l) as Hone.
  { intros l. unfold one_of. rewrite existsb_exists, list_elem_of_In. split.
    - intros (x & Hx & <-%str_eqb_eq). done.
    - intros Hx. exists code. split; [done|apply str_eqb_refl]. }
  set (row := if one_of code [bs "42501"] then _ else _).
  assert ((∀ r, (code, r) ∈ sqlstates → row = r) ∧ (code ∉ sqlstates.*1 → row = (500%Z, bs "database_error"))) as [Hin Hout].
  { split.
    - intros r Hr. unfold sqlstates in Hr.
      repeat (apply elem_of_cons in Hr as [[= -> ->]|Hr]; [unfold row; by vm_compute|]). by apply not_elem_of_nil in Hr.
    - intros Hn. unfold sqlstates in Hn. cbn [fmap list_fmap fst] in Hn. rewrite !not_elem_of_cons in Hn.
      unfold row. repeat (destruct (one_of code _) eqn:E; [apply Hone in E; rewrite ?elem_of_cons, ?elem_of_nil in E; naive_solver|clear E]).
      done. }
  destruct row as [status title]. split; [done|]. split; [done|]. split; [exact Hin|exact Hout].
Qed.

(** Not every data or integrity error has a row: a division by zero (22012) and an
    exclusion constraint (23P01) are reported as internal errors. *)
Theorem sqlstate_classes_unmapped sev msg :
  (pr_Status (mapPgError {| pg_Severity := sev; pg_Code := bs "22012"; pg_Message := msg |}) = 500%Z) ∧
  (pr_Status (mapPgError {| pg_Severity := sev; pg_Code := bs "23P01"; pg_Message := msg |}) = 500%Z).
Proof. split; reflexivity. Qed.

(** ** Through the executor *)

Section ThroughExecutor.
Context {V S : Type}.
Variable srv : PgServer V S.
Variable marshal_row : list V → bytes.
Variable pg : PgError.

(** The server fails only with the error [pg], wherever it fails. *)
Record fails_with : Prop := {
  fw_exec m s s' e : srv_exec srv m s = (s', Err e) → As_PgError e = Some pg;
  fw_query sql args s s' e : srv_query srv sql args s = (s', Err e) → As_PgError e = Some pg;
  fw_rows sql args s s' rs e :
    srv_query srv sql args s = (s', Ok rs) → Err e ∈ rs_rows rs ∨ rs_err rs = Some e →
    As_PgError e = Some pg;
}.

Hypothesis Hfail : fails_with.

Lemma send_err m (c c' : conn V S) e : send srv m c = (c', Err e) → As_PgError e = Some pg.
Proof.
  unfold send. destruct (srv_exec srv m (cn_state c)) as [s [z|e']] eqn:E; intros [= <- <-].
  by eapply fw_exec.
Qed.

Lemma Setup_err ws role st idle (c c' : conn V S) e :
  ws ≠ [] → isSafeRoleName role = true →
  Setup srv ws role st idle c = (c', Err e) → As_PgError e = Some pg.
Proof.
  intros Hws Hrole Hx. unfold Setup in Hx.
  assert (role ≠ []) as Hne by (by intros ->). unfold str_eqb in Hx.
  rewrite !bool_decide_false in Hx by done. rewrite Hrole in Hx. unfold xbind, xmap_err, xret in Hx.
  repeat match type of Hx with
  | context [send srv ?m ?c0] =>
      destruct (send srv m c0) as [? [?|?]] eqn:?; simpl in Hx;
      [|injection Hx as <- <-; simpl; by eapply send_err]
  end. done.
Qed.

Lemma read_rows_err maxBytes rows approx acc e :
  (∀ e, Err e ∈ rows → As_PgError e = Some pg) →
  read_rows marshal_row maxBytes approx acc rows = Err e →
  e = ErrResponseTooLarge ∨ As_PgError e = Some pg.
Proof.
  revert approx acc. induction rows as [|[v|e'] rows IH]; intros approx acc Hr Hx; simpl in Hx; [done|..].
  - assert (∀ e, Err e ∈ rows → As_PgError e = Some pg) as Hr' by (intros; apply Hr; by right).
    repeat case_match; simplify_eq; eauto.
  - simplify_eq. right. apply As_PgError_classify, Hr. by left.
Qed.

(** C35: A server error reaches the client as what it is: when the server fails a
    request of a workspace with a safe role name with the error [pg], at whatever step
    (the begin, a setup statement, the query, a row, the end of the rows or the
    commit), the problem carries its SQLSTATE and message and has the status and
    title of the row of its SQLSTATE, or 500 and database_error if it has none; the
    one other way for such a request to fail is the response size limit, with 413. *)
Theorem Execute_error_mapped cfg t0 t1 ein r c c' e :
  ei_Result ein = Some r → ei_WorkspaceID ein ≠ [] → isSafeRoleName (ei_PgRole ein) = true →
  Execute srv marshal_row cfg t0 t1 ein c = (c', Err e) →
  reports pg (MapError (Some e)) ∨ e = ErrResponseTooLarge ∧ pr_Status (MapError (Some e)) = 413%Z.
Proof.
  intros Hr Hws Hrole Hx. enough (MapError (Some e) = mapPgError pg ∨ e = ErrResponseTooLarge) as [->| ->];
    [left; apply mapPgError_reports|by right|]. unfold Execute in Hx. rewrite Hr in Hx. unfold xbind at 1, xmap_err at 1 in Hx.
  destruct (send srv CBegin c) as [c1 [z|e1]] eqn:Eb; simpl in Hx;
    [|simplify_eq; left; apply MapError_pg; simpl; by eapply send_err].
  destruct (execute_body _ _ _ _ _ c1) as [c2 [resp|e2]] eqn:Ebody.
  { destruct (send srv CCommit c2) as [c3 [z'|e3]] eqn:Ec; simplify_eq.
    left. apply MapError_pg, As_PgError_classify. by eapply send_err. }
  simplify_eq. unfold execute_body in Ebody. unfold xbind at 1, xmap_err at 1 in Ebody.
  destruct (Setup srv _ _ _ _ c1) as [c3 [[]|e3]] eqn:Es; simpl in Ebody;
    [|simplify_eq; left; apply MapError_pg; simpl; by eapply Setup_err].
  destruct (r_IsSelect r || r_HasReturning r); unfold xbind, xmap_err in Ebody.
  - unfold send_query in Ebody.
    destruct (srv_query srv _ _ (cn_state c3)) as [s [rs|e3]] eqn:Eq; simpl in Ebody;
      [|simplify_eq; left; by apply MapError_pg, As_PgError_classify; eapply fw_query].
    destruct (read_rows _ _ _ _ _) as [out|e4] eqn:Err.
    + destruct (rs_err rs) as [e5|] eqn:Ee; unfold xfail, xret in Ebody; simplify_eq.
      left. apply MapError_pg, As_PgError_classify. by eapply fw_rows; [| |right].
    + unfold xfail in Ebody. simplify_eq. apply read_rows_err in Err as [->|Hpg]; [by right| |].
      * left. by apply MapError_pg.
      * intros e5 He5. by eapply fw_rows; [| |left].
  - destruct (send srv _ c3) as [c4 [tag|e3]] eqn:Eu; simpl in Ebody; unfold xret in Ebody; simplify_eq.
    left. apply MapError_pg, As_PgError_classify. by eapply send_err.
Qed.
End ThroughExecutor.
End MapErrorFacts.

(** ** A server without privileges *)

Module ErrorsDemo.
Definition denied : PgError :=
  {| pg_Severity := bs "ERROR"; pg_Code := bs "42501"; pg_Message := bs "permission denied for table t" |}.

(** Accepts every command and fails every query. *)
Definition server : PgServer bytes unit := {|
  srv_exec m s := (s, Ok 0%Z);
  srv_query sql args s := (s, Err (PgErr denied));
|}.
End ErrorsDemo.

#[local] Existing Instance ValidatorDemo.unicode.

Lemma Execute_error_mapped_witness :
  ∃ e, (Execute ErrorsDemo.server ExecDemo.marshal ExecDemo.cfg 0 1 ExecDemo.input ExecDemo.start).2 = Err e ∧
       (reports ErrorsDemo.denied (MapError (Some e)) ∨ e = ErrResponseTooLarge ∧ pr_Status (MapError (Some e)) = 413%Z).
Proof.
  destruct (Execute ErrorsDemo.server ExecDemo.marshal ExecDemo.cfg 0 1 ExecDemo.input ExecDemo.start)
    as [c' [resp|e]] eqn:E; [apply (f_equal snd) in E; vm_compute in E; discriminate E|].
  exists e. split; [reflexivity|].
  apply (Execute_error_mapped ErrorsDemo.server ExecDemo.marshal ErrorsDemo.denied)
    with (cfg := ExecDemo.cfg) (t0 := 0%Z) (t1 := 1%Z) (ein := ExecDemo.input) (r := ExecDemo.result)
         (c := ExecDemo.start) (c' := c').
  - split; simpl; intros; simplify_eq; done.
  - reflexivity.
  - discriminate.
  - reflexivity.
  - exact E.
Defined.
