(* ===== verification/Idempotency.v ===== *)
(** * internal/rpc/idempotency.go: idempotency keys

    The store of idempotency_keys: [BeginOrReplay] claims a key or replays the
    stored response, [Complete] stores it, [PurgeExpired] drops old rows. The
    statements run on the table of ControlPlane.v in the transactions of the
    source, at the server's clock and at the gateway's clock where the source
    reads it; compression is a parameter with its round trip as the law. Calls run
    one after the other here; IdemConcurrent.v interleaves their statements. *)

From S2P Require Import Prelude GoStrings GoErrors Sha256 AuthKey ControlPlane AuthStore.

(** compress/gzip: a writer into memory, which does not fail, and a reader. *)
Class Gzip : Type := {
  gz_compress : bytes → bytes;
  gz_read : bytes → res error bytes;
}.

Class GzipLaws `{Gzip} : Prop := {
  gz_read_compress b : gz_read (gz_compress b) = Ok b;
  gz_compress_ne b : gz_compress b ≠ [];
}.

Definition HashRequest (method path body : bytes) : bytes :=
  hex_encode (Sum256 (method ++ [x00] ++ path ++ [x00] ++ body)).

Definition gzipBytes `{Gzip} (p : bytes) : res error bytes := Ok (gz_compress p).

Definition gunzip `{Gzip} (p : bytes) : res error bytes :=
  if (length p =? 0)%nat then Ok [] else gz_read p.

Record IdempotencyResult : Type := {
  ir_Replay : bool;
  ir_StatusCode : Z;
  ir_Body : bytes;
}.

Definition ErrInProgress : error := errors_New (bs "idempotency_key request still in progress").

#[export] Instance IdempotencyState_eq_dec : EqDecision IdempotencyState.
Proof. solve_decision. Defined.

Section Idem.
Context `{UuidLib, Gzip}.

(** ** Statements on idempotency_keys *)

(** [INSERT ... ON CONFLICT (workspace_id, key) DO NOTHING]: rows affected. *)
Definition insert_idem (k : uuid * bytes) (row : idem_row) (d : Db) : Db * res error Z :=
  match db_idem d !! k with
  | Some _ => (d, Ok 0%Z)
  | None =>
      if existsb (fun p => bool_decide (ir_id p.2 = ir_id row)) (map_to_list (db_idem d))
      then (d, Err (pg_error (bs "23505") (bs "idempotency_keys_pkey")))
      else if negb (bool_decide (is_Some (db_workspaces d !! k.1)))
      then (d, Err (pg_error (bs "23503") (bs "idempotency_keys_workspace_id_fkey")))
      else (set_idem d (<[k := row]> (db_idem d)), Ok 1%Z)
  end.

Definition pending_row (id : uuid) (hash : bytes) (now ttl : Z) : idem_row :=
  {| ir_id := id; ir_request_hash := hash; ir_state := StatePending; ir_status_code := None;
     ir_response_body := None; ir_created_at := now; ir_completed_at := None;
     ir_expires_at := now + ttl |}.

Definition select_idem (k : uuid * bytes) (d : Db) : res error idem_row :=
  match db_idem d !! k with
  | Some row => Ok row
  | None => Err ErrNoRows
  end.

Definition complete_row (st : IdempotencyState) (status : Z) (gz : bytes) (now : Z) (r : idem_row) : idem_row :=
  {| ir_id := ir_id r; ir_request_hash := ir_request_hash r; ir_state := st;
     ir_status_code := Some status; ir_response_body := Some gz; ir_created_at := ir_created_at r;
     ir_completed_at := Some now; ir_expires_at := ir_expires_at r |}.

(** ** Claiming a key *)

(** How the transaction of [BeginOrReplay] ends. *)
Inductive claim : Type :=
| Fresh
| Stale
| Conflict
| InProgress
| Stored (status : option Z) (body : option bytes).

(** The two branches that ignore an error of [Commit]. *)
Definition commit_ignored (c : claim) : bool :=
  match c with
  | Conflict | InProgress => true
  | _ => false
  end.

Definition claim_stmts (k : uuid * bytes) (hash : bytes) (ttl : Z) (id : uuid) (appNow : Z) : M claim :=
  let* n := exec (fun now d => insert_idem k (pending_row id hash now ttl) d) in
  if (n =? 1)%Z then mret Fresh else
  let* row := exec (fun _ d => (d, select_idem k d)) in
  if (ir_expires_at row <? appNow)%Z then
    let* _ := exec (fun _ d => (set_idem d (delete k (db_idem d)), Ok tt)) in
    mret Stale
  else if negb (str_eqb (ir_request_hash row) hash) then mret Conflict
  else if bool_decide (ir_state row = StatePending) then mret InProgress
  else mret (Stored (ir_status_code row) (ir_response_body row)).

(** [with_tx] with the error of the commit ignored for some results. *)
Definition with_tx_lenient {A} (ignored : A → bool) (stmts : M A) : M A :=
  fun w => match next_fault w with
           | (NoFault, w1) =>
               match stmts w1 with
               | (w2, Err e) => (set_db w2 (w_db w1), Err e)
               | (w2, Ok a) =>
                   match next_fault w2 with
                   | (NoFault, w3) => (w3, Ok a)
                   | (Fail e, w3) => (set_db w3 (w_db w1), if ignored a then Ok a else Err e)
                   | (Ambiguous e, w3) => (w3, if ignored a then Ok a else Err e)
                   end
               end
           | (Fail e, w1) => (w1, Err e)
           | (Ambiguous e, w1) => (w1, Err e)
           end.

(** [BeginOrReplay]; every recursive call reads the clock and draws a UUID, one
    element of [attempts] each. Two are always enough ([BeginOrReplay_two]). *)
Fixpoint BeginOrReplay (attempts : list (Z * uuid)) (workspaceID key requestHash : bytes) (ttl : Z)
  : M IdempotencyResult :=
  match attempts with
  | [] => mfail (errors_New (bs "no attempt left"))
  | (appNow, id) :: attempts =>
      if str_eqb key [] then mfail (errors_New (bs "BeginOrReplay: empty key")) else
      let* wsID := mwrap (bs "workspace_id: ") (mlift (uuid_Parse workspaceID)) in
      let* c := with_tx_lenient commit_ignored (claim_stmts (wsID, key) requestHash ttl id appNow) in
      match c with
      | Fresh => mret {| ir_Replay := false; ir_StatusCode := 0; ir_Body := [] |}
      | Stale => BeginOrReplay attempts workspaceID key requestHash ttl
      | Conflict => mfail ErrIdempotencyConflict
      | InProgress => mfail ErrInProgress
      | Stored st body =>
          let* decoded := mlift (gunzip (default [] body)) in
          mret {| ir_Replay := true; ir_StatusCode := default 200%Z st; ir_Body := decoded |}
      end
  end.

Definition Complete (workspaceID key : bytes) (status : Z) (body : bytes) (ok : bool) : M unit :=
  let* wsID := mlift (uuid_Parse workspaceID) in
  let state := if ok then StateDone else StateFailed in
  let* gz := mlift (gzipBytes body) in
  exec (fun now d => (set_idem d (alter (complete_row state status gz now) (wsID, key) (db_idem d)), Ok tt)).

Definition live (now : Z) (p : (uuid * bytes) * idem_row) : Prop := ¬ (ir_expires_at p.2 < now)%Z.

#[export] Instance live_dec now p : Decision (live now p).
Proof. unfold live. apply _. Defined.

Definition PurgeExpired : M Z :=
  exec (fun now d =>
    let kept := filter (live now) (db_idem d) in
    (set_idem d kept, Ok (Z.of_nat (size (db_idem d)) - Z.of_nat (size kept))%Z)).

(** ** Sequences of operations *)

Inductive idem_op : Type :=
| IBegin (attempts : list (Z * uuid)) (workspaceID key hash : bytes) (ttl : Z)
| IComplete (workspaceID key : bytes) (status : Z) (body : bytes) (ok : bool)
| IPurge.

(** An operation at the server's clock, with the faults its calls meet. *)
Record timed_op : Type := { to_dbnow : Z; to_faults : list fault; to_op : idem_op }.

Definition run_op (d : Db) (o : timed_op) : Db :=
  let w := {| w_db := d; w_dbnow := to_dbnow o; w_faults := to_faults o |} in
  match to_op o with
  | IBegin attempts ws key hash ttl => w_db (BeginOrReplay attempts ws key hash ttl w).1
  | IComplete ws key status body ok => w_db (Complete ws key status body ok w).1
  | IPurge => w_db (PurgeExpired w).1
  end.

Definition run_idem (d : Db) (ops : list timed_op) : Db := fold_left run_op ops d.

(** No clock read by the operation is past [exp]. *)
Definition before (exp : Z) (o : timed_op) : Prop :=
  match to_op o with
  | IBegin attempts _ _ _ _ => Forall (fun a => (a.1 ≤ exp)%Z) attempts
  | IComplete _ _ _ _ _ => True
  | IPurge => (to_dbnow o ≤ exp)%Z
  end.

(** The row of [k] was claimed with [h] until [exp]. *)
Definition held (k : uuid * bytes) (h : bytes) (exp : Z) (d : Db) : Prop :=
  ∃ row, db_idem d !! k = Some row ∧ ir_request_hash row = h ∧ ir_expires_at row = exp.

(** ** What a claim does to the table *)

(** A row that is not past its expiry survives the claims of every request. *)
Lemma insert_idem_keeps k row k' new d :
  db_idem d !! k = Some row → db_idem (insert_idem k' new d).1 !! k = Some row.
Proof.
  intros Hd. unfold insert_idem. destruct (db_idem d !! k') eqn:E; [done|].
  destruct (existsb _ _); [done|]. destruct (negb _); [done|]. simpl.
  rewrite lookup_insert_ne by congruence. done.
Qed.

Definition has_row (k : uuid * bytes) (row : idem_row) (d : Db) : Prop := db_idem d !! k = Some row.

Lemma claim_keeps_row k row k' hash ttl id appNow :
  (appNow ≤ ir_expires_at row)%Z → preserves (has_row k row) (claim_stmts k' hash ttl id appNow).
Proof.
  intros Hle w w' r Hx Hp. unfold claim_stmts in Hx. unfold mbind at 1 in Hx.
  destruct (exec _ w) as [w1 [n|e]] eqn:E1;
    pose proof (preserves_exec (has_row k row) _ (fun now d => insert_idem_keeps k row k' _ d) _ _ _ E1 Hp) as Hp1;
    [|by simplify_eq].
  destruct (n =? 1)%Z; [unfold mret in Hx; by simplify_eq|]. unfold mbind at 1 in Hx.
  destruct (exec _ w1) as [w2 [row'|e]] eqn:E2.
  - apply exec_Ok in E2 as [[= Hd Hrow] _]. rewrite Hd in Hp1, Hrow.
    destruct (Z.ltb_spec (ir_expires_at row') appNow) as [Hst|_].
    + assert (k' ≠ k) as Hne.
      { intros ->. unfold select_idem in Hrow. rewrite Hp1 in Hrow. simplify_eq. lia. }
      unfold mbind in Hx. destruct (exec _ w2) as [w3 r3] eqn:E3.
      assert (has_row k row (w_db w3)) as Hp3.
      { eapply (preserves_exec (has_row k row)); [|exact E3|exact Hp1].
        intros now d Hd'. unfold has_row. simpl. by rewrite lookup_delete_ne. }
      destruct r3; unfold mret in Hx; by simplify_eq.
    + unfold mret in Hx. repeat case_match; by simplify_eq.
  - simplify_eq. eapply (preserves_exec (has_row k row)); [|exact E2|exact Hp1]. done.
Qed.
Lemma preserves_tx_lenient {A} P (ignored : A → bool) (stmts : M A) :
  preserves P stmts → preserves P (with_tx_lenient ignored stmts).
Proof.
  intros Hs w w' r Hx Hp. unfold with_tx_lenient in Hx. destruct (next_fault w) as [f w1] eqn:E1.
  apply next_fault_db in E1 as [Hd _]. rewrite <- Hd in Hp.
  destruct f as [|e0|e0]; try (by simplify_eq).
  destruct (stmts w1) as [w2 [a|e']] eqn:E2; [|by simplify_eq].
  pose proof (Hs _ _ _ E2 Hp) as Hp2. destruct (next_fault w2) as [g w3] eqn:E3.
  apply next_fault_db in E3 as [Hd3 _]. destruct g; simplify_eq/=; congruence.
Qed.

Lemma BeginOrReplay_keeps_row k row attempts ws key hash ttl :
  Forall (fun a => (a.1 ≤ ir_expires_at row)%Z) attempts →
  preserves (has_row k row) (BeginOrReplay attempts ws key hash ttl).
Proof.
  induction 1 as [|[appNow id] attempts Ha _ IH]; cbn [BeginOrReplay]; [by apply preserves_pure|].
  destruct (str_eqb key []); [by apply preserves_pure|].
  apply preserves_bind; [apply preserves_wrap; by apply preserves_pure|]. intros u.
  apply preserves_bind; [by apply preserves_tx_lenient, claim_keeps_row|].
  intros []; try (by apply preserves_pure); [done|].
  apply preserves_bind; [by apply preserves_pure|intros; by apply preserves_pure].
Qed.

Lemma BeginOrReplay_held k h exp attempts ws key hash ttl :
  Forall (fun a => (a.1 ≤ exp)%Z) attempts → preserves (held k h exp) (BeginOrReplay attempts ws key hash ttl).
Proof.
  intros Ha w w' r Hx (row & Hr & Hh & <-). exists row. split; [|done].
  exact (BeginOrReplay_keeps_row k row _ _ _ _ _ Ha _ _ _ Hx Hr).
Qed.

Lemma Complete_held k h exp ws key status body ok : preserves (held k h exp) (Complete ws key status body ok).
Proof.
  apply preserves_bind; [by apply preserves_pure|]. intros u.
  apply preserves_bind; [by apply preserves_pure|]. intros gz. apply preserves_exec.
  intros now d (r & Hr & Hh & He). simpl.
  destruct (decide ((u, key) = k)) as [<-|Hne].
  - eexists. simpl. rewrite lookup_alter_eq, Hr. by repeat split.
  - exists r. simpl. by rewrite lookup_alter_ne.
Qed.

Lemma PurgeExpired_keeps_row k row w w' r :
  (w_dbnow w ≤ ir_expires_at row)%Z → PurgeExpired w = (w', r) → has_row k row (w_db w) → has_row k row (w_db w').
Proof.
  intros Hle Hx Hp. unfold PurgeExpired, exec in Hx. destruct (next_fault w) as [f w1] eqn:E.
  apply next_fault_db in E as [Hd Hn]. rewrite <- Hd in Hp.
  assert (has_row k row (set_idem (w_db w1) (filter (live (w_dbnow w1)) (db_idem (w_db w1))))) as Hp'.
  { apply map_lookup_filter_Some. split; [done|]. unfold live. simpl. lia. }
  destruct f; simplify_eq/=; done.
Qed.

Lemma PurgeExpired_held k h exp w w' r :
  (w_dbnow w ≤ exp)%Z → PurgeExpired w = (w', r) → held k h exp (w_db w) → held k h exp (w_db w').
Proof.
  intros Hle Hx (row & Hr & Hh & <-). exists row. split; [|done].
  by eapply PurgeExpired_keeps_row.
Qed.

Lemma run_op_held k h exp d o : before exp o → held k h exp d → held k h exp (run_op d o).
Proof.
  unfold run_op, before. destruct (to_op o) as [att ws key hash ttl|ws key st body ok|]; intros Hb Hd.
  - destruct (BeginOrReplay _ _ _ _ _ _) as [w' r] eqn:E. exact (BeginOrReplay_held k h exp _ _ _ _ _ Hb _ _ _ E Hd).
  - destruct (Complete _ _ _ _ _ _) as [w' r] eqn:E. exact (Complete_held k h exp _ _ _ _ _ _ _ _ E Hd).
  - destruct (PurgeExpired _) as [w' r] eqn:E. eapply PurgeExpired_held; [|exact E|exact Hd]. exact Hb.
Qed.

Lemma run_idem_held k h exp d ops :
  Forall (before exp) ops → held k h exp d → held k h exp (run_idem d ops).
Proof.
  intros Hops. revert d. induction Hops as [|o ops Ho _ IH]; intros d Hd; [done|].
  by apply IH, run_op_held.
Qed.

(** ** What a claim returns *)

Lemma with_tx_lenient_Ok {A} ignored (stmts : M A) w w' a :
  with_tx_lenient ignored stmts w = (w', Ok a) →
  ∃ w1 w2, w_db w1 = w_db w ∧ w_dbnow w1 = w_dbnow w ∧ stmts w1 = (w2, Ok a) ∧
           (ignored a = false → w_db w' = w_db w2 ∧ w_dbnow w' = w_dbnow w2).
Proof.
  unfold with_tx_lenient. destruct (next_fault w) as [f w1] eqn:E1. apply next_fault_db in E1 as [Hd Hn].
  destruct f; try done. destruct (stmts w1) as [w2 [b|e]] eqn:E2; [|done].
  destruct (next_fault w2) as [g w3] eqn:E3. apply next_fault_db in E3 as [Hd3 Hn3].
  destruct g; [|destruct (ignored b) eqn:Ei..]; intros [= <- <-]; exists w1, w2;
    repeat split; congruence.
Qed.

(** A row that is there is not inserted again. *)
Lemma claim_present k hash ttl id appNow row w w' c :
  db_idem (w_db w) !! k = Some row → claim_stmts k hash ttl id appNow w = (w', Ok c) →
  if (ir_expires_at row <? appNow)%Z then c = Stale ∧ db_idem (w_db w') !! k = None
  else c = (if negb (str_eqb (ir_request_hash row) hash) then Conflict
            else if bool_decide (ir_state row = StatePending) then InProgress
            else Stored (ir_status_code row) (ir_response_body row)).
Proof.
  intros Hk Hx. unfold claim_stmts in Hx. apply mbind_Ok in Hx as (w1 & n & Hi & Hx).
  apply exec_Ok in Hi as [Hi _]. unfold insert_idem in Hi. rewrite Hk in Hi. injection Hi as Hd1 <-.
  simpl in Hx. apply mbind_Ok in Hx as (w2 & row' & Hs & Hx). apply exec_Ok in Hs as [[= Hd2 Hs] _].
  unfold select_idem in Hs. rewrite <- Hd1, Hk in Hs. injection Hs as <-.
  destruct (ir_expires_at row <? appNow)%Z.
  - apply mbind_Ok in Hx as (w3 & [] & Hdel & [= <- <-]). apply exec_Ok in Hdel as [[= Hd3] _].
    split; [done|]. rewrite <- Hd3. simpl. apply lookup_delete_eq.
  - repeat case_match; unfold mret in Hx; by simplify_eq.
Qed.

(** A key without a row is claimed. *)
Lemma claim_absent k hash ttl id appNow w w' c :
  db_idem (w_db w) !! k = None → claim_stmts k hash ttl id appNow w = (w', Ok c) →
  c = Fresh ∧ db_idem (w_db w') !! k = Some (pending_row id hash (w_dbnow w) ttl).
Proof.
  intros Hk Hx. unfold claim_stmts in Hx. apply mbind_Ok in Hx as (w1 & n & Hi & Hx).
  apply exec_Ok in Hi as [Hi _]. unfold insert_idem in Hi. rewrite Hk in Hi.
  destruct (existsb _ _); [done|]. destruct (negb _); [done|]. injection Hi as Hd <-.
  simpl in Hx. injection Hx as <- <-. split; [done|]. rewrite <- Hd. simpl. apply lookup_insert_eq.
Qed.

(** What [BeginOrReplay] makes of a decided claim. *)
Definition answer (c : claim) (again : M IdempotencyResult) : M IdempotencyResult :=
  match c with
  | Fresh => mret {| ir_Replay := false; ir_StatusCode := 0; ir_Body := [] |}
  | Stale => again
  | Conflict => mfail ErrIdempotencyConflict
  | InProgress => mfail ErrInProgress
  | Stored st body =>
      let* decoded := mlift (gunzip (default [] body)) in
      mret {| ir_Replay := true; ir_StatusCode := default 200%Z st; ir_Body := decoded |}
  end.

Lemma BeginOrReplay_step appNow id rest ws u key hash ttl w :
  key ≠ [] → uuid_Parse ws = Ok u →
  BeginOrReplay ((appNow, id) :: rest) ws key hash ttl w =
  match with_tx_lenient commit_ignored (claim_stmts (u, key) hash ttl id appNow) w with
  | (w1, Ok c) => answer c (BeginOrReplay rest ws key hash ttl) w1
  | (w1, Err e) => (w1, Err e)
  end.
Proof.
  intros Hk Hu. cbn [BeginOrReplay]. unfold str_eqb. rewrite bool_decide_false by done.
  unfold mwrap, mlift, mbind at 1. rewrite Hu. cbn [res_map_err]. unfold mbind at 1.
  destruct (with_tx_lenient _ _ w) as [w1 [c|e]]; [|done]. by destruct c.
Qed.

Lemma BeginOrReplay_bad appNow id ws key hash ttl w :
  (key = [] ∨ ∃ e, uuid_Parse ws = Err e) →
  ∃ e, ∀ rest', BeginOrReplay ((appNow, id) :: rest') ws key hash ttl w = (w, Err e).
Proof.
  intros Hb. cbn [BeginOrReplay]. destruct (str_eqb key []) eqn:E; [by eexists|]. go_bool.
  destruct Hb as [?|[e He]]; [done|]. unfold mwrap, mlift, mbind at 1. rewrite He. by eexists.
Qed.

(** After a stale row was reclaimed the key is free. *)
Lemma claim_stale k hash ttl id appNow w w1 :
  with_tx_lenient commit_ignored (claim_stmts k hash ttl id appNow) w = (w1, Ok Stale) →
  db_idem (w_db w1) !! k = None.
Proof.
  intros E. apply with_tx_lenient_Ok in E as (v1 & v2 & Hd & _ & Hs & Hdb). rewrite (proj1 (Hdb eq_refl)).
  destruct (db_idem (w_db v1) !! k) as [row|] eqn:Ek.
  - pose proof (claim_present _ _ _ _ _ _ _ _ _ Ek Hs) as Hc.
    destruct (ir_expires_at row <? appNow)%Z; [by destruct Hc|]. by repeat case_match.
  - by destruct (claim_absent _ _ _ _ _ _ _ _ Ek Hs).
Qed.

(** [BeginOrReplay] calls itself at most once, whatever the database calls
    do: after the reclaim of a stale row the key is free and the second attempt
    does not find a stale row again, so two attempts decide the result and more
    change nothing. *)
Theorem BeginOrReplay_two a1 a2 rest rest' ws key hash ttl w :
  BeginOrReplay (a1 :: a2 :: rest) ws key hash ttl w = BeginOrReplay (a1 :: a2 :: rest') ws key hash ttl w.
Proof.
  destruct a1 as [n1 id1], a2 as [n2 id2].
  destruct (decide (key = [])) as [Hk|Hk];
    [|destruct (uuid_Parse ws) as [u|e] eqn:Eu].
  1, 3: destruct (BeginOrReplay_bad n1 id1 ws key hash ttl w) as [e' He]; [by eauto|]; by rewrite !He.
  rewrite !(BeginOrReplay_step n1 id1 _ ws u) by done.
  destruct (with_tx_lenient _ _ w) as [w1 [c|e]] eqn:E; [|done]. destruct c; try done.
  apply claim_stale in E. cbn [answer]. rewrite !(BeginOrReplay_step n2 id2 _ ws u) by done.
  destruct (with_tx_lenient _ _ w1) as [w2 [c|e]] eqn:E2; [|done]. destruct c; try done.
  apply with_tx_lenient_Ok in E2 as (v3 & v4 & Hd3 & _ & Hs2 & _). rewrite <- Hd3 in E.
  by destruct (claim_absent _ _ _ _ _ _ _ _ E Hs2).
Qed.

(** ** At most once *)

Lemma claim_now k hash ttl id appNow w w' c :
  claim_stmts k hash ttl id appNow w = (w', Ok c) → w_dbnow w' = w_dbnow w.
Proof.
  unfold claim_stmts. intros (w1 & n & [_ H1]%exec_Ok & Hx)%mbind_Ok.
  destruct (n =? 1)%Z; [unfold mret in Hx; congruence|].
  apply mbind_Ok in Hx as (w2 & row & [_ H2]%exec_Ok & Hx).
  destruct (ir_expires_at row <? appNow)%Z; [|repeat case_match; unfold mret in Hx; congruence].
  apply mbind_Ok in Hx as (w3 & [] & [_ H3]%exec_Ok & Hx). unfold mret in Hx. congruence.
Qed.

(** A successful claim puts the row there until its expiry. *)
Lemma claim_fresh k hash ttl id appNow w w1 :
  with_tx_lenient commit_ignored (claim_stmts k hash ttl id appNow) w = (w1, Ok Fresh) →
  held k hash (w_dbnow w + ttl) (w_db w1) ∧
  db_idem (w_db w1) !! k = Some (pending_row id hash (w_dbnow w) ttl).
Proof.
  intros E. apply with_tx_lenient_Ok in E as (v1 & v2 & Hd & Hn & Hs & Hdb).
  rewrite (proj1 (Hdb eq_refl)). destruct (db_idem (w_db v1) !! k) as [row|] eqn:Ek.
  - pose proof (claim_present _ _ _ _ _ _ _ _ _ Ek Hs) as Hc. exfalso.
    destruct (ir_expires_at row <? appNow)%Z; [by destruct Hc|]. by repeat case_match.
  - destruct (claim_absent _ _ _ _ _ _ _ _ Ek Hs) as [_ Hr]. rewrite Hn in Hr.
    split; [by eexists|done].
Qed.

Lemma BeginOrReplay_fresh attempts ws key hash ttl w w' r :
  BeginOrReplay attempts ws key hash ttl w = (w', Ok r) → ir_Replay r = false →
  ∃ u id, uuid_Parse ws = Ok u ∧ key ≠ [] ∧ held (u, key) hash (w_dbnow w + ttl) (w_db w') ∧
    db_idem (w_db w') !! (u, key) = Some (pending_row id hash (w_dbnow w) ttl).
Proof.
  revert w. induction attempts as [|[n id] attempts IH]; intros w Hx Hr; [done|].
  destruct (decide (key = [])) as [Hk|Hk]; [|destruct (uuid_Parse ws) as [u|e] eqn:Eu].
  1, 3: destruct (BeginOrReplay_bad n id ws key hash ttl w) as [e' He]; [by eauto|]; by rewrite He in Hx.
  rewrite (BeginOrReplay_step n id _ ws u) in Hx by done.
  destruct (with_tx_lenient _ _ w) as [w1 [c|e]] eqn:E; [|done].
  destruct c as [| | | |st body]; cbn [answer] in Hx; try done.
  - injection Hx as <- <-. apply claim_fresh in E as [??]. by exists u, id.
  - apply with_tx_lenient_Ok in E as (v1 & v2 & _ & Hn & Hs & Hdb). destruct (Hdb eq_refl) as [_ Hn2].
    apply claim_now in Hs. rewrite <- Hn, <- Hs, <- Hn2. by eapply IH.
  - apply mbind_Ok in Hx as (w2 & dec & _ & [= <- <-]). done.
Qed.

(** A claim of a held key is never fresh. *)
Lemma BeginOrReplay_of_held attempts ws u key h h' exp ttl w w' r :
  uuid_Parse ws = Ok u → key ≠ [] → held (u, key) h exp (w_db w) →
  Forall (fun a => (a.1 ≤ exp)%Z) attempts →
  BeginOrReplay attempts ws key h' ttl w = (w', Ok r) → ir_Replay r = true ∧ h' = h.
Proof.
  intros Hu Hk (row & Hrow & <- & <-) Hatt Hx. destruct attempts as [|[n id] attempts]; [done|].
  apply Forall_cons_iff in Hatt as [Hn _]. simpl in Hn.
  rewrite (BeginOrReplay_step n id _ ws u) in Hx by done.
  destruct (with_tx_lenient _ _ w) as [w1 [c|e]] eqn:E; [|done].
  apply with_tx_lenient_Ok in E as (v1 & v2 & Hd & _ & Hs & _). rewrite <- Hd in Hrow.
  pose proof (claim_present _ _ _ _ _ _ _ _ _ Hrow Hs) as Hc.
  destruct (Z.ltb_spec (ir_expires_at row) n); [lia|].
  destruct (str_eqb (ir_request_hash row) h') eqn:Eh; go_bool; cbn [negb] in Hc; subst c; [|done].
  destruct (bool_decide _); [done|]. cbn [answer] in Hx.
  apply mbind_Ok in Hx as (w2 & dec & _ & [= <- <-]). done.
Qed.

(** Once claimed, a key is not claimed again before its expiry. *)
Lemma claimed_once attempts ws key h ttl w w' r ops w2 attempts' h' ttl' w3 r' :
  BeginOrReplay attempts ws key h ttl w = (w', Ok r) → ir_Replay r = false →
  Forall (before (w_dbnow w + ttl)) ops →
  w_db w2 = run_idem (w_db w') ops →
  Forall (fun a => (a.1 ≤ w_dbnow w + ttl)%Z) attempts' →
  BeginOrReplay attempts' ws key h' ttl' w2 = (w3, Ok r') →
  ir_Replay r' = true ∧ h' = h.
Proof.
  intros Hx Hr Hops Hd Hatt Hx'.
  destruct (BeginOrReplay_fresh _ _ _ _ _ _ _ _ Hx Hr) as (u & id & Hu & Hk & Hheld & _).
  eapply BeginOrReplay_of_held; [exact Hu|exact Hk| |exact Hatt|exact Hx'].
  rewrite Hd. by apply run_idem_held.
Qed.

(** An idempotency key lets a request run at most once. After a request
    claimed a key (the answer is not a replay), no later request with the key is
    told to run, whatever requests, completions and purges come between, however
    their database calls fail and whichever gateway they run on, one after the
    other and as long as no clock is past the expiry; and a request that gets an answer had the hash of
    the first one. *)
Theorem at_most_once attempts ws key h ttl w w' r ops w2 attempts' h' ttl' w3 r' :
  BeginOrReplay attempts ws key h ttl w = (w', Ok r) → ir_Replay r = false →
  Forall (before (w_dbnow w + ttl)) ops →
  w_db w2 = run_idem (w_db w') ops →
  Forall (fun a => (a.1 ≤ w_dbnow w + ttl)%Z) attempts' →
  BeginOrReplay attempts' ws key h' ttl' w2 = (w3, Ok r') →
  ir_Replay r' = true ∧ h' = h.
Proof. apply claimed_once. Qed.

(** ** Replays *)

(** What the row of a claimed key says about its response. *)
Definition stored (k : uuid * bytes) (h : bytes) (exp : Z) (out : option (Z * bytes)) (d : Db) : Prop :=
  ∃ row, db_idem d !! k = Some row ∧ ir_request_hash row = h ∧ ir_expires_at row = exp ∧
    match out with
    | None => ir_state row = StatePending
    | Some (status, body) => ir_state row ≠ StatePending ∧ ir_status_code row = Some status ∧
                             ir_response_body row = Some (gz_compress body)
    end.

(** The specification: the last completion of the key. *)
Definition spec_step (k : uuid * bytes) (out : option (Z * bytes)) (o : timed_op) : option (Z * bytes) :=
  match to_op o with
  | IComplete ws key status body _ =>
      match uuid_Parse ws with
      | Ok u => if bool_decide ((u, key) = k) then Some (status, body) else out
      | Err _ => out
      end
  | _ => out
  end.

Definition last_completion (k : uuid * bytes) (ops : list timed_op) : option (Z * bytes) :=
  fold_left (spec_step k) ops None.


(** A completion without faults writes the response into the row. *)
Lemma Complete_stored k h exp out ws key status body ok d o :
  to_op o = IComplete ws key status body ok → to_faults o = [] →
  stored k h exp out d → stored k h exp (spec_step k out o) (run_op d o).
Proof.
  intros Ho Hf (row & Hr & Hh & He & Hs). unfold run_op, spec_step. rewrite Ho, Hf.
  unfold Complete, mbind, mlift. destruct (uuid_Parse ws) as [u|e]; [|by exists row].
  unfold gzipBytes. rewrite exec_clean by done. simpl. case_bool_decide as Hk.
  - subst k. eexists. simpl. rewrite lookup_alter_eq, Hr. split; [done|]. split; [done|]. split; [done|].
    simpl. by destruct ok.
  - exists row. simpl. by rewrite lookup_alter_ne.
Qed.

Lemma run_op_stored k h exp out d o :
  before exp o → to_faults o = [] → stored k h exp out d → stored k h exp (spec_step k out o) (run_op d o).
Proof.
  intros Hb Hf Hst. destruct (to_op o) as [att ws key hash ttl|ws key st body ok|] eqn:Ho;
    [|by eapply Complete_stored|]; unfold spec_step, run_op; rewrite Ho.
  - unfold before in Hb. rewrite Ho in Hb. destruct Hst as (row & Hr & Hh & <- & Hs).
    destruct (BeginOrReplay _ _ _ _ _ _) as [w' r] eqn:E. exists row. split; [|done].
    exact (BeginOrReplay_keeps_row k row _ _ _ _ _ Hb _ _ _ E Hr).
  - unfold before in Hb. rewrite Ho in Hb. destruct Hst as (row & Hr & Hh & <- & Hs).
    destruct (PurgeExpired _) as [w' r] eqn:E. exists row. split; [|done].
    eapply (PurgeExpired_keeps_row k row); [|exact E|exact Hr]. exact Hb.
Qed.

Lemma run_idem_stored k h exp ops : ∀ out d,
  Forall (before exp) ops → Forall (fun o => to_faults o = []) ops → stored k h exp out d →
  stored k h exp (fold_left (spec_step k) ops out) (run_idem d ops).
Proof.
  induction ops as [|o ops IH]; intros out d Hb Hf Hd; [done|].
  apply Forall_cons_iff in Hb as [Hb Hbs]. apply Forall_cons_iff in Hf as [Hf Hfs].
  apply IH; [done..|]. by apply run_op_stored.
Qed.

(** Without faults there are none left afterwards. *)
Definition keeps_clean {A} (c : M A) : Prop := ∀ w w' r, c w = (w', r) → clean w → clean w'.

Lemma keeps_clean_exec {A} (f : Z → Db → Db * res error A) : keeps_clean (exec f).
Proof. intros w w' r Hx Hc. rewrite exec_clean in Hx by done. by simplify_eq. Qed.

Lemma keeps_clean_bind {A B} (c : M A) (k : A → M B) :
  keeps_clean c → (∀ a, keeps_clean (k a)) → keeps_clean (mbind c k).
Proof.
  intros Hc Hk w w' r Hx Hw. unfold mbind in Hx. destruct (c w) as [w1 [a|e]] eqn:E; [|simplify_eq; by eapply Hc].
  eapply Hk; [exact Hx|]. by eapply Hc.
Qed.

Lemma keeps_clean_pure {A} (c : M A) : (∀ w, (c w).1 = w) → keeps_clean c.
Proof. intros Hc w w' r Hx Hw. specialize (Hc w). rewrite Hx in Hc. simpl in Hc. by subst. Qed.

Lemma keeps_clean_tx {A} ignored (stmts : M A) : keeps_clean stmts → keeps_clean (with_tx_lenient ignored stmts).
Proof.
  intros Hs w w' r Hx Hw. unfold with_tx_lenient in Hx. rewrite next_fault_clean in Hx by done.
  destruct (stmts w) as [w1 [a|e]] eqn:E; pose proof (Hs _ _ _ E Hw) as Hw1; [|by simplify_eq].
  rewrite next_fault_clean in Hx by done. by simplify_eq.
Qed.

Lemma claim_clean k hash ttl id appNow : keeps_clean (claim_stmts k hash ttl id appNow).
Proof.
  apply keeps_clean_bind; [apply keeps_clean_exec|]. intros n. destruct (n =? 1)%Z; [by apply keeps_clean_pure|].
  apply keeps_clean_bind; [apply keeps_clean_exec|]. intros row.
  destruct (ir_expires_at row <? appNow)%Z; [|by repeat case_match; apply keeps_clean_pure].
  apply keeps_clean_bind; [apply keeps_clean_exec|]. intros. by apply keeps_clean_pure.
Qed.

Lemma BeginOrReplay_clean attempts ws key hash ttl w w' r :
  BeginOrReplay attempts ws key hash ttl w = (w', r) → clean w → clean w'.
Proof.
  revert w w' r. change (keeps_clean (BeginOrReplay attempts ws key hash ttl)).
  induction attempts as [|[n id] attempts IH]; cbn [BeginOrReplay]; [by apply keeps_clean_pure|].
  destruct (str_eqb key []); [by apply keeps_clean_pure|].
  apply keeps_clean_bind.
  { apply keeps_clean_pure. intros w. unfold mwrap, mlift. done. }
  intros u. apply keeps_clean_bind; [apply keeps_clean_tx, claim_clean|].
  intros []; try (by apply keeps_clean_pure); [done|].
  apply keeps_clean_bind; [by apply keeps_clean_pure|intros; by apply keeps_clean_pure].
Qed.

(** A completion without faults, as a step of one caller. *)
Lemma Complete_clean ws u key h exp status body ok out w :
  uuid_Parse ws = Ok u → clean w → stored (u, key) h exp out (w_db w) →
  stored (u, key) h exp (Some (status, body)) (w_db (Complete ws key status body ok w).1).
Proof.
  intros Hu Hc Hst.
  pose proof (Complete_stored (u, key) h exp out ws key status body ok (w_db w)
    {| to_dbnow := w_dbnow w; to_faults := []; to_op := IComplete ws key status body ok |} eq_refl eq_refl Hst) as Hx.
  unfold spec_step, run_op in Hx. simpl in Hx. rewrite Hu, bool_decide_true in Hx by done.
  destruct w as [d n f]. unfold clean in Hc. simpl in *. by subst f.
Qed.

Context `{!GzipLaws}.

(** A request for a held key, without faults, reads the row. *)
Lemma BeginOrReplay_replay attempts n id ws u key h h' exp ttl out w :
  uuid_Parse ws = Ok u → key ≠ [] → clean w → stored (u, key) h exp out (w_db w) → (n ≤ exp)%Z →
  (BeginOrReplay ((n, id) :: attempts) ws key h' ttl w).2 =
  if negb (str_eqb h h') then Err ErrIdempotencyConflict
  else match out with
       | None => Err ErrInProgress
       | Some (status, body) => Ok {| ir_Replay := true; ir_StatusCode := status; ir_Body := body |}
       end.
Proof.
  intros Hu Hk Hc (row & Hr & Hh & He & Hs) Hn. rewrite (BeginOrReplay_step n id _ ws u) by done.
  unfold with_tx_lenient. rewrite next_fault_clean by done.
  assert (claim_stmts (u, key) h' ttl id n w =
          (w, Ok (if negb (str_eqb h h') then Conflict
                  else if bool_decide (ir_state row = StatePending) then InProgress
                  else Stored (ir_status_code row) (ir_response_body row)))) as ->.
  { unfold claim_stmts, mbind at 1. rewrite exec_clean by done. unfold insert_idem. rewrite Hr. simpl.
    unfold mbind at 1. rewrite exec_clean by done. simpl. unfold select_idem. rewrite Hr. simpl.
    rewrite (proj2 (Z.ltb_ge _ _)) by lia. subst h. destruct w; simpl.
    repeat case_match; done. }
  rewrite next_fault_clean by done. destruct (str_eqb h h'); [|done]. cbn [negb].
  destruct out as [[status body]|].
  - destruct Hs as (Hst & Hcode & Hbody). rewrite bool_decide_false by done. rewrite Hcode, Hbody.
    cbn [answer]. unfold mbind, mlift, gunzip, mret. simpl.
    destruct (gz_compress body) as [|b l] eqn:Eg; [by destruct (gz_compress_ne body)|].
    simpl. rewrite <- Eg, gz_read_compress. done.
  - rewrite bool_decide_true by done. done.
Qed.

(** C9: Replays are exact. Once a request has claimed a key, and as long as no
    clock passes the expiry and no call fails, what every later request with the
    key gets is a function of the completions recorded since: a conflict if its
    hash differs, the in-progress error if there is none, and otherwise a replay
    of exactly the status and the body of the last one, through compression and
    storage and whatever other requests, other keys and purges ran between. *)
Theorem replay_exact attempts ws u key h ttl w w' r ops w2 n id rest h' ttl' :
  BeginOrReplay attempts ws key h ttl w = (w', Ok r) → ir_Replay r = false → uuid_Parse ws = Ok u →
  Forall (before (w_dbnow w + ttl)) ops → Forall (fun o => to_faults o = []) ops →
  w_db w2 = run_idem (w_db w') ops → clean w2 → (n ≤ w_dbnow w + ttl)%Z →
  (BeginOrReplay ((n, id) :: rest) ws key h' ttl' w2).2 =
  if negb (str_eqb h h') then Err ErrIdempotencyConflict
  else match last_completion (u, key) ops with
       | None => Err ErrInProgress
       | Some (status, body) => Ok {| ir_Replay := true; ir_StatusCode := status; ir_Body := body |}
       end.
Proof.
  intros Hx Hr Hu Hb Hf Hd Hc Hn.
  destruct (BeginOrReplay_fresh _ _ _ _ _ _ _ _ Hx Hr) as (u' & id' & Hu' & Hk & _ & Hrow).
  assert (u' = u) as -> by congruence.
  eapply BeginOrReplay_replay; [exact Hu|exact Hk|exact Hc| |exact Hn].
  rewrite Hd. apply run_idem_stored; [done..|]. by eexists.
Qed.
End Idem.

(** ** Request hashes *)

Lemma nul_split a b c d :
  x00 ∉ a → x00 ∉ c → a ++ x00 :: b = c ++ x00 :: d → a = c ∧ b = d.
Proof.
  revert c. induction a as [|x a IH]; intros [|y c] Ha Hc E; simpl in *; try done.
  - by injection E as ->.
  - injection E as <- _. destruct Hc. by left.
  - injection E as -> _. destruct Ha. by left.
  - injection E as -> E. apply not_elem_of_cons in Ha as [_ Ha]. apply not_elem_of_cons in Hc as [_ Hc].
    destruct (IH c Ha Hc E) as [-> ->]. done.
Qed.

(** The bytes a request is hashed from. *)
Definition hashed (method path body : bytes) : bytes := method ++ [x00] ++ path ++ [x00] ++ body.

(** Requests with one hash: the same, or the bytes they are hashed from collide. *)
Lemma HashRequest_same m p b m' p' b' :
  x00 ∉ m → x00 ∉ p → x00 ∉ m' → x00 ∉ p' →
  HashRequest m p b = HashRequest m' p' b' →
  (m = m' ∧ p = p' ∧ b = b') ∨
  (hashed m p b ≠ hashed m' p' b' ∧ Sum256 (hashed m p b) = Sum256 (hashed m' p' b')).
Proof.
  intros Hm Hp Hm' Hp' E%hex_encode_inj.
  destruct (decide (hashed m p b = hashed m' p' b')) as [Eq|Ne]; [left|by right].
  unfold hashed in Eq. apply nul_split in Eq as [-> Eq]; [|done..]. apply nul_split in Eq as [-> ->]; done.
Qed.

(** ** A concrete store *)

Module IdemDemo.
#[local] Existing Instance text_uuid.

Definition gz : Gzip := {|
  gz_compress b := x1f :: b;
  gz_read s := match s with x1f :: b => Ok b | _ => Err (errors_New (bs "gzip: invalid header")) end;
|}.

Lemma gz_laws : @GzipLaws gz.
Proof. by split. Qed.

Definition w_at (d : Db) (now : Z) : world := {| w_db := d; w_dbnow := now; w_faults := [] |}.

Definition op (now : Z) (o : idem_op) : timed_op := {| to_dbnow := now; to_faults := []; to_op := o |}.

(** A completion and a purge. *)
Definition ops : list timed_op := [op 20 (IComplete (bs "ws") (bs "K") 200 (bs "{}") true); op 25 IPurge].

Definition begin_op `{Gzip} (now : Z) (c : byte) (hash : bytes) (ttl : Z) (d : Db) :=
  BeginOrReplay [(now, Demo.uid [c]); (now, Demo.uid [c; c])] (bs "ws") (bs "K") hash ttl (w_at d now).
End IdemDemo.

#[local] Existing Instance text_uuid.
#[local] Existing Instance IdemDemo.gz.
#[local] Existing Instance IdemDemo.gz_laws.

Lemma at_most_once_witness :
  ∃ w1 r w2 r2, IdemDemo.begin_op 10 x61 (bs "h") 100 Demo.db0 = (w1, Ok r) ∧
    IdemDemo.begin_op 30 x62 (bs "h") 100
      (run_idem (w_db w1) IdemDemo.ops) = (w2, Ok r2) ∧ ir_Replay r2 = true.
Proof.
  destruct (IdemDemo.begin_op 10 x61 (bs "h") 100 Demo.db0) as [w1 [r|e]] eqn:E1;
    [|apply (f_equal snd) in E1; vm_compute in E1; discriminate E1].
  destruct (IdemDemo.begin_op 30 x62 (bs "h") 100 (run_idem (w_db w1) IdemDemo.ops)) as [w2 [r2|e]] eqn:E2.
  - exists w1, r, w2, r2. split; [reflexivity|]. split; [exact E2|].
    destruct (at_most_once [(10%Z, Demo.uid [x61]); (10%Z, Demo.uid [x61; x61])] (bs "ws") (bs "K") (bs "h") 100
      (IdemDemo.w_at Demo.db0 10) w1 r
      IdemDemo.ops (IdemDemo.w_at (run_idem (w_db w1) IdemDemo.ops) 30)
      [(30%Z, Demo.uid [x62]); (30%Z, Demo.uid [x62; x62])] (bs "h") 100 w2 r2) as [Hr _].
    + exact E1.
    + apply (f_equal (fun p => match p.2 with Ok x => ir_Replay x | Err _ => true end)) in E1.
      vm_compute in E1. symmetry. exact E1.
    + repeat constructor; vm_compute; discriminate.
    + reflexivity.
    + repeat constructor; vm_compute; discriminate.
    + exact E2.
    + exact Hr.
  - exfalso. apply (f_equal fst) in E1. simpl in E1. subst w1.
    apply (f_equal snd) in E2. vm_compute in E2. discriminate E2.
Defined.

Lemma replay_exact_witness :
  ∃ w1, (IdemDemo.begin_op 10 x61 (bs "h") 100 Demo.db0).1 = w1 ∧
    (BeginOrReplay [(30%Z, Demo.uid [x62])] (bs "ws") (bs "K") (bs "h") 100
      (IdemDemo.w_at (run_idem (w_db w1) [IdemDemo.op 20 (IComplete (bs "ws") (bs "K") 201 (bs "{}") true)]) 30)).2 =
    Ok {| ir_Replay := true; ir_StatusCode := 201; ir_Body := bs "{}" |}.
Proof.
  destruct (IdemDemo.begin_op 10 x61 (bs "h") 100 Demo.db0) as [w1 [r|e]] eqn:E1;
    [|apply (f_equal snd) in E1; vm_compute in E1; discriminate E1].
  exists w1. split; [reflexivity|].
  apply (replay_exact [(10%Z, Demo.uid [x61]); (10%Z, Demo.uid [x61; x61])] (bs "ws") (Demo.uid (bs "ws")) (bs "K")
      (bs "h") 100 (IdemDemo.w_at Demo.db0 10) w1 r
      [IdemDemo.op 20 (IComplete (bs "ws") (bs "K") 201 (bs "{}") true)] _ 30 (Demo.uid [x62]) [] (bs "h") 100).
  - exact E1.
  - apply (f_equal (fun p => match p.2 with Ok x => ir_Replay x | Err _ => true end)) in E1.
    vm_compute in E1. symmetry. exact E1.
  - reflexivity.
  - repeat constructor.
  - repeat constructor.
  - reflexivity.
  - reflexivity.
  - vm_compute. discriminate.
Defined.

(** A completion does not name the claim it belongs to. Request A claims the
    key and outlives its expiry, request B (with another body) reclaims the key,
    and A's late completion is stored as B's response: a retry of B, which is
    still running, is answered with what A produced. *)
Theorem late_completion_misfiled :
  let d1 := w_db (IdemDemo.begin_op 10 x61 (bs "hash of A") 100 Demo.db0).1 in
  let '(w2, rB) := IdemDemo.begin_op 200 x62 (bs "hash of B") 100 d1 in
  let d3 := run_op (w_db w2) (IdemDemo.op 201 (IComplete (bs "ws") (bs "K") 200 (bs "A's result") true)) in
  (ir_Replay <$> match rB with Ok r => Some r | Err _ => None end) = Some false ∧
  (IdemDemo.begin_op 202 x63 (bs "hash of B") 100 d3).2 =
    Ok {| ir_Replay := true; ir_StatusCode := 200; ir_Body := bs "A's result" |}.
Proof. by vm_compute. Qed.
