(* ===== verification/IdemConcurrent.v ===== *)
(** * Concurrent claims of idempotency keys

    [BeginOrReplay] of internal/rpc/idempotency.go as it runs against one
    database from many requests and gateways: every statement of its
    transactions is a step of its own, and the steps of the callers interleave
    in any order. The transactions run at PostgreSQL's default isolation level,
    READ COMMITTED ([pgx.TxOptions{}]):

    - a statement sees the rows committed before it; [now()] is the start of
      the transaction;
    - an INSERT waits while another open transaction has inserted or deleted a
      row with the same unique key; a DELETE or UPDATE waits while another has
      deleted the row it is after; a SELECT never waits;
    - what a transaction wrote is seen by the others when it commits.

    [Complete] and [PurgeExpired] are single statements. Idempotency.v has the
    same operations as calls that run one after the other; [solo_run] shows that
    these are runs of this model. *)

From S2P Require Import Prelude GoStrings GoErrors ControlPlane AuthStore Idempotency.

Section Concurrent.
Context `{UuidLib, Gzip}.

(** ** Callers *)

(** A write of an open transaction. *)
Inductive write : Type :=
| WInsert (row : idem_row)
| WDelete.

(** The next call of a caller: [BeginTx], the three statements, [Commit] with
    what was written and how the claim ended; or the call has returned. *)
Inductive pc : Type :=
| PBegin
| PInsert (now : Z)
| PSelect
| PDelete
| PCommit (w : option write) (c : claim)
| PDone (r : res error IdempotencyResult).

Record thread : Type := {
  th_ws : bytes;
  th_key : bytes;
  th_hash : bytes;
  th_ttl : Z;
  th_pc : pc;
}.

Definition at_pc (th : thread) (p : pc) : thread :=
  {| th_ws := th_ws th; th_key := th_key th; th_hash := th_hash th; th_ttl := th_ttl th; th_pc := p |}.

(** The checks before the transaction; the row a caller is after. *)
Definition request_key (ws key : bytes) : res error (uuid * bytes) :=
  if str_eqb key [] then Err (errors_New (bs "BeginOrReplay: empty key")) else
  match uuid_Parse ws with
  | Err e => Err (wrapf (bs "workspace_id: ") e)
  | Ok u => Ok (u, key)
  end.

Definition th_row (th : thread) : res error (uuid * bytes) := request_key (th_ws th) (th_key th).

(** The committed tables and the callers. *)
Record conf : Type := {
  c_db : Db;
  c_threads : gmap nat thread;
}.

(** ** Waiting *)

Definition on_row (k : uuid * bytes) (th : thread) : bool :=
  match th_row th with
  | Ok k' => bool_decide (k' = k)
  | Err _ => false
  end.

Definition pending_write (th : thread) : option write :=
  match th_pc th with
  | PCommit w _ => w
  | _ => None
  end.

Definition is_delete (w : write) : bool :=
  match w with
  | WDelete => true
  | WInsert _ => false
  end.

Definition inserts_id (id : uuid) (w : write) : bool :=
  match w with
  | WInsert row => bool_decide (ir_id row = id)
  | WDelete => false
  end.

(** Some transaction but that of [skip] has an open write of the kind [p] for
    which [q] holds of the caller. *)
Definition has_open (c : conf) (skip : option nat) (q : thread → bool) (p : write → bool) : bool :=
  existsb (fun '(t, th) =>
    negb (bool_decide (skip = Some t)) && q th &&
    match pending_write th with
    | Some w => p w
    | None => false
    end) (map_to_list (c_threads c)).

(** The INSERT checks the unique key [(workspace_id, key)] and the primary key. *)
Definition insert_waits (c : conf) (t : nat) (k : uuid * bytes) (id : uuid) : bool :=
  has_open c (Some t) (on_row k) (fun _ => true) || has_open c (Some t) (fun _ => true) (inserts_id id).

Definition delete_waits (c : conf) (t : nat) (k : uuid * bytes) : bool :=
  has_open c (Some t) (on_row k) is_delete.

(** ** Steps *)

(** What one call meets: the server's clock, the gateway's clock, the UUID drawn
    and the outcome of the call. *)
Record input : Type := { i_now : Z; i_app : Z; i_id : uuid; i_fault : fault }.

(** What the caller makes of a claim that is decided. *)
Definition finish (c : claim) : pc :=
  match c with
  | Fresh => PDone (Ok {| ir_Replay := false; ir_StatusCode := 0; ir_Body := [] |})
  | Stale => PBegin
  | Conflict => PDone (Err ErrIdempotencyConflict)
  | InProgress => PDone (Err ErrInProgress)
  | Stored st body =>
      match gunzip (default [] body) with
      | Err e => PDone (Err e)
      | Ok decoded => PDone (Ok {| ir_Replay := true; ir_StatusCode := default 200%Z st; ir_Body := decoded |})
      end
  end.

(** The branches after the SELECT. *)
Definition decide_row (row : idem_row) (hash : bytes) (appNow : Z) : pc :=
  if (ir_expires_at row <? appNow)%Z then PDelete
  else if negb (str_eqb (ir_request_hash row) hash) then PCommit None Conflict
  else if bool_decide (ir_state row = StatePending) then PCommit None InProgress
  else PCommit None (Stored (ir_status_code row) (ir_response_body row)).

Definition apply_write (k : uuid * bytes) (w : option write) (d : Db) : Db :=
  match w with
  | None => d
  | Some (WInsert row) => set_idem d (<[k := row]> (db_idem d))
  | Some WDelete => set_idem d (delete k (db_idem d))
  end.

(** A statement inside the transaction: an error rolls back what was written
    (nothing was yet) and is returned. *)
Definition statement (f : fault) (p : option pc) : option pc :=
  match f with
  | NoFault => p
  | Fail e | Ambiguous e => Some (PDone (Err e))
  end.

(** The next call of caller [t]: the tables and its next state, or [None] while
    it waits or when it has returned. *)
Definition call (c : conf) (t : nat) (th : thread) (k : uuid * bytes) (i : input) : option (Db * pc) :=
  let d := c_db c in
  match th_pc th with
  | PBegin => pair d <$> statement (i_fault i) (Some (PInsert (i_now i)))
  | PInsert now =>
      let row := pending_row (i_id i) (th_hash th) now (th_ttl th) in
      pair d <$> statement (i_fault i)
        (if insert_waits c t k (i_id i) then None
         else match (insert_idem k row d).2 with
              | Err e => Some (PDone (Err e))
              | Ok n => if (n =? 1)%Z then Some (PCommit (Some (WInsert row)) Fresh) else Some PSelect
              end)
  | PSelect =>
      pair d <$> statement (i_fault i)
        (match select_idem k d with
         | Err e => Some (PDone (Err e))
         | Ok row => Some (decide_row row (th_hash th) (i_app i))
         end)
  | PDelete =>
      pair d <$> statement (i_fault i)
        (if delete_waits c t k then None
         else Some (PCommit (match db_idem d !! k with Some _ => Some WDelete | None => None end) Stale))
  | PCommit w cl =>
      let failed e := if commit_ignored cl then finish cl else PDone (Err e) in
      Some (match i_fault i with
            | NoFault => (apply_write k w d, finish cl)
            | Fail e => (d, failed e)
            | Ambiguous e => (apply_write k w d, failed e)
            end)
  | PDone _ => None
  end.

Definition run_thread (c : conf) (t : nat) (i : input) : option conf :=
  match c_threads c !! t with
  | None => None
  | Some th =>
      match th_row th, th_pc th with
      | _, PDone _ => None
      | Err e, _ => Some {| c_db := c_db c; c_threads := <[t := at_pc th (PDone (Err e))]> (c_threads c) |}
      | Ok k, _ =>
          '(d, p) ← call c t th k i;
          Some {| c_db := d; c_threads := <[t := at_pc th p]> (c_threads c) |}
      end
  end.

(** ** The system *)

Inductive action : Type :=
| ABegin (t : nat) (ws key hash : bytes) (ttl : Z)
| ARun (t : nat) (i : input)
| AComplete (ws key : bytes) (status : Z) (body : bytes) (ok : bool) (now : Z) (f : fault)
| APurge (now : Z) (f : fault).

(** The UPDATE of [Complete] waits for an open DELETE of its row. *)
Definition complete_waits (c : conf) (ws key : bytes) : bool :=
  match uuid_Parse ws with
  | Ok u => has_open c None (on_row (u, key)) is_delete
  | Err _ => false
  end.

(** The DELETE of [PurgeExpired] waits for the open DELETEs of expired rows. *)
Definition purge_waits (c : conf) (now : Z) : bool :=
  existsb (fun '(k, row) =>
    (ir_expires_at row <? now)%Z && has_open c None (on_row k) is_delete) (map_to_list (db_idem (c_db c))).

Definition set_c_db (c : conf) (d : Db) : conf := {| c_db := d; c_threads := c_threads c |}.

Definition single (c : conf) (now : Z) (f : fault) {A} (m : M A) : conf :=
  set_c_db c (w_db (m {| w_db := c_db c; w_dbnow := now; w_faults := [f] |}).1).

Definition step (c : conf) (a : action) : option conf :=
  match a with
  | ABegin t ws key hash ttl =>
      match c_threads c !! t with
      | Some _ => None
      | None =>
          let th := {| th_ws := ws; th_key := key; th_hash := hash; th_ttl := ttl; th_pc := PBegin |} in
          Some {| c_db := c_db c; c_threads := <[t := th]> (c_threads c) |}
      end
  | ARun t i => run_thread c t i
  | AComplete ws key status body ok now f =>
      if complete_waits c ws key then None else Some (single c now f (Complete ws key status body ok))
  | APurge now f =>
      if purge_waits c now then None else Some (single c now f PurgeExpired)
  end.

Fixpoint steps (c : conf) (acts : list action) : option conf :=
  match acts with
  | [] => Some c
  | a :: acts => c' ← step c a; steps c' acts
  end.

(** ** Open writes *)

Lemma has_open_false c skip q p t th w :
  has_open c skip q p = false → c_threads c !! t = Some th → skip ≠ Some t → q th = true →
  pending_write th = Some w → p w = false.
Proof.
  intros Hf Ht Hne Hq Hw. destruct (p w) eqn:Hp; [|done]. rewrite <- Hf. symmetry.
  apply existsb_exists. exists (t, th). split.
  - apply list_elem_of_In, elem_of_map_to_list. done.
  - rewrite Hq, Hw, Hp, bool_decide_false by done. done.
Qed.

Lemma has_open_true c skip q p :
  has_open c skip q p = true →
  ∃ t th w, c_threads c !! t = Some th ∧ skip ≠ Some t ∧ q th = true ∧ pending_write th = Some w ∧ p w = true.
Proof.
  intros ([t th] & Hin & Hx)%existsb_exists. apply list_elem_of_In, elem_of_map_to_list in Hin.
  apply andb_true_iff in Hx as [[Hs Hq]%andb_true_iff Hw]. apply negb_true_iff, bool_decide_eq_false in Hs.
  destruct (pending_write th) as [w|] eqn:Ew; [|done]. by exists t, th, w.
Qed.

Lemma on_row_spec k th : on_row k th = true ↔ th_row th = Ok k.
Proof.
  unfold on_row. destruct (th_row th) as [k'|e]; [|naive_solver]. rewrite bool_decide_eq_true. naive_solver.
Qed.

(** ** One claim in a window

    Between the clocks [lo] and [lim], not more than a time to live apart. *)

Definition in_window (k : uuid * bytes) (lo lim : Z) (a : action) : Prop :=
  match a with
  | ABegin _ ws key _ ttl => request_key ws key = Ok k → (lim ≤ lo + ttl)%Z
  | ARun _ i => (lo ≤ i_now i)%Z ∧ (i_app i ≤ lim)%Z
  | AComplete _ _ _ _ _ _ _ => True
  | APurge now _ => (now ≤ lim)%Z
  end.

(** What a claim leaves in the table: whose it is and until when. *)
Definition claim_of (k : uuid * bytes) (d : Db) : option (bytes * Z) :=
  (fun row => (ir_request_hash row, ir_expires_at row)) <$> db_idem d !! k.

Definition fresh (th : thread) : Prop := ∃ r, th_pc th = PDone (Ok r) ∧ ir_Replay r = false.

(** Callers that have the key or will have it when they commit. *)
Definition winner (th : thread) : Prop := fresh th ∨ ∃ row c, th_pc th = PCommit (Some (WInsert row)) c.

Definition pc_ok (lo lim : Z) (v : option (bytes * Z)) (h : bytes) (p : pc) : Prop :=
  match p with
  | PBegin | PSelect => True
  | PInsert now => (lo ≤ now)%Z
  | PDelete => False
  | PCommit (Some (WInsert row)) Fresh => v = None ∧ ir_request_hash row = h ∧ (lim ≤ ir_expires_at row)%Z
  | PCommit None (Stored _ _) => ∃ e, v = Some (h, e)
  | PCommit None Conflict | PCommit None InProgress => True
  | PCommit _ _ => False
  | PDone (Ok _) => ∃ e, v = Some (h, e)
  | PDone (Err _) => True
  end.

Record window_inv (k : uuid * bytes) (lo lim : Z) (c : conf) : Prop := {
  wi_row h e : claim_of k (c_db c) = Some (h, e) → (lim ≤ e)%Z;
  wi_pc t th : c_threads c !! t = Some th → th_row th = Ok k →
    (lim ≤ lo + th_ttl th)%Z ∧ pc_ok lo lim (claim_of k (c_db c)) (th_hash th) (th_pc th);
  wi_one t t' th th' : c_threads c !! t = Some th → c_threads c !! t' = Some th' →
    th_row th = Ok k → th_row th' = Ok k → winner th → winner th' → t = t';
}.

(** Steps that leave the claims of [k] alone. *)
Lemma window_same_db k lo lim c d :
  claim_of k d = claim_of k (c_db c) → window_inv k lo lim c → window_inv k lo lim (set_c_db c d).
Proof. intros Hd [Hr Hp Ho]. split; simpl; [rewrite Hd; done|rewrite Hd; done|done]. Qed.

Lemma winner_done r : winner r → ∀ e, th_pc r ≠ PDone (Err e).
Proof. intros [(x & Hx & _)|(row & c & Hx)] e; rewrite Hx; congruence. Qed.

(** The caller [t] moves; if it is after [k] its new state fits, and it is no
    winner unless it was one or nobody is. *)
Lemma window_move k lo lim c t th th' :
  window_inv k lo lim c → c_threads c !! t = Some th ∨ c_threads c !! t = None →
  (th_row th' = Ok k → (lim ≤ lo + th_ttl th')%Z ∧ pc_ok lo lim (claim_of k (c_db c)) (th_hash th') (th_pc th')) →
  (th_row th' = Ok k → winner th' →
    ∀ t2 th2, t2 ≠ t → c_threads c !! t2 = Some th2 → th_row th2 = Ok k → ¬ winner th2) →
  window_inv k lo lim {| c_db := c_db c; c_threads := <[t := th']> (c_threads c) |}.
Proof.
  intros [Hr Hp Ho] Ht Hpc Hw. split; simpl; [done| |].
  - intros t2 th2. rewrite lookup_insert_Some. intros [[<- <-]|[Hne H2]] Hk; [by apply Hpc|by eapply Hp].
  - intros t1 t2 th1 th2. rewrite !lookup_insert_Some.
    intros [[<- <-]|[N1 H1]] [[<- <-]|[N2 H2]] K1 K2 W1 W2; [done| | |by eapply Ho].
    + exfalso. by eapply (Hw K1 W1 t2 th2).
    + exfalso. by eapply (Hw K2 W2 t1 th1).
Qed.

(** Completions and purges inside the window. *)
Lemma claim_of_Complete k ws key status body ok w :
  claim_of k (w_db (Complete ws key status body ok w).1) = claim_of k (w_db w).
Proof.
  unfold Complete, mbind, mlift, gzipBytes. destruct (uuid_Parse ws) as [u|e]; [|done].
  destruct (exec _ w) as [w' r] eqn:E. simpl.
  refine (preserves_exec (fun d => claim_of k d = claim_of k (w_db w)) _ _ _ _ _ E eq_refl).
  intros now d <-. unfold claim_of. simpl. destruct (decide ((u, key) = k)) as [<-|Hne].
  - rewrite lookup_alter_eq. by destruct (db_idem d !! (u, key)).
  - by rewrite lookup_alter_ne.
Qed.

Lemma claim_of_Purge k lim w :
  (∀ h e, claim_of k (w_db w) = Some (h, e) → (lim ≤ e)%Z) → (w_dbnow w ≤ lim)%Z →
  claim_of k (w_db (PurgeExpired w).1) = claim_of k (w_db w).
Proof.
  intros Hr Hn. unfold claim_of in *. destruct (PurgeExpired w) as [w' r] eqn:E. simpl.
  destruct (db_idem (w_db w) !! k) as [row|] eqn:Ek.
  - pose proof (PurgeExpired_keeps_row k row w w' r) as Hk. unfold has_row in Hk. rewrite Hk; [done| |done..].
    specialize (Hr _ _ eq_refl). lia.
  - assert (preserves (fun d => db_idem d !! k = None) PurgeExpired) as Hk.
    { apply preserves_exec. intros now d Hd. simpl. apply map_lookup_filter_None. by left. }
    by rewrite (Hk _ _ _ E Ek).
Qed.

(** A caller after another row does not touch [k]. *)
Lemma claim_of_apply_ne k k' w d : k' ≠ k → claim_of k (apply_write k' w d) = claim_of k d.
Proof.
  intros Hne. unfold claim_of. destruct w as [[row|]|]; simpl; [|by rewrite lookup_delete_ne|done].
  by rewrite lookup_insert_ne.
Qed.

Lemma call_db_ne c t th k k' i d p :
  k' ≠ k → call c t th k' i = Some (d, p) → claim_of k d = claim_of k (c_db c).
Proof.
  intros Hne Hx. unfold call in Hx.
  destruct (th_pc th) as [|now| | |w cl|r];
    try (apply fmap_Some in Hx as (p' & _ & [= -> ->]); done); [|done].
  destruct (i_fault i); simplify_eq; try done; by apply claim_of_apply_ne.
Qed.

(** The calls of a caller after [k] that leave the tables alone. *)
Lemma call_keeps k lo lim c t th i p :
  window_inv k lo lim c → c_threads c !! t = Some th → th_row th = Ok k →
  (lo ≤ i_now i)%Z → (i_app i ≤ lim)%Z →
  call c t th k i = Some (c_db c, p) → (∀ w cl, th_pc th ≠ PCommit w cl) →
  pc_ok lo lim (claim_of k (c_db c)) (th_hash th) p ∧
  (winner (at_pc th p) → ∀ t2 th2, t2 ≠ t → c_threads c !! t2 = Some th2 → th_row th2 = Ok k → ¬ winner th2).
Proof.
  intros Hinv Ht Hk Hlo Happ Hx Hnc. destruct (wi_pc _ _ _ _ Hinv t th Ht Hk) as [Httl Hpc].
  assert (∀ e, winner (at_pc th (PDone (Err e))) → False) as Herr
    by (intros e Hw; exact (winner_done _ Hw e eq_refl)).
  assert (∀ q, (∀ r, q ≠ PDone r) → (∀ w cl, q ≠ PCommit (Some (WInsert w)) cl) → ¬ winner (at_pc th q)) as Hnw.
  { intros q Hd Hc [(x & Hx' & _)|(row & cl & Hx')]; simpl in Hx'; [by eapply Hd|by eapply Hc]. }
  unfold call in Hx. destruct (th_pc th) as [|now| | |w cl|r] eqn:Epc; simpl in Hpc; [..|by destruct (Hnc w cl)|done];
    apply fmap_Some in Hx as (p' & Hs & [= <-]); unfold statement in Hs;
    (destruct (i_fault i) as [|e|e]; [|simplify_eq; split; [done|intros []%Herr]..]).
  - simplify_eq. split; [done|]. intros Hw; exfalso; eapply Hnw; [| |exact Hw]; done.
  - destruct (insert_waits _ _ _ _) eqn:Ew; [done|]. unfold insert_idem in Hs.
    destruct (db_idem (c_db c) !! k) as [row|] eqn:Er; simpl in Hs.
    { simplify_eq. split; [done|]. intros Hw; exfalso; eapply Hnw; [| |exact Hw]; done. }
    destruct (existsb _ _); [simplify_eq/=; split; [done|intros []%Herr]|].
    destruct (negb _); [simplify_eq/=; split; [done|intros []%Herr]|]. simplify_eq/=.
    assert (claim_of k (c_db c) = None) as Hnone by (unfold claim_of; by rewrite Er).
    rewrite Hnone. split; [split; [done|]; split; [done|]; simpl; lia|].
    intros _ t2 th2 Hne H2 K2 [(r & Hr & _)|(row & cl & Hc)].
    + destruct (wi_pc _ _ _ _ Hinv t2 th2 H2 K2) as [_ Hp2]. rewrite Hr, Hnone in Hp2. destruct Hp2. done.
    + apply orb_false_iff in Ew as [Ew _].
      assert (pending_write th2 = Some (WInsert row)) as Hw2 by (unfold pending_write; by rewrite Hc).
      pose proof (has_open_false _ _ _ _ t2 th2 _ Ew H2 ltac:(congruence) (proj2 (on_row_spec _ _) K2) Hw2). done.
  - unfold select_idem in Hs. destruct (db_idem (c_db c) !! k) as [row|] eqn:Er; simplify_eq;
      [|split; [done|intros []%Herr]].
    assert (claim_of k (c_db c) = Some (ir_request_hash row, ir_expires_at row)) as Hc
      by (unfold claim_of; by rewrite Er).
    pose proof (wi_row _ _ _ _ Hinv _ _ Hc) as Hle. unfold decide_row. rewrite Hc, (proj2 (Z.ltb_ge _ _)) by lia.
    destruct (str_eqb _ _) eqn:Eh; go_bool; simpl; [|split; [done|intros Hw; exfalso; eapply Hnw; [| |exact Hw]; done]].
    destruct (bool_decide _); (split; [|intros Hw; exfalso; eapply Hnw; [| |exact Hw]; done]); [done|]. simpl. rewrite Eh. by eexists.
  - done.
Qed.

(** The commit of the row that claims the key, whatever the caller is told. *)
Lemma window_commit k lo lim c t th row p :
  window_inv k lo lim c → c_threads c !! t = Some th → th_row th = Ok k →
  th_pc th = PCommit (Some (WInsert row)) Fresh → p = finish Fresh ∨ (∃ e, p = PDone (Err e)) →
  window_inv k lo lim
    {| c_db := apply_write k (Some (WInsert row)) (c_db c); c_threads := <[t := at_pc th p]> (c_threads c) |}.
Proof.
  intros [Hr Hp Ho] Ht Hk Hpc Hfin. destruct (Hp t th Ht Hk) as [Httl Hok]. rewrite Hpc in Hok.
  destruct Hok as (Hnone & Hh & Hle).
  assert (claim_of k (apply_write k (Some (WInsert row)) (c_db c)) = Some (th_hash th, ir_expires_at row)) as Hc.
  { unfold claim_of. simpl. rewrite lookup_insert_eq. simpl. by rewrite Hh. }
  assert (winner th) as Hwt by (right; eauto).
  assert (∀ t2 th2, t2 ≠ t → c_threads c !! t2 = Some th2 → th_row th2 = Ok k → ¬ winner th2) as Hothers
    by (intros t2 th2 Hne H2 K2 W2; apply Hne; by eapply (Ho t2 t)).
  split; cbn [c_db c_threads]; rewrite ?Hc.
  - intros h e [= <- <-]. done.
  - intros t2 th2. rewrite lookup_insert_Some. intros [[<- <-]|[Hne H2]] K2.
    + split; [done|]. destruct Hfin as [->|[e ->]]; [by eexists|done].
    + destruct (Hp t2 th2 H2 K2) as [Ht2 Hp2]. split; [done|]. rewrite Hnone in Hp2.
      destruct (th_pc th2) as [|now| | |[[row2|]|] []|[r|e]] eqn:E2; try done.
      * exfalso. eapply (Hothers t2 th2); [done..|]. right. eauto.
      * by destruct Hp2.
      * by destruct Hp2.
  - intros t1 t2 th1 th2. rewrite !lookup_insert_Some.
    intros [[<- <-]|[N1 H1]] [[<- <-]|[N2 H2]] K1 K2 W1 W2; [done|..]; exfalso; eapply Hothers; try eassumption; done.
Qed.

(** The other commits: the caller had found a row. *)
Lemma finish_ok lo lim v h cl :
  pc_ok lo lim v h (PCommit None cl) →
  pc_ok lo lim v h (finish cl) ∧ (∀ r, finish cl = PDone (Ok r) → ir_Replay r = true) ∧
  (∀ w cl', finish cl ≠ PCommit w cl').
Proof.
  destruct cl as [| | | |st body]; simpl; intros Hp; try done.
  destruct (gunzip _) as [dec|e]; (split; [done|]); (split; [|done]); by intros r [= <-].
Qed.

Lemma window_commit_read k lo lim c t th cl p :
  window_inv k lo lim c → c_threads c !! t = Some th → th_row th = Ok k →
  th_pc th = PCommit None cl → p = finish cl ∨ (∃ e, p = PDone (Err e)) →
  window_inv k lo lim {| c_db := c_db c; c_threads := <[t := at_pc th p]> (c_threads c) |}.
Proof.
  intros Hinv Ht Hk Hpc Hp. destruct (wi_pc _ _ _ _ Hinv t th Ht Hk) as [Httl Hok]. rewrite Hpc in Hok.
  destruct (finish_ok _ _ _ _ _ Hok) as (Hf & Hrep & Hnc).
  apply (window_move _ _ _ _ _ th); [done|by left| |].
  - intros _. split; [done|]. by destruct Hp as [->|[e ->]].
  - intros _ [(r & Hr & Hfr)|(row & cl' & Hr)]; exfalso; simpl in Hr; destruct Hp as [->|[e ->]]; try done.
    + apply Hrep in Hr. congruence.
    + by eapply Hnc.
Qed.

Lemma run_thread_window k lo lim c t i c' :
  (lo ≤ i_now i)%Z → (i_app i ≤ lim)%Z → window_inv k lo lim c →
  run_thread c t i = Some c' → window_inv k lo lim c'.
Proof.
  intros Hlo Happ Hinv Hx. unfold run_thread in Hx. destruct (c_threads c !! t) as [th|] eqn:Ht; [|done].
  destruct (th_row th) as [k'|e] eqn:Ek.
  2: { assert (c' = {| c_db := c_db c; c_threads := <[t := at_pc th (PDone (Err e))]> (c_threads c) |}) as ->
         by (destruct (th_pc th); congruence).
       apply (window_move _ _ _ _ _ th); [done|by left| |]; unfold th_row, at_pc in *; simpl; congruence. }
  assert (∃ d p, call c t th k' i = Some (d, p) ∧
            c' = {| c_db := d; c_threads := <[t := at_pc th p]> (c_threads c) |}) as (d & p & Hc & ->).
  { destruct (th_pc th); [..|done]; apply bind_Some in Hx as ([d p] & Hc & [= <-]); eauto. }
  destruct (decide (k' = k)) as [->|Hne].
  2: { apply (window_same_db k lo lim _ d) in Hinv; [|by eapply call_db_ne].
       apply (window_move k lo lim (set_c_db c d) t th (at_pc th p)); [done|by left| |];
         unfold th_row, at_pc in *; simpl; congruence. }
  destruct (wi_pc _ _ _ _ Hinv t th Ht Ek) as [Httl Hpc].
  destruct (th_pc th) as [| | | |w cl|] eqn:Epc.
  5: { unfold call in Hc. rewrite Epc in Hc.
       destruct w as [[row|]|]; [destruct cl; try done| by destruct cl|].
       - destruct (i_fault i) as [|e|e]; simplify_eq; [by eapply window_commit; eauto| |by eapply window_commit; eauto].
         apply (window_move _ _ _ _ _ th); [done|by left|done|]. intros _ Hw. by destruct (winner_done _ Hw e).
       - assert (d = c_db c) as -> by (destruct (i_fault i); by simplify_eq).
         eapply window_commit_read; [done..|].
         destruct (i_fault i); simplify_eq; [eauto|destruct (commit_ignored cl); eauto..]. }
  all: assert (d = c_db c) as -> by (unfold call in Hc; rewrite Epc in Hc;
    first [done | apply fmap_Some in Hc as (p' & _ & [= -> ->]); done]).
  all: destruct (call_keeps k lo lim c t th i p) as [Hok Hw]; [try done; by rewrite ?Epc..|].
  all: apply (window_move _ _ _ _ _ th); [done|by left|done|by intros _].
Qed.

Lemma step_window k lo lim c a c' :
  in_window k lo lim a → window_inv k lo lim c → step c a = Some c' → window_inv k lo lim c'.
Proof.
  intros Ha Hinv Hx. destruct a as [t ws key hash ttl|t i|ws key status body ok now f|now f]; simpl in Ha, Hx.
  - destruct (c_threads c !! t) eqn:Et; [done|]. injection Hx as <-.
    apply (window_move _ _ _ _ _ {| th_ws := ws; th_key := key; th_hash := hash; th_ttl := ttl; th_pc := PBegin |});
      [done|by right|by split; [apply Ha|]|]. intros _ [(r & [=] & _)|(row & cl & [=])].
  - destruct Ha. by eapply run_thread_window.
  - destruct (complete_waits _ _ _); [done|]. injection Hx as <-. apply window_same_db; [|done].
    by rewrite claim_of_Complete.
  - destruct (purge_waits _ _); [done|]. injection Hx as <-. apply window_same_db; [|done].
    rewrite (claim_of_Purge k lim); [done|exact (wi_row _ _ _ _ Hinv)|done].
Qed.

Lemma steps_window k lo lim acts : ∀ c c',
  Forall (in_window k lo lim) acts → window_inv k lo lim c → steps c acts = Some c' → window_inv k lo lim c'.
Proof.
  induction acts as [|a acts IH]; intros c c' Hw Hinv Hx; simpl in Hx; [congruence|].
  apply Forall_cons_iff in Hw as [Ha Hw]. apply bind_Some in Hx as (c1 & H1 & Hx).
  eapply IH; [done| |done]. by eapply step_window.
Qed.

(** Nobody has used the key, or is using it. *)
Definition unused (k : uuid * bytes) (c : conf) : Prop :=
  db_idem (c_db c) !! k = None ∧ ∀ t th, c_threads c !! t = Some th → th_row th ≠ Ok k.

(** A new idempotency key lets one request run, however many requests
    race for it. From a state in which nobody uses the key, in every
    interleaving of the statements of any number of callers, completions and
    purges, with any calls failing (a commit may fail and have happened), as
    long as no clock is a time to live later than the first: at most one caller
    is told to run its request; and every caller that gets an answer, its own to
    compute or a replay, sent the same request hash. *)
Theorem first_use_once k lo lim c acts c' t t' th th' r r' :
  unused k c → Forall (in_window k lo lim) acts → steps c acts = Some c' →
  c_threads c' !! t = Some th → c_threads c' !! t' = Some th' → th_row th = Ok k → th_row th' = Ok k →
  th_pc th = PDone (Ok r) → th_pc th' = PDone (Ok r') →
  th_hash th = th_hash th' ∧ (ir_Replay r = false → ir_Replay r' = false → t = t').
Proof.
  intros [Hn Hu] Hw Hx Ht Ht' Hk Hk' Hr Hr'.
  assert (window_inv k lo lim c) as Hinv.
  { split.
    - intros h e. unfold claim_of. by rewrite Hn.
    - intros t0 th0 H0' Hk0. by destruct (Hu _ _ H0' Hk0).
    - intros t0 t1 th0 th1 H0' _ Hk0. by destruct (Hu _ _ H0' Hk0). }
  pose proof (steps_window _ _ _ _ _ _ Hw Hinv Hx) as [_ Hp Ho]. split.
  - destruct (Hp _ _ Ht Hk) as [_ H1]. destruct (Hp _ _ Ht' Hk') as [_ H2]. rewrite Hr in H1. rewrite Hr' in H2.
    destruct H1 as [e1 E1], H2 as [e2 E2]. congruence.
  - intros F F'. apply (Ho _ _ _ _ Ht Ht' Hk Hk'); left; by eexists.
Qed.

(** ** Nobody waits for ever *)

Lemma finish_no_write cl th : pending_write (at_pc th (finish cl)) = None.
Proof. destruct cl; try done. unfold finish, pending_write. simpl. by destruct (gunzip _). Qed.

(** A commit does not wait, and afterwards nothing is held. *)
Definition can_finish (c : conf) (t : nat) : Prop :=
  ∀ i, ∃ c' th, step c (ARun t i) = Some c' ∧ c_threads c' !! t = Some th ∧ pending_write th = None.

Lemma commit_can_finish c t th w cl :
  c_threads c !! t = Some th → th_pc th = PCommit w cl → can_finish c t.
Proof.
  intros Ht Hpc i. simpl. unfold run_thread, call. rewrite Ht, Hpc.
  destruct (th_row th) as [k|e]; [destruct (i_fault i); [|destruct (commit_ignored cl)..]|];
    eexists _, _; (split; [done|]); simpl; rewrite lookup_insert_eq; (split; [done|]); by rewrite ?finish_no_write.
Qed.

Lemma has_open_waits c skip q p :
  has_open c skip q p = true →
  ∃ t' th' w cl, skip ≠ Some t' ∧ c_threads c !! t' = Some th' ∧ th_pc th' = PCommit (Some w) cl ∧ q th' = true ∧ p w = true ∧
    can_finish c t'.
Proof.
  intros (t' & th' & w & Ht' & Hne & Hq & Hw & Hp)%has_open_true. unfold pending_write in Hw.
  destruct (th_pc th') as [| | | |w' cl|] eqn:E; try done. subst w'. exists t', th', w, cl.
  split; [congruence|]. repeat (split; [done|]). by eapply commit_can_finish.
Qed.

(** The transaction of [th] has written the row [k], or a row with the id [id], and
    has only its commit left. *)
Definition holds (k : uuid * bytes) (id : option uuid) (th : thread) : Prop :=
  ∃ w cl, th_pc th = PCommit (Some w) cl ∧ (th_row th = Ok k ∨ ∃ i, id = Some i ∧ inserts_id i w = true).

Lemma open_row_holds c t k id p :
  has_open c (Some t) (on_row k) p = true →
  ∃ t' th', t' ≠ t ∧ c_threads c !! t' = Some th' ∧ holds k id th' ∧ can_finish c t'.
Proof.
  intros (t' & th' & w & cl & Hne & Ht & Hp & Hq & _ & Hf)%has_open_waits. exists t', th'. split; [congruence|].
  split; [done|]. split; [|done]. exists w, cl. split; [done|]. left. by apply on_row_spec.
Qed.

(** A caller that has not returned can make its next call, or waits for one that
    has only its commit left. *)
Lemma call_or_wait c t th i :
  c_threads c !! t = Some th → (∀ r, th_pc th ≠ PDone r) →
  is_Some (step c (ARun t i)) ∨
  ∃ k t' th', th_row th = Ok k ∧ t' ≠ t ∧ c_threads c !! t' = Some th' ∧ holds k (Some (i_id i)) th' ∧ can_finish c t'.
Proof.
  intros Ht Hnd. simpl. unfold run_thread at 1. rewrite Ht.
  destruct (th_row th) as [k|e] eqn:Ek; [|left; destruct (th_pc th) as [| | | | |r]; by eauto; destruct (Hnd r)].
  destruct (call c t th k i) as [[d p]|] eqn:Ec;
    [left; destruct (th_pc th) as [| | | | |r]; simpl; by eauto; destruct (Hnd r)|].
  right. exists k. unfold call in Ec. destruct (th_pc th) as [|now| | |w cl|r] eqn:E; [..|by destruct (Hnd r)];
    [| | | |done]; apply fmap_None in Ec; destruct (i_fault i); try done; simpl in Ec.
  - unfold insert_waits in Ec. destruct (has_open c _ (on_row k) _) eqn:E1.
    { destruct (open_row_holds _ _ _ (Some (i_id i)) _ E1) as (t' & th' & Hw). eauto. }
    destruct (has_open c _ _ (inserts_id _)) eqn:E2; [|by repeat case_match].
    apply has_open_waits in E2 as (t' & th' & w & cl & Hne & Ht' & Hp & _ & Hid & Hf). exists t', th'. split; [done|].
    split; [congruence|]. split; [done|]. split; [|done]. exists w, cl. eauto.
  - by repeat case_match.
  - unfold delete_waits in Ec. destruct (has_open c _ _ _) eqn:E1; [|done].
    destruct (open_row_holds _ _ _ (Some (i_id i)) _ E1) as (t' & th' & Hw). eauto.
Qed.

(** Claims do not deadlock. A caller that has not returned can make its
    next call at once, or the call waits for the transaction of another caller
    that has written the same row, or a row with the same id, and has only its
    [Commit] left, which never waits and after which that caller holds nothing any
    more. *)
Theorem never_stuck c t th i :
  c_threads c !! t = Some th → (∀ r, th_pc th ≠ PDone r) →
  is_Some (step c (ARun t i)) ∨
  ∃ k t' th', th_row th = Ok k ∧ t' ≠ t ∧ c_threads c !! t' = Some th' ∧ holds k (Some (i_id i)) th' ∧ can_finish c t'.
Proof. apply call_or_wait. Qed.

(** ** Calls that run one after the other *)

Section Solo.
Context (m : gmap nat thread) (t : nat) (th : thread) (k : uuid * bytes).
Context (Hk : th_row th = Ok k).
Context (Hquiet : ∀ t' th', m !! t' = Some th' → t' ≠ t → pending_write th' = None).

(** The caller [t] at [p] while the others hold nothing. *)
Definition solo (d : Db) (p : pc) : conf := {| c_db := d; c_threads := <[t := at_pc th p]> m |}.

Lemma solo_open d p q f : has_open (solo d p) (Some t) q f = false.
Proof.
  destruct (has_open _ _ _ _) eqn:E; [|done]. apply has_open_true in E as (t' & th' & w & Ht & Hne & _ & Hw & _).
  simpl in Ht. rewrite lookup_insert_ne in Ht by congruence. rewrite (Hquiet t' th') in Hw; [done..|congruence].
Qed.

Lemma solo_step d p i d' p' acts c :
  (∀ r, p ≠ PDone r) → call (solo d p) t (at_pc th p) k i = Some (d', p') →
  steps (solo d' p') acts = Some c → steps (solo d p) (ARun t i :: acts) = Some c.
Proof.
  intros Hnd Hc Hs. cbn [steps step]. unfold run_thread. cbn [c_threads solo]. rewrite lookup_insert_eq.
  change (th_row (at_pc th p)) with (th_row th). rewrite Hk, Hc. cbn [th_pc at_pc].
  assert (Some (solo d' p') ≫= (fun c' => steps c' acts) = Some c) as Hx by done.
  unfold solo in *. destruct p; [..|by destruct (Hnd r)]; simpl; by rewrite insert_insert_eq.
Qed.

(** The states a transaction of Idempotency.v leads to. *)
Definition after (r : res error claim) : pc :=
  match r with
  | Ok c => finish c
  | Err e => PDone (Err e)
  end.

Definition solo_reaches (c : conf) (d : Db) (p : pc) : Prop :=
  ∃ acts, Forall (fun a => ∃ i, a = ARun t i) acts ∧ steps c acts = Some (solo d p).

Lemma solo_refl d p : solo_reaches (solo d p) d p.
Proof. by exists []. Qed.

Lemma solo_next d p i d1 p1 d2 p2 :
  (∀ r, p ≠ PDone r) → call (solo d p) t (at_pc th p) k i = Some (d1, p1) →
  solo_reaches (solo d1 p1) d2 p2 → solo_reaches (solo d p) d2 p2.
Proof.
  intros Hnd Hc (acts & Ha & Hs). exists (ARun t i :: acts). split; [constructor; eauto|]. by eapply solo_step.
Qed.

Lemma steps_app c acts1 acts2 : steps c (acts1 ++ acts2) = (c' ← steps c acts1; steps c' acts2).
Proof. revert c. induction acts1 as [|a acts1 IH]; intros c; [done|]. simpl. destruct (step c a); [apply IH|done]. Qed.

Lemma solo_trans c d1 p1 d2 p2 :
  solo_reaches c d1 p1 → solo_reaches (solo d1 p1) d2 p2 → solo_reaches c d2 p2.
Proof.
  intros (acts1 & H1 & S1) (acts2 & H2 & S2). exists (acts1 ++ acts2). split; [by apply Forall_app|].
  rewrite steps_app, S1. done.
Qed.

(** The commit, whatever happens to it. *)
Lemma solo_commit w0 d wr cl w2 r :
  (match next_fault w2 with
   | (NoFault, w3) => (w3, Ok cl)
   | (Fail e, w3) => (set_db w3 w0, if commit_ignored cl then Ok cl else Err e)
   | (Ambiguous e, w3) => (w3, if commit_ignored cl then Ok cl else Err e)
   end) = r →
  d = w0 → w_db w2 = apply_write k wr d →
  solo_reaches (solo d (PCommit wr cl)) (w_db r.1) (after r.2).
Proof.
  intros <- -> Hw. destruct (next_fault w2) as [f w3] eqn:E. apply next_fault_db in E as [Hd _].
  assert (call (solo w0 (PCommit wr cl)) t (at_pc th (PCommit wr cl)) k
            {| i_now := 0; i_app := 0; i_id := k.1; i_fault := f |} =
          Some (match f with Fail _ => w0 | _ => apply_write k wr w0 end,
                match f with
                | NoFault => finish cl
                | Fail e | Ambiguous e => if commit_ignored cl then finish cl else PDone (Err e)
                end)) as Hc by (by destruct f).
  eapply solo_next; [done|exact Hc|].
  destruct f; simpl; rewrite ?Hd, ?Hw; [apply solo_refl| |]; destruct (commit_ignored cl); apply solo_refl.
Qed.

(** The calls before it: one that fails ends the claim. *)
Definition before_commit (p : pc) : Prop :=
  match p with
  | PCommit _ _ | PDone _ => False
  | _ => True
  end.

Lemma solo_fault d p f e :
  before_commit p → f = Fail e ∨ f = Ambiguous e → solo_reaches (solo d p) d (PDone (Err e)).
Proof.
  intros Hp Hf. apply (solo_next d p {| i_now := 0; i_app := 0; i_id := k.1; i_fault := f |} d (PDone (Err e)));
    [by destruct p| |apply solo_refl].
  unfold call. destruct Hf as [-> | ->]; by destruct p.
Qed.

Lemma solo_call d p d1 p1 d2 p2 :
  before_commit p → (∃ i, call (solo d p) t (at_pc th p) k i = Some (d1, p1)) →
  solo_reaches (solo d1 p1) d2 p2 → solo_reaches (solo d p) d2 p2.
Proof. intros Hp [i Hi]. apply (solo_next d p i d1 p1); [by destruct p|done]. Qed.

Lemma call_begin d now : ∃ i, call (solo d PBegin) t (at_pc th PBegin) k i = Some (d, PInsert now).
Proof. by exists {| i_now := now; i_app := 0; i_id := k.1; i_fault := NoFault |}. Qed.

Lemma call_insert d now id :
  ∃ i, call (solo d (PInsert now)) t (at_pc th (PInsert now)) k i =
  Some (d, let row := pending_row id (th_hash th) now (th_ttl th) in
           match (insert_idem k row d).2 with
           | Err e => PDone (Err e)
           | Ok n => if (n =? 1)%Z then PCommit (Some (WInsert row)) Fresh else PSelect
           end).
Proof.
  exists {| i_now := 0; i_app := 0; i_id := id; i_fault := NoFault |}. unfold call, insert_waits.
  cbn [th_pc at_pc i_fault i_id th_hash th_ttl c_db solo statement]. rewrite !solo_open. cbn [orb].
  destruct (insert_idem _ _ _).2 as [n|e]; [|done]. by destruct (n =? 1)%Z.
Qed.

Lemma call_select d appNow :
  ∃ i, call (solo d PSelect) t (at_pc th PSelect) k i =
  Some (d, match select_idem k d with
           | Err e => PDone (Err e)
           | Ok row => decide_row row (th_hash th) appNow
           end).
Proof.
  exists {| i_now := 0; i_app := appNow; i_id := k.1; i_fault := NoFault |}. unfold call.
  cbn [th_pc at_pc i_fault c_db solo statement]. by destruct (select_idem k d).
Qed.

Lemma call_delete d :
  ∃ i, call (solo d PDelete) t (at_pc th PDelete) k i =
  Some (d, PCommit (match db_idem d !! k with Some _ => Some WDelete | None => None end) Stale).
Proof.
  exists {| i_now := 0; i_app := 0; i_id := k.1; i_fault := NoFault |}. unfold call, delete_waits.
  cbn [th_pc at_pc i_fault c_db solo statement]. by rewrite solo_open.
Qed.

(** The transaction after [BeginTx], from the state [d] it started with. *)
Definition tx_rest (d : Db) (r : world * res error claim) : world * res error claim :=
  match r with
  | (w2, Err e) => (set_db w2 d, Err e)
  | (w2, Ok a) =>
      match next_fault w2 with
      | (NoFault, w3) => (w3, Ok a)
      | (Fail e, w3) => (set_db w3 d, if commit_ignored a then Ok a else Err e)
      | (Ambiguous e, w3) => (w3, if commit_ignored a then Ok a else Err e)
      end
  end.

Definition simulates (d : Db) (p : pc) (r : world * res error claim) : Prop :=
  solo_reaches (solo d p) (w_db (tx_rest d r).1) (after (tx_rest d r).2).

(** A statement of the transaction: its fault, then what it does. *)
Lemma simulates_exec {A} d p (f : Z → Db → Db * res error A) (kont : A → M claim) w :
  before_commit p → w_db w = d →
  (∀ w1, w_db w1 = d → w_dbnow w1 = w_dbnow w →
     match f (w_dbnow w) d with
     | (d', Ok a) => simulates d p (kont a (set_db w1 d'))
     | (d', Err e) => solo_reaches (solo d p) d (PDone (Err e))
     end) →
  simulates d p (mbind (exec f) kont w).
Proof.
  intros Hp Hw Hf. unfold simulates, mbind, exec. destruct (next_fault w) as [g w1] eqn:E.
  apply next_fault_db in E as [Hd Hn]. destruct g as [|e|e]; [|by eapply solo_fault; eauto..].
  specialize (Hf w1 ltac:(congruence) Hn). rewrite Hn, Hd, Hw. destruct (f _ _) as [d' [a|e]]; [exact Hf|].
  simpl. exact Hf.
Qed.

Lemma simulates_commit d wr cl w :
  w_db w = apply_write k wr d → simulates d (PCommit wr cl) (mret cl w).
Proof. intros Hw. unfold simulates. by eapply solo_commit. Qed.

Lemma simulates_call d p p1 r :
  before_commit p → (∃ i, call (solo d p) t (at_pc th p) k i = Some (d, p1)) →
  simulates d p1 r → simulates d p r.
Proof. intros. by eapply solo_call. Qed.

Lemma solo_claim now id appNow w :
  w_dbnow w = now → simulates (w_db w) (PInsert now) (claim_stmts k (th_hash th) (th_ttl th) id appNow w).
Proof.
  intros Hnow. unfold claim_stmts. apply simulates_exec; [done..|]. intros w1 Hd1 Hn1. rewrite Hnow.
  pose proof (call_insert (w_db w) now id) as Hc. cbn zeta in Hc.
  set (row := pending_row id (th_hash th) now (th_ttl th)) in *.
  destruct (insert_idem k row (w_db w)) as [d' [n|e]] eqn:Ei; simpl in Hc |- *;
    [|eapply solo_call; [done|exact Hc|apply solo_refl]].
  destruct (Z.eqb_spec n 1) as [->|Hn].
  - eapply simulates_call; [done|exact Hc|]. apply simulates_commit. simpl. unfold insert_idem in Ei. by repeat case_match; simplify_eq.
  - eapply simulates_call; [done|exact Hc|].
    assert (d' = w_db w) as -> by (unfold insert_idem in Ei; by repeat case_match; simplify_eq).
    clear Ei Hc. apply simulates_exec; [done..|]. intros w2 Hd2 Hn2. pose proof (call_select (w_db w) appNow) as Hc.
    destruct (select_idem k (w_db w)) as [r|e] eqn:Es; [|eapply solo_call; [done|exact Hc|apply solo_refl]].
    eapply simulates_call; [done|exact Hc|]. unfold decide_row.
    destruct (ir_expires_at r <? appNow)%Z.
    + apply simulates_exec; [done..|]. intros w3 Hd3 Hn3. eapply simulates_call; [done|apply call_delete|].
      apply simulates_commit. unfold select_idem in Es. destruct (db_idem (w_db w) !! k) eqn:Ek; [|done]. done.
    + repeat case_match; apply simulates_commit; done.
Qed.

(** A transaction of Idempotency.v, with the faults its calls meet. *)
Lemma solo_tx id appNow w :
  let x := with_tx_lenient commit_ignored (claim_stmts k (th_hash th) (th_ttl th) id appNow) w in
  solo_reaches (solo (w_db w) PBegin) (w_db x.1) (after x.2).
Proof.
  intros x. subst x. unfold with_tx_lenient. destruct (next_fault w) as [f w1] eqn:E1.
  apply next_fault_db in E1 as [Hd1 Hn1]. rewrite <- Hd1.
  destruct f as [|e|e]; [|by eapply solo_fault; eauto..].
  eapply solo_call; [done|apply (call_begin _ (w_dbnow w1))|]. by apply solo_claim.
Qed.

(** What a decided claim answers, in both models. *)
Lemma answer_finish c again w :
  c ≠ Stale → answer c again w = (w, match finish c with PDone r => r | _ => Err ErrInProgress end) ∧
              ∃ r, finish c = PDone r.
Proof.
  destruct c as [| | | |st body]; intros Hne; try done; simpl; unfold mret, mfail; eauto.
  unfold mbind, mlift. destruct (gunzip _); unfold mret; eauto.
Qed.

(** An attempt that does not find a stale row is the whole call. *)
Lemma solo_attempt n id w x again :
  with_tx_lenient commit_ignored (claim_stmts k (th_hash th) (th_ttl th) id n) w = x → x.2 ≠ Ok Stale →
  let y := match x with (w1, Ok c) => answer c again w1 | (w1, Err e) => (w1, Err e) end in
  solo_reaches (solo (w_db w) PBegin) (w_db y.1) (PDone y.2).
Proof.
  intros Hx Hst y. pose proof (solo_tx id n w) as Hs. cbn zeta in Hs. rewrite Hx in Hs. subst y.
  destruct x as [w1 [c|e]]; [|exact Hs]. simpl in Hst.
  destruct (answer_finish c again w1) as [-> [r Hr]]; [congruence|].
  simpl in Hs |- *. by rewrite Hr in Hs |- *.
Qed.
End Solo.

Lemma stale_or (r : res error claim) : r = Ok Stale ∨ r ≠ Ok Stale.
Proof. destruct r as [[]|]; auto. Qed.

(** A call that gets past its checks: one attempt, or two when the first one
    reclaimed a stale row. *)
Lemma solo_parsed m t th k n1 id1 n2 id2 rest w :
  (∀ t' th', m !! t' = Some th' → t' ≠ t → pending_write th' = None) → th_row th = Ok k →
  let x := BeginOrReplay ((n1, id1) :: (n2, id2) :: rest) (th_ws th) (th_key th) (th_hash th) (th_ttl th) w in
  solo_reaches m t th (solo m t th (w_db w) PBegin) (w_db x.1) (PDone x.2).
Proof.
  intros Hq Ek x. subst x.
  assert (uuid_Parse (th_ws th) = Ok k.1 ∧ k = (k.1, th_key th) ∧ th_key th ≠ []) as (Hu & Hkk & Hne).
  { unfold th_row, request_key in Ek. destruct (str_eqb (th_key th) []) eqn:E; [done|]. go_bool.
    destruct (uuid_Parse _); by simplify_eq. }
  rewrite (BeginOrReplay_step n1 id1 _ _ k.1), <- Hkk by done.
  destruct (with_tx_lenient _ _ w) as [w1 r1] eqn:E1.
  destruct (stale_or r1) as [->|Hst]; [|exact (solo_attempt m t th k Ek Hq n1 id1 w _ _ E1 Hst)].
  pose proof (claim_stale _ _ _ _ _ _ _ E1) as Hnone. cbn [answer].
  pose proof (solo_tx m t th k Ek Hq id1 n1 w) as Hs. cbn zeta in Hs. rewrite E1 in Hs.
  eapply solo_trans; [exact Hs|]. cbn [fst snd after finish]. rewrite (BeginOrReplay_step n2 id2 _ _ k.1), <- Hkk by done.
  destruct (with_tx_lenient _ _ w1) as [w2 r2] eqn:E2.
  apply (solo_attempt m t th k Ek Hq n2 id2 w1 _ _ E2). intros Hst2. simpl in Hst2. subst r2.
  apply with_tx_lenient_Ok in E2 as (v3 & v4 & Hd3 & _ & Hs2 & _). rewrite <- Hd3 in Hnone.
  by destruct (claim_absent _ _ _ _ _ _ _ _ Hnone Hs2).
Qed.

(** A claim that nobody interferes with. *)
Lemma solo_reach m t th n1 id1 n2 id2 rest w :
  (∀ t' th', m !! t' = Some th' → t' ≠ t → pending_write th' = None) →
  let '(w', r) := BeginOrReplay ((n1, id1) :: (n2, id2) :: rest) (th_ws th) (th_key th) (th_hash th) (th_ttl th) w in
  ∃ acts, Forall (fun a => ∃ i, a = ARun t i) acts ∧
    steps {| c_db := w_db w; c_threads := <[t := at_pc th PBegin]> m |} acts =
    Some {| c_db := w_db w'; c_threads := <[t := at_pc th (PDone r)]> m |}.
Proof.
  intros Hq. destruct (th_row th) as [k|e] eqn:Ek.
  - pose proof (solo_parsed m t th k n1 id1 n2 id2 rest w Hq Ek) as Hs. cbn zeta in Hs.
    by destruct (BeginOrReplay _ _ _ _ _ w) as [w' r].
  - assert (BeginOrReplay ((n1, id1) :: (n2, id2) :: rest) (th_ws th) (th_key th) (th_hash th) (th_ttl th) w
            = (w, Err e)) as ->.
    { unfold th_row, request_key in Ek. cbn [BeginOrReplay].
      destruct (str_eqb _ []); [by simplify_eq|]. unfold mbind at 1, mwrap, mlift.
      destruct (uuid_Parse _); by simplify_eq. }
    exists [ARun t {| i_now := 0; i_app := 0; i_id := id1; i_fault := NoFault |}]. split; [constructor; eauto|].
    cbn [steps step]. unfold run_thread. cbn [c_threads]. rewrite lookup_insert_eq.
    change (th_row (at_pc th PBegin)) with (th_row th). rewrite Ek. simpl. by rewrite insert_insert_eq.
Qed.

(** The calls of Idempotency.v are runs of this model. When no other
    caller has an open write, the statements of a caller, one after the other,
    take the tables where [BeginOrReplay] takes them, and the caller returns
    what it returns, for every request, clock and sequence of failing calls. *)
Theorem solo_run m t th n1 id1 n2 id2 rest w :
  (∀ t' th', m !! t' = Some th' → t' ≠ t → pending_write th' = None) →
  let '(w', r) := BeginOrReplay ((n1, id1) :: (n2, id2) :: rest) (th_ws th) (th_key th) (th_hash th) (th_ttl th) w in
  ∃ acts, Forall (fun a => ∃ i, a = ARun t i) acts ∧
    steps {| c_db := w_db w; c_threads := <[t := at_pc th PBegin]> m |} acts =
    Some {| c_db := w_db w'; c_threads := <[t := at_pc th (PDone r)]> m |}.
Proof. apply solo_reach. Qed.
End Concurrent.

(** ** A concrete system *)

Module RaceDemo.
#[local] Existing Instance text_uuid.
#[local] Existing Instance IdemDemo.gz.

Definition k : uuid * bytes := (Demo.uid (bs "ws"), bs "K").

Definition c0 : conf := {| c_db := Demo.db0; c_threads := ∅ |}.

(** A call at the clock [now] without a fault; [id] is drawn if it inserts. *)
Definition at_ (now : Z) (id : byte) : input := {| i_now := now; i_app := now; i_id := Demo.uid [id]; i_fault := NoFault |}.

Definition begins (t : nat) (h : bytes) : action := ABegin t (bs "ws") (bs "K") h 100.

Definition calls (t : nat) (now : Z) (id : byte) (n : nat) : list action := repeat (ARun t (at_ now id)) n.

Definition result (c : conf) (t : nat) : option (res error IdempotencyResult) :=
  th ← c_threads c !! t;
  match th_pc th with
  | PDone r => Some r
  | _ => None
  end.

Definition to_run : option (res error IdempotencyResult) :=
  Some (Ok {| ir_Replay := false; ir_StatusCode := 0; ir_Body := [] |}).

(** Two requests with one body race for a new key: the second INSERT comes
    while the first one is not committed. *)
Definition first_use : list action :=
  [begins 1 (bs "h"); begins 2 (bs "h")] ++ calls 1 10 x61 2 ++ calls 2 11 x62 1 ++ calls 1 12 x61 1 ++
  [AComplete (bs "ws") (bs "K") 200 (bs "{}") true 13 NoFault] ++ calls 2 14 x62 3.

(** A key used once and expired, and a request sent twice: both copies read the
    stale row, one of them reclaims the key, and then the other one deletes it. *)
Definition reclaim : list action :=
  [begins 0 (bs "h")] ++ calls 0 10 x61 3 ++
  [begins 1 (bs "h"); begins 2 (bs "h")] ++ calls 1 200 x62 3 ++ calls 2 200 x63 3 ++
  calls 1 201 x62 5 ++ calls 2 202 x63 5.
End RaceDemo.

#[local] Existing Instance text_uuid.
#[local] Existing Instance IdemDemo.gz.

(** A request can run twice when its key has expired. Two copies of a
    request reclaim the key at the same time: both read the expired row, the
    first deletes it, claims the key and is told to run, and the DELETE of the
    second, which names the key only, removes the claim of the first, so that
    the second is told to run as well, two ticks later in a time to live of
    a hundred. *)
Theorem reclaim_race :
  match steps RaceDemo.c0 RaceDemo.reclaim with
  | Some c => RaceDemo.result c 1 = RaceDemo.to_run ∧ RaceDemo.result c 2 = RaceDemo.to_run
  | None => False
  end.
Proof. by vm_compute. Qed.

(** Caller [t] is after the row of the demo and was answered, to run or not. *)
Definition answered (c : conf) (t : nat) (replay : bool) : bool :=
  match c_threads c !! t with
  | Some th => on_row RaceDemo.k th && match th_pc th with PDone (Ok r) => Bool.eqb (ir_Replay r) replay | _ => false end
  | None => false
  end.

Lemma answered_spec c t replay :
  answered c t replay = true →
  ∃ th r, c_threads c !! t = Some th ∧ th_row th = Ok RaceDemo.k ∧ th_pc th = PDone (Ok r) ∧ ir_Replay r = replay.
Proof.
  unfold answered. destruct (c_threads c !! t) as [th|]; [|done]. intros [Hk Hr]%andb_true_iff.
  destruct (th_pc th) as [| | | | |[r|]] eqn:E; try done. apply Bool.eqb_prop in Hr. apply on_row_spec in Hk.
  by exists th, r.
Qed.

Lemma first_use_runs :
  ∃ c, steps RaceDemo.c0 RaceDemo.first_use = Some c ∧ answered c 1 false = true ∧ answered c 2 true = true.
Proof.
  assert (match steps RaceDemo.c0 RaceDemo.first_use with
          | Some c => answered c 1 false && answered c 2 true
          | None => false
          end = true) as Hx by (vm_compute; reflexivity).
  destruct (steps _ _) as [c|]; [|done]. apply andb_true_iff in Hx. by exists c.
Qed.

Lemma first_use_once_witness :
  ∃ c th th' r r', steps RaceDemo.c0 RaceDemo.first_use = Some c ∧
    c_threads c !! 1%nat = Some th ∧ th_pc th = PDone (Ok r) ∧ ir_Replay r = false ∧
    c_threads c !! 2%nat = Some th' ∧ th_pc th' = PDone (Ok r') ∧ ir_Replay r' = true ∧ th_hash th = th_hash th'.
Proof.
  destruct first_use_runs as (c & E & A1 & A2).
  apply answered_spec in A1 as (th & r & H1 & K1 & D1 & R1), A2 as (th' & r' & H2 & K2 & D2 & R2).
  exists c, th, th', r, r'. repeat (split; [done|]).
  refine (proj1 (first_use_once RaceDemo.k 10 110 RaceDemo.c0 RaceDemo.first_use c 1 2 th th' r r' _ _ E H1 H2 K1 K2 D1 D2)).
  - split; [vm_compute; reflexivity|]. intros t th0 Ht. by apply (lookup_empty_Some t th0) in Ht.
  - repeat constructor; vm_compute; first [discriminate | intros _; discriminate].
Defined.

Lemma never_stuck_witness :
  ∃ c th, steps RaceDemo.c0 (take 4 RaceDemo.first_use ++ RaceDemo.calls 2 11 x62 1) = Some c ∧
    c_threads c !! 2%nat = Some th ∧ step c (ARun 2 (RaceDemo.at_ 11 x62)) = None ∧
    ∃ k t' th', th_row th = Ok k ∧ t' ≠ 2%nat ∧ c_threads c !! t' = Some th' ∧
      holds k (Some (i_id (RaceDemo.at_ 11 x62))) th' ∧ can_finish c t'.
Proof.
  assert (match steps RaceDemo.c0 (take 4 RaceDemo.first_use ++ RaceDemo.calls 2 11 x62 1) with
          | Some c => match c_threads c !! 2%nat, step c (ARun 2 (RaceDemo.at_ 11 x62)) with
                      | Some th, None => match th_pc th with PInsert _ => true | _ => false end
                      | _, _ => false
                      end
          | None => false
          end = true) as Hx by (vm_compute; reflexivity).
  destruct (steps _ _) as [c|]; [|done]. exists c.
  destruct (c_threads c !! 2%nat) as [th|] eqn:Et; [|done]. exists th.
  destruct (step c (ARun 2 (RaceDemo.at_ 11 x62))) as [c'|] eqn:Es; [done|]. repeat (split; [done|]).
  destruct (never_stuck c 2 th (RaceDemo.at_ 11 x62) Et) as [[c' Hc]|Hw]; [|congruence|exact Hw].
  intros r Hr. by rewrite Hr in Hx.
Defined.

Lemma solo_run_witness :
  let w := IdemDemo.w_at Demo.db0 10 in
  let th := {| th_ws := bs "ws"; th_key := bs "K"; th_hash := bs "h"; th_ttl := 100; th_pc := PBegin |} in
  ∃ acts, Forall (fun a => ∃ i, a = ARun 1 i) acts ∧
    steps {| c_db := Demo.db0; c_threads := <[1%nat := at_pc th PBegin]> ∅ |} acts =
    Some {| c_db := w_db (IdemDemo.begin_op 10 x61 (bs "h") 100 Demo.db0).1;
            c_threads := <[1%nat := at_pc th (PDone (IdemDemo.begin_op 10 x61 (bs "h") 100 Demo.db0).2)]> ∅ |}.
Proof.
  intros w th.
  assert (∀ t' th', (∅ : gmap nat thread) !! t' = Some th' → t' ≠ 1%nat → pending_write th' = None) as Hq
    by (intros t' th' Ht; by rewrite lookup_empty in Ht).
  pose proof (solo_run ∅ 1 th 10 (Demo.uid [x61]) 10 (Demo.uid [x61; x61]) [] w Hq) as Hs.
  unfold IdemDemo.begin_op. exact Hs.
Defined.
