(* ===== verification/IdemLifetime.v ===== *)
(** * The lifetime of idempotency keys

    The goroutine of cmd/server/main.go that purges expired rows once an hour, among
    the other operations on the table: what a purge leaves, how old a row can get,
    and when a key can be used again. *)

From S2P Require Import Prelude GoStrings GoErrors ControlPlane AuthStore Idempotency.

Section Lifetime.
Context `{UuidLib, Gzip}.

(** ** The purge goroutine *)

Definition purge_interval : Z := 3600 * 1000000000.

(** What the [select] wakes up for. *)
Inductive wake : Type :=
| WDone
| WTick (now : Z) (faults : list fault).

Inductive purge_log : Type :=
| PurgeFailed (e : error)
| Purged (n : Z).

Definition purge_tick (now : Z) (faults : list fault) (d : Db) : Db * list purge_log :=
  match PurgeExpired {| w_db := d; w_dbnow := now; w_faults := faults |} with
  | (w, Err e) => (w_db w, [PurgeFailed e])
  | (w, Ok n) => (w_db w, if (0 <? n)%Z then [Purged n] else [])
  end.

(** The loop: a failed purge is logged and the loop goes on; it ends when the
    server is told to stop. *)
Fixpoint purge_loop (wakes : list wake) (d : Db) : Db * list purge_log :=
  match wakes with
  | [] | WDone :: _ => (d, [])
  | WTick now faults :: wakes =>
      let '(d, log) := purge_tick now faults d in
      let '(d, logs) := purge_loop wakes d in
      (d, log ++ logs)
  end.

(** ** How old a row can get *)

(** Claims made with the time to live [ttl] at or after [t]. *)
Definition row_from (ttl t : Z) (row : idem_row) : Prop :=
  ir_expires_at row = (ir_created_at row + ttl)%Z ∧ (t ≤ ir_created_at row)%Z.

Definition rows_from (ttl t : Z) (d : Db) : Prop := map_Forall (fun _ => row_from ttl t) (db_idem d).

(** Operations of gateways that use one time to live, at or after [t]. *)
Definition op_from (ttl t : Z) (o : timed_op) : Prop :=
  (t ≤ to_dbnow o)%Z ∧
  match to_op o with
  | IBegin _ _ _ _ ttl' => ttl' = ttl
  | _ => True
  end.

Lemma insert_idem_rows ttl t k row d :
  row_from ttl t row → rows_from ttl t d → rows_from ttl t (insert_idem k row d).1.
Proof.
  intros Hr Hd. unfold insert_idem. destruct (db_idem d !! k); [done|]. destruct (existsb _ _); [done|].
  destruct (negb _); [done|]. by apply map_Forall_insert_2.
Qed.

(** A computation at the server's clock [now] keeps a property of the tables. *)
Definition keeps_at {A} (now : Z) (P : Db → Prop) (c : M A) : Prop :=
  ∀ w w' r, c w = (w', r) → w_dbnow w = now → P (w_db w) → P (w_db w') ∧ w_dbnow w' = now.

Lemma keeps_at_exec {A} now P (f : Z → Db → Db * res error A) :
  (∀ d, P d → P (f now d).1) → keeps_at now P (exec f).
Proof.
  intros Hf w w' r Hx <- Hp. unfold exec in Hx. destruct (next_fault w) as [g w1] eqn:E.
  apply next_fault_db in E as [Hd Hn]. rewrite <- Hd in Hp. specialize (Hf _ Hp). rewrite Hn in Hx.
  destruct g; [destruct (f _ _)| |]; simplify_eq/=; done.
Qed.

Lemma keeps_at_bind {A B} now P (c : M A) (k : A → M B) :
  keeps_at now P c → (∀ a, keeps_at now P (k a)) → keeps_at now P (mbind c k).
Proof.
  intros Hc Hk w w' r Hx Hn Hp. unfold mbind in Hx. destruct (c w) as [w1 [a|e]] eqn:E.
  - destruct (Hc _ _ _ E Hn Hp). by eapply Hk.
  - simplify_eq. by eapply Hc.
Qed.

Lemma keeps_at_pure {A} now P (c : M A) : (∀ w, (c w).1 = w) → keeps_at now P c.
Proof. intros Hc w w' r Hx Hn Hp. specialize (Hc w). rewrite Hx in Hc. simpl in Hc. by subst. Qed.

Lemma keeps_at_tx {A} now P ignored (stmts : M A) :
  keeps_at now P stmts → keeps_at now P (with_tx_lenient ignored stmts).
Proof.
  intros Hs w w' r Hx Hn Hp. unfold with_tx_lenient in Hx. destruct (next_fault w) as [f w1] eqn:E1.
  apply next_fault_db in E1 as [Hd Hn1]. rewrite <- Hd in Hp. rewrite Hn in Hn1.
  destruct f as [|e0|e0]; try (by simplify_eq).
  destruct (stmts w1) as [w2 r2] eqn:E2. destruct (Hs _ _ _ E2 Hn1 Hp) as [Hp2 Hn2].
  destruct r2 as [a|e']; [|by simplify_eq]. destruct (next_fault w2) as [g w3] eqn:E3.
  apply next_fault_db in E3 as [Hd3 Hn3]. rewrite Hn2 in Hn3. destruct g; simplify_eq/=; by rewrite ?Hd3.
Qed.

Lemma BeginOrReplay_rows ttl t now attempts ws key hash :
  (t ≤ now)%Z → keeps_at now (rows_from ttl t) (BeginOrReplay attempts ws key hash ttl).
Proof.
  intros Ht. induction attempts as [|[appNow id] attempts IH]; cbn [BeginOrReplay]; [by apply keeps_at_pure|].
  destruct (str_eqb key []); [by apply keeps_at_pure|].
  apply keeps_at_bind; [by apply keeps_at_pure|]. intros u. apply keeps_at_bind.
  - apply keeps_at_tx, keeps_at_bind.
    { apply keeps_at_exec. intros d Hd. by apply insert_idem_rows. }
    intros n. destruct (n =? 1)%Z; [by apply keeps_at_pure|]. apply keeps_at_bind; [by apply keeps_at_exec|].
    intros row. destruct (ir_expires_at row <? appNow)%Z; [|by repeat case_match; apply keeps_at_pure].
    apply keeps_at_bind; [|intros; by apply keeps_at_pure]. apply keeps_at_exec. intros d Hd. simpl.
    by apply map_Forall_delete.
  - intros []; try (by apply keeps_at_pure); [done|].
    apply keeps_at_bind; [by apply keeps_at_pure|intros; by apply keeps_at_pure].
Qed.

Lemma Complete_rows ttl t now ws key status body ok : keeps_at now (rows_from ttl t) (Complete ws key status body ok).
Proof.
  apply keeps_at_bind; [by apply keeps_at_pure|]. intros u. apply keeps_at_bind; [by apply keeps_at_pure|].
  intros gz. apply keeps_at_exec. intros d Hd k row. simpl. rewrite lookup_alter_Some.
  intros [(<- & r & Hr & ->)|[_ Hr]]; [|by eapply Hd]. exact (Hd _ _ Hr).
Qed.

Lemma PurgeExpired_rows ttl t now : keeps_at now (rows_from ttl t) PurgeExpired.
Proof. apply keeps_at_exec. intros d Hd k row [Hr _]%map_lookup_filter_Some. exact (Hd _ _ Hr). Qed.

Lemma run_op_rows ttl t d o : op_from ttl t o → rows_from ttl t d → rows_from ttl t (run_op d o).
Proof.
  intros [Ht Ho] Hd. unfold run_op. destruct (to_op o) as [att ws key hash ttl'|ws key st body ok|].
  - subst ttl'. destruct (BeginOrReplay _ _ _ _ _ _) as [w r] eqn:E. exact (proj1 (BeginOrReplay_rows ttl t (to_dbnow o) att ws key hash Ht _ _ _ E eq_refl Hd)).
  - destruct (Complete _ _ _ _ _ _) as [w r] eqn:E. exact (proj1 (Complete_rows ttl t (to_dbnow o) ws key st body ok _ _ _ E eq_refl Hd)).
  - destruct (PurgeExpired _) as [w r] eqn:E. exact (proj1 (PurgeExpired_rows ttl t (to_dbnow o) _ _ _ E eq_refl Hd)).
Qed.

Lemma run_idem_rows ttl t d ops : Forall (op_from ttl t) ops → rows_from ttl t d → rows_from ttl t (run_idem d ops).
Proof.
  intros Hops. revert d. induction Hops as [|o ops Ho _ IH]; intros d Hd; [done|]. by apply IH, run_op_rows.
Qed.

(** ** Purges *)

Lemma purge_tick_clean now d :
  purge_tick now [] d =
  (set_idem d (filter (live now) (db_idem d)),
   let n := (Z.of_nat (size (db_idem d)) - Z.of_nat (size (filter (live now) (db_idem d))))%Z in
   if (0 <? n)%Z then [Purged n] else []).
Proof. done. Qed.

(** Whatever happens to a purge, what it leaves was there. *)
Lemma purge_tick_subset now faults d : db_idem (purge_tick now faults d).1 ⊆ db_idem d.
Proof.
  unfold purge_tick. destruct (PurgeExpired _) as [w r] eqn:E.
  assert (db_idem (w_db w) ⊆ db_idem d) as Hs.
  { refine (preserves_exec (fun d' => db_idem d' ⊆ db_idem d) _ _ _ _ _ E (reflexivity _)).
    intros t d' Hd. simpl. etrans; [apply map_filter_subseteq|done]. }
  by destruct r.
Qed.

Lemma purge_young ttl t now d :
  rows_from ttl t d → rows_from ttl (now - ttl) (purge_tick now [] d).1.
Proof.
  intros Hd k row. rewrite purge_tick_clean. intros [Hr Hl]%map_lookup_filter_Some.
  destruct (Hd _ _ Hr) as [He _]. unfold live in Hl. simpl in Hl. split; [done|]. lia.
Qed.

(** C16: The table of idempotency keys does not grow without bound. For gateways that
    claim keys for one time to live: after a purge that went through, every row was
    claimed at most a time to live before it, and stays so while other requests run:
    at any later moment no row is older than the time to live and the time since the
    last purge together. The purge reports exactly the rows it removed, and the loop
    it runs in survives failures: after a failed purge the next tick purges again. *)
Theorem purge_bounds ttl t d now faults wakes ops later :
  rows_from ttl t d → (0 ≤ ttl)%Z → Forall (op_from ttl now) ops →
  let '(d1, log) := purge_tick now [] d in
  (∀ k row, db_idem (run_idem d1 ops) !! k = Some row → (later - ir_created_at row ≤ ttl + (later - now))%Z) ∧
  log = (if (size (db_idem d) =? size (db_idem d1))%nat then []
         else [Purged (Z.of_nat (size (db_idem d)) - Z.of_nat (size (db_idem d1)))]) ∧
  (∀ e, (purge_loop (WTick now (Fail e :: faults) :: WTick now [] :: wakes) d).1 = (purge_loop wakes d1).1).
Proof.
  intros Hd Httl Hops. pose proof (purge_young ttl t now d Hd) as Hy.
  pose proof (purge_tick_subset now [] d) as Hsub. rewrite purge_tick_clean in Hy, Hsub |- *. cbn [fst] in Hy, Hsub.
  set (d1 := set_idem d _) in *. change (filter (live now) (db_idem d)) with (db_idem d1).
  split; [|split].
  - intros k row Hr. assert (Forall (op_from ttl (now - ttl)) ops) as Hops'.
    { eapply Forall_impl; [exact Hops|]. intros o [Ho Ht]. split; [lia|done]. }
    destruct (run_idem_rows ttl (now - ttl) d1 ops Hops' Hy k row Hr) as [_ Hc]. lia.
  - apply map_subseteq_size in Hsub. cbn zeta.
    destruct (Nat.eqb_spec (size (db_idem d)) (size (db_idem d1))) as [->|Hne].
    + by rewrite Z.sub_diag.
    + rewrite (proj2 (Z.ltb_lt _ _)) by lia. done.
  - intros e. cbn [purge_loop].
    change (purge_tick now (Fail e :: faults) d) with (d, [PurgeFailed e]).
    cbv iota beta. rewrite (purge_tick_clean now d). fold d1. cbv iota beta zeta.
    by destruct (purge_loop wakes d1).
Qed.

(** ** Expired keys *)

(** An expired key can be used again. Without faults, a request whose key has a
    row past its expiry by the gateway's clock is told to run, whatever request had
    used the key and whatever its state, and the key is then held by this request
    until its own expiry. *)
Theorem expired_reclaimed n1 id1 n2 id2 rest ws u key h ttl w row :
  clean w → uuid_Parse ws = Ok u → key ≠ [] → is_Some (db_workspaces (w_db w) !! u) →
  db_idem (w_db w) !! (u, key) = Some row → (ir_expires_at row < n1)%Z →
  (∀ k r, k ≠ (u, key) → db_idem (w_db w) !! k = Some r → ir_id r ≠ id2) →
  let '(w', r) := BeginOrReplay ((n1, id1) :: (n2, id2) :: rest) ws key h ttl w in
  r = Ok {| ir_Replay := false; ir_StatusCode := 0; ir_Body := [] |} ∧
  db_idem (w_db w') = <[(u, key) := pending_row id2 h (w_dbnow w) ttl]> (db_idem (w_db w)).
Proof.
  intros Hc Hu Hk Hws Hrow Hexp Hid. rewrite (BeginOrReplay_step n1 id1 _ ws u) by done.
  set (d1 := set_idem (w_db w) (delete (u, key) (db_idem (w_db w)))).
  assert (with_tx_lenient commit_ignored (claim_stmts (u, key) h ttl id1 n1) w = (set_db w d1, Ok Stale)) as ->.
  { unfold with_tx_lenient. rewrite next_fault_clean by done.
    unfold claim_stmts, mbind at 1. rewrite exec_clean by done. unfold insert_idem. rewrite Hrow. cbn [fst snd].
    replace (set_db w (w_db w)) with w by (by destruct w). simpl (0 =? 1)%Z. cbv iota.
    unfold mbind at 1. rewrite exec_clean by done. unfold select_idem. cbn [fst snd]. rewrite Hrow.
    replace (set_db w (w_db w)) with w by (by destruct w). rewrite (proj2 (Z.ltb_lt _ _)) by done.
    unfold mbind. rewrite exec_clean by done. cbn [fst snd mret]. unfold mret. by rewrite next_fault_clean. }
  cbn [answer]. rewrite (BeginOrReplay_step n2 id2 _ ws u) by done.
  assert (clean (set_db w d1)) as Hc1 by done.
  assert (with_tx_lenient commit_ignored (claim_stmts (u, key) h ttl id2 n2) (set_db w d1) =
          (set_db (set_db w d1) (set_idem d1 (<[(u, key) := pending_row id2 h (w_dbnow w) ttl]> (db_idem d1))), Ok Fresh)) as ->.
  { unfold with_tx_lenient. rewrite next_fault_clean by done. unfold claim_stmts, mbind at 1. rewrite exec_clean by done.
    assert (insert_idem (u, key) (pending_row id2 h (w_dbnow w) ttl) d1 =
            (set_idem d1 (<[(u, key) := pending_row id2 h (w_dbnow w) ttl]> (db_idem d1)), Ok 1%Z)) as Hi.
    { unfold insert_idem. simpl. rewrite lookup_delete_eq. destruct (existsb _ _) eqn:Ex.
      - apply existsb_exists in Ex as ([k r] & Hin%list_elem_of_In & Hb). apply bool_decide_eq_true in Hb.
        apply elem_of_map_to_list, lookup_delete_Some in Hin as [Hne Hin]. exfalso. by eapply (Hid k r).
      - by rewrite bool_decide_true. }
    change (w_db (set_db w d1)) with d1. change (w_dbnow (set_db w d1)) with (w_dbnow w). rewrite Hi. cbn [fst snd].
    simpl (1 =? 1)%Z. cbv iota. unfold mret. by rewrite next_fault_clean. }
  cbn [answer]. unfold mret. split; [done|]. simpl. by rewrite insert_delete_eq.
Qed.
End Lifetime.

(** ** Instances *)

#[local] Existing Instance text_uuid.
#[local] Existing Instance IdemDemo.gz.

Module LifetimeDemo.
Definition begin_at (now : Z) (key : bytes) (id : byte) : timed_op :=
  IdemDemo.op now (IBegin [(now, Demo.uid [id]); (now, Demo.uid [id; id])] (bs "ws") key (bs "h") 100).

(** A key claimed at 10, one at 150. *)
Definition table : Db := run_idem Demo.db0 [begin_at 10 (bs "K") x61; begin_at 150 (bs "L") x62].
End LifetimeDemo.

Lemma purge_bounds_witness :
  let '(d1, log) := purge_tick 200 [] LifetimeDemo.table in
  log = [Purged 1] ∧
  ∀ k row, db_idem (run_idem d1 [LifetimeDemo.begin_at 210 (bs "K") x63]) !! k = Some row →
    (220 - ir_created_at row ≤ 100 + (220 - 200))%Z.
Proof.
  assert (rows_from 100 0 LifetimeDemo.table) as Ht.
  { apply run_idem_rows; [repeat constructor; vm_compute; discriminate|]. intros k row Hk.
    assert (db_idem Demo.db0 = ∅) as Hz by (vm_compute; reflexivity). rewrite Hz in Hk. by apply lookup_empty_Some in Hk. }
  pose proof (purge_bounds 100 0 LifetimeDemo.table 200 [] [] [LifetimeDemo.begin_at 210 (bs "K") x63] 220 Ht) as Hp.
  assert ((purge_tick 200 [] LifetimeDemo.table).2 = [Purged 1]) as Hlog by (vm_compute; reflexivity).
  destruct (purge_tick 200 [] LifetimeDemo.table) as [d1 log]. split; [exact Hlog|].
  apply Hp; [lia|]. repeat constructor; vm_compute; discriminate.
Defined.

Lemma expired_reclaimed_witness :
  (BeginOrReplay [(200%Z, Demo.uid [x63]); (200%Z, Demo.uid [x64])] (bs "ws") (bs "K") (bs "other") 100
     (IdemDemo.w_at LifetimeDemo.table 200)).2 = Ok {| ir_Replay := false; ir_StatusCode := 0; ir_Body := [] |}.
Proof.
  assert (∃ row, db_idem LifetimeDemo.table !! (Demo.uid (bs "ws"), bs "K") = Some row ∧ (ir_expires_at row < 200)%Z) as (row & Hr & He).
  { assert (match db_idem LifetimeDemo.table !! (Demo.uid (bs "ws"), bs "K") with
            | Some r => Z.ltb (ir_expires_at r) 200 | None => false end = true) as E by (vm_compute; reflexivity).
    destruct (_ !! _) as [row|]; [|done]. exists row. split; [reflexivity|]. by apply Z.ltb_lt. }
  pose proof (expired_reclaimed 200 (Demo.uid [x63]) 200 (Demo.uid [x64]) [] (bs "ws") (Demo.uid (bs "ws")) (bs "K") (bs "other") 100
    (IdemDemo.w_at LifetimeDemo.table 200) row eq_refl eq_refl) as Hx.
  destruct (BeginOrReplay _ _ _ _ _ _) as [w' r]. apply Hx.
  - discriminate.
  - vm_compute. eexists. reflexivity.
  - exact Hr.
  - exact He.
  - intros k r0 _ Hk.
    assert (map_Forall (fun _ r => ir_id r ≠ Demo.uid [x64]) (db_idem LifetimeDemo.table)) as Hall
      by (apply (bool_decide_unpack _); by vm_compute).
    exact (Hall _ _ Hk).
Defined.
