(* ===== verification/RateLimit.v ===== *)
(** * internal/httpapi/middleware.go: the per-key rate limiter

    Token buckets in float64 arithmetic and the LRU of buckets behind the rate
    limiting middleware. A float64 operation is the exact rational result passed
    through a rounding function, a parameter whose relative error is the law;
    buckets live in a heap, because the LRU holds pointers to them. *)

From S2P Require Import Prelude GoStrings GoErrors Lru AuthMiddleware Tenant SqlValidator SqlExecutor HttpErrors.
From Stdlib Require Import QArith Lqa.
From stdpp Require Import gmap fin_maps fin_map_dom.

(** ** float64 *)

(** Rounding to the nearest float64, for results in the normal range. *)
Class Float64 : Type := { rnd : Q → Q; ulp : Q }.

Class Float64Laws `{Float64} : Prop := {
  ulp_nonneg : (0 <= ulp)%Q;
  rnd_nonneg x : (0 <= x → 0 <= rnd x)%Q;
  rnd_upper x y : (0 <= x → x <= y → rnd x <= y * (1 + ulp))%Q;
}.

Section Bucket.
Context `{Float64}.

Definition f_of_int (z : Z) : Q := rnd (inject_Z z).
Definition fadd (a b : Q) : Q := rnd (a + b).
Definition fsub (a b : Q) : Q := rnd (a - b).
Definition fmul (a b : Q) : Q := rnd (a * b).
Definition fdiv (a b : Q) : Q := rnd (a / b).
Definition Qltb (a b : Q) : bool := negb (Qle_bool b a).

(** [math.Min] *)
Definition math_Min (a b : Q) : Q := if Qltb a b then a else b.

(** [Duration.Seconds] *)
Definition Seconds (d : Z) : Q :=
  fadd (f_of_int (Z.quot d second)) (fdiv (f_of_int (Z.rem d second)) (inject_Z second)).

(** [Time.Sub] saturates. *)
Definition time_Sub (t s : Z) : Z := Z.max min_int64 (Z.min max_int64 (t - s)).

(** ** Token buckets *)

Record tokenBucket : Type := {
  tb_tokens : Q;
  tb_max : Q;
  tb_rate : Q;
  tb_lastTime : Z;
}.

Definition newTokenBucket (rps : Q) (burst : Z) (now : Z) : tokenBucket :=
  {| tb_tokens := f_of_int burst; tb_max := f_of_int burst; tb_rate := rps; tb_lastTime := now |}.

Definition refill (b : tokenBucket) (now : Z) : tokenBucket :=
  let elapsed := Seconds (time_Sub now (tb_lastTime b)) in
  {| tb_tokens := math_Min (fadd (tb_tokens b) (fmul elapsed (tb_rate b))) (tb_max b);
     tb_max := tb_max b; tb_rate := tb_rate b; tb_lastTime := now |}.

Definition set_tokens (b : tokenBucket) (t : Q) : tokenBucket :=
  {| tb_tokens := t; tb_max := tb_max b; tb_rate := tb_rate b; tb_lastTime := tb_lastTime b |}.

Definition Allow (b : tokenBucket) (now : Z) : bool * tokenBucket :=
  let b := refill b now in
  if Qltb (tb_tokens b) 1 then (false, b)
  else (true, set_tokens b (fsub (tb_tokens b) 1)).

Definition Tokens (b : tokenBucket) (now : Z) : Q * tokenBucket :=
  let b := refill b now in (tb_tokens b, b).

Definition Rate (b : tokenBucket) : Q := tb_rate b.

(** ** The limiter *)

Context `{LRU nat}.

(** [rl_limiters] maps keys to pointers into [rl_heap]. *)
Record RateLimit : Type := {
  rl_limiters : lru;
  rl_heap : list tokenBucket;
  rl_rps : Q;
  rl_burst : Z;
}.

Definition maxBuckets : nat := Z.to_nat 4096.

Definition NewRateLimit (rps : Q) (burst : Z) : RateLimit :=
  {| rl_limiters := lru_new maxBuckets; rl_heap := [];
     rl_rps := if Qle_bool rps 0 then 60%Q else rps;
     rl_burst := if (burst <=? 0)%Z then 120%Z else burst |}.

Definition set_heap (r : RateLimit) (h : list tokenBucket) : RateLimit :=
  {| rl_limiters := rl_limiters r; rl_heap := h; rl_rps := rl_rps r; rl_burst := rl_burst r |}.

(** [limiterFor(key)]: a pointer to the bucket of the key. *)
Definition limiterFor (r : RateLimit) (key : bytes) (now : Z) : nat * RateLimit :=
  match lru_get (rl_limiters r) key with
  | (Some p, l) =>
      (p, {| rl_limiters := l; rl_heap := rl_heap r; rl_rps := rl_rps r; rl_burst := rl_burst r |})
  | (None, l) =>
      let p := length (rl_heap r) in
      (p, {| rl_limiters := lru_add l key p;
             rl_heap := rl_heap r ++ [newTokenBucket (rl_rps r) (rl_burst r) now];
             rl_rps := rl_rps r; rl_burst := rl_burst r |})
  end.

(** [int(f)] of a finite float64: towards zero; a value that does not fit an int64
    gives the least one, as the conversion instruction of amd64 does. *)
Definition int_of_float (q : Q) : Z :=
  let z := Z.quot (Qnum q) (Zpos (Qden q)) in
  if ((min_int64 <=? z) && (z <=? max_int64))%Z then z else min_int64.

(** What the middleware does with a request: the headers it sets, and a problem
    or the next handler. *)
Inductive limit_outcome : Type :=
| Limited (headers : list (bytes * bytes)) (p : Problem)
| Passed (headers : list (bytes * bytes)).

Definition limited_problem : Problem :=
  mk_problem (bs "rate_limited") 429
    (bs "this key is sending requests too fast — slow down or raise the limit") [].

(** [Middleware(next)]; the clock is read for a new bucket, in [Allow] and in
    [Tokens]. *)
Definition Middleware (r : RateLimit) (ws : option WorkspaceContext) (tnew tallow ttokens : Z)
  : limit_outcome * RateLimit :=
  let key := match ws with Some ws => ws_KeyDBID ws | None => bs "anon" end in
  let '(p, r) := limiterFor r key tnew in
  match rl_heap r !! p with
  | None => (Limited [] limited_problem, r)
  | Some lim =>
      let h1 := [(bs "X-RateLimit-Limit", Itoa (int_of_float (Rate lim)))] in
      match Allow lim tallow with
      | (false, lim) =>
          (Limited (h1 ++ [(bs "X-RateLimit-Remaining", bs "0"); (bs "Retry-After", bs "1")]) limited_problem,
           set_heap r (<[p := lim]> (rl_heap r)))
      | (true, lim) =>
          let '(tokens, lim) := Tokens lim ttokens in
          (Passed (h1 ++ [(bs "X-RateLimit-Remaining", Itoa (int_of_float tokens))]),
           set_heap r (<[p := lim]> (rl_heap r)))
      end
  end.

(** ** Runs *)

(** One request: its key and the readings of the clock. *)
Record request : Type := { rq_key : bytes; rq_new : Z; rq_allow : Z; rq_tokens : Z }.

Definition ws_for (key : bytes) : WorkspaceContext :=
  {| ws_WorkspaceID := []; ws_KeyID := []; ws_KeyDBID := key; ws_PgRole := []; ws_Env := [] |}.

Definition serve (r : RateLimit) (q : request) : bool * RateLimit :=
  match Middleware r (Some (ws_for (rq_key q))) (rq_new q) (rq_allow q) (rq_tokens q) with
  | (Passed _, r) => (true, r)
  | (Limited _ _, r) => (false, r)
  end.

(** The limiter after a list of requests, and how many of [key] passed. *)
Fixpoint run_requests (r : RateLimit) (qs : list request) (key : bytes) : Z * RateLimit :=
  match qs with
  | [] => (0%Z, r)
  | q :: qs =>
      let '(ok, r) := serve r q in
      let '(n, r) := run_requests r qs key in
      ((if ok && str_eqb (rq_key q) key then n + 1 else n)%Z, r)
  end.

(** Requests one after the other between [t0] and [t1]. *)
Fixpoint in_order (t0 t1 : Z) (qs : list request) : Prop :=
  match qs with
  | [] => (t0 <= t1)%Z
  | q :: qs => (t0 <= rq_new q /\ rq_new q <= rq_allow q /\ rq_allow q <= rq_tokens q)%Z /\
               in_order (rq_tokens q) t1 qs
  end.
End Bucket.

(** ** Bounds on one bucket *)

Section Bounds.
Context `{Float64, !Float64Laws}.

Definition secs (d : Z) : Q := (inject_Z d / inject_Z second)%Q.
Definition kappa : Q := (1 + ulp)%Q.
Definition kappa5 : Q := (kappa * kappa * kappa * kappa * kappa)%Q.

Lemma kappa_ge : (1 <= kappa)%Q.
Proof. unfold kappa. pose proof ulp_nonneg. lra. Qed.

Lemma Qmul_mono a b c : (0 <= c → a <= b → a * c <= b * c)%Q.
Proof. intros. by apply Qmult_le_compat_r. Qed.

Lemma Qmul_pos a b : (0 <= a → 0 <= b → 0 <= a * b)%Q.
Proof. apply Qmult_le_0_compat. Qed.

Lemma kappa_grow a : (0 <= a → a <= a * kappa)%Q.
Proof. intros Ha. pose proof kappa_ge. nra. Qed.

Lemma inject_nonneg z : (0 <= z)%Z → (0 <= inject_Z z)%Q.
Proof. intros. change 0%Q with (inject_Z 0). by rewrite <- Zle_Qle. Qed.

Lemma secs_add a b : (secs (a + b) == secs a + secs b)%Q.
Proof. unfold secs. rewrite inject_Z_plus. field. done. Qed.

Lemma secs_nonneg d : (0 <= d)%Z → (0 <= secs d)%Q.
Proof.
  intros Hd. unfold secs. apply Qle_shift_div_l; [reflexivity|]. rewrite Qmult_0_l. by apply inject_nonneg.
Qed.

Lemma secs_mono a b : (a <= b)%Z → (secs a <= secs b)%Q.
Proof.
  intros Hab. replace b with (a + (b - a))%Z by lia. rewrite secs_add.
  pose proof (secs_nonneg (b - a)%Z ltac:(lia)). lra.
Qed.

Lemma secs_split d : (secs d == inject_Z (d / second) + inject_Z (d mod second) / inject_Z second)%Q.
Proof.
  rewrite (Z.div_mod d second) at 1 by done. unfold secs. rewrite inject_Z_plus, inject_Z_mult. field. done.
Qed.

(** [Seconds] is at most three roundings above the exact value. *)
Lemma Seconds_bounds d :
  (0 <= d)%Z → (0 <= Seconds d)%Q ∧ (Seconds d <= secs d * kappa * kappa * kappa)%Q.
Proof.
  intros Hd. unfold Seconds, fadd, fdiv, f_of_int.
  rewrite Z.quot_div_nonneg, Z.rem_mod_nonneg by (try done; lia).
  assert (0 <= inject_Z (d / second))%Q as Ha by (apply inject_nonneg, Z.div_pos; [lia|done]).
  assert (0 <= inject_Z (d mod second))%Q as Hb
    by (apply inject_nonneg; by apply (Z.mod_pos_bound d second)).
  set (a := inject_Z (d / second)) in *. set (b := inject_Z (d mod second)) in *.
  set (s := inject_Z second). assert (0 < s)%Q as Hs by reflexivity.
  pose proof (rnd_nonneg a Ha) as Ha'. pose proof (rnd_nonneg b Hb) as Hb'.
  assert (∀ x, 0 <= x → 0 <= x / s)%Q as Hdiv.
  { intros x Hx. apply Qle_shift_div_l; [done|]. lra. }
  assert (rnd a <= a * kappa)%Q as Ha1 by (apply rnd_upper; [done|lra]).
  assert (rnd b <= b * kappa)%Q as Hb1 by (apply rnd_upper; [done|lra]).
  assert (rnd (rnd b / s) <= b / s * kappa * kappa)%Q as Hb2.
  { apply rnd_upper; [by apply Hdiv|]. unfold Qdiv.
    assert ((b * / s * kappa) == (b * kappa * / s))%Q as -> by (field; intros Hz; rewrite Hz in Hs; discriminate).
    apply Qmul_mono; [|done]. apply Qlt_le_weak, Qinv_lt_0_compat. done. }
  pose proof (rnd_nonneg _ (Hdiv _ Hb')) as Hb3. split; [apply rnd_nonneg; lra|].
  apply rnd_upper; [lra|]. rewrite secs_split. fold a b s.
  pose proof (kappa_grow a Ha). pose proof (kappa_grow (a * kappa)%Q ltac:(pose proof kappa_ge; nra)).
  lra.
Qed.

(** A bucket of the limiter: [M] tokens at most, refilled at [rate]. *)
Definition bucket_ok (M rate : Q) (b : tokenBucket) : Prop :=
  tb_max b = M ∧ tb_rate b = rate ∧ (0 <= tb_tokens b)%Q ∧ (tb_tokens b <= M)%Q.

Lemma math_Min_le a b : (math_Min a b <= a ∧ math_Min a b <= b)%Q.
Proof.
  unfold math_Min, Qltb. destruct (Qle_bool b a) eqn:E; simpl.
  - apply Qle_bool_iff in E. lra.
  - assert (¬ (b <= a)%Q) as Hn by (rewrite <- Qle_bool_iff; congruence). apply Qnot_le_lt in Hn. lra.
Qed.

Lemma math_Min_nonneg a b : (0 <= a → 0 <= b → 0 <= math_Min a b)%Q.
Proof. unfold math_Min. by destruct (Qltb a b). Qed.

Lemma time_Sub_bounds now last : (last <= now)%Z → (0 <= time_Sub now last <= now - last)%Z.
Proof. unfold time_Sub, min_int64, max_int64. lia. Qed.

Lemma refill_ok M rate b now :
  (0 <= M)%Q → (0 <= rate)%Q → bucket_ok M rate b → (tb_lastTime b <= now)%Z →
  bucket_ok M rate (refill b now) ∧ tb_lastTime (refill b now) = now ∧
  (tb_tokens (refill b now) <= tb_tokens b + ulp * M + secs (now - tb_lastTime b) * rate * kappa5)%Q.
Proof.
  intros HM Hr (Hm & Hrt & Hx0 & Hx1) Ht. unfold refill, bucket_ok; simpl. rewrite Hm, Hrt.
  set (d := time_Sub now (tb_lastTime b)).
  assert (0 <= d <= now - tb_lastTime b)%Z as Hd by (by apply time_Sub_bounds).
  destruct (Seconds_bounds d) as [HS0 HS1]; [lia|].
  pose proof (secs_mono d (now - tb_lastTime b)%Z ltac:(lia)) as Hmono.
  pose proof (secs_nonneg d ltac:(lia)) as Hsd.
  set (E := Seconds d) in *. set (x := tb_tokens b) in *. pose proof kappa_ge as Hk. pose proof ulp_nonneg as Hu.
  assert (0 <= E * rate)%Q as HEr by (by apply Qmul_pos).
  pose proof (rnd_nonneg _ HEr) as Hf0.
  assert (fmul E rate <= E * rate * kappa)%Q as Hf1 by (apply rnd_upper; [done|lra]).
  assert (fadd x (fmul E rate) <= (x + fmul E rate) * kappa)%Q as Hg by (apply rnd_upper; unfold fmul in *; lra).
  assert (0 <= fadd x (fmul E rate))%Q as Hg0 by (apply rnd_nonneg; unfold fmul in *; lra).
  pose proof (math_Min_le (fadd x (fmul E rate)) M) as [Hm1 Hm2].
  pose proof (math_Min_nonneg (fadd x (fmul E rate)) M Hg0 HM) as Hm0.
  split; [done|]. split; [done|].
  assert (fmul E rate * kappa <= secs (now - tb_lastTime b) * rate * kappa5)%Q as Hfin.
  { apply Qle_trans with (E * rate * kappa * kappa)%Q; [apply Qmul_mono; lra|].
    apply Qle_trans with (secs d * kappa * kappa * kappa * rate * kappa * kappa)%Q.
    - apply Qmul_mono; [lra|]. apply Qmul_mono; [lra|]. by apply Qmul_mono.
    - assert ((secs d * kappa * kappa * kappa * rate * kappa * kappa) == (secs d * (rate * kappa5)))%Q as -> by (unfold kappa5; ring).
      assert ((secs (now - tb_lastTime b) * rate * kappa5) == (secs (now - tb_lastTime b) * (rate * kappa5)))%Q as -> by ring.
      apply Qmul_mono; [|done]. apply Qmul_pos; [done|]. unfold kappa5.
      repeat apply Qmul_pos; lra. }
  assert (x * kappa <= x + ulp * M)%Q as Hx.
  { unfold kappa. assert (x * ulp <= M * ulp)%Q by (by apply Qmul_mono). lra. }
  lra.
Qed.

(** One [Allow]: an accepted call takes a token, up to a rounding. *)
Lemma Allow_ok M rate b now ok b' :
  (0 <= M)%Q → (ulp * M <= 1)%Q → (0 <= rate)%Q → bucket_ok M rate b → (tb_lastTime b <= now)%Z →
  Allow b now = (ok, b') →
  bucket_ok M rate b' ∧ tb_lastTime b' = now ∧
  (tb_tokens b' + (if ok then 1 else 0) <=
   tb_tokens b + 2 * (ulp * M) + secs (now - tb_lastTime b) * rate * kappa5)%Q ∧
  (tb_tokens b' + (if ok then 1 else 0) <= M + ulp * M)%Q.
Proof.
  intros HM HuM1 Hr Hb Ht Hx. destruct (refill_ok M rate b now HM Hr Hb Ht) as (Hok & Hl & Hle).
  pose proof (Qmul_pos ulp M ulp_nonneg HM) as HuM. unfold Allow in Hx.
  set (c := refill b now) in *. clearbody c. unfold Qltb in Hx.
  destruct (Qle_bool 1 (tb_tokens c)) eqn:E; simpl in Hx; injection Hx as <- <-.
  - apply Qle_bool_iff in E. destruct Hok as (Hm & Hrt & H0' & H1'). unfold bucket_ok; simpl.
    assert (0 <= fsub (tb_tokens c) 1)%Q as Hs0 by (apply rnd_nonneg; lra).
    assert (fsub (tb_tokens c) 1 <= (tb_tokens c - 1) * kappa)%Q as Hs1
      by (apply rnd_upper; [lra|apply Qle_refl]).
    assert ((tb_tokens c - 1) * ulp <= M * ulp)%Q as Hs2 by (apply Qmul_mono; [apply ulp_nonneg|lra]).
    unfold kappa in Hs1. generalize dependent (fsub (tb_tokens c) 1). intros f Hs0 Hs1.
    assert (f <= tb_tokens c - 1 + ulp * M)%Q as Hf by nra.
    split; [split; [done|]; split; [done|]; split; [done|lra]|]. split; [done|]. split; lra.
  - split; [done|]. split; [done|]. destruct Hok as (_ & _ & _ & H1'). split; lra.
Qed.

Lemma newTokenBucket_ok rps burst now :
  (0 <= burst)%Z → bucket_ok (f_of_int burst) rps (newTokenBucket rps burst now).
Proof.
  intros Hb. split; [done|]. split; [done|]. split; simpl; [|lra]. by apply rnd_nonneg, inject_nonneg.
Qed.

(** ** Bounds on the limiter *)

Context `{LRU nat, !LRULaws nat}.

(** What a key may have passed since [t0] with [reqs] requests, and still hold at
    [t]: a full bucket, what the rate makes in the time, and the roundings. *)
Definition allowance (M rate : Q) (t0 t reqs : Z) : Q :=
  (M + secs (t - t0) * rate * kappa5 + 3 * (ulp * M) * inject_Z reqs)%Q.

(** The bucket of a key after [reqs] requests since [t0], of which [passed] passed:
    not touched since [t0], or within the allowance. *)
Definition within (M rate : Q) (t0 : Z) (b : tokenBucket) (passed reqs : Z) : Prop :=
  (tb_lastTime b < t0)%Z ∧ passed = 0%Z ∨
  (t0 <= tb_lastTime b)%Z ∧ (inject_Z passed + tb_tokens b <= allowance M rate t0 (tb_lastTime b) reqs)%Q.

Definition has_budget (M rate : Q) (t0 now : Z) (h : list tokenBucket) (passed reqs : Z) (p : option nat) : Prop :=
  (0 <= reqs)%Z ∧
  match p with
  | None => passed = 0%Z
  | Some p => ∃ b, h !! p = Some b ∧ bucket_ok M rate b ∧ (tb_lastTime b <= now)%Z ∧ within M rate t0 b passed reqs
  end.

Lemma kappa5_nonneg : (0 <= kappa5)%Q.
Proof. pose proof kappa_ge. unfold kappa5. repeat apply Qmul_pos; lra. Qed.

Lemma earned_nonneg rate d : (0 <= rate)%Q → (0 <= d)%Z → (0 <= secs d * rate * kappa5)%Q.
Proof. intros Hr Hd. apply Qmul_pos; [apply Qmul_pos; [by apply secs_nonneg|done]|apply kappa5_nonneg]. Qed.

Lemma slack_nonneg M reqs : (0 <= M)%Q → (0 <= reqs)%Z → (0 <= ulp * M * inject_Z reqs)%Q.
Proof. intros HM Hq. apply Qmul_pos; [apply Qmul_pos; [apply ulp_nonneg|done]|by apply inject_nonneg]. Qed.

Lemma allowance_ge M rate t0 t reqs :
  (0 <= M)%Q → (0 <= rate)%Q → (t0 <= t)%Z → (0 <= reqs)%Z → (M <= allowance M rate t0 t reqs)%Q.
Proof.
  intros HM Hr Ht Hq. unfold allowance. pose proof (earned_nonneg rate (t - t0) Hr ltac:(lia)).
  pose proof (slack_nonneg M reqs HM Hq). lra.
Qed.

Lemma allowance_later M rate t0 t t' reqs :
  (allowance M rate t0 t' reqs == allowance M rate t0 t reqs + secs (t' - t) * rate * kappa5)%Q.
Proof.
  unfold allowance. assert (secs (t' - t0) == secs (t' - t) + secs (t - t0))%Q as ->
    by (rewrite <- secs_add; f_equiv; lia). ring.
Qed.

Lemma allowance_request M rate t0 t reqs :
  (allowance M rate t0 t (reqs + 1) == allowance M rate t0 t reqs + 3 * (ulp * M))%Q.
Proof. unfold allowance. rewrite inject_Z_plus. change (inject_Z 1) with 1%Q. ring. Qed.

(** What an [Allow] lets through is within the allowance: a bucket last touched
    before [t0] holds at most [M] tokens by then. *)
Lemma Allow_within M rate b t0 now ok b' passed reqs :
  (0 <= M)%Q → (ulp * M <= 1)%Q → (0 <= rate)%Q → (0 <= reqs)%Z → bucket_ok M rate b →
  (tb_lastTime b <= now)%Z → (t0 <= now)%Z → within M rate t0 b passed reqs → Allow b now = (ok, b') →
  bucket_ok M rate b' ∧ tb_lastTime b' = now ∧
  (inject_Z (passed + if ok then 1 else 0) + tb_tokens b' <= allowance M rate t0 now reqs + 2 * (ulp * M))%Q.
Proof.
  intros HM Hu Hr Hq Hb Hl Ht Hw Hx.
  destruct (Allow_ok M rate b now ok b' HM Hu Hr Hb Hl Hx) as (Hok & Hl' & Hinc & Hcap).
  split; [done|]. split; [done|]. pose proof (Qmul_pos ulp M ulp_nonneg HM) as HuM. rewrite inject_Z_plus.
  assert (inject_Z (if ok then 1 else 0) == if ok then 1 else 0)%Q as -> by (by destruct ok).
  destruct Hw as [[_ ->]|[Ht0 Hle]].
  - pose proof (allowance_ge M rate t0 now reqs HM Hr Ht Hq). change (inject_Z 0) with 0%Q. lra.
  - rewrite (allowance_later _ _ _ (tb_lastTime b) now). lra.
Qed.

Definition key_ok (M rate : Q) (t0 now : Z) (r : RateLimit) (key : bytes) (passed reqs : Z) : Prop :=
  has_budget M rate t0 now (rl_heap r) passed reqs (lru_contents (rl_limiters r) !! key).

(** The pointers of different keys differ. *)
Record limiter_ok (seen : gset bytes) (r : RateLimit) : Prop := {
  lo_cap : lru_cap (rl_limiters r) = maxBuckets;
  lo_seen key p : lru_contents (rl_limiters r) !! key = Some p → key ∈ seen;
  lo_ptr key p : lru_contents (rl_limiters r) !! key = Some p → p < length (rl_heap r);
  lo_inj key key' p : lru_contents (rl_limiters r) !! key = Some p →
                      lru_contents (rl_limiters r) !! key' = Some p → key = key';
}.

Lemma contents_size seen r : limiter_ok seen r → size (lru_contents (rl_limiters r)) ≤ size seen.
Proof.
  intros Hl. rewrite <- (size_dom (D := gset bytes)). apply subseteq_size.
  intros key [p Hp]%elem_of_dom. by eapply lo_seen.
Qed.

Lemma limiterFor_ok seen r k now p r' :
  limiter_ok seen r → size ({[k]} ∪ seen) ≤ maxBuckets → limiterFor r k now = (p, r') →
  limiter_ok ({[k]} ∪ seen) r' ∧ rl_rps r' = rl_rps r ∧ rl_burst r' = rl_burst r ∧
  lru_contents (rl_limiters r') !! k = Some p ∧
  (∀ k', k' ≠ k → lru_contents (rl_limiters r') !! k' = lru_contents (rl_limiters r) !! k') ∧
  ((lru_contents (rl_limiters r) !! k = Some p ∧ rl_heap r' = rl_heap r) ∨
   (lru_contents (rl_limiters r) !! k = None ∧ p = length (rl_heap r) ∧
    rl_heap r' = rl_heap r ++ [newTokenBucket (rl_rps r) (rl_burst r) now])).
Proof.
  intros Hl Hsz Hx. unfold limiterFor in Hx.
  pose proof (lru_get_value (rl_limiters r) k) as Hv. pose proof (lru_get_contents (rl_limiters r) k) as Hc.
  pose proof (lru_get_cap (rl_limiters r) k) as Hcap. rewrite (lo_cap _ _ Hl) in Hcap.
  destruct (lru_get (rl_limiters r) k) as [[p0|] l]; simpl in Hv, Hc, Hcap; injection Hx as <- <-; simpl.
  - rewrite Hc, <- Hv. split; [|naive_solver]. split; simpl; rewrite ?Hc.
    + done.
    + intros key p Hp. apply elem_of_union_r. by eapply lo_seen.
    + apply Hl.
    + apply Hl.
  - assert (size (lru_contents l) < lru_cap l) as Hroom.
    { rewrite Hcap, Hc. assert (k ∉ dom (lru_contents (rl_limiters r))) as Hk by (by apply not_elem_of_dom).
      rewrite <- (size_dom (D := gset bytes)).
      assert (size ({[k]} ∪ dom (lru_contents (rl_limiters r))) ≤ size ({[k]} ∪ seen)) as Hle.
      { apply subseteq_size, union_mono_l. intros key [p Hp]%elem_of_dom. by eapply lo_seen. }
      rewrite size_union in Hle by set_solver. rewrite size_singleton in Hle. lia. }
    rewrite lru_add_room, Hc by done. rewrite lookup_insert_eq.
    split; [|split; [done|]; split; [done|]; split; [done|]; split;
             [intros; by rewrite lookup_insert_ne|by right]].
    split; simpl; rewrite ?lru_add_cap, ?lru_add_room, ?Hc by done.
    + done.
    + intros key p [[<- <-]|[_ Hp]]%lookup_insert_Some; [set_solver|].
      apply elem_of_union_r. by eapply lo_seen.
    + intros key p. rewrite length_app; simpl.
      intros [[<- <-]|[_ Hp]]%lookup_insert_Some; [lia|]. apply (lo_ptr _ _ Hl) in Hp. lia.
    + intros key key' p.
      intros [[<- <-]|[Hn Hp]]%lookup_insert_Some [[<- Hp2]|[Hn' Hp']]%lookup_insert_Some; [done|..].
      * apply (lo_ptr _ _ Hl) in Hp'. lia.
      * apply (lo_ptr _ _ Hl) in Hp. lia.
      * by eapply lo_inj.
Qed.

Lemma limiter_ok_heap seen r h :
  limiter_ok seen r → length h = length (rl_heap r) → limiter_ok seen (set_heap r h).
Proof. intros [? ? Hp ?] Hlen. split; simpl; rewrite ?Hlen; done. Qed.

Section Run.
Variables (rps : Q) (burst : Z).
Hypothesis rps_pos : (0 <= rps)%Q.
Hypothesis burst_pos : (0 <= burst)%Z.
Let M := f_of_int burst.
Hypothesis burst_small : (ulp * M <= 1)%Q.

Lemma M_nonneg : (0 <= M)%Q.
Proof. by apply rnd_nonneg, inject_nonneg. Qed.

Definition params_ok (r : RateLimit) : Prop := rl_rps r = rps ∧ rl_burst r = burst.

(** What a request does to the limiter, whoever sent it. *)
Lemma serve_frame seen r q ok r' :
  limiter_ok seen r → size ({[rq_key q]} ∪ seen) ≤ maxBuckets → serve r q = (ok, r') →
  limiter_ok ({[rq_key q]} ∪ seen) r' ∧ rl_rps r' = rl_rps r ∧ rl_burst r' = rl_burst r.
Proof.
  intros Hl Hsz Hx. unfold serve, Middleware in Hx. simpl in Hx.
  destruct (limiterFor r (rq_key q) (rq_new q)) as [p r1] eqn:E.
  destruct (limiterFor_ok _ _ _ _ _ _ Hl Hsz E) as (Hl1 & Hr & Hb & _).
  destruct (rl_heap r1 !! p) as [lim|]; [|by injection Hx as <- <-].
  destruct (Allow lim (rq_allow q)) as [[] lim1]; injection Hx as <- <-; (split; [|done]);
    apply limiter_ok_heap; by rewrite ?length_insert.
Qed.

Lemma key_ok_later t0 now now' r key passed reqs :
  (now <= now')%Z → key_ok M rps t0 now r key passed reqs → key_ok M rps t0 now' r key passed reqs.
Proof.
  unfold key_ok, has_budget. intros Hle [Hq Hk]. split; [done|]. case_match; [|done].
  destruct Hk as (b & ? & ? & ? & ?). exists b. split; [done|]. split; [done|]. split; [lia|done].
Qed.

(** A request of another key leaves the bucket of [key] alone. *)
Lemma serve_other seen r q ok r' t0 now key passed reqs :
  limiter_ok seen r → size ({[rq_key q]} ∪ seen) ≤ maxBuckets → serve r q = (ok, r') →
  rq_key q ≠ key → key_ok M rps t0 now r key passed reqs → key_ok M rps t0 now r' key passed reqs.
Proof.
  intros Hl Hsz Hx Hne Hk. unfold serve, Middleware in Hx. simpl in Hx.
  destruct (limiterFor r (rq_key q) (rq_new q)) as [p r1] eqn:E.
  destruct (limiterFor_ok _ _ _ _ _ _ Hl Hsz E) as (Hl1 & _ & _ & Hp & Hoth & Hheap).
  assert (∀ p', lru_contents (rl_limiters r) !! key = Some p' →
            p' ≠ p ∧ rl_heap r1 !! p' = rl_heap r !! p') as Hsame.
  { intros p' Hp'. split.
    - intros ->. rewrite <- Hoth in Hp' by done. by destruct Hne; eapply (lo_inj _ _ Hl1).
    - apply (lo_ptr _ _ Hl) in Hp'. destruct Hheap as [[_ ->]|(_ & _ & ->)]; [done|].
      by apply lookup_app_l. }
  unfold key_ok in *. rewrite <- (Hoth key) in Hk by done.
  assert (∀ h : list tokenBucket, (∀ p', p' ≠ p → h !! p' = rl_heap r1 !! p') →
    has_budget M rps t0 now h passed reqs (lru_contents (rl_limiters r1) !! key)) as Hfin.
  { intros h Hh. destruct (lru_contents (rl_limiters r1) !! key) as [p'|] eqn:Ep; [|done].
    destruct (Hsame p') as [Hnp Heq]; [by rewrite <- Hoth|]. unfold has_budget. rewrite Hh, Heq by done. exact Hk. }
  destruct (rl_heap r1 !! p) as [lim|]; [|injection Hx as <- <-; by apply Hfin].
  destruct (Allow lim (rq_allow q)) as [[] lim1]; injection Hx as <- <-; simpl; apply Hfin;
    intros; by apply list_lookup_insert_ne.
Qed.

(** The bucket of the request's own key, found or made. *)
Lemma own_bucket seen r q p r1 t0 now passed reqs :
  limiter_ok seen r → size ({[rq_key q]} ∪ seen) ≤ maxBuckets → params_ok r →
  (t0 <= now <= rq_new q)%Z → limiterFor r (rq_key q) (rq_new q) = (p, r1) →
  key_ok M rps t0 now r (rq_key q) passed reqs →
  lru_contents (rl_limiters r1) !! rq_key q = Some p ∧ p < length (rl_heap r1) ∧
  has_budget M rps t0 (rq_new q) (rl_heap r1) passed reqs (Some p).
Proof.
  intros Hl Hsz [Hrps Hburst] Ht E Hk. pose proof M_nonneg as HM.
  destruct (limiterFor_ok _ _ _ _ _ _ Hl Hsz E) as (Hl1 & _ & _ & Hp & _ & Hheap).
  split; [done|]. split; [by eapply lo_ptr|]. unfold key_ok in Hk.
  destruct Hheap as [[Hk0 ->]|(Hk0 & -> & ->)]; rewrite Hk0 in Hk; destruct Hk as [Hq Hk]; (split; [done|]).
  - destruct Hk as (b & ? & ? & ? & ?). exists b. split; [done|]. split; [done|]. split; [lia|done].
  - subst passed. eexists. split; [by apply list_lookup_middle|].
    rewrite Hrps, Hburst. split; [by apply newTokenBucket_ok|]. simpl. split; [lia|]. right. simpl. split; [lia|].
    pose proof (allowance_ge M rps t0 (rq_new q) reqs HM rps_pos ltac:(lia) Hq). fold M. change (inject_Z 0) with 0%Q. lra.
Qed.

(** A request of [key] is paid for from its budget. *)
Lemma serve_own seen r q ok r' t0 now passed reqs :
  limiter_ok seen r → size ({[rq_key q]} ∪ seen) ≤ maxBuckets → params_ok r →
  (t0 <= now <= rq_new q)%Z → (rq_new q <= rq_allow q <= rq_tokens q)%Z → serve r q = (ok, r') →
  key_ok M rps t0 now r (rq_key q) passed reqs →
  key_ok M rps t0 (rq_tokens q) r' (rq_key q) (passed + if ok then 1 else 0) (reqs + 1).
Proof.
  intros Hl Hsz Hpar Ht0 Ht Hx Hk. unfold serve, Middleware in Hx. simpl in Hx.
  destruct (limiterFor r (rq_key q) (rq_new q)) as [p r1] eqn:E.
  destruct (own_bucket _ _ _ _ _ _ _ _ _ Hl Hsz Hpar Ht0 E Hk) as (Hp & Hlt & Hq & b & Hb & Hok & Hlast & Hw).
  rewrite Hb in Hx. pose proof M_nonneg as HM. pose proof (Qmul_pos ulp M ulp_nonneg HM) as HuM.
  destruct (Allow b (rq_allow q)) as [a b1] eqn:Ea.
  destruct (Allow_within M rps b t0 (rq_allow q) a b1 passed reqs HM burst_small rps_pos Hq Hok ltac:(lia) ltac:(lia) Hw Ea)
    as (Hok1 & Hl1 & Ht1).
  unfold key_ok, has_budget. destruct a; injection Hx as <- <-; simpl; rewrite Hp; (split; [lia|]);
    (eexists; split; [by rewrite list_lookup_insert_eq|]).
  - destruct (refill_ok M rps b1 (rq_tokens q) HM rps_pos Hok1 ltac:(lia)) as (Hok2 & Hl2 & Ht2).
    split; [done|]. rewrite Hl2. split; [lia|]. right. rewrite Hl2. split; [lia|].
    rewrite allowance_request, (allowance_later _ _ _ (rq_allow q) (rq_tokens q)). rewrite Hl1 in Ht2. lra.
  - split; [done|]. rewrite Hl1. split; [lia|]. right. rewrite Hl1. split; [lia|]. rewrite allowance_request. lra.
Qed.

Definition count_key (key : bytes) (qs : list request) : Z :=
  Z.of_nat (length (List.filter (fun q => str_eqb (rq_key q) key) qs)).

Lemma count_key_cons key q qs :
  count_key key (q :: qs) = ((if str_eqb (rq_key q) key then 1 else 0) + count_key key qs)%Z.
Proof. unfold count_key. cbn [List.filter]. destruct (str_eqb (rq_key q) key); cbn [length]; lia. Qed.

Lemma in_order_start t0 t1 qs : in_order t0 t1 qs → (t0 <= t1)%Z.
Proof.
  revert t0. induction qs as [|q qs IH]; intros t0; simpl; [done|]. intros [? Ho%IH]. lia.
Qed.

Lemma run_ok key qs : ∀ seen r t0 now t1 passed reqs,
  limiter_ok seen r → size (list_to_set (rq_key <$> qs) ∪ seen) ≤ maxBuckets → params_ok r →
  (t0 <= now)%Z → in_order now t1 qs → key_ok M rps t0 now r key passed reqs →
  key_ok M rps t0 t1 (run_requests r qs key).2 key (passed + (run_requests r qs key).1)
    (reqs + count_key key qs).
Proof.
  induction qs as [|q qs IH]; intros seen r t0 now t1 passed reqs Hl Hsz Hpar Ht Ho Hk; simpl in Ho, Hsz.
  { simpl. rewrite !Z.add_0_r. by eapply key_ok_later. }
  destruct Ho as [Hq Ho]. cbn [run_requests]. destruct (serve r q) as [ok r1] eqn:E.
  assert (size ({[rq_key q]} ∪ seen) ≤ maxBuckets) as Hsz1.
  { etrans; [|exact Hsz]. apply subseteq_size. set_solver. }
  destruct (serve_frame _ _ _ _ _ Hl Hsz1 E) as (Hl1 & Hr1 & Hb1).
  assert (params_ok r1) as Hpar1 by (unfold params_ok in *; by rewrite Hr1, Hb1).
  assert (size (list_to_set (rq_key <$> qs) ∪ ({[rq_key q]} ∪ seen)) ≤ maxBuckets) as Hsz2.
  { etrans; [|exact Hsz]. apply subseteq_size. set_solver. }
  rewrite count_key_cons. destruct (str_eqb (rq_key q) key) eqn:Ek.
  - apply str_eqb_eq in Ek. subst key.
    pose proof (serve_own seen r q ok r1 t0 now passed reqs Hl Hsz1 Hpar ltac:(lia) ltac:(lia) E Hk) as Hk1.
    specialize (IH _ _ t0 (rq_tokens q) t1 _ _ Hl1 Hsz2 Hpar1 ltac:(lia) Ho Hk1).
    destruct (run_requests r1 qs (rq_key q)) as [n r2]. cbn [fst snd] in *. rewrite andb_true_r.
    replace (passed + (if ok then n + 1 else n))%Z with (passed + (if ok then 1 else 0) + n)%Z
      by (destruct ok; lia).
    by replace (reqs + (1 + count_key (rq_key q) qs))%Z with (reqs + 1 + count_key (rq_key q) qs)%Z by lia.
  - assert (rq_key q ≠ key) as Hne by (by apply bool_decide_eq_false in Ek).
    pose proof (serve_other _ _ _ _ _ _ _ _ _ _ Hl Hsz1 E Hne Hk) as Hk1.
    apply (key_ok_later _ _ (rq_tokens q)) in Hk1; [|lia].
    specialize (IH _ _ t0 (rq_tokens q) t1 _ _ Hl1 Hsz2 Hpar1 ltac:(lia) Ho Hk1).
    destruct (run_requests r1 qs key) as [n r2]. cbn [fst snd] in *. by rewrite andb_false_r, Z.add_0_l.
Qed.
End Run.

(** A new limiter knows no key. *)
Lemma NewRateLimit_ok rps burst key t0 :
  (0 < rps)%Q → (0 < burst)%Z →
  limiter_ok ∅ (NewRateLimit rps burst) ∧ params_ok rps burst (NewRateLimit rps burst) ∧
  key_ok (f_of_int burst) rps t0 t0 (NewRateLimit rps burst) key 0 0.
Proof.
  intros Hrps Hburst. split; [|split].
  - split; simpl; [by rewrite lru_new_cap|..]; intros *; by rewrite lru_new_contents, lookup_empty.
  - unfold params_ok, NewRateLimit; simpl. destruct (Qle_bool rps 0) eqn:E;
      [apply Qle_bool_iff in E; lra|]. by destruct (Z.leb_spec burst 0); [lia|].
  - unfold key_ok, has_budget. simpl. by rewrite lru_new_contents, lookup_empty.
Qed.

(** Whatever happened before, a window opens with nothing passed. *)
Lemma key_ok_restart M rate t00 t0 r key passed reqs :
  key_ok M rate t00 t0 r key passed reqs → (0 <= M)%Q → (0 <= rate)%Q → key_ok M rate t0 t0 r key 0 0.
Proof.
  unfold key_ok, has_budget. intros [_ Hk] HM Hr. split; [done|]. case_match; [|done].
  destruct Hk as (b & Hb & Hok & Hl & _). exists b. split; [done|]. split; [done|]. split; [done|].
  destruct (Z.lt_ge_cases (tb_lastTime b) t0) as [Hlt|Hge]; [by left|right]. split; [done|].
  destruct Hok as (_ & _ & _ & Hle). pose proof (allowance_ge M rate t0 (tb_lastTime b) 0 HM Hr Hge ltac:(lia)).
  change (inject_Z 0) with 0%Q. lra.
Qed.

(** What a key has passed is within its allowance. *)
Lemma key_ok_bound M rate t0 t1 r key passed reqs :
  (0 <= M)%Q → (0 <= rate)%Q → (t0 <= t1)%Z → key_ok M rate t0 t1 r key passed reqs →
  (inject_Z passed <= allowance M rate t0 t1 reqs)%Q.
Proof.
  unfold key_ok, has_budget. intros HM Hr Ht [Hq Hk].
  pose proof (allowance_ge M rate t0 t1 reqs HM Hr Ht Hq) as Hge.
  assert (passed = 0%Z → (inject_Z passed <= allowance M rate t0 t1 reqs)%Q) as Hzero
    by (intros ->; change (inject_Z 0) with 0%Q; lra).
  destruct (lru_contents (rl_limiters r) !! key) as [p|]; [|by apply Hzero].
  destruct Hk as (b & _ & (_ & _ & Hb0 & _) & Hl & [[_ ->]|[_ Hle]]); [by apply Hzero|].
  rewrite (allowance_later _ _ _ (tb_lastTime b) t1). pose proof (earned_nonneg rate (t1 - tb_lastTime b) Hr ltac:(lia)). lra.
Qed.

(** The limiter after any requests. *)
Lemma run_frame rps burst key qs : ∀ seen r,
  limiter_ok seen r → size (list_to_set (rq_key <$> qs) ∪ seen) ≤ maxBuckets → params_ok rps burst r →
  let r' := (run_requests r qs key).2 in
  limiter_ok (list_to_set (rq_key <$> qs) ∪ seen) r' ∧ params_ok rps burst r'.
Proof.
  induction qs as [|q qs IH]; intros seen r Hl Hsz Hpar; simpl in Hsz; [simpl; by rewrite union_empty_l_L|].
  cbn [run_requests]. destruct (serve r q) as [ok r1] eqn:E.
  assert (size ({[rq_key q]} ∪ seen) ≤ maxBuckets) as Hsz1 by (etrans; [|exact Hsz]; apply subseteq_size; set_solver).
  destruct (serve_frame _ _ _ _ _ Hl Hsz1 E) as (Hl1 & Hr1 & Hb1).
  assert (params_ok rps burst r1) as Hpar1 by (unfold params_ok in *; by rewrite Hr1, Hb1).
  replace (list_to_set (rq_key <$> q :: qs) ∪ seen) with (list_to_set (rq_key <$> qs) ∪ ({[rq_key q]} ∪ seen) : gset bytes)
    in * by (simpl; set_solver).
  specialize (IH _ r1 Hl1 ltac:(etrans; [|exact Hsz]; apply subseteq_size; set_solver) Hpar1).
  by destruct (run_requests r1 qs key).
Qed.

(** The limiter bounds the traffic of every key in every window of time. Whatever
    requests it has served [before], of the requests [qs] that follow between [t0]
    and [t1] the limiter lets at most the burst plus the rate times the seconds of
    the window through for one key, whatever the other keys do, as long as the keys
    in use fit into its table; the float64 rounding of the buckets adds at most the
    stated relative error and three units in the last place of the burst for each
    request of the key. *)
Theorem rate_limit_bound rps burst key before qs t00 t0 t1 :
  (0 < rps)%Q → (0 < burst)%Z → (ulp * f_of_int burst <= 1)%Q →
  size (list_to_set (rq_key <$> (before ++ qs)) : gset bytes) ≤ maxBuckets →
  in_order t00 t0 before → in_order t0 t1 qs →
  (inject_Z (run_requests (run_requests (NewRateLimit rps burst) before key).2 qs key).1 <=
   f_of_int burst + secs (t1 - t0) * rps * kappa5 + 3 * (ulp * f_of_int burst) * inject_Z (count_key key qs))%Q.
Proof.
  intros Hrps Hburst Hsmall Hsz Ho0 Ho. destruct (NewRateLimit_ok rps burst key t00 Hrps Hburst) as (Hl & Hpar & Hk).
  rewrite fmap_app, list_to_set_app_L in Hsz.
  assert (size (list_to_set (rq_key <$> before) ∪ ∅ : gset bytes) ≤ maxBuckets) as Hsz0
    by (etrans; [|exact Hsz]; apply subseteq_size; set_solver).
  assert (0 <= f_of_int burst)%Q as HM by (apply rnd_nonneg, inject_nonneg; lia).
  destruct (run_frame rps burst key before ∅ _ Hl Hsz0 Hpar) as [Hl1 Hpar1].
  pose proof (run_ok rps burst ltac:(lra) ltac:(lia) Hsmall key before ∅ _ t00 t00 t0 0 0 Hl Hsz0 Hpar ltac:(lia) Ho0 Hk) as Hk1.
  apply key_ok_restart in Hk1; [|done|lra].
  pose proof (run_ok rps burst ltac:(lra) ltac:(lia) Hsmall key qs _ _ t0 t0 t1 0 0 Hl1
    ltac:(etrans; [|exact Hsz]; apply subseteq_size; set_solver) Hpar1 ltac:(lia) Ho Hk1) as Hr.
  rewrite !Z.add_0_l in Hr. apply key_ok_bound in Hr; [exact Hr|done|lra|by eapply in_order_start].
Qed.
End Bounds.

(** ** Exact arithmetic as an instance *)

Module LimitDemo.
Definition exact : Float64 := {| rnd := fun x => x; ulp := 0 |}.

Lemma exact_laws : @Float64Laws exact.
Proof. split; simpl; intros; lra. Qed.

Definition burst_of_three : list request :=
  [{| rq_key := bs "k"; rq_new := 0; rq_allow := 1; rq_tokens := 2 |};
   {| rq_key := bs "other"; rq_new := 3; rq_allow := 3; rq_tokens := 3 |};
   {| rq_key := bs "k"; rq_new := 4; rq_allow := 5; rq_tokens := 6 |};
   {| rq_key := bs "k"; rq_new := 7; rq_allow := 8; rq_tokens := 9 |}].

(** The same requests at another time. *)
Definition later (t : Z) : list request :=
  (fun q => {| rq_key := rq_key q; rq_new := rq_new q + t; rq_allow := rq_allow q + t; rq_tokens := rq_tokens q + t |}) <$>
  burst_of_three.
End LimitDemo.

#[local] Existing Instance LimitDemo.exact.
#[local] Existing Instance LimitDemo.exact_laws.

(** Two requests of "k" pass a bucket of two, the third does not; an hour later
    a burst of two passes again, and no more. *)
Lemma rate_limit_bound_witness :
  let before := LimitDemo.burst_of_three in let qs := LimitDemo.later 3600000000000 in
  let r := (run_requests (NewRateLimit 1 2) before (bs "k")).2 in
  (run_requests r qs (bs "k")).1 = 2%Z ∧
  (inject_Z (run_requests r qs (bs "k")).1 <=
   f_of_int 2 + secs (3600000000009 - 3600000000000) * 1 * kappa5 +
   3 * (ulp * f_of_int 2) * inject_Z (count_key (bs "k") qs))%Q.
Proof.
  split; [by vm_compute|].
  apply (rate_limit_bound 1 2 (bs "k") LimitDemo.burst_of_three (LimitDemo.later 3600000000000) 0 3600000000000 3600000000009).
  - reflexivity.
  - reflexivity.
  - vm_compute. discriminate.
  - apply (bool_decide_unpack _). by vm_compute.
  - simpl. lia.
  - simpl. lia.
Defined.
