(* ===== verification/Binary64.v ===== *)
(** * float64: binary64 arithmetic and rounding to 53 bits

    Go's float64 is IEEE 754 binary64. This file relates two ways to say what an
    operation on it does: the algorithms of Stdlib's [SpecFloat] on sign, mantissa
    and exponent, which RateFloat.v computes with, and the exact rational result
    rounded to the nearest number of 53 bits, ties to even ([rnd53]), which RateLimit.v
    reasons about. [rnd53] has the error, the monotony and the exactness that
    RateLimit.v and RateLiveness.v ask of a rounding, and for operands and results
    in the normal range the two agree ([f64_add_value] and its companions). *)

From Stdlib Require Import QArith Qround Qpower Lqa.
From Stdlib Require Import Floats.SpecFloat.
From S2P Require Import Prelude.

(** ** Powers of two *)

Definition pow2 (e : Z) : Q := (2 ^ e)%Q.

Lemma pow2_pos e : (0 < pow2 e)%Q.
Proof. by apply Qpower_0_lt. Qed.

Lemma pow2_add a b : (pow2 (a + b) == pow2 a * pow2 b)%Q.
Proof. apply Qpower_plus. intros Hz. discriminate Hz. Qed.

Lemma pow2_Z n : (0 <= n)%Z → (pow2 n == inject_Z (2 ^ n))%Q.
Proof. intros Hn. symmetry. by apply (Zpower_Qpower 2). Qed.

Lemma pow2_S e : (pow2 (e + 1) == 2 * pow2 e)%Q.
Proof. rewrite pow2_add. change (pow2 1) with 2%Q. ring. Qed.

Lemma pow2_le a b : (a <= b)%Z → (pow2 a <= pow2 b)%Q.
Proof. intros Hab. apply Qpower_le_compat_l; [done|]. discriminate. Qed.

Lemma pow2_lt_inv a b : (pow2 a < pow2 b)%Q → (a < b)%Z.
Proof.
  intros Hlt. destruct (Z.lt_ge_cases a b) as [|Hge]; [done|]. apply pow2_le in Hge. exfalso. lra.
Qed.

(** ** The nearest integer, ties to even *)

Definition nearest (y : Q) : Z :=
  let f := Qfloor y in
  match (y - inject_Z f ?= 1 # 2)%Q with
  | Lt => f
  | Eq => if Z.even f then f else f + 1
  | Gt => f + 1
  end%Z.

Lemma inject_1 z : (inject_Z (z + 1) == inject_Z z + 1)%Q.
Proof. by rewrite inject_Z_plus. Qed.

Lemma floor_bounds y : (inject_Z (Qfloor y) <= y)%Q ∧ (y < inject_Z (Qfloor y) + 1)%Q.
Proof. split; [apply Qfloor_le|]. rewrite <- inject_1. apply Qlt_floor. Qed.

Lemma floor_unique y z : (inject_Z z <= y)%Q → (y < inject_Z z + 1)%Q → Qfloor y = z.
Proof.
  intros Hl Hu. destruct (floor_bounds y) as [Hl' Hu'].
  assert (inject_Z z < inject_Z (Qfloor y) + 1)%Q as H1 by lra.
  assert (inject_Z (Qfloor y) < inject_Z z + 1)%Q as H2 by lra.
  rewrite <- inject_1, <- Zlt_Qlt in H1, H2. lia.
Qed.

#[export] Instance nearest_Proper : Proper (Qeq ==> eq) nearest.
Proof.
  intros x y Hxy. unfold nearest. rewrite (floor_unique x (Qfloor y)); [by rewrite Hxy| |];
    destruct (floor_bounds y); rewrite Hxy; lra.
Qed.

(** What the algorithm of a tie decides: the result is [f] or [f + 1]. *)
Lemma nearest_cases y :
  nearest y = Qfloor y ∧ (y <= inject_Z (Qfloor y) + (1 # 2))%Q ∨
  nearest y = (Qfloor y + 1)%Z ∧ (inject_Z (Qfloor y) + (1 # 2) <= y)%Q.
Proof.
  unfold nearest. destruct (y - inject_Z (Qfloor y) ?= 1 # 2)%Q eqn:E.
  - apply Qeq_alt in E. destruct (Z.even _); [left|right]; (split; [done|]); lra.
  - apply Qlt_alt in E. left. split; [done|]. lra.
  - apply Qgt_alt in E. right. split; [done|]. lra.
Qed.

Lemma nearest_upper y : (inject_Z (nearest y) <= y + (1 # 2))%Q.
Proof.
  destruct (floor_bounds y) as [Hl Hu]. destruct (nearest_cases y) as [[-> H]|[-> H]]; [|rewrite inject_1]; lra.
Qed.

Lemma nearest_lower y : (y + - (1 # 2) <= inject_Z (nearest y))%Q.
Proof.
  destruct (floor_bounds y) as [Hl Hu]. destruct (nearest_cases y) as [[-> H]|[-> H]]; [|rewrite inject_1]; lra.
Qed.

Lemma nearest_mono x y : (x <= y)%Q → (nearest x <= nearest y)%Z.
Proof.
  intros Hxy. pose proof (Qfloor_resp_le x y Hxy) as Hf. destruct (floor_bounds x), (floor_bounds y).
  destruct (Z.eq_dec (Qfloor x) (Qfloor y)) as [E|N].
  - unfold nearest. rewrite E in *.
    destruct (x - inject_Z (Qfloor y) ?= 1 # 2)%Q eqn:Ex, (y - inject_Z (Qfloor y) ?= 1 # 2)%Q eqn:Ey; try lia;
      repeat match goal with
      | H : (_ ?= _)%Q = Eq |- _ => apply Qeq_alt in H
      | H : (_ ?= _)%Q = Lt |- _ => apply Qlt_alt in H
      | H : (_ ?= _)%Q = Gt |- _ => apply Qgt_alt in H
      end; try (exfalso; lra); destruct (Z.even _); lia.
  - destruct (nearest_cases x) as [[-> _]|[-> _]], (nearest_cases y) as [[-> _]|[-> _]]; lia.
Qed.

Lemma nearest_Z z : nearest (inject_Z z) = z.
Proof.
  unfold nearest. rewrite Qfloor_Z. assert (inject_Z z - inject_Z z == 0)%Q as -> by ring. done.
Qed.

(** ** Rounding to 53 bits *)

(** The exponent of the leading bit of a positive number. *)
Definition ilog2 (q : Q) : Z :=
  let a := (Z.log2 (Qnum q) - Z.log2 (Zpos (Qden q)))%Z in
  if Qle_bool (pow2 a) q then a else (a - 1)%Z.

Definition leads (a : Z) (q : Q) : Prop := (pow2 a <= q)%Q ∧ (q < pow2 (a + 1))%Q.

Lemma leads_unique a b q : leads a q → leads b q → a = b.
Proof.
  intros [Ha Ha'] [Hb Hb'].
  assert (a < b + 1)%Z by (apply pow2_lt_inv; lra). assert (b < a + 1)%Z by (apply pow2_lt_inv; lra). lia.
Qed.

Lemma ilog2_spec q : (0 < q)%Q → leads (ilog2 q) q.
Proof.
  intros Hq. destruct q as [n d]. unfold ilog2. cbn [Qnum Qden].
  assert (0 < n)%Z as Hn by (unfold Qlt in Hq; simpl in Hq; lia).
  destruct (Z.log2_spec n Hn) as [Hn1 Hn2]. destruct (Z.log2_spec (Zpos d) ltac:(lia)) as [Hd1 Hd2].
  pose proof (Z.log2_nonneg n) as Ln. pose proof (Z.log2_nonneg (Zpos d)) as Ld.
  set (a := Z.log2 n) in *. set (b := Z.log2 (Zpos d)) in *.
  assert ((n # d) * inject_Z (Zpos d) == inject_Z n)%Q as Hnd by (unfold Qeq; simpl; lia).
  assert (pow2 a <= inject_Z n)%Q as A1 by (rewrite pow2_Z, <- Zle_Qle; lia).
  assert (inject_Z n < pow2 (a + 1))%Q as A2 by (rewrite pow2_Z, <- Zlt_Qlt; lia).
  assert (pow2 b <= inject_Z (Zpos d))%Q as B1 by (rewrite pow2_Z, <- Zle_Qle; lia).
  assert (inject_Z (Zpos d) < pow2 (b + 1))%Q as B2 by (rewrite pow2_Z, <- Zlt_Qlt; lia).
  assert (pow2 a == pow2 (a - b) * pow2 b)%Q as Hab by (rewrite <- pow2_add; f_equiv; lia).
  pose proof (pow2_pos (a - b)) as P1. pose proof (pow2_pos b) as P2.
  rewrite pow2_S in A2, B2. unfold leads.
  destruct (Qle_bool (pow2 (a - b)) (n # d)) eqn:E.
  - apply Qle_bool_iff in E. split; [done|]. rewrite pow2_S. apply Qnot_le_lt. intros Hle.
    assert (2 * pow2 (a - b) * inject_Z (Zpos d) <= inject_Z n)%Q as H1.
    { rewrite <- Hnd. apply Qmult_le_compat_r; [done|]. lra. }
    assert (pow2 (a - b) * pow2 b <= pow2 (a - b) * inject_Z (Zpos d))%Q by (apply Qmult_le_l; lra). lra.
  - assert (n # d < pow2 (a - b))%Q as Hlt.
    { apply Qnot_le_lt. intros Hle. apply Qle_bool_iff in Hle. congruence. }
    assert (pow2 (a - b) == 2 * pow2 (a - b - 1))%Q as Hh.
    { rewrite <- pow2_S. f_equiv. lia. }
    split.
    + apply Qnot_lt_le. intros Hl.
      assert (inject_Z n < pow2 (a - b - 1) * inject_Z (Zpos d))%Q as H1.
      { rewrite <- Hnd. apply Qmult_lt_r; [lra|done]. }
      assert (pow2 (a - b - 1) * inject_Z (Zpos d) < pow2 (a - b - 1) * (2 * pow2 b))%Q
        by (apply Qmult_lt_l; [apply pow2_pos|lra]).
      rewrite Hh in Hab. lra.
    + by rewrite Z.sub_add.
Qed.

(** A positive number rounded to 53 bits. *)
Definition rpos (q : Q) : Q :=
  let e := (ilog2 q - 52)%Z in (inject_Z (nearest (q / pow2 e)) * pow2 e)%Q.

Definition rnd53 (q : Q) : Q :=
  match (0 ?= q)%Q with
  | Lt => rpos q
  | Eq => 0
  | Gt => - rpos (- q)
  end%Q.

(** [q] is [y] units of [2^e]. *)
Lemma units q e : (q == q / pow2 e * pow2 e)%Q.
Proof. pose proof (pow2_pos e). field. lra. Qed.

Lemma units_le q e z : (inject_Z z * pow2 e <= q)%Q → (inject_Z z <= q / pow2 e)%Q.
Proof. intros Hl. apply Qle_shift_div_l; [apply pow2_pos|done]. Qed.

Lemma units_ge q e z : (q <= inject_Z z * pow2 e)%Q → (q / pow2 e <= inject_Z z)%Q.
Proof. intros Hl. apply Qle_shift_div_r; [apply pow2_pos|done]. Qed.

Lemma two52 : (inject_Z (2 ^ 52) == pow2 52)%Q.
Proof. done. Qed.

Lemma rpos_at e q : leads (e + 52) q → (rpos q == inject_Z (nearest (q / pow2 e)) * pow2 e)%Q.
Proof.
  intros Hl. assert (0 < q)%Q as Hq by (pose proof (pow2_pos (e + 52)); destruct Hl; lra).
  unfold rpos. rewrite (leads_unique _ _ _ (ilog2_spec q Hq) Hl). by rewrite Z.add_simpl_r.
Qed.

(** The rounded mantissa has 53 bits, or is [2^53]. *)
Lemma mantissa_range e q : leads (e + 52) q → (2 ^ 52 <= nearest (q / pow2 e) <= 2 ^ 53)%Z.
Proof.
  intros [Hl Hu]. split.
  - rewrite <- (nearest_Z (2 ^ 52)). apply nearest_mono, units_le. rewrite two52, <- pow2_add. by rewrite Z.add_comm.
  - rewrite <- (nearest_Z (2 ^ 53)). apply nearest_mono, units_ge.
    change (inject_Z (2 ^ 53)) with (pow2 53). rewrite <- pow2_add.
    assert (53 + e = e + 52 + 1)%Z as -> by lia. lra.
Qed.

Lemma rpos_range a q : leads a q → (pow2 a <= rpos q)%Q ∧ (rpos q <= pow2 (a + 1))%Q.
Proof.
  intros Hl. replace a with (a - 52 + 52)%Z in Hl by lia. pose proof (mantissa_range _ _ Hl) as [H1 H2].
  rewrite (rpos_at _ _ Hl). pose proof (pow2_pos (a - 52)) as Hp. split.
  - replace a with (52 + (a - 52))%Z at 1 by lia. rewrite pow2_add, <- two52.
    apply Qmult_le_compat_r; [by rewrite <- Zle_Qle|lra].
  - replace (a + 1)%Z with (53 + (a - 52))%Z at 1 by lia. rewrite pow2_add.
    change (pow2 53) with (inject_Z (2 ^ 53)). apply Qmult_le_compat_r; [by rewrite <- Zle_Qle|lra].
Qed.

Lemma rpos_mono x y : (0 < x)%Q → (x <= y)%Q → (rpos x <= rpos y)%Q.
Proof.
  intros Hx Hxy. pose proof (ilog2_spec x Hx) as Lx. pose proof (ilog2_spec y ltac:(lra)) as Ly.
  destruct (Z.lt_trichotomy (ilog2 x) (ilog2 y)) as [Hlt|[Heq|Hgt]].
  - destruct (rpos_range _ _ Lx) as [_ H1]. destruct (rpos_range _ _ Ly) as [H2 _].
    pose proof (pow2_le (ilog2 x + 1) (ilog2 y) ltac:(lia)). lra.
  - unfold rpos. rewrite Heq. pose proof (pow2_pos (ilog2 y - 52)) as Hp.
    apply Qmult_le_compat_r; [|lra]. rewrite <- Zle_Qle. apply nearest_mono.
    unfold Qdiv. apply Qmult_le_compat_r; [done|]. apply Qinv_le_0_compat. lra.
  - exfalso. destruct Lx as [Lx _], Ly as [_ Ly]. pose proof (pow2_le (ilog2 y + 1) (ilog2 x) ltac:(lia)). lra.
Qed.

Lemma rpos_upper q : (0 < q)%Q → (rpos q <= q * (1 + pow2 (-53)))%Q.
Proof.
  intros Hq. pose proof (ilog2_spec q Hq) as Hl. set (a := ilog2 q) in *.
  replace a with (a - 52 + 52)%Z in Hl by lia. rewrite (rpos_at _ _ Hl). pose proof (pow2_pos (a - 52)) as Hp.
  pose proof (nearest_upper (q / pow2 (a - 52))) as Hn. destruct Hl as [Hl _].
  assert (pow2 (a - 52) == 2 * (pow2 (a - 52 + 52) * pow2 (-53)))%Q as Hu.
  { rewrite <- pow2_add, <- pow2_S. f_equiv. lia. }
  assert (pow2 (a - 52 + 52) * pow2 (-53) <= q * pow2 (-53))%Q as H1 by (apply Qmult_le_compat_r; [done|discriminate]).
  assert (inject_Z (nearest (q / pow2 (a - 52))) * pow2 (a - 52) <= (q / pow2 (a - 52) + (1 # 2)) * pow2 (a - 52))%Q as H2
    by (apply Qmult_le_compat_r; [done|lra]).
  rewrite Qmult_plus_distr_l, <- units in H2. lra.
Qed.

Lemma rpos_lower q : (0 < q)%Q → (q * (1 - pow2 (-53)) <= rpos q)%Q.
Proof.
  intros Hq. pose proof (ilog2_spec q Hq) as Hl. set (a := ilog2 q) in *.
  replace a with (a - 52 + 52)%Z in Hl by lia. rewrite (rpos_at _ _ Hl). pose proof (pow2_pos (a - 52)) as Hp.
  pose proof (nearest_lower (q / pow2 (a - 52))) as Hn. destruct Hl as [Hl _].
  assert (pow2 (a - 52) == 2 * (pow2 (a - 52 + 52) * pow2 (-53)))%Q as Hu.
  { rewrite <- pow2_add, <- pow2_S. f_equiv. lia. }
  assert (pow2 (a - 52 + 52) * pow2 (-53) <= q * pow2 (-53))%Q as H1 by (apply Qmult_le_compat_r; [done|discriminate]).
  assert ((q / pow2 (a - 52) + - (1 # 2)) * pow2 (a - 52) <= inject_Z (nearest (q / pow2 (a - 52))) * pow2 (a - 52))%Q as H2
    by (apply Qmult_le_compat_r; lra).
  rewrite Qmult_plus_distr_l, <- units in H2. lra.
Qed.

Lemma Qcompare_0 q : (0 ?= q)%Q = Lt ∧ (0 < q)%Q ∨ (0 ?= q)%Q = Eq ∧ (q == 0)%Q ∨ (0 ?= q)%Q = Gt ∧ (q < 0)%Q.
Proof.
  destruct (0 ?= q)%Q eqn:E; [apply Qeq_alt in E|apply Qlt_alt in E|apply Qgt_alt in E]; auto.
  right. left. split; [done|]. lra.
Qed.

Lemma rpos_nonneg q : (0 < q)%Q → (0 < rpos q)%Q.
Proof. intros Hq. destruct (rpos_range _ _ (ilog2_spec q Hq)) as [H _]. pose proof (pow2_pos (ilog2 q)). lra. Qed.

Lemma rnd53_pos q : (0 < q)%Q → rnd53 q = rpos q.
Proof. intros Hq. unfold rnd53. by rewrite (proj1 (Qlt_alt 0 q) Hq). Qed.

Lemma rnd53_0 q : (q == 0)%Q → rnd53 q = 0%Q.
Proof. intros Hq. unfold rnd53. symmetry in Hq. by rewrite (proj1 (Qeq_alt 0 q) Hq). Qed.

Lemma rnd53_mono x y : (x <= y)%Q → (rnd53 x <= rnd53 y)%Q.
Proof.
  intros Hxy. unfold rnd53.
  destruct (Qcompare_0 x) as [[-> Hx]|[[-> Hx]|[-> Hx]]], (Qcompare_0 y) as [[-> Hy]|[[-> Hy]|[-> Hy]]]; try (exfalso; lra).
  - by apply rpos_mono.
  - pose proof (rpos_nonneg y Hy). lra.
  - lra.
  - pose proof (rpos_nonneg (- x) ltac:(lra)). pose proof (rpos_nonneg y Hy). lra.
  - pose proof (rpos_nonneg (- x) ltac:(lra)). lra.
  - pose proof (rpos_mono (- y) (- x) ltac:(lra) ltac:(lra)). lra.
Qed.

#[export] Instance rnd53_Proper : Proper (Qeq ==> Qeq) rnd53.
Proof. intros x y Hxy. apply Qle_antisym; apply rnd53_mono; lra. Qed.

Lemma rnd53_nonneg x : (0 <= x)%Q → (0 <= rnd53 x)%Q.
Proof. intros Hx. rewrite <- (rnd53_0 0) by done. by apply rnd53_mono. Qed.

Lemma rnd53_upper x y : (0 <= x)%Q → (x <= y)%Q → (rnd53 x <= y * (1 + pow2 (-53)))%Q.
Proof.
  intros Hx Hxy. assert (0 < pow2 (-53))%Q as Hu by apply pow2_pos.
  assert (x * (1 + pow2 (-53)) <= y * (1 + pow2 (-53)))%Q as H1 by (apply Qmult_le_compat_r; [done|lra]).
  destruct (Qcompare_0 x) as [[_ Hp]|[[_ Hz]|[_ Hn]]]; [| |exfalso; lra].
  - rewrite rnd53_pos by done. pose proof (rpos_upper x Hp). lra.
  - rewrite rnd53_0 by done. nra.
Qed.

Lemma rnd53_lower x : (0 <= x)%Q → (x * (1 - pow2 (-53)) <= rnd53 x)%Q.
Proof.
  intros Hx. destruct (Qcompare_0 x) as [[_ Hp]|[[_ Hz]|[_ Hn]]]; [| |exfalso; lra].
  - rewrite rnd53_pos by done. by apply rpos_lower.
  - rewrite rnd53_0 by done. rewrite Hz. lra.
Qed.

(** Whole numbers of up to 53 bits are exact. *)
Lemma rnd53_int z : (0 <= z <= 2 ^ 53)%Z → (rnd53 (inject_Z z) == inject_Z z)%Q.
Proof.
  intros [Hz Hz']. destruct (Z.eq_dec z 0%Z) as [->|Hne]; [done|].
  assert (0 < inject_Z z)%Q as Hp by (change 0%Q with (inject_Z 0); rewrite <- Zlt_Qlt; lia).
  rewrite rnd53_pos by done. pose proof (ilog2_spec _ Hp) as Hl. set (a := ilog2 (inject_Z z)) in *.
  assert (a <= 53)%Z as Ha.
  { destruct Hl as [Hl _]. assert (pow2 a < pow2 54)%Q as Hlt; [|apply pow2_lt_inv in Hlt; lia].
    change (pow2 54) with (inject_Z (2 ^ 54)).
    assert (inject_Z z < inject_Z (2 ^ 54))%Q by (rewrite <- Zlt_Qlt; lia). lra. }
  replace a with (a - 52 + 52)%Z in Hl by lia. rewrite (rpos_at _ _ Hl).
  assert (∃ m, inject_Z z / pow2 (a - 52) == inject_Z m)%Q as [m Hm].
  { destruct (Z.le_gt_cases a 52) as [Hle|Hgt].
    - exists (z * 2 ^ (52 - a))%Z. rewrite inject_Z_mult, <- pow2_Z by lia.
      assert (pow2 (a - 52) * pow2 (52 - a) == 1)%Q as Hi by (rewrite <- pow2_add; by replace (a - 52 + (52 - a))%Z with 0%Z by lia).
      pose proof (pow2_pos (a - 52)). apply (Qmult_inj_r _ _ (pow2 (a - 52))); [lra|]. rewrite <- units.
      rewrite <- Qmult_assoc, (Qmult_comm (pow2 (52 - a))), Hi. ring.
    - assert (a = 53)%Z as -> by lia. assert (z = 2 ^ 53)%Z as ->; [|by exists (2 ^ 52)%Z].
      destruct Hl as [Hl _]. change (pow2 (53 - 52 + 52)) with (inject_Z (2 ^ 53)) in Hl. rewrite <- Zle_Qle in Hl. lia. }
  rewrite Hm, nearest_Z, <- Hm, <- units. done.
Qed.

(** ** The rounding of SpecFloat *)

(** [y] lies where the mantissa, the round bit and the sticky bit say. *)
Definition located (mrs : shr_record) (y : Q) : Prop :=
  let x := (y - inject_Z (shr_m mrs))%Q in
  match shr_r mrs, shr_s mrs with
  | false, false => x == 0
  | false, true => 0 < x /\ x < 1 # 2
  | true, false => x == 1 # 2
  | true, true => 1 # 2 < x /\ x < 1
  end%Q.

Lemma located_floor mrs y : located mrs y → (inject_Z (shr_m mrs) <= y)%Q ∧ (y < inject_Z (shr_m mrs) + 1)%Q.
Proof. unfold located. destruct (shr_r mrs), (shr_s mrs); lra. Qed.

Lemma located_nearest mrs y : located mrs y → round_nearest_even (shr_m mrs) (loc_of_shr_record mrs) = nearest y.
Proof.
  intros Hl. destruct (located_floor _ _ Hl) as [H1 H2]. unfold nearest. rewrite (floor_unique y (shr_m mrs)) by done.
  unfold located in Hl. destruct mrs as [m r s]. cbn [shr_m shr_r shr_s] in *. destruct r, s; simpl.
  - destruct Hl as [Hl _]. by rewrite (proj1 (Qgt_alt _ _) Hl).
  - by rewrite (proj1 (Qeq_alt _ _) Hl).
  - destruct Hl as [_ Hl]. by rewrite (proj1 (Qlt_alt _ _) Hl).
  - assert (y - inject_Z m < 1 # 2)%Q as Hlt by lra. by rewrite (proj1 (Qlt_alt _ _) Hlt).
Qed.

Lemma inject_xO p : (inject_Z (Zpos p~0) == 2 * inject_Z (Zpos p))%Q.
Proof. done. Qed.

Lemma inject_xI p : (inject_Z (Zpos p~1) == 2 * inject_Z (Zpos p) + 1)%Q.
Proof. rewrite Pos2Z.inj_xI, inject_1, inject_Z_mult. done. Qed.

Lemma shr_1_located mrs y :
  (0 <= shr_m mrs)%Z → located mrs y → (0 <= shr_m (shr_1 mrs))%Z ∧ located (shr_1 mrs) (y / 2).
Proof.
  destruct mrs as [m r s]. cbn [shr_m]. intros Hm Hl. unfold located in Hl. cbn [shr_m shr_r shr_s] in Hl.
  assert (y / 2 == y * (1 # 2))%Q as Hy by (field; done).
  destruct m as [|[p|p|]|p]; [|pose proof (inject_xI p)|pose proof (inject_xO p)| |lia]; (split; [done|]); unfold located; cbn [shr_1 shr_m shr_r shr_s];
    set (z := (y / 2)%Q) in *; change (inject_Z 0) with 0%Q in *; change (inject_Z 1) with 1%Q in *;
    destruct r, s; cbn [orb]; lra.
Qed.

Lemma located_eq mrs y z : located mrs y → (y == z)%Q → located mrs z.
Proof. intros Hl Hyz. unfold located in *. destruct (shr_r mrs), (shr_s mrs); lra. Qed.

Lemma iter_located p : ∀ mrs y,
  (0 <= shr_m mrs)%Z → located mrs y →
  (0 <= shr_m (SpecFloat.iter_pos shr_1 p mrs))%Z ∧ located (SpecFloat.iter_pos shr_1 p mrs) (y / pow2 (Zpos p)).
Proof.
  assert (∀ y a b, y / pow2 a / pow2 b == y / pow2 (a + b))%Q as Hdiv.
  { intros y a b. rewrite pow2_add. pose proof (pow2_pos a). pose proof (pow2_pos b). field. lra. }
  induction p as [p IH|p IH|]; intros mrs y Hm Hl; cbn [SpecFloat.iter_pos].
  - destruct (shr_1_located _ _ Hm Hl) as [H1 L1]. destruct (IH _ _ H1 L1) as [H2 L2]. destruct (IH _ _ H2 L2) as [H3 L3].
    split; [done|]. eapply located_eq; [exact L3|]. change (y / 2)%Q with (y / pow2 1)%Q. rewrite !Hdiv. f_equiv. f_equiv. lia.
  - destruct (IH _ _ Hm Hl) as [H2 L2]. destruct (IH _ _ H2 L2) as [H3 L3].
    split; [done|]. eapply located_eq; [exact L3|]. rewrite !Hdiv. f_equiv. f_equiv. lia.
  - by apply shr_1_located.
Qed.

Lemma shr_located mrs e n y :
  (0 <= n)%Z → (0 <= shr_m mrs)%Z → located mrs y →
  ∃ mrs', shr mrs e n = (mrs', (e + n)%Z) ∧ located mrs' (y / pow2 n).
Proof.
  intros Hn Hm Hl. unfold shr. destruct n as [|p|p]; [| |lia].
  - exists mrs. rewrite Z.add_0_r. split; [done|].
    eapply located_eq; [exact Hl|]. change (pow2 0) with 1%Q. field.
  - eexists. split; [done|]. by apply iter_located.
Qed.

(** The number of digits is where the leading bit is. *)
Lemma digits_log2 p : Zpos (digits2_pos p) = (Z.log2 (Zpos p) + 1)%Z.
Proof.
  induction p as [p IH|p IH|]; cbn [digits2_pos]; [| |done]; rewrite Pos2Z.inj_succ, IH.
  - rewrite Pos2Z.inj_xI, Z.log2_succ_double by lia. lia.
  - rewrite Pos2Z.inj_xO, Z.log2_double by lia. lia.
Qed.

Lemma digits_leads m y e :
  (0 < m)%Z → (inject_Z m <= y)%Q → (y < inject_Z m + 1)%Q → leads (Zdigits2 m + e - 1) (y * pow2 e).
Proof.
  intros Hm Hl Hu. destruct m as [|p|p]; [lia| |lia]. cbn [Zdigits2]. rewrite digits_log2.
  destruct (Z.log2_spec (Zpos p) ltac:(lia)) as [H1 H2]. pose proof (Z.log2_nonneg (Zpos p)).
  set (a := Z.log2 (Zpos p)) in *. pose proof (pow2_pos e) as Hp.
  assert (pow2 a <= y)%Q as A1. { rewrite pow2_Z by lia. assert (inject_Z (2 ^ a) <= inject_Z (Zpos p))%Q by (by rewrite <- Zle_Qle). lra. }
  assert (y < pow2 (a + 1))%Q as A2.
  { rewrite pow2_Z by lia. assert (inject_Z (Zpos p) + 1 <= inject_Z (2 ^ (a + 1)))%Q; [|lra].
    rewrite <- inject_1, <- Zle_Qle. lia. }
  split.
  - replace (a + 1 + e - 1)%Z with (a + e)%Z by lia. rewrite pow2_add. apply Qmult_le_compat_r; [done|lra].
  - replace (a + 1 + e - 1 + 1)%Z with (a + 1 + e)%Z by lia. rewrite pow2_add. by apply Qmult_lt_r.
Qed.

(** A mantissa of 53 bits. *)
Lemma digits_53 m : (2 ^ 52 <= Zpos m < 2 ^ 53)%Z → digits2_pos m = 53%positive.
Proof.
  intros Hm. enough (Zpos (digits2_pos m) = 53%Z) as He by congruence. rewrite digits_log2.
  rewrite (Z.log2_unique (Zpos m) 52); [done|lia|]. exact Hm.
Qed.

(** The rounding of SpecFloat is [rpos], for a mantissa of at least 53 bits and
    a result in the normal range. *)
Lemma round_aux_value s mx ex lx x a :
  (0 < mx)%Z → located (shr_record_of_loc mx lx) (x / pow2 ex) → leads a x →
  (-1022 <= a <= 1022)%Z → (ex <= a - 52)%Z →
  ∃ m e, binary_round_aux 53 1024 s mx ex lx = S754_finite s m e ∧ digits2_pos m = 53%positive ∧
    (-1074 <= e <= 971)%Z ∧ (inject_Z (Zpos m) * pow2 e == rpos x)%Q.
Proof.
  intros Hmx Hloc Ha Hrange Hex. unfold binary_round_aux, shr_fexp.
  assert (shr_m (shr_record_of_loc mx lx) = mx) as Hsm by (by destruct lx as [|[]]).
  assert (Zdigits2 mx + ex = a + 1)%Z as Hdig.
  { destruct (located_floor _ _ Hloc) as [H1 H2]. rewrite Hsm in H1, H2.
    pose proof (digits_leads mx (x / pow2 ex) ex Hmx H1 H2) as Hl.
    assert (leads (Zdigits2 mx + ex - 1) x) as Hl' by (unfold leads in *; by rewrite <- units in Hl).
    pose proof (leads_unique _ _ _ Hl' Ha). lia. }
  assert (fexp 53 1024 (Zdigits2 mx + ex) = a - 52)%Z as -> by (rewrite Hdig; unfold fexp, emin; lia).
  destruct (shr_located (shr_record_of_loc mx lx) ex (a - 52 - ex) (x / pow2 ex)) as (mrs & -> & Hl); [lia|by rewrite Hsm; lia|done|].
  rewrite (located_nearest _ _ Hl).
  assert (x / pow2 ex / pow2 (a - 52 - ex) == x / pow2 (a - 52))%Q as Hx.
  { replace (a - 52)%Z with (ex + (a - 52 - ex))%Z at 2 by lia. rewrite (pow2_add ex).
    pose proof (pow2_pos ex). pose proof (pow2_pos (a - 52 - ex)). field. lra. }
  rewrite (nearest_Proper _ _ Hx). assert (leads (a - 52 + 52) x) as Ha' by (by rewrite Z.sub_add). pose proof (mantissa_range _ _ Ha') as Hm.
  setoid_rewrite (rpos_at _ _ Ha'). set (m1 := nearest (x / pow2 (a - 52))) in *.
  replace (ex + (a - 52 - ex))%Z with (a - 52)%Z by lia.
  destruct (Z.eq_dec m1 (2 ^ 53)%Z) as [E|N].
  - rewrite E.
    assert (fexp 53 1024 (Zdigits2 (2 ^ 53) + (a - 52)) - (a - 52) = 1)%Z as ->.
    { change (Zdigits2 (2 ^ 53)) with 54%Z. unfold fexp, emin. lia. }
    cbn [shr SpecFloat.iter_pos shr_record_of_loc]. change (shr_1 _) with {| shr_m := 2 ^ 52; shr_r := false; shr_s := false |}.
    cbn [shr_m]. change (2 ^ 52)%Z with (Zpos (Pos.pow 2 52)). rewrite (proj2 (Z.leb_le _ _)) by lia.
    eexists _, _. split; [done|]. split; [done|]. split; [lia|].
    rewrite pow2_S. change (inject_Z (Zpos (2 ^ 52))) with (pow2 52). change (inject_Z (2 ^ 53)) with (2 * pow2 52)%Q. ring.
  - destruct m1 as [|m|m]; [lia| |lia].
    assert (fexp 53 1024 (Zdigits2 (Zpos m) + (a - 52)) - (a - 52) = 0)%Z as ->.
    { cbn [Zdigits2]. rewrite digits_53 by lia. unfold fexp, emin. lia. }
    cbn [shr shr_record_of_loc shr_m]. rewrite (proj2 (Z.leb_le _ _)) by lia.
    eexists _, _. split; [done|]. split; [apply digits_53; lia|]. split; [lia|done].
Qed.

(** ** float64 *)

Definition f64 : Type := spec_float.

Definition f64_add (a b : f64) : f64 := SFadd 53 1024 a b.
Definition f64_sub (a b : f64) : f64 := SFsub 53 1024 a b.
Definition f64_mul (a b : f64) : f64 := SFmul 53 1024 a b.
Definition f64_div (a b : f64) : f64 := SFdiv 53 1024 a b.

(** [float64(z)] *)
Definition f64_of_int (z : Z) : f64 := binary_normalize 53 1024 z 0 false.

Definition f64_one : f64 := f64_of_int 1.
Definition f64_zero : f64 := f64_of_int 0.

(** The number a float stands for. *)
Definition B2Q (f : f64) : Q :=
  match f with
  | S754_finite s m e => let v := (inject_Z (Zpos m) * pow2 e)%Q in if s then (- v)%Q else v
  | _ => 0%Q
  end.

(** A positive number with all its 53 bits. *)
Definition normal (f : f64) : Prop :=
  match f with
  | S754_finite false m e => digits2_pos m = 53%positive ∧ (-1074 <= e <= 971)%Z
  | _ => False
  end.

Definition nonneg (f : f64) : Prop := f = S754_zero false ∨ normal f.

(** Results that are zero or neither too small nor too large. *)
Definition normal_range (x : Q) : Prop := (x == 0)%Q ∨ (pow2 (-1022) <= x)%Q ∧ (x < pow2 1023)%Q.

(** [r] is [x] rounded. *)
Definition rounds (r : f64) (x : Q) : Prop := nonneg r ∧ (B2Q r == rnd53 x)%Q.

Lemma rounds_eq r x y : rounds r x → (x == y)%Q → rounds r y.
Proof. intros [Hn Hr] Hxy. split; [done|]. by rewrite <- Hxy. Qed.

Lemma normal_leads m e : digits2_pos m = 53%positive → leads (e + 52) (inject_Z (Zpos m) * pow2 e).
Proof.
  intros Hd. pose proof (digits_leads (Zpos m) (inject_Z (Zpos m)) e ltac:(lia) ltac:(lra) ltac:(lra)) as Hl.
  cbn [Zdigits2] in Hl. rewrite Hd in Hl. by replace (53 + e - 1)%Z with (e + 52)%Z in Hl by lia.
Qed.

Lemma normal_value f : normal f → ∃ m e, f = S754_finite false m e ∧ digits2_pos m = 53%positive ∧
  (-1074 <= e <= 971)%Z ∧ (B2Q f == inject_Z (Zpos m) * pow2 e)%Q ∧ leads (e + 52) (B2Q f).
Proof.
  destruct f as [| | |[] m e]; try done. intros [Hd He]. exists m, e. repeat (split; [done|]). by apply normal_leads.
Qed.

Lemma normal_pos f : normal f → (0 < B2Q f)%Q.
Proof. intros (m & e & _ & _ & _ & _ & [Hl _])%normal_value. pose proof (pow2_pos (e + 52)). lra. Qed.

Lemma nonneg_0_le f : nonneg f → (0 <= B2Q f)%Q.
Proof. intros [->|Hn]; [done|]. apply normal_pos in Hn. lra. Qed.

Lemma normal_range_leads x : (pow2 (-1022) <= x)%Q → (x < pow2 1023)%Q → ∃ a, leads a x ∧ (-1022 <= a <= 1022)%Z.
Proof.
  intros Hl Hu. pose proof (pow2_pos (-1022)). pose proof (ilog2_spec x ltac:(lra)) as Ha. exists (ilog2 x). split; [done|].
  destruct Ha as [H1 H2]. assert (ilog2 x < 1023)%Z by (apply pow2_lt_inv; lra).
  assert (-1022 < ilog2 x + 1)%Z by (apply pow2_lt_inv; lra). lia.
Qed.

Lemma round_aux_ok mx ex lx x :
  (0 < mx)%Z → located (shr_record_of_loc mx lx) (x / pow2 ex) → (pow2 (-1022) <= x)%Q → (x < pow2 1023)%Q →
  (∀ a, leads a x → (ex <= a - 52)%Z) → rounds (binary_round_aux 53 1024 false mx ex lx) x.
Proof.
  intros Hm Hloc Hl Hu Hex. destruct (normal_range_leads x Hl Hu) as (a & Ha & Hr).
  destruct (round_aux_value false mx ex lx x a Hm Hloc Ha Hr (Hex a Ha)) as (m & e & -> & Hd & He & Hv).
  split; [by right|]. cbn [B2Q]. pose proof (pow2_pos (-1022)). rewrite rnd53_pos by lra. done.
Qed.

(** ** Integers times powers of two *)

Lemma iter_xO m d : Zpos (Pos.iter xO m d) = (Zpos m * 2 ^ Zpos d)%Z.
Proof.
  induction d as [|d IH] using Pos.peano_ind; [change (Pos.iter xO m 1) with (xO m); lia|].
  rewrite Pos.iter_succ, Pos2Z.inj_xO, IH, Pos2Z.inj_succ, Z.pow_succ_r by lia. lia.
Qed.

Lemma shl_align_spec m e e' :
  let '(m', e1) := shl_align m e e' in
  e1 = Z.min e e' ∧ (inject_Z (Zpos m') * pow2 e1 == inject_Z (Zpos m) * pow2 e)%Q.
Proof.
  unfold shl_align. destruct (e' - e)%Z as [|d|d] eqn:E; [split; [lia|done]..|]. split; [lia|].
  rewrite iter_xO, inject_Z_mult, <- pow2_Z by lia. rewrite <- Qmult_assoc, <- pow2_add.
  replace (Z.pos d + e')%Z with e by lia. done.
Qed.

Lemma located_exact m x e : (x == inject_Z m * pow2 e)%Q → located (shr_record_of_loc m loc_Exact) (x / pow2 e).
Proof. intros Hx. unfold located. cbn. rewrite Hx. pose proof (pow2_pos e). field. lra. Qed.

Lemma binary_round_ok m e x :
  (x == inject_Z (Zpos m) * pow2 e)%Q → (pow2 (-1022) <= x)%Q → (x < pow2 1023)%Q → rounds (binary_round 53 1024 false m e) x.
Proof.
  intros Hx Hl Hu. unfold binary_round.
  pose proof (shl_align_spec m e (fexp 53 1024 (Z.pos (digits2_pos m) + e))) as Hs.
  destruct (shl_align _ _ _) as [mz ez]. destruct Hs as [Hez Hv]. rewrite <- Hv in Hx.
  apply round_aux_ok; [done|by apply located_exact|done..|]. intros a Ha.
  assert (Z.pos (digits2_pos m) + e = a + 1)%Z as Hd.
  { pose proof (digits_leads (Zpos m) (inject_Z (Zpos m)) e ltac:(lia) ltac:(lra) ltac:(lra)) as Hlm.
    assert (leads (Zdigits2 (Zpos m) + e - 1) x) as Hlx by (unfold leads in *; rewrite Hx, Hv; done).
    pose proof (leads_unique _ _ _ Hlx Ha). cbn [Zdigits2] in *. lia. }
  destruct (normal_range_leads x Hl Hu) as (a' & Ha' & Hr). rewrite (leads_unique _ _ _ Ha' Ha) in Hr.
  rewrite Hd in Hez. unfold fexp, emin in Hez. lia.
Qed.

Lemma normalize_ok z e :
  (0 <= z)%Z → normal_range (inject_Z z * pow2 e) → rounds (binary_normalize 53 1024 z e false) (inject_Z z * pow2 e).
Proof.
  intros Hz Hr. destruct z as [|m|m]; [| |lia].
  - split; [by left|]. cbn [binary_normalize B2Q]. rewrite rnd53_0; [done|]. change (inject_Z 0) with 0%Q. ring.
  - destruct Hr as [Hr|[Hl Hu]]; [|by apply binary_round_ok].
    exfalso. pose proof (pow2_pos e). assert (0 < inject_Z (Zpos m))%Q by (unfold Qlt; simpl; lia). nra.
Qed.

(** ** The operations *)

Lemma normal_exact f : normal f → (rnd53 (B2Q f) == B2Q f)%Q.
Proof.
  intros Hf. pose proof (normal_pos f Hf) as Hp. apply normal_value in Hf as (m & e & -> & Hd & He & Hv & Hl).
  rewrite rnd53_pos, (rpos_at e) by done.
  assert (B2Q (S754_finite false m e) / pow2 e == inject_Z (Zpos m))%Q as -> by (cbn [B2Q]; pose proof (pow2_pos e); field; lra).
  by rewrite nearest_Z.
Qed.

Lemma rounds_self f : nonneg f → rounds f (B2Q f).
Proof. intros Hf. split; [done|]. destruct Hf as [->|Hf]; [done|]. by rewrite normal_exact. Qed.

(** Two finite numbers brought to one exponent. *)
Lemma align_value m e ez : (ez <= e)%Z → (inject_Z (Zpos (shl_align m e ez).1) * pow2 ez == inject_Z (Zpos m) * pow2 e)%Q.
Proof.
  intros Hle. pose proof (shl_align_spec m e ez) as Hs. destruct (shl_align m e ez) as [m' e1]. destruct Hs as [-> Hv].
  cbn [fst]. by rewrite Z.min_r in Hv.
Qed.

Lemma f64_add_value a b :
  nonneg a → nonneg b → normal_range (B2Q a + B2Q b) → rounds (f64_add a b) (B2Q a + B2Q b).
Proof.
  intros [->|Ha] [->|Hb] Hr.
  - split; [by left|]. cbn [f64_add SFadd B2Q]. by rewrite rnd53_0.
  - eapply rounds_eq; [|symmetry; apply Qplus_0_l]. replace (f64_add _ b) with b by (by destruct b as [| | |[]]).
    apply rounds_self. by right.
  - eapply rounds_eq; [|symmetry; apply Qplus_0_r]. replace (f64_add a _) with a by (by destruct a as [| | |[]]).
    apply rounds_self. by right.
  - apply normal_value in Ha as (m1 & e1 & -> & _ & _ & V1 & _). apply normal_value in Hb as (m2 & e2 & -> & _ & _ & V2 & _).
    unfold f64_add. cbn [SFadd cond_Zopp]. set (ez := Z.min e1 e2).
    set (z := (Z.pos _ + Z.pos _)%Z).
    assert (inject_Z z * pow2 ez == B2Q (S754_finite false m1 e1) + B2Q (S754_finite false m2 e2))%Q as Hz.
    { subst z. rewrite inject_Z_plus, Qmult_plus_distr_l, !align_value by (subst ez; lia). by rewrite V1, V2. }
    eapply rounds_eq; [|exact Hz]. apply normalize_ok; [lia|]. unfold normal_range in *. by rewrite Hz.
Qed.

Lemma f64_sub_value a b :
  nonneg a → nonneg b → (B2Q b <= B2Q a)%Q → normal_range (B2Q a - B2Q b) → rounds (f64_sub a b) (B2Q a - B2Q b).
Proof.
  intros Ha Hb Hle Hr. destruct Hb as [->|Hb].
  - eapply rounds_eq; [|cbn [B2Q]; symmetry; apply Qplus_0_r].
    replace (f64_sub a _) with a by (destruct Ha as [->|Ha]; [done|by destruct a as [| | |[]]]). by apply rounds_self.
  - destruct Ha as [->|Ha]; [pose proof (normal_pos b Hb); cbn [B2Q] in Hle; exfalso; lra|].
    apply normal_value in Ha as (m1 & e1 & -> & _ & _ & V1 & _). apply normal_value in Hb as (m2 & e2 & -> & _ & _ & V2 & _).
    unfold f64_sub. cbn [SFsub cond_Zopp]. set (ez := Z.min e1 e2).
    set (z := (Z.pos _ - Z.pos _)%Z).
    assert (inject_Z z * pow2 ez == B2Q (S754_finite false m1 e1) - B2Q (S754_finite false m2 e2))%Q as Hz.
    { subst z. unfold Z.sub. rewrite inject_Z_plus, inject_Z_opp, Qmult_plus_distr_l.
      rewrite align_value by (subst ez; lia).
      assert (∀ u v, - u * v == - (u * v))%Q as -> by (intros; ring). rewrite align_value by (subst ez; lia).
      by rewrite V1, V2. }
    assert (0 <= z)%Z as Hz0.
    { apply Z.nlt_ge. intros Hneg. assert (inject_Z z < 0)%Q by (change 0%Q with (inject_Z 0); by rewrite <- Zlt_Qlt).
      pose proof (pow2_pos ez). nra. }
    eapply rounds_eq; [|exact Hz]. apply normalize_ok; [done|]. unfold normal_range in *. by rewrite Hz.
Qed.

Lemma f64_mul_value a b :
  nonneg a → nonneg b → normal_range (B2Q a * B2Q b) → rounds (f64_mul a b) (B2Q a * B2Q b).
Proof.
  assert (∀ x, (x == 0)%Q → rounds (S754_zero false) x) as Hzero.
  { intros x Hx. split; [by left|]. by rewrite rnd53_0. }
  intros [->|Ha] [->|Hb] Hr.
  - by apply Hzero.
  - replace (f64_mul _ b) with (S754_zero false) by (by destruct b as [| | |[]]). apply Hzero. cbn [B2Q]. ring.
  - replace (f64_mul a _) with (S754_zero false) by (by destruct a as [| | |[]]). apply Hzero. cbn [B2Q]. ring.
  - pose proof (normal_pos a Ha). pose proof (normal_pos b Hb). destruct Hr as [Hr|[Hl Hu]]; [exfalso; nra|].
    apply normal_value in Ha as (m1 & e1 & -> & D1 & _ & V1 & L1). apply normal_value in Hb as (m2 & e2 & -> & D2 & _ & V2 & L2).
    unfold f64_mul. cbn [SFmul xorb].
    set (x := (B2Q (S754_finite false m1 e1) * B2Q (S754_finite false m2 e2))%Q) in *.
    assert (x == inject_Z (Zpos (m1 * m2)) * pow2 (e1 + e2))%Q as Hx.
    { subst x. rewrite V1, V2, Pos2Z.inj_mul, inject_Z_mult, pow2_add. ring. }
    apply round_aux_ok; [done|by apply located_exact|done..|]. intros a Ha.
    assert (pow2 (e1 + 52 + (e2 + 52)) <= x)%Q as Hxl.
    { rewrite pow2_add. subst x. destruct L1 as [L1 _], L2 as [L2 _]. pose proof (pow2_pos (e1 + 52)). pose proof (pow2_pos (e2 + 52)).
      apply Qle_trans with (B2Q (S754_finite false m1 e1) * pow2 (e2 + 52))%Q; [apply Qmult_le_compat_r; lra|].
      apply Qmult_le_l; lra. }
    destruct Ha as [_ Ha]. assert (e1 + 52 + (e2 + 52) < a + 1)%Z by (apply pow2_lt_inv; lra). lia.
Qed.

Lemma new_location_spec q r d :
  (0 < d)%Z → (0 <= r < d)%Z →
  located (shr_record_of_loc q (new_location d r)) (inject_Z q + inject_Z r / inject_Z d).
Proof.
  intros Hd Hr. assert (0 < inject_Z d)%Q as Hd' by (change 0%Q with (inject_Z 0); by rewrite <- Zlt_Qlt).
  set (x := (inject_Z r / inject_Z d)%Q).
  assert (∀ z, (inject_Z z * (1 # 2) * inject_Z d == inject_Z (z * d) * (1 # 2))%Q) as Hmul by (intros; rewrite inject_Z_mult; ring).
  assert (x * inject_Z d == inject_Z r)%Q as Hx by (subst x; field; lra).
  assert (inject_Z (2 * r) == 2 * inject_Z r)%Q as H2r by (by rewrite inject_Z_mult).
  assert (inject_Z r < inject_Z d)%Q as Hrd by (rewrite <- Zlt_Qlt; lia).
  assert (0 <= inject_Z r)%Q as Hr0 by (change 0%Q with (inject_Z 0); rewrite <- Zle_Qle; lia).
  assert (r ≠ 0%Z → 0 < x)%Q as Hx0.
  { intros Hne. assert (0 < inject_Z r)%Q by (change 0%Q with (inject_Z 0); rewrite <- Zlt_Qlt; lia). nra. }
  assert (x < 1)%Q as Hx1 by nra.
  assert ((2 * r < d)%Z → x < 1 # 2)%Q as Hlt by (intros Hz; rewrite Zlt_Qlt in Hz; nra).
  assert ((2 * r = d)%Z → x == 1 # 2)%Q as Heq.
  { intros Hz. assert (inject_Z d == 2 * inject_Z r)%Q by (by rewrite <- H2r, Hz). nra. }
  assert ((d < 2 * r)%Z → 1 # 2 < x)%Q as Hgt by (intros Hz; rewrite Zlt_Qlt in Hz; nra).
  assert (r = 0%Z → x == 0)%Q as Hz by (intros ->; subst x; field; lra).
  clearbody x. unfold new_location, new_location_even, new_location_odd.
  destruct (Z.even d) eqn:Ev; destruct (Z.eqb_spec r 0) as [E|N]; unfold located; cbn [shr_record_of_loc shr_m shr_r shr_s].
  - specialize (Hz E). lra.
  - destruct (Z.compare_spec (2 * r) d) as [E|L|G]; cbn [shr_record_of_loc shr_m shr_r shr_s].
    + specialize (Heq E). lra.
    + specialize (Hlt L). specialize (Hx0 N). lra.
    + specialize (Hgt G). lra.
  - specialize (Hz E). lra.
  - assert (Z.odd d = true) as Hodd by (by rewrite <- Z.negb_even, Ev). apply Z.odd_spec in Hodd as [k Hk].
    destruct (Z.compare_spec (2 * r + 1) d) as [E|L|G]; cbn [shr_record_of_loc shr_m shr_r shr_s].
    + specialize (Hlt ltac:(lia)). specialize (Hx0 N). lra.
    + specialize (Hlt ltac:(lia)). specialize (Hx0 N). lra.
    + specialize (Hgt ltac:(lia)). lra.
Qed.

Lemma f64_div_value a b :
  nonneg a → normal b → normal_range (B2Q a / B2Q b) → rounds (f64_div a b) (B2Q a / B2Q b).
Proof.
  intros [->|Ha] Hb Hr.
  - pose proof (normal_pos b Hb). replace (f64_div _ b) with (S754_zero false) by (by destruct b as [| | |[]]).
    split; [by left|]. cbn [B2Q]. rewrite rnd53_0; [done|]. field. lra.
  - pose proof (normal_pos a Ha) as Pa. pose proof (normal_pos b Hb) as Pb.
    destruct Hr as [Hr|[Hl Hu]]; [exfalso; assert (0 < B2Q a / B2Q b)%Q by (apply Qlt_shift_div_l; lra); lra|].
    apply normal_value in Ha as (m1 & e1 & -> & D1 & E1 & V1 & L1). apply normal_value in Hb as (m2 & e2 & -> & D2 & E2 & V2 & L2).
    unfold f64_div. cbn [SFdiv xorb]. unfold SFdiv_core_binary. cbn [Zdigits2]. rewrite D1, D2.
    set (x := (B2Q (S754_finite false m1 e1) / B2Q (S754_finite false m2 e2))%Q) in *.
    destruct (normal_range_leads x Hl Hu) as (a & La & Ra).
    assert (e1 - e2 - 1 <= a)%Z as Hae.
    { assert (pow2 (e1 - e2 - 1) < x)%Q as Hlt; [|destruct La; enough (e1 - e2 - 1 < a + 1)%Z by lia; apply pow2_lt_inv; lra].
      subst x. apply Qlt_shift_div_l; [done|]. destruct L1 as [L1 _], L2 as [_ L2].
      apply Qlt_le_trans with (pow2 (e1 - e2 - 1) * pow2 (e2 + 52 + 1))%Q; [by apply Qmult_lt_l; [apply pow2_pos|]|].
      rewrite <- pow2_add. by replace (e1 - e2 - 1 + (e2 + 52 + 1))%Z with (e1 + 52)%Z by lia. }
    set (e' := Z.min (fexp 53 1024 (53 + e1 - (53 + e2))) (e1 - e2)).
    assert (e' <= a - 52)%Z as He' by (subst e'; unfold fexp, emin; lia).
    assert (e' <= e1 - e2)%Z as He1 by (subst e'; lia).
    set (s := (e1 - e2 - e')%Z). assert (0 <= s)%Z as Hs by lia.
    assert (match s with Z0 => Zpos m1 | Zpos _ => Z.shiftl (Zpos m1) s | Zneg _ => 0 end = Zpos m1 * 2 ^ s)%Z as ->.
    { destruct s eqn:Es; [simpl; lia|by rewrite Z.shiftl_mul_pow2|lia]. }
    pose proof (Z_div_mod (Zpos m1 * 2 ^ s) (Zpos m2) ltac:(lia)) as Hdiv.
    destruct (Z.div_eucl _ _) as [q r]. destruct Hdiv as [Hq Hrr].
    assert (x / pow2 e' == inject_Z q + inject_Z r / inject_Z (Zpos m2))%Q as Hxe.
    { assert (0 < inject_Z (Zpos m2))%Q by (unfold Qlt; simpl; lia).
      pose proof (pow2_pos e'). pose proof (pow2_pos e2). pose proof (pow2_pos s) as Ps.
      assert (inject_Z q + inject_Z r / inject_Z (Zpos m2) == inject_Z (Zpos m1) * pow2 s / inject_Z (Zpos m2))%Q as ->.
      { rewrite pow2_Z, <- inject_Z_mult, Hq, inject_Z_plus, inject_Z_mult by lia. field. lra. }
      subst x. rewrite V1, V2. assert (pow2 e1 == pow2 s * (pow2 e2 * pow2 e'))%Q as ->.
      { rewrite <- !pow2_add. f_equiv. subst s. lia. }
      field. lra. }
    pose proof (new_location_spec q r (Zpos m2) ltac:(lia) Hrr) as Hloc.
    assert (located (shr_record_of_loc q (new_location (Z.pos m2) r)) (x / pow2 e')) as Hloc'
      by (eapply located_eq; [exact Hloc|by symmetry]).
    apply round_aux_ok; [|done..|intros a' La'; by rewrite (leads_unique _ _ _ La' La)].
    destruct (located_floor _ _ Hloc') as [_ Hfl].
    assert (shr_m (shr_record_of_loc q (new_location (Z.pos m2) r)) = q) as Hsm by (by destruct (new_location _ _) as [|[]]).
    rewrite Hsm in Hfl. assert (1 <= x / pow2 e')%Q as H1.
    { apply Qle_shift_div_l; [apply pow2_pos|]. rewrite Qmult_1_l. destruct La as [La _]. pose proof (pow2_le e' a ltac:(lia)). lra. }
    assert (inject_Z 0 < inject_Z q)%Q as Hlt by (change (inject_Z 0) with 0%Q; lra). by rewrite <- Zlt_Qlt in Hlt.
Qed.

Lemma f64_of_int_value z : (0 <= z < 2 ^ 1000)%Z → rounds (f64_of_int z) (inject_Z z).
Proof.
  intros [Hz Hu]. assert (inject_Z z * pow2 0 == inject_Z z)%Q as H0 by (change (pow2 0) with 1%Q; ring).
  eapply rounds_eq; [|exact H0]. apply normalize_ok; [done|]. unfold normal_range. rewrite H0.
  destruct (Z.eq_dec z 0%Z) as [->|Hne]; [by left|right]. split.
  - apply Qle_trans with (pow2 0); [apply pow2_le; lia|]. change (pow2 0) with (inject_Z 1). rewrite <- Zle_Qle. lia.
  - apply Qlt_le_trans with (pow2 1000); [|apply pow2_le; lia]. rewrite pow2_Z by lia. by rewrite <- Zlt_Qlt.
Qed.

(** Comparisons are those of the numbers. *)
Lemma SFltb_value a b : nonneg a → nonneg b → (SFltb a b = true ↔ (B2Q a < B2Q b)%Q).
Proof.
  intros [->|Ha] [->|Hb].
  - split; [done|]. cbn [B2Q]. lra.
  - pose proof (normal_pos b Hb). cbn [B2Q]. split; [done|]. intros _. by destruct b as [| | |[]].
  - pose proof (normal_pos a Ha). cbn [B2Q]. split; [by destruct a as [| | |[]]|]. lra.
  - apply normal_value in Ha as (m1 & e1 & -> & D1 & _ & V1 & L1). apply normal_value in Hb as (m2 & e2 & -> & D2 & _ & V2 & L2).
    unfold SFltb. cbn [SFcompare]. rewrite V1, V2 in *. destruct (Z.compare_spec e1 e2) as [->|Hlt|Hgt].
    + change (Pos.compare_cont Eq m1 m2) with (Pos.compare m1 m2). pose proof (pow2_pos e2) as Hp.
      rewrite Qmult_lt_r, <- Zlt_Qlt by done. destruct (Pos.compare_spec m1 m2); naive_solver lia.
    + split; [intros _|done]. destruct L1 as [_ L1], L2 as [L2 _]. pose proof (pow2_le (e1 + 52 + 1) (e2 + 52) ltac:(lia)). lra.
    + split; [done|]. intros Hlt. exfalso. destruct L1 as [L1 _], L2 as [_ L2]. pose proof (pow2_le (e2 + 52 + 1) (e1 + 52) ltac:(lia)). lra.
Qed.

(** Powers of two are exact. *)
Lemma rnd53_pow2 a : (rnd53 (pow2 a) == pow2 a)%Q.
Proof.
  pose proof (pow2_pos a) as Hp. rewrite rnd53_pos by done.
  assert (leads (a - 52 + 52) (pow2 a)) as Hl.
  { rewrite Z.sub_add. split; [lra|]. rewrite pow2_S. lra. }
  rewrite (rpos_at _ _ Hl).
  assert (pow2 a / pow2 (a - 52) == inject_Z (2 ^ 52))%Q as Hq.
  { replace a with (52 + (a - 52))%Z at 1 by lia. rewrite pow2_add, two52. pose proof (pow2_pos (a - 52)). field. lra. }
  rewrite Hq, nearest_Z, two52, <- pow2_add. by replace (52 + (a - 52))%Z with a by lia.
Qed.
