(* ===== verification/RateFloat.v ===== *)
(** * The token bucket in binary64

    The bucket of internal/httpapi/middleware.go once more, in the float64 arithmetic
    of the machine: the operations of IEEE 754 binary64 (Stdlib's [SpecFloat], 53 bits
    of precision), infinities and NaN included. RateLimit.v reasons about finite rates
    with a rounding error; this file is about every rate the configuration lets
    through. *)

From Stdlib Require Import Floats.SpecFloat.
From S2P Require Import Prelude Binary64 GoStrings GoErrors GoTime Config SqlExecutor RateLimit.

(** ** float64 *)

Definition is_nan (a : f64) : bool := match a with S754_nan => true | _ => false end.
Definition is_neg_inf (a : f64) : bool := match a with S754_infinity true => true | _ => false end.
Definition neg_zero (a : f64) : bool := match a with S754_zero true => true | _ => false end.
Definition any_zero (a : f64) : bool := match a with S754_zero _ => true | _ => false end.

(** [math.Min] with its special cases, in their order *)
Definition f64_Min (x y : f64) : f64 :=
  if is_neg_inf x || is_neg_inf y then S754_infinity true
  else if is_nan x || is_nan y then S754_nan
  else if any_zero x && any_zero y then if neg_zero x then x else y
  else if SFltb x y then x else y.

(** [Duration.Seconds] *)
Definition f64_Seconds (d : Z) : f64 :=
  f64_add (f64_of_int (Z.quot d second)) (f64_div (f64_of_int (Z.rem d second)) (f64_of_int second)).

(** ** Token buckets *)

Record tokenBucket64 : Type := {
  b_tokens : f64;
  b_max : f64;
  b_rate : f64;
  b_lastTime : Z;
}.

Definition newTokenBucket64 (rps : f64) (burst now : Z) : tokenBucket64 :=
  {| b_tokens := f64_of_int burst; b_max := f64_of_int burst; b_rate := rps; b_lastTime := now |}.

Definition refill64 (b : tokenBucket64) (now : Z) : tokenBucket64 :=
  let elapsed := f64_Seconds (time_Sub now (b_lastTime b)) in
  {| b_tokens := f64_Min (f64_add (b_tokens b) (f64_mul elapsed (b_rate b))) (b_max b);
     b_max := b_max b; b_rate := b_rate b; b_lastTime := now |}.

Definition Allow64 (b : tokenBucket64) (now : Z) : bool * tokenBucket64 :=
  let b := refill64 b now in
  if SFltb (b_tokens b) f64_one then (false, b)
  else (true, {| b_tokens := f64_sub (b_tokens b) f64_one; b_max := b_max b; b_rate := b_rate b;
                 b_lastTime := b_lastTime b |}).

Definition Tokens64 (b : tokenBucket64) (now : Z) : f64 * tokenBucket64 :=
  let b := refill64 b now in (b_tokens b, b).

(** The defaults of [NewRateLimit]; a comparison with NaN is false. *)
Definition limit_rps (rps : f64) : f64 := if SFleb rps f64_zero then f64_of_int 60 else rps.
Definition limit_burst (burst : Z) : Z := if (burst <=? 0)%Z then 120%Z else burst.

(** ** Requests of one key *)

(** One request: [Allow] and, when it is let through, [Tokens]. *)
Definition pass (b : tokenBucket64) (ts : Z * Z) : bool * tokenBucket64 :=
  match Allow64 b ts.1 with
  | (false, b) => (false, b)
  | (true, b) => (true, (Tokens64 b ts.2).2)
  end.

Fixpoint passes (b : tokenBucket64) (ts : list (Z * Z)) : list bool :=
  match ts with
  | [] => []
  | t :: ts => let '(ok, b) := pass b t in ok :: passes b ts
  end.

(** ** What a bucket holds *)

(** At most its capacity, or NaN. *)
Definition capped (b : tokenBucket64) : Prop := is_nan (b_tokens b) = true ∨ SFleb (b_tokens b) (b_max b) = true.

Lemma SFltb_leb a b : SFltb a b = true → SFleb a b = true.
Proof. unfold SFltb, SFleb. by destruct (SFcompare a b) as [[]|]. Qed.

Lemma SFleb_refl a : is_nan a = false → SFleb a a = true.
Proof.
  unfold SFleb. destruct a as [s|[]| |[] m e]; try done; intros _; simpl;
    rewrite Z.compare_refl, Pos.compare_cont_refl; done.
Qed.

(** A whole number of tokens is a finite capacity. *)
Definition finite (a : f64) : Prop := is_nan a = false ∧ is_neg_inf a = false.

Lemma f64_Min_capped x y : finite y → is_nan (f64_Min x y) = true ∨ SFleb (f64_Min x y) y = true.
Proof.
  intros [Hn Hi]. unfold f64_Min. rewrite Hi, Hn, !orb_false_r.
  destruct (is_neg_inf x) eqn:Ex; [right; by destruct y as [|[]| |[]]|].
  destruct (is_nan x) eqn:En; [by left|right].
  destruct (any_zero x) eqn:Ez; simpl.
  - destruct (any_zero y) eqn:Ey; [by destruct x, y; try done; destruct (neg_zero _)|].
    destruct (SFltb x y) eqn:El; [by apply SFltb_leb|by apply SFleb_refl].
  - destruct (SFltb x y) eqn:El; [by apply SFltb_leb|by apply SFleb_refl].
Qed.

(** A refill keeps a bucket within its capacity, unless it makes it NaN. *)
Lemma refill64_capped b now : finite (b_max b) → capped (refill64 b now).
Proof. intros Hm. by apply f64_Min_capped. Qed.

(** ** NaN *)

(** A whole number of tokens does not round to minus infinity. *)
Lemma f64_of_pos z : (0 < z)%Z → is_neg_inf (f64_of_int z) = false.
Proof.
  intros Hz. destruct z as [|p|p]; [lia| |lia]. unfold f64_of_int, binary_normalize, binary_round, binary_round_aux.
  destruct (shl_align _ _ _) as [m e]. destruct (shr_fexp _ _ _ _ _) as [mrs e'].
  destruct (shr_fexp _ _ _ _ _) as [mrs' e'']. destruct (shr_m mrs'); [done| |done]. by destruct (_ <=? _)%Z.
Qed.

Lemma limit_burst_pos burst : (0 < limit_burst burst)%Z.
Proof. unfold limit_burst. destruct (Z.leb_spec burst 0); lia. Qed.

Lemma nan_add a b : is_nan a = true ∨ is_nan b = true → f64_add a b = S754_nan.
Proof. unfold f64_add. intros [Ha|Hb]; [by destruct a|by destruct a, b]. Qed.

Lemma nan_mul a b : is_nan b = true → f64_mul a b = S754_nan.
Proof. unfold f64_mul. intros Hb. by destruct a, b. Qed.

(** A bucket whose rate or whose tokens are NaN. *)
Definition broken (b : tokenBucket64) : Prop :=
  (is_nan (b_rate b) = true ∨ is_nan (b_tokens b) = true) ∧ is_neg_inf (b_max b) = false.

Lemma refill64_broken b now : broken b → broken (refill64 b now) ∧ b_tokens (refill64 b now) = S754_nan.
Proof.
  intros [Hb Hm].
  assert (b_tokens (refill64 b now) = S754_nan) as Ht.
  { unfold refill64. cbn [b_tokens]. rewrite nan_add.
    - unfold f64_Min. simpl. by rewrite Hm.
    - destruct Hb as [Hr|Ht]; [right; by rewrite nan_mul|by left]. }
  split; [|done]. split; [right; by rewrite Ht|done].
Qed.

Lemma pass_broken b ts : broken b → ∃ b', pass b ts = (true, b') ∧ broken b'.
Proof.
  intros Hb. destruct (refill64_broken b ts.1 Hb) as [Hb1 Ht]. unfold pass, Allow64. rewrite Ht.
  change (SFltb S754_nan f64_one) with false. cbv iota beta zeta. eexists. split; [done|]. unfold Tokens64. cbn [snd].
  apply refill64_broken. destruct Hb1 as [_ Hm]. split; [by right|done].
Qed.

Lemma passes_broken ts : ∀ b, broken b → passes b ts = repeat true (length ts).
Proof.
  induction ts as [|t ts IH]; intros b Hb; [done|]. cbn [passes length repeat].
  destruct (pass_broken b t Hb) as (b' & -> & Hb'). by rewrite IH.
Qed.

Section Configured.
Context `{UnicodeTables, GoTime, FloatParser}.

Definition rate_var : bytes := bs "AGENTCOOPDB_RATE_LIMIT_PER_SECOND".

(** The rate is what the variable parses to, unchecked. *)
Lemma Load_rate env cfg : Load env = Ok cfg → envFloat64 env rate_var sixty = Ok (RateLimitPerSecond cfg).
Proof.
  unfold Load. intros Hx. destruct (str_eqb (Getenv env (bs "AGENTCOOPDB_DATABASE_URL")) []); [done|].
  cbn [negb] in Hx. repeat (apply res_bind_ok in Hx as (? & ? & Hx)).
  destruct (_ <? _)%Z in Hx; [done|]. destruct (_ <=? 0)%Z in Hx; [done|]. by injection Hx as <-.
Qed.

(** A rate that is not a number turns the limiter off. The configuration takes
    any value strconv.ParseFloat takes, NaN among them, and [NewRateLimit] replaces
    only rates of which [rps <= 0] is true: the first refill of a bucket makes its
    tokens NaN, no comparison refuses NaN, and no later refill repairs it, so that
    every request of every key passes, at whatever moments they come. *)
Theorem nan_rate_unlimited env cfg now ts :
  Getenv env rate_var ≠ [] → ParseFloat (Getenv env rate_var) = Ok S754_nan → Load env = Ok cfg →
  passes (newTokenBucket64 (limit_rps (RateLimitPerSecond cfg)) (limit_burst (RateLimitBurst cfg)) now) ts =
  repeat true (length ts).
Proof.
  intros Hne Hp Hl. apply Load_rate in Hl. unfold envFloat64, envParse in Hl.
  rewrite Hp in Hl. destruct (str_eqb _ []) eqn:E; [by go_bool|]. injection Hl as Hl.
  apply passes_broken. split; [left|apply f64_of_pos, limit_burst_pos]. simpl. by rewrite <- Hl.
Qed.
End Configured.

(** ** Instances *)

(** A healthy bucket of two tokens and one token a second: two pass, the third does
    not, and after a second one passes again. *)
Example two_tokens :
  passes (newTokenBucket64 (limit_rps (f64_of_int 1)) (limit_burst 2) 0)
    [(0, 0); (0, 0); (0, 0); (second, second); (second, second)]%Z = [true; true; false; true; false].
Proof. by vm_compute. Qed.

(** An infinite rate is NaN at the first request: zero seconds of it. *)
Example infinite_rate :
  passes (newTokenBucket64 (limit_rps (S754_infinity false)) (limit_burst 1) 0) (repeat (0, 0)%Z 5) = repeat true 5.
Proof. by vm_compute. Qed.

Module NanDemo.
Definition floats : FloatParser := {| ParseFloat s := if str_eqb s (bs "NaN") then Ok S754_nan else Ok sixty |}.
Definition env : Environment := with_env ConfigDemo.minimal rate_var (bs "NaN").
End NanDemo.

#[local] Existing Instance ConfigDemo.unicode.
#[local] Existing Instance ConfigDemo.time.
#[local] Existing Instance NanDemo.floats.

Lemma nan_rate_unlimited_witness :
  ∃ cfg, Load NanDemo.env = Ok cfg ∧
    passes (newTokenBucket64 (limit_rps (RateLimitPerSecond cfg)) (limit_burst (RateLimitBurst cfg)) 0)
      (repeat (0, 0)%Z 1000) = repeat true 1000.
Proof.
  destruct (Load NanDemo.env) as [cfg|e] eqn:El; [|apply (f_equal is_ok) in El; vm_compute in El; discriminate El].
  exists cfg. split; [reflexivity|]. rewrite <- (repeat_length (0, 0)%Z 1000) at 2.
  apply (nan_rate_unlimited NanDemo.env cfg 0 (repeat (0, 0)%Z 1000)).
  - vm_compute. discriminate.
  - vm_compute. reflexivity.
  - exact El.
Defined.
