(* ===== verification/RateLiveness.v ===== *)
(** * The rate limiter lets a patient key through

    The other half of [RateLimit.rate_limit_bound]: a key that was refused, and
    sends nothing for as long as its rate takes to produce a token, is let through,
    whatever the other keys do meanwhile. The wait is longer than the exact one by
    the two roundings of [Duration.Seconds], and exact for whole seconds. *)

From S2P Require Import Prelude GoStrings GoErrors Lru AuthMiddleware Tenant SqlValidator SqlExecutor HttpErrors RateLimit.
From Stdlib Require Import QArith Lqa.
From stdpp Require Import gmap fin_maps fin_map_dom.

(** Rounding to nearest is monotone, loses at most the relative error, and is exact
    on integers of 53 bits. *)
Class Float64Exact `{Float64} : Prop := {
  ulp_small : (ulp <= 1)%Q;
  rnd_mono x y : (x <= y → rnd x <= rnd y)%Q;
  rnd_lower x : (0 <= x → x * (1 - ulp) <= rnd x)%Q;
  rnd_int z : (0 <= z <= 2 ^ 53)%Z → (rnd (inject_Z z) == inject_Z z)%Q;
}.

(** Requests among which [key] sends none. *)
Definition silent (key : bytes) (qs : list request) : Prop := Forall (fun q => rq_key q ≠ key) qs.

Section Patient.
Context `{Float64, !Float64Laws, !Float64Exact}.

Lemma rnd_ge z x : (0 <= z <= 2 ^ 53)%Z → (inject_Z z <= x → inject_Z z <= rnd x)%Q.
Proof. intros Hz Hx%rnd_mono. by rewrite rnd_int in Hx. Qed.

Lemma rnd_ge_1 x : (1 <= x → 1 <= rnd x)%Q.
Proof. by apply (rnd_ge 1). Qed.

(** [Seconds] of at least [n] seconds is at least [n]. *)
Lemma Seconds_ge n d : (0 <= n <= 2 ^ 53)%Z → (n * second <= d)%Z → (inject_Z n <= Seconds d)%Q.
Proof.
  intros Hn Hd. unfold Seconds, fadd, fdiv, f_of_int.
  assert (0 <= d)%Z as Hd0 by (change second with 1000000000%Z in Hd; lia).
  rewrite Z.quot_div_nonneg, Z.rem_mod_nonneg by (try done; lia). apply rnd_ge; [done|].
  assert (inject_Z n <= rnd (inject_Z (d / second)))%Q as Hq.
  { apply rnd_ge; [done|]. rewrite <- Zle_Qle. by apply Z.div_le_lower_bound; [|lia]. }
  assert (0 <= rnd (rnd (inject_Z (d mod second)) / inject_Z second))%Q as Hr.
  { apply rnd_nonneg, Qle_shift_div_l; [reflexivity|]. rewrite Qmult_0_l.
    apply rnd_nonneg, inject_nonneg. by apply (Z.mod_pos_bound d second). }
  lra.
Qed.

Lemma rnd_int_eq z x : (0 <= z <= 2 ^ 53)%Z → (x == inject_Z z → rnd x == inject_Z z)%Q.
Proof.
  intros Hz Hx. rewrite <- (rnd_int z) by done. apply Qle_antisym; apply rnd_mono; lra.
Qed.

(** [Seconds] is at most two roundings below the exact value. *)
Lemma Seconds_lower d : (0 <= d <= max_int64)%Z → (secs d * (1 - ulp) * (1 - ulp) <= Seconds d)%Q.
Proof.
  intros Hd. unfold max_int64 in Hd. unfold Seconds, fadd, fdiv, f_of_int.
  rewrite Z.quot_div_nonneg, Z.rem_mod_nonneg by (unfold second; lia).
  assert (0 <= d / second <= 2 ^ 53)%Z as Ha by (unfold second; split; [apply Z.div_pos|apply Z.div_le_upper_bound]; lia).
  assert (0 <= d mod second <= 2 ^ 53)%Z as Hb by (pose proof (Z.mod_pos_bound d second eq_refl); unfold second in *; lia).
  pose proof (rnd_int _ Ha) as Ea. pose proof (rnd_int _ Hb) as Eb. rewrite secs_split.
  apply proj1, inject_nonneg in Ha, Hb.
  set (a := inject_Z (d / second)) in *. set (b := inject_Z (d mod second)) in *. set (s := inject_Z second) in *.
  assert (0 <= b / s)%Q as Hbs by (apply Qle_shift_div_l; [reflexivity|]; lra).
  assert (rnd b / s == b / s)%Q as Es by (by rewrite Eb).
  set (t := (rnd b / s)%Q) in *. set (q := (b / s)%Q) in *. clearbody a t q.
  assert (0 <= t)%Q as Ht by lra. pose proof (rnd_lower t Ht) as Hl. pose proof (rnd_nonneg t Ht) as Hn.
  pose proof ulp_nonneg as Hu. pose proof ulp_small as Hu1. pose proof (Qmul_pos a ulp Ha Hu) as Hau.
  assert (t * (1 - ulp) == q * (1 - ulp))%Q as Etq by (by rewrite Es).
  assert ((a + q) * (1 - ulp) <= rnd a + rnd t)%Q as Hsum by lra.
  eapply Qle_trans; [|apply rnd_lower; lra]. apply Qmul_mono; [lra|done].
Qed.

(** A wait of [d] nanoseconds in which [rate] makes a token. *)
Definition worth_token (rate : Q) (d : Z) : Prop :=
  (1 <= secs d * (1 - ulp) * (1 - ulp) * rate)%Q ∨ (d mod second = 0)%Z ∧ (1 <= secs d * rate)%Q.

Lemma Seconds_worth rate d e :
  (0 <= rate)%Q → (0 <= d <= e)%Z → (e <= max_int64)%Z → worth_token rate d → (1 <= Seconds e * rate)%Q.
Proof.
  intros Hr Hd He Hw. pose proof ulp_small as Hu.
  destruct Hw as [Hw|[Hm Hw]]; (eapply Qle_trans; [exact Hw|]); (apply Qmul_mono; [done|]).
  - eapply Qle_trans; [|by apply Seconds_lower; lia]. apply Qmul_mono; [lra|]. apply Qmul_mono; [lra|]. apply secs_mono. lia.
  - assert (secs d == inject_Z (d / second))%Q as -> by (rewrite secs_split, Hm; change (inject_Z 0 / inject_Z second)%Q with (0 # 1000000000); ring).
    unfold max_int64 in He. apply Seconds_ge; unfold second in *.
    + split; [apply Z.div_pos|apply Z.div_le_upper_bound]; lia.
    + pose proof (Z.div_mod d 1000000000 ltac:(lia)). lia.
Qed.

(** A bucket refilled after time for a token has one. *)
Lemma Allow_after M rate b d now :
  (1 <= M)%Q → (0 <= rate)%Q → bucket_ok M rate b → (0 <= d <= max_int64)%Z → worth_token rate d →
  (tb_lastTime b + d <= now)%Z → (Allow b now).1 = true.
Proof.
  intros HM Hr (Hm & Hrt & Hx0 & _) Hn Hnr Hnow. unfold Allow, refill. cbn [tb_tokens]. rewrite Hm, Hrt.
  set (e := time_Sub now (tb_lastTime b)).
  assert (d <= e <= max_int64)%Z as He by (subst e; unfold time_Sub, min_int64, max_int64 in *; lia).
  pose proof (Seconds_worth rate d e Hr ltac:(lia) ltac:(lia) Hnr) as HEr. set (E := Seconds e) in *.
  assert (1 <= fadd (tb_tokens b) (fmul E rate))%Q as Hf.
  { apply rnd_ge_1. pose proof (rnd_ge_1 _ HEr). unfold fmul. lra. }
  assert (1 <= math_Min (fadd (tb_tokens b) (fmul E rate)) M)%Q as Hmin by (unfold math_Min; by destruct (Qltb _ _)).
  unfold Qltb. rewrite (proj2 (Qle_bool_iff 1 _) Hmin). done.
Qed.

(** A new bucket is full. *)
Lemma Allow_new rate burst t now :
  (0 <= rate)%Q → (1 <= burst)%Z → (t <= now)%Z → (Allow (newTokenBucket rate burst t) now).1 = true.
Proof.
  intros Hr Hb Ht. assert (1 <= f_of_int burst)%Q as HM.
  { apply rnd_ge_1. change 1%Q with (inject_Z 1). by rewrite <- Zle_Qle. }
  unfold Allow, refill. cbn [tb_tokens tb_max tb_rate tb_lastTime newTokenBucket].
  destruct (Seconds_bounds (time_Sub now t)) as [HE _]; [pose proof (time_Sub_bounds now t Ht); lia|].
  set (E := Seconds _) in *. pose proof (rnd_nonneg _ (Qmul_pos _ _ HE Hr)) as Hf.
  assert (1 <= fadd (f_of_int burst) (fmul E rate))%Q as Ha by (apply rnd_ge_1; unfold fmul; lra).
  assert (1 <= math_Min (fadd (f_of_int burst) (fmul E rate)) (f_of_int burst))%Q as Hmin
    by (unfold math_Min; by destruct (Qltb _ _)).
  unfold Qltb. by rewrite (proj2 (Qle_bool_iff 1 _) Hmin).
Qed.

Context `{LRU nat, !LRULaws nat}.

(** The limiter after requests of other keys. *)
Lemma run_others rps burst key qs : ∀ seen r t0 now passed reqs,
  (0 <= rps)%Q → (0 <= burst)%Z →
  limiter_ok seen r → size (list_to_set (rq_key <$> qs) ∪ seen) ≤ maxBuckets → params_ok rps burst r →
  silent key qs → key_ok (f_of_int burst) rps t0 now r key passed reqs →
  let r' := (run_requests r qs key).2 in
  limiter_ok (list_to_set (rq_key <$> qs) ∪ seen) r' ∧ params_ok rps burst r' ∧
  key_ok (f_of_int burst) rps t0 now r' key passed reqs.
Proof.
  induction qs as [|q qs IH]; intros seen r t0 now passed reqs Hr Hb Hl Hsz Hpar Hne Hk; simpl in Hsz.
  { simpl. by rewrite union_empty_l_L. }
  inversion Hne as [|?? Hq Hqs]; subst. cbn [run_requests]. destruct (serve r q) as [ok r1] eqn:E.
  assert (size ({[rq_key q]} ∪ seen) ≤ maxBuckets) as Hsz1 by (etrans; [|exact Hsz]; apply subseteq_size; set_solver).
  destruct (serve_frame _ _ _ _ _ Hl Hsz1 E) as (Hl1 & Hr1 & Hb1).
  pose proof (serve_other rps burst _ _ _ _ _ _ _ _ _ _ Hl Hsz1 E Hq Hk) as Hk1.
  assert (params_ok rps burst r1) as Hpar1 by (unfold params_ok in *; by rewrite Hr1, Hb1).
  replace (list_to_set (rq_key <$> q :: qs) ∪ seen) with (list_to_set (rq_key <$> qs) ∪ ({[rq_key q]} ∪ seen) : gset bytes)
    in * by (simpl; set_solver).
  specialize (IH _ r1 t0 now passed reqs Hr Hb Hl1 ltac:(etrans; [|exact Hsz]; apply subseteq_size; set_solver) Hpar1 Hqs Hk1).
  by destruct (run_requests r1 qs key).
Qed.

Lemma run_requests_app r qs1 qs2 key :
  (run_requests r (qs1 ++ qs2) key).2 = (run_requests (run_requests r qs1 key).2 qs2 key).2.
Proof.
  revert r. induction qs1 as [|q qs1 IH]; intros r; [done|]. cbn [app run_requests]. destruct (serve r q) as [ok r1].
  specialize (IH r1). destruct (run_requests r1 (qs1 ++ qs2) key), (run_requests r1 qs1 key). done.
Qed.

(** A request finds its bucket as its key's last request left it. *)
Lemma serve_patient rps burst d seen r q t0 now passed reqs :
  (0 <= rps)%Q → (0 < burst)%Z → limiter_ok seen r → size ({[rq_key q]} ∪ seen) ≤ maxBuckets → params_ok rps burst r →
  key_ok (f_of_int burst) rps t0 now r (rq_key q) passed reqs →
  (rq_new q <= rq_allow q)%Z → (0 <= d <= max_int64)%Z → worth_token rps d → (now + d <= rq_allow q)%Z →
  (serve r q).1 = true.
Proof.
  intros Hr Hb Hl Hsz [Hrps Hburst] Hk Hnew Hn Hnr Hnow. unfold serve, Middleware. cbn [ws_KeyDBID ws_for].
  destruct (limiterFor r (rq_key q) (rq_new q)) as [p r1] eqn:E.
  destruct (limiterFor_ok _ _ _ _ _ _ Hl Hsz E) as (_ & _ & _ & _ & _ & Hheap). unfold key_ok in Hk.
  assert (∃ b, rl_heap r1 !! p = Some b ∧ (Allow b (rq_allow q)).1 = true) as (b & -> & Ha).
  { destruct Hheap as [[Hk0 ->]|(Hk0 & -> & ->)]; rewrite Hk0 in Hk.
    - destruct Hk as [_ (b & Hb1 & Hok & Hlast & _)]. exists b. split; [done|].
      apply (Allow_after (f_of_int burst) rps b d); try done; [|lia].
      apply rnd_ge_1. change 1%Q with (inject_Z 1). rewrite <- Zle_Qle. lia.
    - eexists. split; [by apply list_lookup_middle|]. rewrite Hrps, Hburst. by apply Allow_new; [|lia|]. }
  destruct (Allow b (rq_allow q)) as [a b1]. cbn [fst] in Ha. subst a. by destruct (Tokens _ _).
Qed.

(** A key that waits is let through. After any requests up to [t1], a key that
    sends nothing for [d] nanoseconds, in which its rate makes a token, has its next
    request accepted, whatever other keys send meanwhile, as long as the keys in use
    fit into the limiter's table. At one request per second or more a wait of one
    second, which the Retry-After header of a refusal names, is enough. *)
Theorem patient_key_passes rps burst d key before others q t0 t1 t2 :
  (0 < rps)%Q → (0 < burst)%Z → (ulp * f_of_int burst <= 1)%Q →
  size (list_to_set (rq_key <$> (before ++ others ++ [q])) : gset bytes) ≤ maxBuckets →
  in_order t0 t1 before → in_order t1 t2 (others ++ [q]) →
  silent key others → rq_key q = key →
  (0 <= d <= max_int64)%Z → worth_token rps d → (t1 + d <= rq_allow q)%Z →
  (serve (run_requests (NewRateLimit rps burst) (before ++ others) key).2 q).1 = true.
Proof.
  intros Hrps Hburst Hsmall Hsz Ho1 Ho2 Hne <- Hn Hnr Hwait. destruct (NewRateLimit_ok rps burst (rq_key q) t0 Hrps Hburst) as (Hl & Hpar & Hk).
  rewrite !fmap_app, !list_to_set_app_L in Hsz. cbn [fmap list_fmap list_to_set] in Hsz.
  pose proof (run_ok rps burst ltac:(lra) ltac:(lia) Hsmall (rq_key q) before ∅ _ t0 t0 t1 0 0 Hl
    ltac:(etrans; [|exact Hsz]; apply subseteq_size; set_solver) Hpar ltac:(lia) Ho1 Hk) as Hk1.
  destruct (run_frame rps burst (rq_key q) before ∅ _ Hl ltac:(etrans; [|exact Hsz]; apply subseteq_size; set_solver) Hpar) as [Hl1 Hpar1].
  destruct (run_others rps burst (rq_key q) others _ _ t0 t1 _ _ ltac:(lra) ltac:(lia) Hl1
    ltac:(etrans; [|exact Hsz]; apply subseteq_size; set_solver) Hpar1 Hne Hk1) as (Hl2 & Hpar2 & Hk2).
  rewrite run_requests_app. eapply serve_patient; try done; [lra|etrans; [|exact Hsz]; apply subseteq_size; set_solver|].
  clear -Ho2. revert t1 Ho2. induction others as [|q' others IH]; intros t1; simpl; [lia|]. intros [_ Ho]. by eapply IH.
Qed.
End Patient.

(** ** Exact arithmetic as an instance *)

#[local] Existing Instance LimitDemo.exact.
#[local] Existing Instance LimitDemo.exact_laws.

Module PatientDemo.
Lemma exact_exact : @Float64Exact LimitDemo.exact.
Proof. split; simpl; intros; try done; lra. Qed.

Definition other : request :=
  {| rq_key := bs "other"; rq_new := 10; rq_allow := 11; rq_tokens := 12 |}.

Definition again (t : Z) : request := {| rq_key := bs "k"; rq_new := t; rq_allow := t; rq_tokens := t |}.
End PatientDemo.

#[local] Existing Instance PatientDemo.exact_exact.

(** Refused at once, let through after a second. *)
Example refused_then_passes :
  let r := (run_requests (NewRateLimit 1 2) (LimitDemo.burst_of_three ++ [PatientDemo.other]) (bs "k")).2 in
  (serve r (PatientDemo.again 13)).1 = false ∧ (serve r (PatientDemo.again 1000000013)).1 = true.
Proof. by vm_compute. Qed.

(** At one request in two seconds the second that Retry-After names is too short. *)
Example retry_after_too_short :
  let r := (run_requests (NewRateLimit (1 # 2) 2) (LimitDemo.burst_of_three ++ [PatientDemo.other]) (bs "k")).2 in
  (serve r (PatientDemo.again 1000000013)).1 = false.
Proof. by vm_compute. Qed.

(** At 60 requests per second a wait of 1/60 s is enough, one of 16 ms is not. *)
Example sixty_per_second :
  let r := (run_requests (NewRateLimit 60 2) (LimitDemo.burst_of_three ++ [PatientDemo.other]) (bs "k")).2 in
  (serve r (PatientDemo.again 16000000)).1 = false ∧ (serve r (PatientDemo.again 16666676)).1 = true.
Proof. by vm_compute. Qed.

Lemma patient_key_passes_witness :
  (serve (run_requests (NewRateLimit 60 2) (LimitDemo.burst_of_three ++ [PatientDemo.other]) (bs "k")).2
     (PatientDemo.again 16666676)).1 = true.
Proof.
  apply (patient_key_passes 60 2 16666667 (bs "k") LimitDemo.burst_of_three [PatientDemo.other] (PatientDemo.again 16666676) 0 9
    16666676).
  - reflexivity.
  - reflexivity.
  - vm_compute. discriminate.
  - apply (bool_decide_unpack _). by vm_compute.
  - simpl. lia.
  - simpl. lia.
  - repeat constructor. discriminate.
  - reflexivity.
  - unfold max_int64. lia.
  - left. vm_compute. discriminate.
  - simpl. lia.
Defined.
