(* ===== verification/RateBinary.v ===== *)
(** * The rate limiter in binary64

    The limiter of internal/httpapi/middleware.go over the buckets of RateFloat.v: the
    machine's float64 from the configured rate to the tokens. It does the same as
    the limiter of RateLimit.v with the rounding [rnd53] ([limiter64_refines]), whose
    laws Binary64.v proves, so that the bounds of RateLimit.v and RateLiveness.v
    hold of it with the error of 53 bits ([rate_limit_bound64],
    [patient_key_passes64]). A product is rounded before it is added, as the
    compiler does it on amd64; on other machines it may fuse the two. *)

From Stdlib Require Import QArith Lqa.
From Stdlib Require Import Floats.SpecFloat.
From stdpp Require Import gmap fin_maps fin_map_dom.
From S2P Require Import Prelude Binary64 GoStrings GoErrors Lru AuthMiddleware SqlExecutor HttpErrors RateLimit RateFloat RateLiveness.

(** ** The rounding of binary64 has the laws *)

#[export] Instance binary64 : Float64 := {| rnd := rnd53; ulp := pow2 (-53) |}.

#[export] Instance binary64_laws : Float64Laws.
Proof. split; [discriminate|apply rnd53_nonneg|apply rnd53_upper]. Qed.

#[export] Instance binary64_exact : Float64Exact.
Proof. split; [discriminate|apply rnd53_mono|apply rnd53_lower|apply rnd53_int]. Qed.

Section Limiter.
Context `{LRU nat}.

(** ** The limiter *)

Record RateLimit64 : Type := {
  r64_limiters : lru;
  r64_heap : list tokenBucket64;
  r64_rps : f64;
  r64_burst : Z;
}.

Definition NewRateLimit64 (rps : f64) (burst : Z) : RateLimit64 :=
  {| r64_limiters := lru_new maxBuckets; r64_heap := []; r64_rps := limit_rps rps; r64_burst := limit_burst burst |}.

Definition set_heap64 (r : RateLimit64) (h : list tokenBucket64) : RateLimit64 :=
  {| r64_limiters := r64_limiters r; r64_heap := h; r64_rps := r64_rps r; r64_burst := r64_burst r |}.

Definition limiterFor64 (r : RateLimit64) (key : bytes) (now : Z) : nat * RateLimit64 :=
  match lru_get (r64_limiters r) key with
  | (Some p, l) =>
      (p, {| r64_limiters := l; r64_heap := r64_heap r; r64_rps := r64_rps r; r64_burst := r64_burst r |})
  | (None, l) =>
      let p := length (r64_heap r) in
      (p, {| r64_limiters := lru_add l key p;
             r64_heap := r64_heap r ++ [newTokenBucket64 (r64_rps r) (r64_burst r) now];
             r64_rps := r64_rps r; r64_burst := r64_burst r |})
  end.

(** [int(f)]: towards zero; infinities, NaN and what does not fit an int64 give the
    least int64, as on amd64. *)
Definition f64_int (f : f64) : Z :=
  match f with
  | S754_infinity _ | S754_nan => min_int64
  | _ => int_of_float (B2Q f)
  end.

Definition Middleware64 (r : RateLimit64) (ws : option WorkspaceContext) (tnew tallow ttokens : Z)
  : limit_outcome * RateLimit64 :=
  let key := match ws with Some ws => ws_KeyDBID ws | None => bs "anon" end in
  let '(p, r) := limiterFor64 r key tnew in
  match r64_heap r !! p with
  | None => (Limited [] limited_problem, r)
  | Some lim =>
      let h1 := [(bs "X-RateLimit-Limit", Itoa (f64_int (b_rate lim)))] in
      match Allow64 lim tallow with
      | (false, lim) =>
          (Limited (h1 ++ [(bs "X-RateLimit-Remaining", bs "0"); (bs "Retry-After", bs "1")]) limited_problem,
           set_heap64 r (<[p := lim]> (r64_heap r)))
      | (true, lim) =>
          let '(tokens, lim) := Tokens64 lim ttokens in
          (Passed (h1 ++ [(bs "X-RateLimit-Remaining", Itoa (f64_int tokens))]),
           set_heap64 r (<[p := lim]> (r64_heap r)))
      end
  end.

Definition serve64 (r : RateLimit64) (q : request) : bool * RateLimit64 :=
  match Middleware64 r (Some (ws_for (rq_key q))) (rq_new q) (rq_allow q) (rq_tokens q) with
  | (Passed _, r) => (true, r)
  | (Limited _ _, r) => (false, r)
  end.

Fixpoint run_requests64 (r : RateLimit64) (qs : list request) (key : bytes) : Z * RateLimit64 :=
  match qs with
  | [] => (0%Z, r)
  | q :: qs =>
      let '(ok, r) := serve64 r q in
      let '(n, r) := run_requests64 r qs key in
      ((if ok && str_eqb (rq_key q) key then n + 1 else n)%Z, r)
  end.

(** ** Numbers *)

(** A rate that neither overflows nor vanishes. *)
Definition rate_ok (f : f64) : Prop := normal f ∧ (pow2 (-900) <= B2Q f)%Q ∧ (B2Q f <= pow2 900)%Q.

Lemma normal_min f : normal f → (pow2 (-1022) <= B2Q f)%Q.
Proof.
  intros (m & e & _ & _ & He & _ & [Hl _])%normal_value. eapply Qle_trans; [|exact Hl]. apply pow2_le. lia.
Qed.

(** A rounded positive number is between the powers of two around it. *)
Lemma rnd53_between a b x : (pow2 a <= x)%Q → (x <= pow2 b)%Q → (pow2 a <= rnd53 x)%Q ∧ (rnd53 x <= pow2 b)%Q.
Proof.
  intros Ha Hb. rewrite <- (rnd53_pow2 a), <- (rnd53_pow2 b). split; by apply rnd53_mono.
Qed.

Lemma of_int_exact z : (0 <= z <= 2 ^ 53)%Z → nonneg (f64_of_int z) ∧ (B2Q (f64_of_int z) == inject_Z z)%Q.
Proof.
  intros Hz. destruct (f64_of_int_value z) as [Hn Hv]; [split; [lia|]; apply Z.le_lt_trans with (2 ^ 53)%Z; [lia|done]|].
  split; [done|]. by rewrite Hv, rnd53_int.
Qed.

Lemma of_int_normal z : (0 < z <= 2 ^ 53)%Z → normal (f64_of_int z).
Proof.
  intros Hz. destruct (of_int_exact z ltac:(lia)) as [[Hn|Hn] Hv]; [|done]. rewrite Hn in Hv. cbn [B2Q] in Hv.
  change 0%Q with (inject_Z 0) in Hv. rewrite inject_Z_injective in Hv. lia.
Qed.

Lemma Qltb_spec a b : Qltb a b = true ↔ (a < b)%Q.
Proof.
  unfold Qltb. rewrite negb_true_iff. split.
  - intros Hf. apply Qnot_le_lt. intros Hle. apply Qle_bool_iff in Hle. congruence.
  - intros Hlt. destruct (Qle_bool b a) eqn:E; [|done]. apply Qle_bool_iff in E. lra.
Qed.

Lemma SFltb_Qltb a b x y : nonneg a → nonneg b → (B2Q a == x)%Q → (B2Q b == y)%Q → SFltb a b = Qltb x y.
Proof.
  intros Ha Hb Hx Hy. apply Bool.eq_iff_eq_true. rewrite Qltb_spec, <- Hx, <- Hy. by apply SFltb_value.
Qed.

(** ** The clock *)

(** [f] stands for [x], which is zero or between the two powers. *)
Definition stands (f : f64) (x : Q) (a b : Z) : Prop :=
  nonneg f ∧ (B2Q f == x)%Q ∧ ((x == 0)%Q ∨ (pow2 a <= x)%Q ∧ (x <= pow2 b)%Q).

Lemma rounds_stands f x y a b :
  rounds f x → (x == y)%Q → (y == 0)%Q ∨ (pow2 a <= y)%Q ∧ (y <= pow2 b)%Q → stands f (rnd53 y) a b.
Proof.
  intros [Hn Hv] Hxy Hr. split; [done|]. split; [by rewrite Hv, Hxy|].
  destruct Hr as [Hz|[Hl Hu]]; [left; by rewrite rnd53_0|right]. by apply rnd53_between.
Qed.

Lemma between_normal x a b :
  (-1022 <= a)%Z → (b < 1023)%Z → (x == 0)%Q ∨ (pow2 a <= x)%Q ∧ (x <= pow2 b)%Q → normal_range x.
Proof.
  intros Ha Hb [Hz|[Hl Hu]]; [by left|right]. pose proof (pow2_le (-1022) a Ha) as H1. pose proof (pow2_le (b + 1) 1023 ltac:(lia)) as H2.
  rewrite pow2_S in H2. pose proof (pow2_pos b). lra.
Qed.

Lemma stands_add f g x y a b :
  (-1022 <= a)%Z → (b < 1022)%Z → stands f x a b → stands g y a b → stands (f64_add f g) (rnd53 (x + y)) a (b + 1).
Proof.
  intros Ha Hb (Nf & Vf & Rf) (Ng & Vg & Rg).
  assert ((x + y == 0)%Q ∨ (pow2 a <= x + y)%Q ∧ (x + y <= pow2 (b + 1))%Q) as Hr.
  { rewrite pow2_S. pose proof (pow2_pos a). pose proof (pow2_pos b). destruct Rf as [Zx|[Lx Ux]], Rg as [Zy|[Ly Uy]]; [left|right..]; lra. }
  apply (rounds_stands _ (B2Q f + B2Q g)%Q); [|by rewrite Vf, Vg|done]. apply f64_add_value; [done..|].
  apply (between_normal _ a (b + 1)); [lia..|]. by rewrite Vf, Vg.
Qed.

Lemma stands_mul f g x y a b a' b' :
  (-1022 <= a + a')%Z → (b + b' < 1023)%Z → stands f x a b → stands g y a' b' →
  stands (f64_mul f g) (rnd53 (x * y)) (a + a') (b + b').
Proof.
  intros Ha Hb (Nf & Vf & Rf) (Ng & Vg & Rg).
  assert ((x * y == 0)%Q ∨ (pow2 (a + a') <= x * y)%Q ∧ (x * y <= pow2 (b + b'))%Q) as Hr.
  { rewrite !pow2_add. pose proof (pow2_pos a). pose proof (pow2_pos a'). pose proof (pow2_pos b).
    destruct Rf as [Zx|[Lx Ux]]; [left; rewrite Zx; ring|]. destruct Rg as [Zy|[Ly Uy]]; [left; rewrite Zy; ring|right].
    split.
    - apply Qle_trans with (x * pow2 a')%Q; [apply Qmult_le_compat_r; lra|apply Qmult_le_l; lra].
    - apply Qle_trans with (pow2 b * y)%Q; [apply Qmult_le_compat_r; lra|apply Qmult_le_l; lra]. }
  apply (rounds_stands _ (B2Q f * B2Q g)%Q); [|by rewrite Vf, Vg|done]. apply f64_mul_value; [done..|].
  eapply between_normal; [exact Ha|exact Hb|]. by rewrite Vf, Vg.
Qed.

Lemma stands_weaken f x a b a' b' : (a' <= a)%Z → (b <= b')%Z → stands f x a b → stands f x a' b'.
Proof.
  intros Ha Hb (N & V & R). split; [done|]. split; [done|]. destruct R as [|[Hl Hu]]; [by left|right].
  pose proof (pow2_le _ _ Ha). pose proof (pow2_le _ _ Hb). lra.
Qed.

Lemma stands_eq f x y a b : (x == y)%Q → stands f x a b → stands f y a b.
Proof. intros Hxy (N & V & R). split; [done|]. split; [by rewrite V|]. by rewrite <- Hxy. Qed.

Lemma of_int_stands z : (0 <= z <= 2 ^ 53)%Z → stands (f64_of_int z) (inject_Z z) 0 53.
Proof.
  intros Hz. destruct (of_int_exact z Hz) as [Hn Hv]. split; [done|]. split; [done|].
  destruct (Z.eq_dec z 0%Z) as [->|Hne]; [by left|right]. change (pow2 0) with (inject_Z 1).
  change (pow2 53) with (inject_Z (2 ^ 53)). rewrite <- !Zle_Qle. lia.
Qed.

Lemma div_stands z : (0 <= z < second)%Z →
  stands (f64_div (f64_of_int z) (f64_of_int second)) (rnd53 (inject_Z z / inject_Z second)) (-30) 0.
Proof.
  intros Hz. unfold second in *. destruct (of_int_exact z ltac:(lia)) as [Hn Hv].
  destruct (of_int_exact 1000000000 ltac:(lia)) as [_ Vs]. pose proof (of_int_normal 1000000000 ltac:(lia)) as Ns.
  assert ((inject_Z z / inject_Z 1000000000 == 0)%Q ∨
          (pow2 (-30) <= inject_Z z / inject_Z 1000000000)%Q ∧ (inject_Z z / inject_Z 1000000000 <= pow2 0)%Q) as Hr.
  { destruct (Z.eq_dec z 0%Z) as [->|Hne]; [by left|right]. split.
    - apply Qle_shift_div_l; [done|]. apply Qle_trans with (inject_Z 1); [by vm_compute|]. rewrite <- Zle_Qle. lia.
    - apply Qle_shift_div_r; [done|]. change (pow2 0) with 1%Q. rewrite Qmult_1_l, <- Zle_Qle. lia. }
  apply (rounds_stands _ (B2Q (f64_of_int z) / B2Q (f64_of_int 1000000000))%Q); [|by rewrite Hv, Vs|done]. apply f64_div_value; [done..|].
  apply (between_normal _ (-30) 0); [lia..|]. by rewrite Hv, Vs.
Qed.

(** The seconds of a duration that is not negative. *)
Lemma seconds_stands d : (0 <= d <= max_int64)%Z → stands (f64_Seconds d) (Seconds d) (-30) 54.
Proof.
  intros Hd. unfold max_int64 in Hd. unfold f64_Seconds, Seconds, fadd, fdiv, f_of_int, rnd, binary64.
  assert (0 <= Z.quot d second <= 2 ^ 53)%Z as Hq.
  { rewrite Z.quot_div_nonneg by (unfold second; lia). unfold second.
    split; [apply Z.div_pos; lia|]. apply Z.div_le_upper_bound; lia. }
  assert (0 <= Z.rem d second < second)%Z as Hr by (apply Z.rem_bound_pos; unfold second; lia).
  pose proof (of_int_stands _ Hq) as Sq. pose proof (div_stands _ Hr) as Sr.
  assert (rnd53 (inject_Z (Z.quot d second)) == inject_Z (Z.quot d second))%Q as E1 by (by apply rnd53_int).
  assert (rnd53 (inject_Z (Z.rem d second)) == inject_Z (Z.rem d second))%Q as E2
    by (apply rnd53_int; unfold second in *; lia).
  eapply stands_eq; [|apply (stands_add _ _ (inject_Z (Z.quot d second)) (rnd53 (inject_Z (Z.rem d second) / inject_Z second)) (-30) 53);
    [lia|lia|eapply stands_weaken; [| |exact Sq]; lia|eapply stands_weaken; [| |exact Sr]; lia]].
  by rewrite E1, E2.
Qed.

(** ** Buckets *)

(** A bucket and the same bucket in rational numbers. *)
Record bsim (b : tokenBucket64) (c : tokenBucket) : Prop := {
  bs_time : b_lastTime b = tb_lastTime c;
  bs_tokens : nonneg (b_tokens b) ∧ (B2Q (b_tokens b) == tb_tokens c)%Q ∧ (tb_tokens c <= tb_max c)%Q;
  bs_max : normal (b_max b) ∧ (B2Q (b_max b) == tb_max c)%Q ∧ (tb_max c <= pow2 53)%Q;
  bs_rate : rate_ok (b_rate b) ∧ (B2Q (b_rate b) == tb_rate c)%Q;
}.

Lemma new_sim rps rq burst now :
  rate_ok rps → (B2Q rps == rq)%Q → (0 < burst <= 2 ^ 53)%Z →
  bsim (newTokenBucket64 rps burst now) (newTokenBucket rq burst now).
Proof.
  intros Hr Hrq Hb. destruct (of_int_exact burst ltac:(lia)) as [Hn Hv]. pose proof (of_int_normal burst Hb) as Hnorm.
  assert (f_of_int burst == inject_Z burst)%Q as Hf by (apply rnd53_int; lia).
  split; cbn [newTokenBucket64 newTokenBucket b_lastTime tb_lastTime b_tokens tb_tokens b_max tb_max b_rate tb_rate]; [done| | |done].
  - split; [done|]. split; [by rewrite Hf|]. lra.
  - split; [done|]. split; [by rewrite Hf|]. rewrite Hf. change (pow2 53) with (inject_Z (2 ^ 53)). rewrite <- Zle_Qle. lia.
Qed.

Lemma rate_stands b c : bsim b c → stands (b_rate b) (tb_rate c) (-900) 900.
Proof.
  intros [_ _ _ [(Hn & Hl & Hu) Hv]]. split; [by right|]. split; [done|]. right. by rewrite <- Hv.
Qed.

Lemma tokens_stands b c : bsim b c → stands (b_tokens b) (tb_tokens c) (-1022) 53.
Proof.
  intros [_ (Hn & Hv & Hle) (_ & _ & Hm) _]. split; [done|]. split; [done|].
  destruct Hn as [Hz|Hn]; [left; rewrite <- Hv; by rewrite Hz|right]. rewrite <- Hv at 1.
  split; [by apply normal_min|]. lra.
Qed.

Lemma f64_Min_value x y : nonneg x → normal y → f64_Min x y = if SFltb x y then x else y.
Proof.
  intros [->|Hx] Hy; destruct y as [| | |[] my ey]; try done. by destruct x as [| | |[] mx ex].
Qed.

Lemma refill_sim b c now : bsim b c → (tb_lastTime c <= now)%Z → bsim (refill64 b now) (refill c now).
Proof.
  intros Hs Hnow. pose proof (tokens_stands _ _ Hs) as St. pose proof (rate_stands _ _ Hs) as Sr.
  destruct Hs as [Ht Htok (Mn & Mv & Mu) Hrate].
  set (d := time_Sub now (tb_lastTime c)).
  assert (0 <= d <= max_int64)%Z as Hd by (subst d; unfold time_Sub, max_int64, min_int64; lia).
  pose proof (seconds_stands d Hd) as Se.
  pose proof (stands_mul (f64_Seconds d) (b_rate b) (Seconds d) (tb_rate c) (-30) 54 (-900) 900 ltac:(lia) ltac:(lia) Se Sr) as Sm.
  assert (stands (f64_add (b_tokens b) (f64_mul (f64_Seconds d) (b_rate b)))
            (fadd (tb_tokens c) (fmul (Seconds d) (tb_rate c))) (-1022) 955) as (Na & Va & _).
  { apply (stands_add _ _ _ _ (-1022) 954); [lia..| |].
    - eapply stands_weaken; [| |exact St]; lia.
    - eapply stands_weaken; [| |exact Sm]; lia. }
  assert (nonneg (b_max b)) as Nm by (by right).
  assert (SFltb (f64_add (b_tokens b) (f64_mul (f64_Seconds d) (b_rate b))) (b_max b) =
          Qltb (fadd (tb_tokens c) (fmul (Seconds d) (tb_rate c))) (tb_max c)) as Hlt by (by apply SFltb_Qltb).
  split; unfold refill64, refill; cbn [b_lastTime tb_lastTime b_tokens tb_tokens b_max tb_max b_rate tb_rate]; [done| |done|done].
  rewrite Ht. fold d. rewrite f64_Min_value by done. rewrite Hlt. unfold math_Min.
  destruct (Qltb _ _) eqn:El.
  - apply Qltb_spec in El. split; [done|]. split; [done|]. lra.
  - split; [done|]. split; [done|]. lra.
Qed.

(** What is left of one token or more is nothing, or not too small. *)
Lemma sub_one_range t : normal t → (1 <= B2Q t)%Q → (B2Q t <= pow2 53)%Q → normal_range (B2Q t - 1).
Proof.
  intros Hn H1 Hu. apply normal_value in Hn as (m & e & -> & Hd & He & Hv & [_ Hl]).
  assert (-53 < e)%Z as He52.
  { enough (0 < e + 52 + 1)%Z by lia. apply pow2_lt_inv. change (pow2 0) with 1%Q. lra. }
  assert (∃ k f, (-52 <= f)%Z ∧ (B2Q (S754_finite false m e) - 1 == inject_Z k * pow2 f)%Q) as (k & f & Hf & Hk).
  { destruct (Z.le_gt_cases 0 e) as [Hge|Hneg].
    - exists (Zpos m * 2 ^ e - 1)%Z, 0%Z. split; [lia|]. rewrite Hv. change (pow2 0) with 1%Q.
      unfold Z.sub. rewrite inject_Z_plus, inject_Z_mult, <- pow2_Z by lia. change (inject_Z (- (1))) with (- (1))%Q. ring.
    - exists (Zpos m - 2 ^ (- e))%Z, e. split; [lia|]. rewrite Hv. unfold Z.sub.
      rewrite inject_Z_plus, inject_Z_opp, <- pow2_Z, Qmult_plus_distr_l by lia.
      assert (pow2 (- e) * pow2 e == 1)%Q as Hi by (rewrite <- pow2_add; by rewrite Z.add_opp_diag_l).
      assert (- pow2 (- e) * pow2 e == - (1))%Q as -> by (rewrite <- Hi; ring). ring. }
  unfold normal_range. rewrite Hk in *. pose proof (pow2_pos f) as Hp.
  destruct (Z.lt_trichotomy k 0) as [Hk0|[->|Hk0]].
  - exfalso. assert (inject_Z k < 0)%Q by (change 0%Q with (inject_Z 0); by rewrite <- Zlt_Qlt).
    assert (0 <= inject_Z k * pow2 f)%Q by (rewrite <- Hk; lra). nra.
  - left. change (inject_Z 0) with 0%Q. ring.
  - right. assert (1 <= inject_Z k)%Q by (change 1%Q with (inject_Z 1); rewrite <- Zle_Qle; lia).
    assert (1 * pow2 f <= inject_Z k * pow2 f)%Q by (apply Qmult_le_compat_r; lra).
    pose proof (pow2_le (-1022) f ltac:(lia)). split; [lra|]. rewrite <- Hk. pose proof (pow2_le 53 1023 ltac:(lia)). lra.
Qed.

Lemma Allow_sim b c now :
  bsim b c → (tb_lastTime c <= now)%Z →
  (Allow64 b now).1 = (Allow c now).1 ∧ bsim (Allow64 b now).2 (Allow c now).2 ∧ tb_lastTime (Allow c now).2 = now.
Proof.
  intros Hs Hnow. pose proof (refill_sim b c now Hs Hnow) as Hr. unfold Allow64, Allow.
  assert (tb_lastTime (refill c now) = now) as Hnt by done.
  set (b1 := refill64 b now) in *. set (c1 := refill c now) in *. clearbody b1 c1.
  destruct Hr as [Ht (Nt & Vt & Tle) Hmax Hrate]. destruct (of_int_exact 1 ltac:(lia)) as [N1 V1].
  rewrite (SFltb_Qltb (b_tokens b1) f64_one (tb_tokens c1) 1) by done.
  destruct (Qltb (tb_tokens c1) 1) eqn:El; [done|].
  assert (1 <= tb_tokens c1)%Q as H1.
  { apply Qnot_lt_le. intros Hlt. apply Qltb_spec in Hlt. congruence. }
  split; [done|]. split; [|done].
  assert (normal (b_tokens b1)) as Nn by (destruct Nt as [Hz|]; [|done]; rewrite Hz in Vt; cbn [B2Q] in Vt; exfalso; lra).
  assert (B2Q f64_one == 1)%Q as V1' by exact V1. destruct Hmax as (Mn & Mv & Mu).
  destruct (f64_sub_value (b_tokens b1) f64_one) as [Nd Vd]; [done|exact N1|by rewrite V1', Vt| |].
  { pose proof (sub_one_range (b_tokens b1) Nn ltac:(rewrite Vt; lra) ltac:(rewrite Vt; lra)) as Hr.
    unfold normal_range in *. by rewrite V1'. }
  split; cbn [snd set_tokens b_lastTime tb_lastTime b_tokens tb_tokens b_max tb_max b_rate tb_rate]; [done| |done|done].
  split; [done|]. change (fsub (tb_tokens c1) 1) with (rnd53 (tb_tokens c1 - 1)). split; [by rewrite Vd, V1', Vt|].
  assert (rnd53 (tb_tokens c1 - 1) <= rnd53 (tb_tokens c1))%Q as Hm by (apply rnd53_mono; lra).
  assert (rnd53 (tb_tokens c1) == tb_tokens c1)%Q by (rewrite <- Vt; by apply normal_exact). lra.
Qed.

(** ** The limiter does what RateLimit.v says *)

#[export] Instance int_of_float_Proper : Proper (Qeq ==> eq) int_of_float.
Proof.
  intros [n1 d1] [n2 d2] Hxy. unfold Qeq in Hxy. cbn [Qnum Qden] in Hxy. unfold int_of_float. cbn [Qnum Qden].
  assert (Z.quot n1 (Zpos d1) = Z.quot n2 (Zpos d2)) as ->; [|done].
  rewrite <- (Z.quot_mul_cancel_r n1 (Zpos d1) (Zpos d2)), Hxy by lia.
  rewrite (Z.mul_comm (Zpos d1)). apply Z.quot_mul_cancel_r; lia.
Qed.

Lemma f64_int_value f q : nonneg f → (B2Q f == q)%Q → f64_int f = int_of_float q.
Proof. intros Hf Hq. rewrite <- Hq. destruct Hf as [->|Hf]; [done|]. by destruct f as [| | |[]]. Qed.

(** The two limiters at the time [t]. *)
Record lsim (t : Z) (r : RateLimit64) (s : RateLimit) : Prop := {
  ls_lru : r64_limiters r = rl_limiters s;
  ls_heap : Forall2 bsim (r64_heap r) (rl_heap s);
  ls_time : Forall (fun c => (tb_lastTime c <= t)%Z) (rl_heap s);
  ls_rate : rate_ok (r64_rps r) ∧ (B2Q (r64_rps r) == rl_rps s)%Q;
  ls_burst : r64_burst r = rl_burst s ∧ (0 < rl_burst s <= 2 ^ 53)%Z;
}.

Lemma lsim_later t t' r s : (t <= t')%Z → lsim t r s → lsim t' r s.
Proof. intros Ht [? ? Htime ? ?]. split; [done..| |done|done]. eapply Forall_impl; [exact Htime|]. simpl. lia. Qed.

Lemma limiterFor_sim t r s key now :
  lsim t r s → (t <= now)%Z →
  (limiterFor64 r key now).1 = (limiterFor s key now).1 ∧ lsim now (limiterFor64 r key now).2 (limiterFor s key now).2.
Proof.
  intros Hs Hnow. apply (lsim_later _ now) in Hs; [|done]. destruct Hs as [Hl Hh Ht Hr Hb].
  unfold limiterFor64, limiterFor. rewrite Hl. destruct (lru_get (rl_limiters s) key) as [[p|] l]; [done|].
  rewrite (Forall2_length _ _ _ Hh). cbn [fst snd]. split; [done|]. split; cbn [r64_limiters rl_limiters r64_heap rl_heap r64_rps rl_rps r64_burst rl_burst]; try done.
  - apply Forall2_app; [done|]. constructor; [|done]. destruct Hb as [-> Hb], Hr. by apply new_sim.
  - apply Forall_app. split; [done|]. constructor; [|done]. simpl. lia.
Qed.

Lemma set_heap_sim t r s p b c :
  lsim t r s → bsim b c → (tb_lastTime c <= t)%Z →
  lsim t (set_heap64 r (<[p := b]> (r64_heap r))) (set_heap s (<[p := c]> (rl_heap s))).
Proof.
  intros [Hl Hh Ht Hr Hb] Hbc Hc. split; try done.
  - by apply Forall2_insert.
  - by apply Forall_insert.
Qed.

Lemma Middleware_sim t r s ws tnew tallow ttokens :
  lsim t r s → (t <= tnew)%Z → (tnew <= tallow)%Z → (tallow <= ttokens)%Z →
  (Middleware64 r ws tnew tallow ttokens).1 = (Middleware s ws tnew tallow ttokens).1 ∧
  lsim ttokens (Middleware64 r ws tnew tallow ttokens).2 (Middleware s ws tnew tallow ttokens).2.
Proof.
  intros Hs H1 H2 H3. unfold Middleware64, Middleware. set (key := match ws with Some _ => _ | None => _ end).
  destruct (limiterFor_sim t r s key tnew Hs H1) as [Hp Hs1].
  destruct (limiterFor64 r key tnew) as [p r1], (limiterFor s key tnew) as [p' s1]. cbn [fst snd] in Hp, Hs1. subst p'.
  apply (lsim_later _ ttokens) in Hs1 as Hs2; [|lia].
  destruct (rl_heap s1 !! p) as [c|] eqn:Ec.
  2: { apply lookup_ge_None in Ec. rewrite <- (Forall2_length _ _ _ (ls_heap _ _ _ Hs1)) in Ec.
       apply lookup_ge_None in Ec. by rewrite Ec. }
  destruct (Forall2_lookup_r _ _ _ _ _ (ls_heap _ _ _ Hs1) Ec) as (b & Eb & Hbc). rewrite Eb.
  pose proof (Forall_lookup_1 _ _ _ _ (ls_time _ _ _ Hs1) Ec) as Htime. cbn beta in Htime.
  destruct (Allow_sim b c tallow Hbc ltac:(lia)) as (Ha & Hbc1 & Hlast).
  assert (f64_int (b_rate b) = int_of_float (Rate c)) as Hrate by (destruct (bs_rate _ _ Hbc) as [[Hn _] Hv]; apply f64_int_value; [by right|done]).
  rewrite Hrate. destruct (Allow64 b tallow) as [a b1], (Allow c tallow) as [a' c1]. cbn [fst snd] in Ha, Hbc1, Hlast. subst a'.
  destruct a; cbn [fst snd].
  - unfold Tokens64, Tokens. pose proof (refill_sim b1 c1 ttokens Hbc1 ltac:(lia)) as Hbc2.
    destruct (bs_tokens _ _ Hbc2) as (Hn & Hv & _). rewrite (f64_int_value _ _ Hn Hv). split; [done|].
    apply set_heap_sim; [done..|]. simpl. lia.
  - split; [done|]. apply set_heap_sim; [done..|lia].
Qed.

(** The outcomes of a list of requests. *)
Definition respond64 (r : RateLimit64) (q : request) : limit_outcome * RateLimit64 :=
  Middleware64 r (Some (ws_for (rq_key q))) (rq_new q) (rq_allow q) (rq_tokens q).

Definition respond (s : RateLimit) (q : request) : limit_outcome * RateLimit :=
  Middleware s (Some (ws_for (rq_key q))) (rq_new q) (rq_allow q) (rq_tokens q).

Fixpoint outcomes64 (r : RateLimit64) (qs : list request) : list limit_outcome :=
  match qs with
  | [] => []
  | q :: qs => let '(o, r) := respond64 r q in o :: outcomes64 r qs
  end.

Fixpoint outcomes (s : RateLimit) (qs : list request) : list limit_outcome :=
  match qs with
  | [] => []
  | q :: qs => let '(o, s) := respond s q in o :: outcomes s qs
  end.

Lemma New_sim t rps burst :
  rate_ok rps → (0 < burst <= 2 ^ 53)%Z → lsim t (NewRateLimit64 rps burst) (NewRateLimit (B2Q rps) burst).
Proof.
  intros Hr Hb. pose proof (normal_pos _ (proj1 Hr)) as Hp.
  assert (limit_rps rps = rps) as E1.
  { unfold limit_rps. destruct Hr as [Hn _]. destruct rps as [| | |[] m e]; try done. }
  assert (Qle_bool (B2Q rps) 0 = false) as E2.
  { destruct (Qle_bool _ _) eqn:E; [|done]. apply Qle_bool_iff in E. lra. }
  assert ((burst <=? 0)%Z = false) as E3 by (apply Z.leb_gt; lia).
  split; unfold NewRateLimit64, NewRateLimit, limit_burst;
    cbn [r64_limiters rl_limiters r64_heap rl_heap r64_rps rl_rps r64_burst rl_burst]; rewrite ?E1, ?E2, ?E3; try done; constructor.
Qed.

Lemma run_sim qs key : ∀ t0 t1 r s,
  lsim t0 r s → in_order t0 t1 qs →
  outcomes64 r qs = outcomes s qs ∧ (run_requests64 r qs key).1 = (run_requests s qs key).1 ∧
  lsim t1 (run_requests64 r qs key).2 (run_requests s qs key).2.
Proof.
  induction qs as [|q qs IH]; intros t0 t1 r s Hs Ho; cbn [in_order] in Ho.
  - cbn. split; [done|]. split; [done|]. by eapply lsim_later.
  - destruct Ho as [(H1 & H2 & H3) Ho]. cbn [outcomes64 outcomes run_requests64 run_requests].
    unfold serve64, serve, respond64, respond.
    destruct (Middleware_sim t0 r s (Some (ws_for (rq_key q))) (rq_new q) (rq_allow q) (rq_tokens q) Hs H1 H2 H3) as [He Hs'].
    destruct (Middleware64 _ _ _ _ _) as [o r'], (Middleware _ _ _ _ _) as [o' s']. cbn [fst snd] in He, Hs'. subst o'.
    destruct (IH _ _ _ _ Hs' Ho) as (IH1 & IH2 & IH3).
    destruct o; destruct (run_requests64 r' qs key), (run_requests s' qs key); cbn [fst snd] in *; subst; by rewrite IH1.
Qed.

(** A burst is exact, and one unit in its last place is at most one. *)
Lemma burst_exact burst : (0 < burst <= 2 ^ 53)%Z → (f_of_int burst == inject_Z burst)%Q ∧ (ulp * f_of_int burst <= 1)%Q.
Proof.
  intros Hb. assert (f_of_int burst == inject_Z burst)%Q as Hf by (apply rnd53_int; lia). split; [done|].
  rewrite Hf. change ulp with (pow2 (-53)). assert (1 == pow2 (-53) * pow2 53)%Q as -> by done.
  apply Qmult_le_l; [apply pow2_pos|]. change (pow2 53) with (inject_Z (2 ^ 53)). rewrite <- Zle_Qle. lia.
Qed.

(** The limiter on the machine does what RateLimit.v computes with rational
    numbers rounded to 53 bits: for a rate between 2^-900 and 2^900 and a burst of
    at most 2^53, every request of every key gets the same outcome from both, the
    header values included, at whatever moments they come. *)
Theorem limiter64_refines rps burst qs t0 t1 :
  rate_ok rps → (0 < burst <= 2 ^ 53)%Z → in_order t0 t1 qs →
  outcomes64 (NewRateLimit64 rps burst) qs = outcomes (NewRateLimit (B2Q rps) burst) qs.
Proof. intros Hr Hb Ho. by destruct (run_sim qs [] t0 t1 _ _ (New_sim t0 rps burst Hr Hb) Ho). Qed.

Context `{!LRULaws nat}.

(** C14: A bound on what a key can send, in the float64 arithmetic of the machine, in
    every window of time. Whatever requests the limiter has served [before], of the
    requests [qs] that follow between [t0] and [t1] those of one key that pass are at
    most the burst and what its rate yields in the window, up to the five roundings
    of a refill (a factor of (1 + 2^-53)^5 on the yield) and three roundings of the
    burst per request of the key; whatever other keys send, as long as the keys in
    use fit into the limiter's table of 4096. *)
Theorem rate_limit_bound64 rps burst key before qs t00 t0 t1 :
  rate_ok rps → (0 < burst <= 2 ^ 53)%Z →
  size (list_to_set (rq_key <$> (before ++ qs)) : gset bytes) ≤ maxBuckets →
  in_order t00 t0 before → in_order t0 t1 qs →
  (inject_Z (run_requests64 (run_requests64 (NewRateLimit64 rps burst) before key).2 qs key).1 <=
   inject_Z burst + secs (t1 - t0) * B2Q rps * (1 + pow2 (-53)) ^ 5 +
   3 * (pow2 (-53) * inject_Z burst) * inject_Z (count_key key qs))%Q.
Proof.
  intros Hr Hb Hsz Ho0 Ho. destruct (run_sim before key t00 t0 _ _ (New_sim t00 rps burst Hr Hb) Ho0) as (_ & _ & Hs).
  destruct (run_sim qs key t0 t1 _ _ Hs Ho) as (_ & -> & _).
  pose proof (normal_pos _ (proj1 Hr)) as Hp. destruct (burst_exact burst Hb) as [Hf Hu].
  pose proof (rate_limit_bound (B2Q rps) burst key before qs t00 t0 t1 Hp ltac:(lia) Hu Hsz Ho0 Ho) as Hbound.
  rewrite Hf in Hbound. exact Hbound.
Qed.

Lemma in_order_app a b t0 t1 t2 : in_order t0 t1 a → in_order t1 t2 b → in_order t0 t2 (a ++ b).
Proof.
  revert t0. induction a as [|q a IH]; intros t0 Ha Hb.
  - cbn [in_order app] in *. destruct b as [|q b]; cbn [in_order] in *; [lia|]. destruct Hb as [Hq Hb]. split; [lia|done].
  - cbn [app in_order] in *. destruct Ha as [Hq Ha]. split; [done|]. by apply IH.
Qed.

Lemma in_order_split a b t0 t2 : in_order t0 t2 (a ++ b) → ∃ t1, in_order t0 t1 a ∧ in_order t1 t2 b.
Proof.
  revert t0. induction a as [|q a IH]; intros t0 Hab; cbn [app in_order] in *.
  - exists t0. split; [lia|done].
  - destruct Hab as [Hq Hab]. destruct (IH _ Hab) as (t1 & Ha & Hb). exists t1. done.
Qed.

(** C15: A key that waits is let through, in the float64 arithmetic of the machine.
    After any requests up to [t1], a key that sends nothing for [d] nanoseconds has
    its next request accepted when [d] at its rate is worth a token, with two
    roundings to spare or in whole seconds: 1/60 s at 60 requests a second, and one
    second, which the Retry-After header of a refusal names, at one request a
    second or more. Other keys may send anything meanwhile, as long as the keys in
    use fit into the limiter's table of 4096. *)
Theorem patient_key_passes64 rps burst d key before others q t0 t1 t2 :
  rate_ok rps → (0 < burst <= 2 ^ 53)%Z →
  size (list_to_set (rq_key <$> (before ++ others ++ [q])) : gset bytes) ≤ maxBuckets →
  in_order t0 t1 before → in_order t1 t2 (others ++ [q]) →
  silent key others → rq_key q = key →
  (0 <= d <= max_int64)%Z →
  (1 <= secs d * (1 - pow2 (-53)) * (1 - pow2 (-53)) * B2Q rps)%Q ∨ (d mod second = 0)%Z ∧ (1 <= secs d * B2Q rps)%Q →
  (t1 + d <= rq_allow q)%Z →
  (serve64 (run_requests64 (NewRateLimit64 rps burst) (before ++ others) key).2 q).1 = true.
Proof.
  intros Hr Hb Hsz Ho1 Ho2 Hsil Hkey Hn Hnr Hwait. pose proof (normal_pos _ (proj1 Hr)) as Hp.
  destruct (burst_exact burst Hb) as [Hf Hu].
  pose proof (patient_key_passes (B2Q rps) burst d key before others q t0 t1 t2 Hp ltac:(lia) Hu Hsz Ho1 Ho2 Hsil Hkey Hn Hnr Hwait) as Hpass.
  destruct (in_order_split _ _ _ _ Ho2) as (t & Ho3 & [(H1 & H2 & H3) _]).
  destruct (run_sim (before ++ others) key t0 t _ _ (New_sim t0 rps burst Hr Hb) (in_order_app _ _ _ _ _ Ho1 Ho3)) as (_ & _ & Hs).
  destruct (Middleware_sim t _ _ (Some (ws_for (rq_key q))) _ _ _ Hs H1 H2 H3) as [He _].
  unfold serve in Hpass. unfold serve64. destruct (Middleware64 _ _ _ _ _) as [o r'], (Middleware _ _ _ _ _) as [o' s'].
  cbn [fst] in He. subst o'. by destruct o.
Qed.
End Limiter.

(** ** Instances *)

Lemma one_rate_ok : rate_ok (f64_of_int 1).
Proof.
  destruct (of_int_exact 1 ltac:(lia)) as [_ Hv]. split; [apply of_int_normal; lia|]. rewrite Hv.
  change (inject_Z 1) with (pow2 0). split; apply pow2_le; lia.
Qed.

(** Two requests of "k" pass a bucket of two, the third does not. *)
Example burst64 :
  (run_requests64 (NewRateLimit64 (f64_of_int 1) 2) LimitDemo.burst_of_three (bs "k")).1 = 2%Z.
Proof. by vm_compute. Qed.

Lemma limiter64_refines_witness :
  outcomes64 (NewRateLimit64 (f64_of_int 1) 2) LimitDemo.burst_of_three =
  outcomes (NewRateLimit (B2Q (f64_of_int 1)) 2) LimitDemo.burst_of_three.
Proof.
  apply (limiter64_refines (f64_of_int 1) 2 LimitDemo.burst_of_three 0 9).
  - exact one_rate_ok.
  - lia.
  - simpl. lia.
Defined.

Lemma rate_limit_bound64_witness :
  let before := LimitDemo.burst_of_three in let qs := LimitDemo.later 3600000000000 in
  let r := (run_requests64 (NewRateLimit64 (f64_of_int 1) 2) before (bs "k")).2 in
  (run_requests64 r qs (bs "k")).1 = 2%Z ∧
  (inject_Z (run_requests64 r qs (bs "k")).1 <=
   inject_Z 2 + secs (3600000000009 - 3600000000000) * B2Q (f64_of_int 1) * (1 + pow2 (-53)) ^ 5 +
   3 * (pow2 (-53) * inject_Z 2) * inject_Z (count_key (bs "k") qs))%Q.
Proof.
  split; [by vm_compute|].
  apply (rate_limit_bound64 (f64_of_int 1) 2 (bs "k") LimitDemo.burst_of_three (LimitDemo.later 3600000000000)
    0 3600000000000 3600000000009).
  - exact one_rate_ok.
  - lia.
  - apply (bool_decide_unpack _). by vm_compute.
  - simpl. lia.
  - simpl. lia.
Defined.

(** 60 requests a second, the default. *)
Lemma sixty_rate_ok : rate_ok (f64_of_int 60).
Proof.
  destruct (of_int_exact 60 ltac:(lia)) as [_ Hv]. split; [apply of_int_normal; lia|]. rewrite Hv. split.
  - apply Qle_trans with (pow2 0); [apply pow2_le; lia|]. by vm_compute.
  - apply Qle_trans with (pow2 6); [by vm_compute|apply pow2_le; lia].
Qed.

Lemma patient_key_passes64_witness :
  (serve64 (run_requests64 (NewRateLimit64 (f64_of_int 60) 2) (LimitDemo.burst_of_three ++ [PatientDemo.other]) (bs "k")).2
     (PatientDemo.again 16666676)).1 = true.
Proof.
  apply (patient_key_passes64 (f64_of_int 60) 2 16666667 (bs "k") LimitDemo.burst_of_three [PatientDemo.other]
    (PatientDemo.again 16666676) 0 9 16666676).
  - exact sixty_rate_ok.
  - lia.
  - apply (bool_decide_unpack _). by vm_compute.
  - simpl. lia.
  - simpl. lia.
  - repeat constructor. vm_compute. discriminate.
  - reflexivity.
  - unfold max_int64. lia.
  - left. vm_compute. discriminate.
  - simpl. lia.
Defined.
