(* ===== verification/RpcDispatcher.v ===== *)
(** * internal/rpc: the registry and the dispatcher

    Registered procedures, and [Call]: the early checks, the idempotency key, the
    procedure body inside a tenant transaction, and the recorded completion. JSON
    and the JSON schema library are parameters. A gateway state is the
    control-plane database and the connection the tenant statement runs on. *)

From S2P Require Import Prelude GoStrings GoErrors AuthKey ControlPlane AuthStore Tenant SqlValidator SqlExecutor Idempotency.

(** The schemas and argument objects of procedures: jsonschema and
    encoding/json. *)
Class RpcLib (V : Type) : Type := {
  schema : Type;
  args : Type;
  schema_Validate : schema → args → option error;
  args_Marshal : args → res error bytes;
  (** the arguments as an interface value *)
  args_any : args → V;
  (** [Scan] of a row into a byte slice *)
  scan_bytes : list V → res error bytes;
  (** the response body stored for replays: name, result, duration *)
  marshal_call : bytes → option bytes → Z → bytes;
}.

Section Rpc.
Context {V S : Type} `{RpcLib V, UuidLib, Gzip, UnicodeTables}.
Variable srv : PgServer V S.

(** ** The registry *)

Record Procedure : Type := {
  pc_Name : bytes;
  pc_Version : Z;
  pc_Description : bytes;
  pc_RequiredRole : bytes;
  pc_BodyPath : bytes;
  pc_Body : bytes;
  pc_Schema : option schema;
}.

Definition Registry : Type := gmap bytes Procedure.

Definition NewRegistry : Registry := ∅.

Definition Register (r : Registry) (p : option Procedure) : res error Registry :=
  match p with
  | None => Err (errors_New (bs "rpc.Register: nil procedure or empty name"))
  | Some p =>
      if str_eqb (pc_Name p) [] then Err (errors_New (bs "rpc.Register: nil procedure or empty name")) else
      match pc_Schema p with
      | None => Err (errors_New (bs "rpc.Register: procedure has nil JSON schema"))
      | Some _ =>
          if str_eqb (pc_Body p) [] then Err (errors_New (bs "rpc.Register: procedure has empty body"))
          else Ok (<[pc_Name p := p]> r)
      end
  end.

Definition registry_Get (r : Registry) (name : bytes) : option Procedure := r !! name.

(** ** Calls *)

Record CallInput : Type := {
  cl_WorkspaceID : bytes;
  cl_PgRole : bytes;
  cl_Name : bytes;
  cl_Args : args;
  cl_IdempotencyKey : bytes;
  cl_RequestHash : bytes;
  cl_StatementTimeout : Z;
  cl_IdleInTxTimeout : Z;
}.

Record CallResult : Type := {
  cr_Procedure : bytes;
  cr_Result : bytes;
  cr_DurationMS : Z;
  cr_Replay : bool;
  cr_CachedStatus : Z;
  cr_CachedBody : bytes;
}.

(** [QueryRow(...).Scan(&raw)] *)
Definition scan_row (rs : rowset V) : res error bytes :=
  match rs_rows rs with
  | [] => match rs_err rs with Some e => Err e | None => Err ErrNoRows end
  | Err e :: _ => Err e
  | Ok values :: _ =>
      match scan_bytes values with
      | Err e => Err e
      | Ok raw => match rs_err rs with Some e => Err e | None => Ok raw end
      end
  end.

(** [run]: the statements up to the commit, *)
Definition run_stmts (proc : Procedure) (cin : CallInput) : X (V := V) (S := S) bytes :=
  let+ _ := Setup srv (cl_WorkspaceID cin) (cl_PgRole cin) (cl_StatementTimeout cin)
              (cl_IdleInTxTimeout cin) in
  match args_Marshal (cl_Args cin) with
  | Err e => xfail e
  | Ok argsJSON =>
      let+ rows := send_query srv (pc_Body proc) [AStr argsJSON] in
      match scan_row rows with
      | Err e => xfail e
      | Ok raw => xret raw
      end
  end.

(** and the transaction around them. *)
Definition run (proc : Procedure) (cin : CallInput) : X (V := V) (S := S) bytes :=
  let+ _ := send srv CBegin in
  fun c =>
    match run_stmts proc cin c with
    | (c, Err e) => ((send srv CRollback c).1, Err e)
    | (c, Ok raw) =>
        match send srv CCommit c with
        | (c, Err e) => (c, Err e)
        | (c, Ok _) => (c, Ok raw)
        end
    end.

(** The gateway's two databases. *)
Record gateway : Type := { gw_world : world; gw_conn : conn V S }.

Definition hours24 : Z := 24 * 3600 * second.

(** What [Call] does once it is to run: the procedure, then the completion. *)
Definition call_run (t0 t1 : Z) (proc : Procedure) (cin : CallInput) (g : gateway)
  : gateway * res error CallResult :=
  let '(c, result) := run proc cin (gw_conn g) in
  let durationMS := Milliseconds (t1 - t0) in
  let w :=
    if str_eqb (cl_IdempotencyKey cin) [] then gw_world g
    else
      let body := marshal_call (pc_Name proc) (match result with Ok raw => Some raw | Err _ => None end) durationMS in
      let ok := is_ok result in
      let status := if ok then 200%Z else 500%Z in
      (Complete (cl_WorkspaceID cin) (cl_IdempotencyKey cin) status body ok (gw_world g)).1 in
  ({| gw_world := w; gw_conn := c |},
   match result with
   | Err e => Err e
   | Ok raw => Ok {| cr_Procedure := pc_Name proc; cr_Result := raw; cr_DurationMS := durationMS;
                     cr_Replay := false; cr_CachedStatus := 0; cr_CachedBody := [] |}
   end).

(** [Call(in)] of a dispatcher with registry [reg]. *)
Definition Call (reg : Registry) (attempts : list (Z * uuid)) (t0 t1 : Z) (cin : CallInput) (g : gateway)
  : gateway * res error CallResult :=
  match registry_Get reg (cl_Name cin) with
  | None => (g, Err ErrUnknownProcedure)
  | Some proc =>
      if negb (str_eqb (pc_RequiredRole proc) []) && negb (str_eqb (pc_RequiredRole proc) (cl_PgRole cin))
      then (g, Err (ErrWrap [] ErrRoleNotPermitted
                      [FLit (bs ": rpc "); FQuote (cl_Name cin); FLit (bs " requires role ");
                       FQuote (pc_RequiredRole proc); FLit (bs ", key has "); FQuote (cl_PgRole cin)]))
      else
      match match pc_Schema proc with Some sch => schema_Validate sch (cl_Args cin) | None => None end with
      | Some e => (g, Err (wrapf (bs "rpc args validation: ") e))
      | None =>
          if str_eqb (cl_IdempotencyKey cin) [] then call_run t0 t1 proc cin g
          else
            match BeginOrReplay attempts (cl_WorkspaceID cin) (cl_IdempotencyKey cin) (cl_RequestHash cin)
                    hours24 (gw_world g) with
            | (w, Err e) => ({| gw_world := w; gw_conn := gw_conn g |}, Err e)
            | (w, Ok res) =>
                let g := {| gw_world := w; gw_conn := gw_conn g |} in
                if ir_Replay res
                then (g, Ok {| cr_Procedure := []; cr_Result := []; cr_DurationMS := 0; cr_Replay := true;
                               cr_CachedStatus := ir_StatusCode res; cr_CachedBody := ir_Body res |})
                else call_run t0 t1 proc cin g
            end
      end
  end.

(** ** Registered procedures are complete *)

Definition registry_ok (r : Registry) : Prop :=
  map_Forall (fun name p => pc_Name p = name ∧ name ≠ [] ∧ is_Some (pc_Schema p) ∧ pc_Body p ≠ []) r.

Lemma Register_ok r p r' : registry_ok r → Register r p = Ok r' → registry_ok r'.
Proof.
  intros Hr Hx. unfold Register in Hx. destruct p as [p|]; [|done].
  destruct (str_eqb (pc_Name p) []) eqn:E1; [done|]. destruct (pc_Schema p) eqn:E2; [|done].
  destruct (str_eqb (pc_Body p) []) eqn:E3; [done|]. injection Hx as <-. go_bool.
  apply map_Forall_insert_2; [|done]. rewrite E2. eauto.
Qed.

(** ** The transaction of a procedure *)

Definition call_setup (cin : CallInput) : list (cmd V) :=
  setup_cmds (cl_WorkspaceID cin) (cl_PgRole cin) (cl_StatementTimeout cin) (cl_IdleInTxTimeout cin).

Lemma run_stmts_trace proc cin c c' r :
  run_stmts proc cin c = (c', r) →
  (∃ n e, cn_log c' = cn_log c ++ take n (call_setup cin) ∧ r = Err e) ∨
  (∃ argsJSON, args_Marshal (cl_Args cin) = Ok argsJSON ∧
     cn_log c' = cn_log c ++ call_setup cin ++ [CQuery (pc_Body proc) [AStr argsJSON]] ∧
     isSafeRoleName (cl_PgRole cin) = true).
Proof.
  unfold run_stmts. intros Hx. unfold xbind at 1 in Hx.
  destruct (Setup srv _ _ _ _ c) as [c1 [[]|e]] eqn:Es.
  - apply Setup_Ok in Es as (Hl & _ & Hr). fold (call_setup cin) in Hl.
    destruct (args_Marshal (cl_Args cin)) as [aj|e] eqn:Ea.
    + right. exists aj. split; [done|]. split; [|done]. rewrite app_assoc, <- Hl.
      rewrite <- (send_query_log srv (pc_Body proc) [AStr aj] c1). unfold xbind in Hx.
      destruct (send_query srv _ _ c1) as [c2 [rows|e]]; simpl; [|by simplify_eq].
      destruct (scan_row rows); unfold xfail, xret in Hx; by simplify_eq.
    + left. unfold xfail in Hx. simplify_eq. exists (length (call_setup cin)), e. by rewrite take_ge.
  - left. destruct (Setup_sends srv _ _ _ _ _ _ _ Es) as (n & Hl & _). simplify_eq. exists n, e. done.
Qed.

Lemma run_trace proc cin c c' r :
  run proc cin c = (c', r) →
  (cn_log c' = cn_log c ++ [CBegin] ∧ is_ok r = false) ∨
  (∃ n, cn_log c' = cn_log c ++ CBegin :: take n (call_setup cin) ++ [CRollback] ∧ is_ok r = false) ∨
  (∃ argsJSON fin,
     cn_log c' = cn_log c ++ CBegin :: call_setup cin ++ CQuery (pc_Body proc) [AStr argsJSON] :: fin ∧
     args_Marshal (cl_Args cin) = Ok argsJSON ∧ closing fin ∧ (is_ok r = true → fin = [CCommit]) ∧
     isSafeRoleName (cl_PgRole cin) = true).
Proof.
  unfold run. intros Hx. unfold xbind in Hx. pose proof (send_log srv CBegin c) as Hb.
  destruct (send srv CBegin c) as [c1 [z|e]]; simpl in Hb; [|left; by simplify_eq]. right.
  destruct (run_stmts proc cin c1) as [c2 rb] eqn:Eb.
  destruct (run_stmts_trace _ _ _ _ _ Eb) as [(n & e & Hl & ->)|(aj & Ha & Hl & Hs)].
  - left. exists n. simplify_eq. rewrite send_log, Hl, Hb, <- !app_assoc. done.
  - right. exists aj. destruct rb as [resp|e].
    + pose proof (send_log srv CCommit c2) as Hc. exists [CCommit].
      destruct (send srv CCommit c2) as [c3 [z'|e]]; simpl in *; simplify_eq;
        rewrite Hc, Hl, Hb, <- !app_assoc; (split; [done|]; split; [done|]; split; [by left|done]).
    + exists [CRollback]. simplify_eq. rewrite send_log, Hl, Hb, <- !app_assoc.
      split; [done|]. split; [done|]. split; [by right|done].
Qed.

(** ** What a call may touch *)

Lemma Call_cases reg attempts t0 t1 cin g g' r :
  Call reg attempts t0 t1 cin g = (g', r) →
  g' = g ∧ is_ok r = false ∨
  ∃ proc, registry_Get reg (cl_Name cin) = Some proc ∧
    (pc_RequiredRole proc = [] ∨ pc_RequiredRole proc = cl_PgRole cin) ∧
    (∀ sch, pc_Schema proc = Some sch → schema_Validate sch (cl_Args cin) = None) ∧
    ((cl_IdempotencyKey cin = [] ∧ call_run t0 t1 proc cin g = (g', r)) ∨
     (cl_IdempotencyKey cin ≠ [] ∧
      ∃ w rb, BeginOrReplay attempts (cl_WorkspaceID cin) (cl_IdempotencyKey cin) (cl_RequestHash cin)
                hours24 (gw_world g) = (w, rb) ∧
        ((∃ ires, rb = Ok ires ∧ ir_Replay ires = false ∧
            call_run t0 t1 proc cin {| gw_world := w; gw_conn := gw_conn g |} = (g', r)) ∨
         (gw_conn g' = gw_conn g ∧ gw_world g' = w ∧ (∀ ires, rb = Ok ires → ir_Replay ires = true) ∧
          r = match rb with
              | Err e => Err e
              | Ok ires => Ok {| cr_Procedure := []; cr_Result := []; cr_DurationMS := 0; cr_Replay := true;
                                 cr_CachedStatus := ir_StatusCode ires; cr_CachedBody := ir_Body ires |}
              end)))).
Proof.
  unfold Call. intros Hx. destruct (registry_Get reg (cl_Name cin)) as [proc|] eqn:Ep;
    [|left; by simplify_eq].
  destruct (_ && _) eqn:Er in Hx; [left; by simplify_eq|].
  destruct (match pc_Schema proc with Some sch => schema_Validate sch (cl_Args cin) | None => None end) eqn:Es;
    [left; by simplify_eq|]. right. exists proc. split; [done|]. split.
  { apply andb_false_iff in Er as [Er|Er]; apply negb_false_iff, str_eqb_eq in Er; auto. }
  split; [intros sch Hsch; by rewrite Hsch in Es|].
  destruct (str_eqb (cl_IdempotencyKey cin) []) eqn:Ek; go_bool; [by left|right]. split; [done|].
  destruct (BeginOrReplay _ _ _ _ _ _) as [w rb]. exists w, rb. split; [done|].
  destruct rb as [ires|e]; [destruct (ir_Replay ires) eqn:Ei|].
  - right. simplify_eq/=. naive_solver.
  - left. by exists ires.
  - right. by simplify_eq/=.
Qed.

(** The connection is left alone, or the procedure's transaction runs on it. *)
Lemma Call_runs reg attempts t0 t1 cin g g' r :
  Call reg attempts t0 t1 cin g = (g', r) →
  gw_conn g' = gw_conn g ∨
  ∃ proc rr, registry_Get reg (cl_Name cin) = Some proc ∧
    run proc cin (gw_conn g) = (gw_conn g', rr) ∧ is_ok rr = is_ok r.
Proof.
  intros Hx.
  assert (∀ proc g0, gw_conn g0 = gw_conn g → call_run t0 t1 proc cin g0 = (g', r) →
            ∃ rr, run proc cin (gw_conn g) = (gw_conn g', rr) ∧ is_ok rr = is_ok r) as Hrun.
  { intros proc g0 Hg Hc. unfold call_run in Hc. rewrite Hg in Hc.
    destruct (run proc cin (gw_conn g)) as [c rr]. injection Hc as <- <-. exists rr. by destruct rr. }
  destruct (Call_cases _ _ _ _ _ _ _ _ Hx) as [[-> _]|(proc & Hp & _ & _ & Hc)]; [by left|].
  destruct Hc as [[_ Hc]|(_ & w & rb & _ & [(ires & _ & _ & Hc)|(Hg & _)])]; [right|right|by left].
  - destruct (Hrun proc g eq_refl Hc) as (rr & ?). eauto.
  - destruct (Hrun proc {| gw_world := w; gw_conn := gw_conn g |} eq_refl Hc) as (rr & ?). eauto.
Qed.

(** A call that is rejected early changes nothing: for an unknown procedure,
    for a key whose role is not the one the procedure requires, and for arguments
    the schema refuses, no idempotency key is claimed and no command is sent. *)
Theorem Call_rejects_early reg attempts t0 t1 cin g :
  (registry_Get reg (cl_Name cin) = None ∨
   ∃ proc, registry_Get reg (cl_Name cin) = Some proc ∧
     (pc_RequiredRole proc ≠ [] ∧ pc_RequiredRole proc ≠ cl_PgRole cin ∨
      ∃ sch e, pc_Schema proc = Some sch ∧ schema_Validate sch (cl_Args cin) = Some e)) →
  (Call reg attempts t0 t1 cin g).1 = g ∧ is_ok (Call reg attempts t0 t1 cin g).2 = false.
Proof.
  intros Hrej. destruct (Call reg attempts t0 t1 cin g) as [g' r] eqn:E.
  destruct (Call_cases _ _ _ _ _ _ _ _ E) as [?|(proc & Hp & Hrole & Hsch & _)]; [done|].
  exfalso. destruct Hrej as [Hn|(proc' & Hp' & Hrej)]; [congruence|].
  assert (proc' = proc) as -> by congruence. destruct Hrej as [[??]|(sch & e & Hs & Hv)]; [naive_solver|].
  specialize (Hsch _ Hs). congruence.
Qed.

(** A procedure body only runs as the caller's tenant: whatever the server
    answers, it is sent at most once, with the caller's arguments as its one
    parameter, in a transaction whose session has the caller's role and workspace,
    and the call succeeds only if that transaction was committed. *)
Theorem Call_isolated reg attempts t0 t1 cin g g' r :
  in_int64 (cl_StatementTimeout cin) → in_int64 (cl_IdleInTxTimeout cin) →
  Call reg attempts t0 t1 cin g = (g', r) →
  cn_log (gw_conn g') = cn_log (gw_conn g) ∨
  ((∃ n fin, cn_log (gw_conn g') = cn_log (gw_conn g) ++ take n (CBegin :: call_setup cin) ++ fin ∧
      (fin = [] ∨ fin = [CRollback]) ∧ is_ok r = false) ∨
   (∃ proc argsJSON fin,
      cn_log (gw_conn g') = (cn_log (gw_conn g) ++ CBegin :: call_setup cin) ++
        CQuery (pc_Body proc) [AStr argsJSON] :: fin ∧
      registry_Get reg (cl_Name cin) = Some proc ∧ args_Marshal (cl_Args cin) = Ok argsJSON ∧
      closing fin ∧ (is_ok r = true → fin = [CCommit]) ∧
      ∀ does, session_of does (cn_log (gw_conn g) ++ CBegin :: call_setup cin) =
        tenant_session (cl_WorkspaceID cin) (cl_PgRole cin) (cl_StatementTimeout cin) (cl_IdleInTxTimeout cin))).
Proof.
  intros Hst Hid Hx. destruct (Call_runs _ _ _ _ _ _ _ _ Hx) as [->|(proc & rr & Hp & Hr & Hok)]; [by left|right].
  destruct (run_trace _ _ _ _ _ Hr) as [(Hl & Hno)|[(n & Hl & Hno)|(aj & fin & Hl & Ha & Hcl & Hf & Hs)]].
  - left. exists 1, []. rewrite Hl, <- Hok. simpl. auto.
  - left. exists (Datatypes.S n), [CRollback]. rewrite Hl, <- Hok. simpl. auto.
  - right. exists proc, aj, fin. rewrite Hl, <- app_assoc, <- Hok. repeat split; try done.
    intros does. by apply setup_session.
Qed.

(** ** At most once *)

(** A run under a key leaves the key held. *)
Lemma call_run_held k h exp t0 t1 proc cin g :
  held k h exp (w_db (gw_world g)) → held k h exp (w_db (gw_world (call_run t0 t1 proc cin g).1)).
Proof.
  intros Hh. unfold call_run. destruct (run proc cin (gw_conn g)) as [c result]. simpl.
  destruct (str_eqb (cl_IdempotencyKey cin) []); [done|].
  destruct (Complete _ _ _ _ _ _) as [w' r'] eqn:E. exact (Complete_held k h exp _ _ _ _ _ _ _ _ E Hh).
Qed.

(** A call with an idempotency key runs its procedure at most once: if a
    call sent anything to the tenant database, a later call with the same key and
    workspace sends nothing, whatever the two asked for, whatever happened to the
    key's row in between through requests, completions and purges with failing
    calls, until a clock passes the expiry of 24 hours. *)
Theorem Call_at_most_once reg reg' attempts attempts' t0 t1 t2 t3 cin cin' g g1 r1 ops g2 g3 r2 :
  cl_IdempotencyKey cin ≠ [] → cl_IdempotencyKey cin' = cl_IdempotencyKey cin →
  cl_WorkspaceID cin' = cl_WorkspaceID cin →
  Call reg attempts t0 t1 cin g = (g1, r1) → gw_conn g1 ≠ gw_conn g →
  Forall (before (w_dbnow (gw_world g) + hours24)) ops →
  w_db (gw_world g2) = run_idem (w_db (gw_world g1)) ops →
  Forall (fun a => (a.1 ≤ w_dbnow (gw_world g) + hours24)%Z) attempts' →
  Call reg' attempts' t2 t3 cin' g2 = (g3, r2) →
  gw_conn g3 = gw_conn g2.
Proof.
  intros Hk Hk' Hws Hc1 Hran Hops Hd Hatt Hc2.
  destruct (Call_cases _ _ _ _ _ _ _ _ Hc1) as [[-> _]|(proc & _ & _ & _ & [[? _]|(_ & w & rb & Hb & Hc)])];
    [done|done|].
  destruct Hc as [(ires & -> & Hfresh & Hrun)|(Hsame & _)]; [|done].
  destruct (BeginOrReplay_fresh _ _ _ _ _ _ _ _ Hb Hfresh) as (u & id & Hu & _ & Hheld & _).
  apply (call_run_held _ _ _ t0 t1 proc cin {| gw_world := w; gw_conn := gw_conn g |}) in Hheld.
  rewrite Hrun in Hheld. simpl in Hheld.
  apply (run_idem_held _ _ _ _ ops) in Hheld; [|done]. rewrite <- Hd in Hheld.
  destruct (Call_cases _ _ _ _ _ _ _ _ Hc2) as [[-> _]|(proc' & _ & _ & _ & [[? _]|(_ & w' & rb' & Hb' & Hc')])];
    [done|congruence|].
  destruct Hc' as [(ires' & -> & Hfresh' & _)|(Hsame & _)]; [|done].
  rewrite Hk', Hws in Hb'.
  destruct (BeginOrReplay_of_held _ _ _ _ _ _ _ _ _ _ _ Hu Hk Hheld Hatt Hb') as [? _]. congruence.
Qed.

(** ** Replays of calls *)

Context `{!GzipLaws}.

(** A repeated call is answered from the record of the first, which for a
    failed procedure is not the answer the first caller got: without failing
    calls in between, a retry with the same key and request hash gets status 200
    and the recorded result if the procedure succeeded, and otherwise always
    status 500 with a null result, whatever the error was and whatever status the
    first caller was given for it. *)
Theorem Call_replay reg t0 t1 t2 t3 n id rest n' id' rest' cin g g1 r1 g2 :
  cl_IdempotencyKey cin ≠ [] → clean (gw_world g) →
  Call reg ((n, id) :: rest) t0 t1 cin g = (g1, r1) → gw_conn g1 ≠ gw_conn g →
  w_db (gw_world g2) = w_db (gw_world g1) → clean (gw_world g2) →
  (n' ≤ w_dbnow (gw_world g) + hours24)%Z →
  ∃ proc, registry_Get reg (cl_Name cin) = Some proc ∧
  (Call reg ((n', id') :: rest') t2 t3 cin g2).2 =
  Ok {| cr_Procedure := []; cr_Result := []; cr_DurationMS := 0; cr_Replay := true;
        cr_CachedStatus := match r1 with Ok _ => 200%Z | Err _ => 500%Z end;
        cr_CachedBody := marshal_call (pc_Name proc)
                           match r1 with Ok res => Some (cr_Result res) | Err _ => None end
                           (Milliseconds (t1 - t0)) |}.
Proof.
  intros Hk Hc Hx Hran Hd Hc2 Hn.
  destruct (Call_cases _ _ _ _ _ _ _ _ Hx) as [[-> _]|(proc & Hp & Hrole & Hsch & [[? _]|(_ & w & rb & Hb & Hcase)])];
    [done|done|].
  destruct Hcase as [(ires & -> & Hfresh & Hrun)|(Hsame & _)]; [|done].
  destruct (BeginOrReplay_fresh _ _ _ _ _ _ _ _ Hb Hfresh) as (u & id0 & Hu & _ & _ & Hrow).
  pose proof (BeginOrReplay_clean _ _ _ _ _ _ _ _ Hb Hc) as Hcw.
  exists proc. split; [done|]. unfold call_run in Hrun. simpl in Hrun.
  destruct (run proc cin (gw_conn g)) as [c result] eqn:Er.
  rewrite (bool_decide_false (cl_IdempotencyKey cin = []) Hk : str_eqb _ [] = false) in Hrun.
  injection Hrun as Hg1 Hr1.
  set (body := marshal_call (pc_Name proc) _ _) in Hg1.
  assert (stored (u, cl_IdempotencyKey cin) (cl_RequestHash cin) (w_dbnow (gw_world g) + hours24)
            (Some ((if is_ok result then 200 else 500)%Z, body)) (w_db (gw_world g2))) as Hst.
  { rewrite Hd, <- Hg1. simpl. apply (Complete_clean _ _ _ _ _ _ _ _ None); [done|done|].
    eexists. split; [exact Hrow|done]. }
  unfold Call. rewrite Hp.
  assert (negb (str_eqb (pc_RequiredRole proc) []) && negb (str_eqb (pc_RequiredRole proc) (cl_PgRole cin)) = false)
    as -> by (destruct Hrole as [-> | ->]; [done|by rewrite str_eqb_refl, andb_false_r]).
  assert (match pc_Schema proc with Some sch => schema_Validate sch (cl_Args cin) | None => None end = None)
    as -> by (destruct (pc_Schema proc); auto).
  rewrite (bool_decide_false (cl_IdempotencyKey cin = []) Hk : str_eqb _ [] = false).
  pose proof (BeginOrReplay_replay rest' n' id' _ _ _ _ (cl_RequestHash cin) _ hours24 _ _ Hu Hk Hc2 Hst Hn) as Hrep.
  rewrite str_eqb_refl in Hrep. cbn [negb] in Hrep.
  destruct (BeginOrReplay _ _ _ _ _ (gw_world g2)) as [w2 rb2]. cbn [snd] in Hrep. subst rb2. simpl.
  subst body. by destruct result; subst r1.
Qed.
End Rpc.

(** ** A concrete dispatcher *)

Module RpcDemo.
#[local] Existing Instance text_uuid.

(** Arguments are texts, and every non-empty one is valid. *)
Definition lib : RpcLib bytes := {|
  schema := unit;
  args := bytes;
  schema_Validate _ a := if str_eqb a [] then Some (errors_New (bs "missing properties")) else None;
  args_Marshal a := Ok a;
  args_any a := a;
  scan_bytes row := match row with [b] => Ok b | _ => Err (errors_New (bs "number of fields")) end;
  marshal_call name result ms := name ++ bs ":" ++ default (bs "null") result;
|}.

#[local] Existing Instance lib.

Definition proc : Procedure :=
  {| pc_Name := bs "upsert_document"; pc_Version := 1; pc_Description := []; pc_RequiredRole := bs "dbuser";
     pc_BodyPath := bs "upsert_document.sql"; pc_Body := bs "SELECT 1"; pc_Schema := Some tt |}.

Definition reg : Registry :=
  match Register NewRegistry (Some proc) with Ok r => r | Err _ => NewRegistry end.

Definition call (role key : bytes) : CallInput :=
  {| cl_WorkspaceID := bs "ws"; cl_PgRole := role; cl_Name := bs "upsert_document"; cl_Args := bs "{}";
     cl_IdempotencyKey := key; cl_RequestHash := bs "h"; cl_StatementTimeout := second; cl_IdleInTxTimeout := second |}.

Definition g0 : gateway := {| gw_world := Demo.w0; gw_conn := ExecDemo.start |}.
End RpcDemo.

#[local] Existing Instance text_uuid.
#[local] Existing Instance RpcDemo.lib.
#[local] Existing Instance IdemDemo.gz.
#[local] Existing Instance IdemDemo.gz_laws.
#[local] Existing Instance ValidatorDemo.unicode.

Lemma Call_rejects_early_witness :
  (Call ExecDemo.server RpcDemo.reg [] 0 0 (RpcDemo.call (bs "intruder") (bs "K")) RpcDemo.g0).1 = RpcDemo.g0 ∧
  is_ok (Call ExecDemo.server RpcDemo.reg [] 0 0 (RpcDemo.call (bs "intruder") (bs "K")) RpcDemo.g0).2 = false.
Proof.
  apply (Call_rejects_early ExecDemo.server RpcDemo.reg [] 0 0 (RpcDemo.call (bs "intruder") (bs "K")) RpcDemo.g0).
  right. exists RpcDemo.proc. split; [reflexivity|]. left. split; discriminate.
Defined.

Lemma Call_isolated_witness :
  ∃ g' r, Call ExecDemo.server RpcDemo.reg [(0%Z, Demo.uid (bs "i"))] 0 5 (RpcDemo.call (bs "dbuser") (bs "K")) RpcDemo.g0 = (g', r) ∧
  (cn_log (gw_conn g') = [] ∨
  ((∃ n fin, cn_log (gw_conn g') = [] ++ take n (CBegin :: call_setup (RpcDemo.call (bs "dbuser") (bs "K"))) ++ fin ∧
      (fin = [] ∨ fin = [CRollback]) ∧ is_ok r = false) ∨
   (∃ proc argsJSON fin,
      cn_log (gw_conn g') = ([] ++ CBegin :: call_setup (RpcDemo.call (bs "dbuser") (bs "K"))) ++
        CQuery (pc_Body proc) [AStr argsJSON] :: fin ∧
      registry_Get RpcDemo.reg (bs "upsert_document") = Some proc ∧ Ok (bs "{}") = Ok (E := error) argsJSON ∧
      closing fin ∧ (is_ok r = true → fin = [CCommit]) ∧
      ∀ does, session_of does ([] ++ CBegin :: call_setup (RpcDemo.call (bs "dbuser") (bs "K"))) =
        tenant_session (bs "ws") (bs "dbuser") second second))).
Proof.
  destruct (Call ExecDemo.server RpcDemo.reg [(0%Z, Demo.uid (bs "i"))] 0 5 (RpcDemo.call (bs "dbuser") (bs "K")) RpcDemo.g0)
    as [g' r] eqn:E.
  exists g', r. split; [reflexivity|].
  apply (Call_isolated ExecDemo.server RpcDemo.reg [(0%Z, Demo.uid (bs "i"))] 0 5
           (RpcDemo.call (bs "dbuser") (bs "K")) RpcDemo.g0 g' r).
  - vm_compute. split; discriminate.
  - vm_compute. split; discriminate.
  - exact E.
Defined.

(** The gateway after one call under the key "K". *)
Lemma Call_at_most_once_witness :
  ∃ g1 r1, Call ExecDemo.server RpcDemo.reg [(0%Z, Demo.uid (bs "i"))] 0 5 (RpcDemo.call (bs "dbuser") (bs "K")) RpcDemo.g0 = (g1, r1) ∧
    gw_conn (Call ExecDemo.server RpcDemo.reg [(7%Z, Demo.uid (bs "j"))] 8 9 (RpcDemo.call (bs "dbuser") (bs "K")) g1).1 = gw_conn g1.
Proof.
  destruct (Call ExecDemo.server RpcDemo.reg [(0%Z, Demo.uid (bs "i"))] 0 5 (RpcDemo.call (bs "dbuser") (bs "K")) RpcDemo.g0)
    as [g1 r1] eqn:E1.
  exists g1, r1. split; [reflexivity|].
  destruct (Call ExecDemo.server RpcDemo.reg [(7%Z, Demo.uid (bs "j"))] 8 9 (RpcDemo.call (bs "dbuser") (bs "K")) g1)
    as [g3 r2] eqn:E2.
  apply (Call_at_most_once ExecDemo.server RpcDemo.reg RpcDemo.reg [(0%Z, Demo.uid (bs "i"))] [(7%Z, Demo.uid (bs "j"))]
    0 5 8 9 (RpcDemo.call (bs "dbuser") (bs "K")) (RpcDemo.call (bs "dbuser") (bs "K")) RpcDemo.g0 g1 r1 [] g1 g3 r2).
  - discriminate.
  - reflexivity.
  - reflexivity.
  - exact E1.
  - intros Hc. apply (f_equal (fun p => length (cn_log (gw_conn p.1)))) in E1. simpl in E1.
    rewrite Hc in E1. vm_compute in E1. discriminate E1.
  - constructor.
  - reflexivity.
  - repeat constructor. vm_compute. discriminate.
  - exact E2.
Defined.

Lemma Call_replay_witness :
  ∃ g1 r1 proc, Call ExecDemo.server RpcDemo.reg [(0%Z, Demo.uid (bs "i"))] 0 5 (RpcDemo.call (bs "dbuser") (bs "K")) RpcDemo.g0 = (g1, r1) ∧
    (Call ExecDemo.server RpcDemo.reg [(7%Z, Demo.uid (bs "j"))] 8 9 (RpcDemo.call (bs "dbuser") (bs "K")) g1).2 =
    Ok {| cr_Procedure := []; cr_Result := []; cr_DurationMS := 0; cr_Replay := true;
          cr_CachedStatus := match r1 with Ok _ => 200%Z | Err _ => 500%Z end;
          cr_CachedBody := marshal_call (pc_Name proc)
            match r1 with Ok res => Some (cr_Result res) | Err _ => None end (Milliseconds (5 - 0)) |}.
Proof.
  destruct (Call ExecDemo.server RpcDemo.reg [(0%Z, Demo.uid (bs "i"))] 0 5 (RpcDemo.call (bs "dbuser") (bs "K")) RpcDemo.g0)
    as [g1 r1] eqn:E1.
  destruct (Call_replay ExecDemo.server RpcDemo.reg 0 5 8 9 0 (Demo.uid (bs "i")) [] 7 (Demo.uid (bs "j")) []
    (RpcDemo.call (bs "dbuser") (bs "K")) RpcDemo.g0 g1 r1 g1) as (proc & _ & Hr).
  - discriminate.
  - reflexivity.
  - exact E1.
  - intros Hc. apply (f_equal (fun p => length (cn_log (gw_conn p.1)))) in E1. simpl in E1.
    rewrite Hc in E1. vm_compute in E1. discriminate E1.
  - reflexivity.
  - apply (f_equal (fun p => w_faults (gw_world p.1))) in E1. vm_compute in E1. exact (eq_sym E1).
  - vm_compute. discriminate.
  - exists g1, r1, proc. split; [reflexivity|exact Hr].
Defined.
