(* ===== verification/RpcBuiltins.v ===== *)
(** * internal/rpc/registry.go: the procedures shipped with the gateway

    [LoadBuiltins] with the directory it reads from; the file system and the JSON
    schema compiler are parameters. *)

From S2P Require Import Prelude GoStrings GoErrors AuthKey ControlPlane AuthStore Tenant SqlValidator SqlExecutor Idempotency RpcDispatcher.

(** A failed read: the file does not exist, or another error. *)
Inductive read_error : Type :=
| NotExist
| OtherError (e : error).

Record RpcFiles : Type := {
  rf_env : bytes;                        (** AGENTCOOPDB_RPC_DIR *)
  rf_is_dir : bytes → bool;              (** [os.Stat] succeeds and [IsDir] *)
  rf_abs : bytes → res error bytes;      (** [filepath.Abs] *)
  rf_join : bytes → bytes → bytes;       (** [filepath.Join] *)
  rf_read : bytes → res read_error bytes;
}.

(** encoding/json's decoder of the schema text and the jsonschema compiler. *)
Class SchemaCompiler (V : Type) `{RpcLib V} : Type := {
  schema_doc : Type;
  schema_Unmarshal : bytes → res error schema_doc;
  AddResource : bytes → schema_doc → option error;
  Compile : bytes → schema_doc → res error schema;
}.

Fixpoint first_root (fs : RpcFiles) (candidates : list bytes) : res error bytes :=
  match candidates with
  | [] => Err (errors_New (bs "rpc bodies directory not found"))
  | c :: cs => if rf_is_dir fs c then rf_abs fs c else first_root fs cs
  end.

Definition bodiesRoot (fs : RpcFiles) : res error bytes :=
  if negb (str_eqb (rf_env fs) []) then Ok (rf_env fs)
  else first_root fs [bs "/app/sql/rpc"; bs "sql/rpc"].

Section Builtins.
Context {V : Type} `{SchemaCompiler V, UnicodeTables}.

Definition compileSchema (jsonText : bytes) : res error schema :=
  match schema_Unmarshal jsonText with
  | Err err => Err (wrapf (bs "schema decode: ") err)
  | Ok doc =>
      match AddResource (bs "inline.json") doc with
      | Some err => Err err
      | None => Compile (bs "inline.json") doc
      end
  end.

(** The text of the source, with a back quote for each double quote. *)
Definition schemaJSON : bytes := (fun b => if byte_eqb b x60 then x22 else b) <$> bs "{
        `$schema`: `https://json-schema.org/draft/2020-12/schema`,
        `type`: `object`,
        `additionalProperties`: false,
        `required`: [`id`, `body`],
        `properties`: {
            `id`:   {`type`: `string`},
            `body`: {`type`: `string`}
        }
    }".

Definition LoadBuiltins (fs : RpcFiles) (reg : Registry) : res error Registry :=
  let! root := bodiesRoot fs in
  match rf_read fs (rf_join fs root (bs "upsert_document.sql")) with
  | Err NotExist => Ok reg
  | Err (OtherError err) => Err err
  | Ok body =>
      let! schema := res_map_err (wrapf (bs "compile upsert_document schema: ")) (compileSchema schemaJSON) in
      Register reg (Some {| pc_Name := bs "upsert_document"; pc_Version := 1;
                            pc_Description := bs "Insert or update a document by id, returning the new row.";
                            pc_RequiredRole := bs "dbuser"; pc_BodyPath := bs "upsert_document.sql";
                            pc_Body := body; pc_Schema := Some schema |})
  end.

(** Loading into a well-formed registry gives a well-formed registry. *)
Lemma LoadBuiltins_ok fs reg reg' : registry_ok reg → LoadBuiltins fs reg = Ok reg' → registry_ok reg'.
Proof.
  intros Hr (root & _ & Hx)%res_bind_ok. destruct (rf_read fs _) as [body|[|err]]; [|by injection Hx as <-|done].
  apply res_bind_ok in Hx as (sch & _ & Hx). by eapply Register_ok.
Qed.

(** The gateway starts with at most the one built-in procedure, and only as
    it was shipped: after loading, the registry is the old one, when the file does
    not exist, or has upsert_document, restricted to the role dbuser, with the
    text of its file (not empty) as its body and the compiled schema; every other
    name is as before, and the registry stays well formed. *)
Theorem LoadBuiltins_spec fs reg reg' :
  LoadBuiltins fs reg = Ok reg' →
  (registry_ok reg → registry_ok reg') ∧
  (∀ name, name ≠ bs "upsert_document" → registry_Get reg' name = registry_Get reg name) ∧
  ∃ root, bodiesRoot fs = Ok root ∧
    ((rf_read fs (rf_join fs root (bs "upsert_document.sql")) = Err NotExist ∧ reg' = reg) ∨
     ∃ body sch p, rf_read fs (rf_join fs root (bs "upsert_document.sql")) = Ok body ∧ body ≠ [] ∧
       compileSchema schemaJSON = Ok sch ∧ registry_Get reg' (bs "upsert_document") = Some p ∧
       pc_Body p = body ∧ pc_RequiredRole p = bs "dbuser" ∧ pc_Schema p = Some sch).
Proof.
  intros Hx. split; [intros Hr; by eapply LoadBuiltins_ok|]. apply res_bind_ok in Hx as (root & Hroot & Hx).
  destruct (rf_read fs _) as [body|[|err]] eqn:Er; [| |done].
  - apply res_bind_ok in Hx as (sch & Hs & Hx). destruct (compileSchema schemaJSON) as [sch'|] eqn:Ec; [|done].
    simplify_eq/=. unfold Register in Hx. cbn [pc_Name pc_Schema pc_Body] in Hx.
    change (str_eqb (bs "upsert_document") []) with false in Hx. cbn iota in Hx.
    destruct (str_eqb body []) eqn:Eb; [done|]. injection Hx as <-. go_bool. split.
    + intros name Hn. unfold registry_Get. apply (lookup_insert_ne (M := gmap bytes)). congruence.
    + exists root. split; [done|]. right. eexists body, sch, _. do 3 (split; [done|]).
      split; [apply (lookup_insert_eq (M := gmap bytes))|done].
  - injection Hx as <-. split; [done|]. exists root. auto.
Qed.
End Builtins.

(** ** Instances *)

Module BuiltinsDemo.
#[local] Existing Instance RpcDemo.lib.

(** Every text is a schema. *)
Definition compiler : SchemaCompiler bytes := {|
  schema_doc := bytes;
  schema_Unmarshal s := Ok s;
  AddResource _ _ := None;
  Compile _ _ := Ok (tt : schema);
|}.

Definition files : RpcFiles := {|
  rf_env := [];
  rf_is_dir d := str_eqb d (bs "sql/rpc");
  rf_abs d := Ok (bs "/srv/" ++ d);
  rf_join a b := a ++ bs "/" ++ b;
  rf_read p := if str_eqb p (bs "/srv/sql/rpc/upsert_document.sql") then Ok (bs "SELECT 1") else Err NotExist;
|}.
End BuiltinsDemo.

#[local] Existing Instance RpcDemo.lib.
#[local] Existing Instance BuiltinsDemo.compiler.
#[local] Existing Instance ValidatorDemo.unicode.

Lemma LoadBuiltins_spec_witness :
  ∃ reg' p, LoadBuiltins BuiltinsDemo.files NewRegistry = Ok reg' ∧
    registry_Get reg' (bs "upsert_document") = Some p ∧ pc_Body p = bs "SELECT 1".
Proof.
  destruct (LoadBuiltins BuiltinsDemo.files NewRegistry) as [reg'|e] eqn:E;
    [|apply (f_equal is_ok) in E; vm_compute in E; discriminate E].
  destruct (LoadBuiltins_spec BuiltinsDemo.files NewRegistry reg' E) as (_ & _ & root & Hr & Hc).
  vm_compute in Hr. injection Hr as <-.
  destruct Hc as [(Hn & _)|(body & sch & p & Hb & _ & _ & Hp & Hpb & _)]; [vm_compute in Hn; discriminate Hn|].
  vm_compute in Hb. injection Hb as <-. exists reg', p. split; [reflexivity|]. split; [exact Hp|exact Hpb].
Defined.
