(* ===== verification/HttpApi.v ===== *)
(** * internal/httpapi/api.go: the route handlers

    Each handler is a function from a request and the gateway's state (the two
    databases and the verify cache) to the new state and the list of what it did
    that can be seen from outside: responses, audit entries, metrics, warnings,
    in the order of the source. encoding/json is a parameter. *)

From S2P Require Import Prelude GoStrings GoErrors AuthKey Lru AuthCache ControlPlane AuthStore AuthMiddleware Tenant SqlValidator SqlExecutor HttpErrors Idempotency RpcDispatcher.

(** ** net.SplitHostPort *)

Definition LastIndexByte (s : bytes) (c : byte) : option nat :=
  match IndexByte (rev s) c with
  | Some i => Some (length s - 1 - i)%nat
  | None => None
  end.

Definition has_byte (s : bytes) (c : byte) : bool := bool_decide (is_Some (IndexByte s c)).

(** The host, or [None] for an address the function refuses. *)
Definition SplitHost (hostport : bytes) : option bytes :=
  match LastIndexByte hostport ":" with
  | None => None
  | Some i =>
      if HasPrefix hostport (bs "[") then
        match IndexByte hostport "]" with
        | None => None
        | Some e =>
            if (e + 1 =? i)%nat then
              if has_byte (drop 1 hostport) "[" || has_byte (drop (e + 1) hostport) "]" then None
              else Some (take (e - 1) (drop 1 hostport))
            else None
        end
      else
        let host := take i hostport in
        if has_byte host ":" then None
        else if has_byte hostport "[" || has_byte hostport "]" then None
        else Some host
  end.

(** [clientIP(r)] *)
Definition clientIP (remoteAddr : bytes) : bytes :=
  match SplitHost remoteAddr with
  | Some host => host
  | None => remoteAddr
  end.

(** ** Requests and what a handler does *)

Record http_request : Type := {
  hr_Method : bytes;
  hr_Path : bytes;
  hr_IdempotencyKey : bytes;      (** [r.Header.Get("Idempotency-Key")] *)
  hr_Body : res error bytes;      (** [io.ReadAll(r.Body)] *)
  hr_RemoteAddr : bytes;
  hr_RequestID : bytes;
}.

Section Api.
Context {V S : Type} `{RpcLib V, UuidLib, Gzip, UnicodeTables, PgQuery, LRU cachedKey}.
Variable srv : PgServer V S.
Variable marshal_row : list V → bytes.
Variable IDKey : bytes → bytes → Z → Z → Z → Z → bytes.

Record createKeyRequest : Type := {
  ck_WorkspaceID : bytes;
  ck_Env : bytes;
  ck_PgRole : bytes;
  ck_Name : bytes;
}.

Record rotateKeyResponse : Type := { rk_NewKeyID : bytes; rk_Token : bytes; rk_Notice : bytes }.

(** encoding/json on the requests and responses of the API. *)
Class ApiJson : Type := {
  decode_sql : bytes → res error (bytes * list V);
  decode_rpc : bytes → res error (bytes * args);
  decode_create : res error bytes → res error createKeyRequest;
  encode_response : Response V → bytes;
  encode_problem : Problem → bytes;
  encode_call : CallResult → bytes;
  encode_rotate : rotateKeyResponse → bytes;
  encode_me : WorkspaceContext → bytes;
}.
Context `{ApiJson}.

(** An audit entry, without the timing. *)
Record Entry : Type := {
  en_RequestID : bytes;
  en_WorkspaceID : bytes;
  en_KeyDBID : bytes;
  en_Endpoint : bytes;
  en_Command : bytes;
  en_SQL : bytes;
  en_Params : list V;
  en_StatusCode : Z;
  en_ErrorCode : bytes;
  en_SQLState : bytes;
  en_ClientIP : bytes;
}.

Inductive effect : Type :=
| Respond (status : Z) (headers : list (bytes * bytes)) (body : bytes)
| Audit (e : Entry)
| Count (metric : bytes) (labels : list bytes)
| Warn (msg : bytes).

Definition newline : bytes := [x0a].

(** [WriteProblem] and [WriteJSON]: an encoder ends with a newline. *)
Definition WriteProblem (p : Problem) : effect :=
  Respond (pr_Status p) [(bs "Content-Type", bs "application/problem+json")] (encode_problem p ++ newline).

Definition WriteJSON (status : Z) (body : bytes) : effect :=
  Respond status [(bs "Content-Type", bs "application/json")] (body ++ newline).

Definition json_header : bytes * bytes := (bs "Content-Type", bs "application/json").
Definition replay_header : bytes * bytes := (bs "X-Idempotent-Replayed", bs "true").

(** [a.audit(...)] of an API with an auditor. *)
Definition audit (rq : http_request) (ws : WorkspaceContext) (endpoint command sql : bytes) (params : list V)
    (status : Z) (err : option error) : effect :=
  let problem := match err with Some e => Some (MapError (Some e)) | None => None end in
  Audit {| en_RequestID := hr_RequestID rq; en_WorkspaceID := ws_WorkspaceID ws; en_KeyDBID := ws_KeyDBID ws;
           en_Endpoint := endpoint; en_Command := command; en_SQL := sql; en_Params := params;
           en_StatusCode := status; en_ErrorCode := match problem with Some p => pr_Title p | None => [] end;
           en_SQLState := match problem with Some p => pr_SQLState p | None => [] end;
           en_ClientIP := clientIP (hr_RemoteAddr rq) |}.

(** The parts of the configuration the handlers read. *)
Record api_config : Type := {
  ac_validator : ValidatorConfig;
  ac_executor : ExecutorConfig;
  ac_MaxResponseBodyBytes : Z;
  ac_StatementTimeout : Z;
  ac_IdleInTxTimeout : Z;
  ac_KeyRotateOverlap : Z;
}.

Definition sql_endpoint : bytes := bs "POST /v1/sql/execute".
Definition rpc_endpoint : bytes := bs "POST /v1/rpc/call".

(** ** POST /v1/sql/execute *)

(** [a.idem.Complete] when there is a key; a failure is logged. *)
Definition complete_if (key : bytes) (ws : WorkspaceContext) (status : Z) (body : bytes) (ok : bool) (w : world)
  : world * list effect :=
  if str_eqb key [] then (w, [])
  else match Complete (ws_WorkspaceID ws) key status body ok w with
       | (w, Ok _) => (w, [])
       | (w, Err _) => (w, [Warn (bs "idempotency complete failed")])
       end.

(** From the call of the executor to the end of the handler. *)
Definition sql_run (cfg : api_config) (ws : WorkspaceContext) (rq : http_request) (t0 t1 : Z)
    (sql : bytes) (params : list V) (vres : Result) (g : gateway (V := V) (S := S)) : gateway * list effect :=
  let key := hr_IdempotencyKey rq in
  let '(c, er) := Execute srv marshal_row (ac_executor cfg) t0 t1
      {| ei_WorkspaceID := ws_WorkspaceID ws; ei_PgRole := ws_PgRole ws; ei_SQL := sql;
         ei_Params := params; ei_Result := Some vres |} (gw_conn g) in
  match er with
  | Err err =>
      let problem := MapError (Some err) in
      let '(w, warn) := complete_if key ws (pr_Status problem) (encode_problem problem) false (gw_world g) in
      ({| gw_world := w; gw_conn := c |},
       [WriteProblem problem;
        audit rq ws sql_endpoint (r_Command vres) sql params (pr_Status problem) (Some err);
        Count (bs "SQLStatements") [r_Command vres; pr_SQLState problem]] ++ warn)
  | Ok resp =>
      let body := encode_response resp in
      let limit := ac_MaxResponseBodyBytes cfg in
      if (0 <? limit)%Z && (limit <? Z.of_nat (length body))%Z then
        let problem := mk_problem (bs "response_too_large") 413
                         (bs "serialized response exceeds AGENTCOOPDB_MAX_RESPONSE_BODY_BYTES") [] in
        let '(w, warn) := complete_if key ws (pr_Status problem) (encode_problem problem) false (gw_world g) in
        ({| gw_world := w; gw_conn := c |},
         [WriteProblem problem;
          audit rq ws sql_endpoint (r_Command vres) sql params (pr_Status problem) (Some ErrResponseTooLarge);
          Count (bs "SQLStatements") [r_Command vres; bs "00000"]] ++ warn)
      else
        let '(w, warn) := complete_if key ws 200 body true (gw_world g) in
        ({| gw_world := w; gw_conn := c |},
         [Respond 200 [json_header] body] ++ warn ++
         [audit rq ws sql_endpoint (r_Command vres) sql params 200 None;
          Count (bs "SQLStatements") [r_Command vres; bs "00000"]])
  end.

Definition handleSQLExecute (cfg : api_config) (ws : WorkspaceContext) (rq : http_request)
    (attempts : list (Z * uuid)) (t0 t1 : Z) (g : gateway (V := V) (S := S)) : gateway * list effect :=
  match hr_Body rq with
  | Err e => (g, [WriteProblem (mk_problem (bs "body_too_large") 413 (ErrorText e) [])])
  | Ok bodyBytes =>
      match decode_sql bodyBytes with
      | Err e => (g, [WriteProblem (mk_problem (bs "invalid_json") 400 (ErrorText e) [])])
      | Ok (sql, params) =>
          match Validate (ac_validator cfg) sql (length params) with
          | Err err => (g, [WriteProblem (MapError (Some err));
                            audit rq ws sql_endpoint [] sql params 400 (Some err)])
          | Ok vres =>
              let idemKey := hr_IdempotencyKey rq in
              if str_eqb idemKey [] then sql_run cfg ws rq t0 t1 sql params vres g
              else
                let hash := HashRequest (hr_Method rq) (hr_Path rq) bodyBytes in
                match BeginOrReplay attempts (ws_WorkspaceID ws) idemKey hash hours24 (gw_world g) with
                | (w, Err ierr) =>
                    ({| gw_world := w; gw_conn := gw_conn g |},
                     [WriteProblem
                        (if error_Is ierr ErrIdempotencyConflict
                         then mk_problem (bs "idempotency_conflict") 409
                                (bs "idempotency key was used with a different request body") []
                         else mk_problem (bs "idempotency_internal") 500
                                (bs "a request with this idempotency key is already in progress") [])])
                | (w, Ok ir) =>
                    let g := {| gw_world := w; gw_conn := gw_conn g |} in
                    if ir_Replay ir
                    then (g, [Respond (ir_StatusCode ir) [json_header; replay_header] (ir_Body ir);
                              Count (bs "IdempotencyHits") []])
                    else
                      let '(g, effs) := sql_run cfg ws rq t0 t1 sql params vres g in
                      (g, Count (bs "IdempotencyMisses") [] :: effs)
                end
          end
      end
  end.

(** ** POST /v1/rpc/call *)

Definition handleRPCCall (cfg : api_config) (reg : Registry) (ws : WorkspaceContext) (rq : http_request)
    (attempts : list (Z * uuid)) (t0 t1 : Z) (g : gateway (V := V) (S := S)) : gateway * list effect :=
  match hr_Body rq with
  | Err e => (g, [WriteProblem (mk_problem (bs "body_too_large") 413 (ErrorText e) [])])
  | Ok bodyBytes =>
      match decode_rpc bodyBytes with
      | Err e => (g, [WriteProblem (mk_problem (bs "invalid_json") 400 (ErrorText e) [])])
      | Ok (procedure, a) =>
          let '(g, r) := Call srv reg attempts t0 t1
            {| cl_WorkspaceID := ws_WorkspaceID ws; cl_PgRole := ws_PgRole ws; cl_Name := procedure;
               cl_Args := a; cl_IdempotencyKey := hr_IdempotencyKey rq;
               cl_RequestHash := HashRequest (hr_Method rq) (hr_Path rq) bodyBytes;
               cl_StatementTimeout := ac_StatementTimeout cfg;
               cl_IdleInTxTimeout := ac_IdleInTxTimeout cfg |} g in
          match r with
          | Err err =>
              (g, [WriteProblem
                     (if error_Is err ErrUnknownProcedure
                      then mk_problem (bs "unknown_procedure") 404 (ErrorText err) []
                      else if error_Is err ErrRoleNotPermitted
                      then mk_problem (bs "permission_denied") 403 (ErrorText err) []
                      else if error_Is err ErrIdempotencyConflict
                      then mk_problem (bs "idempotency_conflict") 409 (ErrorText err) []
                      else MapError (Some err));
                   audit rq ws rpc_endpoint (bs "RPC") procedure [args_any a] 500 (Some err);
                   Count (bs "RPCInvocations") [procedure; bs "error"]])
          | Ok res =>
              if cr_Replay res
              then (g, [Respond (cr_CachedStatus res) [json_header; replay_header] (cr_CachedBody res);
                        Count (bs "IdempotencyHits") []; Count (bs "RPCInvocations") [procedure; bs "ok"]])
              else (g, [Count (bs "IdempotencyMisses") []; Count (bs "RPCInvocations") [procedure; bs "ok"];
                        WriteJSON 200 (encode_call res);
                        audit rq ws rpc_endpoint (bs "RPC") procedure [args_any a] 200 None])
          end
      end
  end.

(** ** POST /v1/auth/keys/rotate, POST /v1/auth/keys, GET /v1/me *)

Definition handleKeyRotate (cfg : api_config) (ws : WorkspaceContext) (dr : Draw) (now : Z)
    (w : world) (cache : VerifyCache) : (world * VerifyCache) * list effect :=
  match Rotate IDKey dr now (ws_KeyDBID ws) (ac_KeyRotateOverlap cfg) w with
  | (w, Err err) => ((w, cache), [WriteProblem (MapError (Some err))])
  | (w, Ok created) =>
      ((w, RevokeFromCache cache (ws_KeyDBID ws)),
       [WriteJSON 200 (encode_rotate
          {| rk_NewKeyID := ck_KeyID created; rk_Token := ck_FullToken created;
             rk_Notice := bs "old key remains active for the configured overlap window" |})])
  end.

Definition handleKeyCreate (ws : WorkspaceContext) (rq : http_request) (dr : Draw) (now : Z) (w : world)
  : world * list effect :=
  if negb (str_eqb (ws_PgRole ws) (bs "dbadmin")) then
    (w, [WriteProblem (mk_problem (bs "permission_denied") 403
           (bs "only keys with role=dbadmin may create new keys") [])])
  else
  match decode_create (hr_Body rq) with
  | Err e => (w, [WriteProblem (mk_problem (bs "invalid_json") 400 (ErrorText e) [])])
  | Ok req =>
      if negb (str_eqb (ck_WorkspaceID req) []) && negb (str_eqb (ck_WorkspaceID req) (ws_WorkspaceID ws)) then
        (w, [WriteProblem (mk_problem (bs "permission_denied") 403
               (bs "dbadmin keys can only mint keys for their own workspace") [])])
      else
        let env := if str_eqb (ck_Env req) [] then ws_Env ws else ck_Env req in
        match Create IDKey dr now
                {| ci_WorkspaceID := ws_WorkspaceID ws; ci_Env := env; ci_PgRole := ck_PgRole req;
                   ci_Name := ck_Name req; ci_ExpiresAt := None |} w with
        | (w, Err err) => (w, [WriteProblem (MapError (Some err))])
        | (w, Ok created) =>
            (w, [WriteJSON 201 (encode_rotate
               {| rk_NewKeyID := ck_KeyID created; rk_Token := ck_FullToken created;
                  rk_Notice := bs "this token is shown exactly once — store it now" |})])
        end
  end.

Definition handleMe (ws : WorkspaceContext) : list effect := [WriteJSON 200 (encode_me ws)].

(** ** One response per request *)

Definition responses (effs : list effect) : list (Z * bytes) :=
  flat_map (fun e => match e with Respond status _ body => [(status, body)] | _ => [] end) effs.

Definition audits (effs : list effect) : list Entry :=
  flat_map (fun e => match e with Audit en => [en] | _ => [] end) effs.

Lemma complete_if_quiet key ws status body ok w :
  responses (complete_if key ws status body ok w).2 = [] ∧ audits (complete_if key ws status body ok w).2 = [].
Proof.
  clear IDKey.
  unfold complete_if. destruct (str_eqb key []); [done|]. by destruct (Complete _ _ _ _ _ _) as [? []].
Qed.

(** What running a statement shows: one response, one audit entry with its
    status, and the completion of the key with the status sent. *)
Lemma sql_run_effects cfg ws rq t0 t1 sql params vres g g' effs :
  sql_run cfg ws rq t0 t1 sql params vres g = (g', effs) →
  ∃ status sent stored ok,
    responses effs = [(status, sent)] ∧
    (∃ en, audits effs = [en] ∧ en_StatusCode en = status ∧ en_KeyDBID en = ws_KeyDBID ws ∧ en_SQL en = sql) ∧
    gw_world g' = (complete_if (hr_IdempotencyKey rq) ws status stored ok (gw_world g)).1 ∧
    (status = 200%Z ∧ stored = sent ∧ ok = true ∨ sent = stored ++ newline ∧ ok = false).
Proof.
  clear IDKey.
  unfold sql_run. intros Hx. destruct (Execute _ _ _ _ _ _ _) as [c er].
  destruct er as [resp|err]; [destruct (_ && _) in Hx|].
  1: set (p := mk_problem (bs "response_too_large") 413 _ _) in Hx.
  3: set (p := MapError (Some err)) in Hx.
  1, 3: exists (pr_Status p), (encode_problem p ++ newline), (encode_problem p), false;
    pose proof (complete_if_quiet (hr_IdempotencyKey rq) ws (pr_Status p) (encode_problem p) false (gw_world g)) as [Hq1 Hq2].
  3: exists 200%Z, (encode_response resp), (encode_response resp), true;
    pose proof (complete_if_quiet (hr_IdempotencyKey rq) ws 200 (encode_response resp) true (gw_world g)) as [Hq1 Hq2].
  all: destruct (complete_if _ _ _ _ _ _) as [w warn] in *; cbn [snd fst] in *; injection Hx as <- <-;
    unfold responses, audits in *; simpl; rewrite ?flat_map_app, Hq1, Hq2; simpl.
  all: split; [done|]; split; [eexists; split; [done|]; done|]; split; [done|]; first [by right|by left].
Qed.

(** The ways a SQL request can go. *)
Lemma handleSQLExecute_cases cfg ws rq attempts t0 t1 g g' effs :
  handleSQLExecute cfg ws rq attempts t0 t1 g = (g', effs) →
  (g' = g ∧ (∃ status body, responses effs = [(status, body)] ∧ (400 ≤ status)%Z) ∧
   ∀ bodyBytes sql params, hr_Body rq = Ok bodyBytes → decode_sql bodyBytes = Ok (sql, params) →
     is_ok (Validate (ac_validator cfg) sql (length params)) = false) ∨
  (∃ bodyBytes sql params vres, hr_Body rq = Ok bodyBytes ∧ decode_sql bodyBytes = Ok (sql, params) ∧
     Validate (ac_validator cfg) sql (length params) = Ok vres ∧
     ((hr_IdempotencyKey rq = [] ∧ sql_run cfg ws rq t0 t1 sql params vres g = (g', effs)) ∨
      (hr_IdempotencyKey rq ≠ [] ∧
       ∃ w rb, BeginOrReplay attempts (ws_WorkspaceID ws) (hr_IdempotencyKey rq)
                 (HashRequest (hr_Method rq) (hr_Path rq) bodyBytes) hours24 (gw_world g) = (w, rb) ∧
         ((∃ ires effs0, rb = Ok ires ∧ ir_Replay ires = false ∧ effs = Count (bs "IdempotencyMisses") [] :: effs0 ∧
             sql_run cfg ws rq t0 t1 sql params vres {| gw_world := w; gw_conn := gw_conn g |} = (g', effs0)) ∨
          (gw_conn g' = gw_conn g ∧ audits effs = [] ∧ (∀ ires, rb = Ok ires → ir_Replay ires = true) ∧
           match rb with
           | Ok ires => effs = [Respond (ir_StatusCode ires) [json_header; replay_header] (ir_Body ires);
                                Count (bs "IdempotencyHits") []]
           | Err _ => ∃ status body, responses effs = [(status, body)] ∧ (400 ≤ status)%Z
           end))))).
Proof.
  clear IDKey.
  unfold handleSQLExecute. intros Hx. destruct (hr_Body rq) as [bodyBytes|e];
    [|left; simplify_eq; split; [done|]; split; [by do 2 eexists|done]].
  destruct (decode_sql bodyBytes) as [[sql params]|e] eqn:Ed;
    [|left; simplify_eq; split; [done|]; split; [by do 2 eexists|intros ??? [= <-]; congruence]].
  destruct (Validate _ _ _) as [vres|err] eqn:Ev.
  - right. exists bodyBytes, sql, params, vres. split; [done|]. split; [done|]. split; [done|].
    destruct (str_eqb (hr_IdempotencyKey rq) []) eqn:Ek; go_bool; [by left|right]. split; [done|].
    destruct (BeginOrReplay _ _ _ _ _ _) as [w rb]. exists w, rb. split; [done|].
    destruct rb as [ires|e]; [destruct (ir_Replay ires) eqn:Ei|].
    + right. simplify_eq/=. naive_solver.
    + left. destruct (sql_run _ _ _ _ _ _ _ _ _) as [g1 effs0] eqn:Er. simplify_eq. by exists ires, effs0.
    + right. simplify_eq/=. split; [done|]. split; [done|]. split; [done|].
      destruct (error_Is e ErrIdempotencyConflict); by do 2 eexists.
  - left. simplify_eq. split; [done|]. split.
    + do 2 eexists. split; [done|].
      unfold Validate in Ev. repeat (case_match; try done); simplify_eq; simpl; done.
    + intros bb sql' ps' [= <-] Hd. rewrite Ed in Hd. simplify_eq. by rewrite Ev.
Qed.

(** Every request is answered exactly once: whatever the input, the
    databases and the servers do, each handler writes one response. *)
Theorem handlers_respond_once cfg reg ws rq attempts t0 t1 g dr now w cache :
  length (responses (handleSQLExecute cfg ws rq attempts t0 t1 g).2) = 1 ∧
  length (responses (handleRPCCall cfg reg ws rq attempts t0 t1 g).2) = 1 ∧
  length (responses (handleKeyRotate cfg ws dr now w cache).2) = 1 ∧
  length (responses (handleKeyCreate ws rq dr now w).2) = 1 ∧
  length (responses (handleMe ws)) = 1.
Proof.
  split; [|split; [|split; [|split; [|done]]]].
  - destruct (handleSQLExecute cfg ws rq attempts t0 t1 g) as [g' effs] eqn:E.
    cbn [snd]. apply handleSQLExecute_cases in E as [(_ & (st & b & -> & _) & _)|(bb & sql & ps & vr & _ & _ & _ & Hc)]; [done|].
    destruct Hc as [[_ Hr]|(_ & w' & rb & _ & [(ires & e0 & _ & _ & -> & Hr)|(_ & _ & _ & Hrb)])].
    + by apply sql_run_effects in Hr as (st & sent & sto & ok & -> & _).
    + apply sql_run_effects in Hr as (st & sent & sto & ok & Hr & _). simpl. by rewrite Hr.
    + destruct rb as [ires|e]; [by subst|]. by destruct Hrb as (st & b & -> & _).
  - unfold handleRPCCall. repeat case_match; done.
  - unfold handleKeyRotate. repeat case_match; done.
  - unfold handleKeyCreate. repeat case_match; done.
Qed.

(** ** At most once, end to end *)

Lemma complete_if_held k h exp key ws status body ok w :
  held k h exp (w_db w) → held k h exp (w_db (complete_if key ws status body ok w).1).
Proof.
  clear IDKey.
  intros Hh. unfold complete_if. destruct (str_eqb key []); [done|].
  destruct (Complete _ _ _ _ _ w) as [w' r] eqn:E.
  pose proof (Complete_held k h exp _ _ _ _ _ _ _ _ E Hh). by destruct r.
Qed.

(** A key that let a statement through holds the next one back. *)
Lemma sql_once cfg cfg' ws ws' rq rq' attempts attempts' t0 t1 t2 t3 g g1 e1 ops g2 g3 e2 :
  hr_IdempotencyKey rq ≠ [] → hr_IdempotencyKey rq' = hr_IdempotencyKey rq →
  ws_WorkspaceID ws' = ws_WorkspaceID ws →
  handleSQLExecute cfg ws rq attempts t0 t1 g = (g1, e1) → gw_conn g1 ≠ gw_conn g →
  Forall (before (w_dbnow (gw_world g) + hours24)) ops →
  w_db (gw_world g2) = run_idem (w_db (gw_world g1)) ops →
  Forall (fun a => (a.1 ≤ w_dbnow (gw_world g) + hours24)%Z) attempts' →
  handleSQLExecute cfg' ws' rq' attempts' t2 t3 g2 = (g3, e2) →
  gw_conn g3 = gw_conn g2.
Proof.
  clear IDKey.
  intros Hk Hk' Hws Hc1 Hran Hops Hd Hatt Hc2.
  apply handleSQLExecute_cases in Hc1 as [[-> _]|(bb & sql & ps & vr & _ & _ & _ & [[? _]|(_ & w & rb & Hb & Hc)])];
    [done|done|].
  destruct Hc as [(ires & e0 & -> & Hfresh & _ & Hrun)|(Hsame & _)]; [|done].
  destruct (BeginOrReplay_fresh _ _ _ _ _ _ _ _ Hb Hfresh) as (u & id & Hu & _ & Hheld & _).
  apply sql_run_effects in Hrun as (st & sent & sto & ok & _ & _ & Hw & _). simpl in Hw.
  apply (complete_if_held _ _ _ (hr_IdempotencyKey rq) ws st sto ok) in Hheld. rewrite <- Hw in Hheld.
  apply (run_idem_held _ _ _ _ ops) in Hheld; [|done]. rewrite <- Hd in Hheld.
  apply handleSQLExecute_cases in Hc2 as [[-> _]|(bb' & sql' & ps' & vr' & _ & _ & _ & [[? _]|(_ & w' & rb' & Hb' & Hc')])];
    [done|congruence|].
  destruct Hc' as [(ires' & e0' & -> & Hfresh' & _)|(Hsame & _)]; [|done].
  rewrite Hk', Hws in Hb'.
  destruct (BeginOrReplay_of_held _ _ _ _ _ _ _ _ _ _ _ Hu Hk Hheld Hatt Hb') as [? _]. congruence.
Qed.

(** C4: A statement sent with an idempotency key is executed at most once: if
    handling a request sent anything to the tenant database, a later request with
    the same key in the same workspace sends nothing, whatever its body is and
    whatever the gateways did to the key's row in between with calls failing at
    any point, until a clock passes the expiry 24 hours after the first. *)
Theorem sql_at_most_once cfg cfg' ws ws' rq rq' attempts attempts' t0 t1 t2 t3 g g1 e1 ops g2 g3 e2 :
  hr_IdempotencyKey rq ≠ [] → hr_IdempotencyKey rq' = hr_IdempotencyKey rq →
  ws_WorkspaceID ws' = ws_WorkspaceID ws →
  handleSQLExecute cfg ws rq attempts t0 t1 g = (g1, e1) → gw_conn g1 ≠ gw_conn g →
  Forall (before (w_dbnow (gw_world g) + hours24)) ops →
  w_db (gw_world g2) = run_idem (w_db (gw_world g1)) ops →
  Forall (fun a => (a.1 ≤ w_dbnow (gw_world g) + hours24)%Z) attempts' →
  handleSQLExecute cfg' ws' rq' attempts' t2 t3 g2 = (g3, e2) →
  gw_conn g3 = gw_conn g2.
Proof. apply sql_once. Qed.

Context `{!GzipLaws}.


(** ** Audit *)

(** What the audit log records of SQL requests. A request that passes
    validation and is executed leaves exactly one audit entry, with the status
    the client got, the caller's key and the statement; a request answered by the
    idempotency layer (a replay, a conflict, or one still in progress) leaves
    none. *)
Theorem sql_audit cfg ws rq bodyBytes sql params vres attempts t0 t1 g :
  hr_Body rq = Ok bodyBytes → decode_sql bodyBytes = Ok (sql, params) →
  Validate (ac_validator cfg) sql (length params) = Ok vres →
  let '(g', effs) := handleSQLExecute cfg ws rq attempts t0 t1 g in
  (∃ status body en, responses effs = [(status, body)] ∧ audits effs = [en] ∧
     en_StatusCode en = status ∧ en_KeyDBID en = ws_KeyDBID ws ∧ en_SQL en = sql) ∨
  (hr_IdempotencyKey rq ≠ [] ∧ gw_conn g' = gw_conn g ∧ audits effs = []).
Proof.
  clear IDKey.
  intros Hbody Hdec Hval. destruct (handleSQLExecute cfg ws rq attempts t0 t1 g) as [g' effs] eqn:E.
  apply handleSQLExecute_cases in E as [(_ & _ & Hno)|(bb & sql' & ps & vr & Hb' & Hd' & _ & Hc)].
  - specialize (Hno _ _ _ Hbody Hdec). by rewrite Hval in Hno.
  - rewrite Hbody in Hb'. injection Hb' as <-. rewrite Hdec in Hd'. injection Hd' as <- <-.
    destruct Hc as [[_ Hr]|(Hk & w' & rb & _ & [(ires & e0 & _ & _ & -> & Hr)|(Hg & Ha & _)])].
    + apply sql_run_effects in Hr as (st & sent & sto & ok & Hr & (en & ? & ? & ? & ?) & _).
      left. by exists st, sent, en.
    + apply sql_run_effects in Hr as (st & sent & sto & ok & Hr & (en & ? & ? & ? & ?) & _).
      left. exists st, sent, en. simpl. by rewrite Hr.
    + by right.
Qed.

(** ** Keys *)

(** After a successful rotation the gateway no longer serves the old key from
    its cache: the next lookup of any token bound to the rotated row goes to the
    database, where the row now has its expiry. *)
Theorem handleKeyRotate_evicts `{!LRULaws cachedKey} cfg ws u dr now w cache w' cache' effs body :
  handleKeyRotate cfg ws dr now w cache = ((w', cache'), effs) → responses effs = [(200%Z, body)] →
  uuid_Parse (ws_KeyDBID ws) = Ok u → ws_KeyDBID ws ≠ [] →
  (∀ token t rec, (cache_Get cache' token t).1 = Some rec → kr_ID rec ≠ ws_KeyDBID ws) ∧
  ∃ o, db_keys (w_db w) !! u = Some o ∧
       ∃ interval, pg_interval (ac_KeyRotateOverlap cfg) = Ok interval ∧
         db_keys (w_db w') !! u = Some (set_expires (w_dbnow w + interval) o).
Proof.
  unfold handleKeyRotate. intros Hx Hresp Hu Hne.
  destruct (Rotate _ _ _ _ _ _) as [w1 [created|err]] eqn:Er; injection Hx as <- <- <-.
  - split.
    + intros token t rec Hget. apply cache_Get_hit in Hget as (v & _ & _ & _ & Hnot). intros Heq. apply Hnot.
      apply RevokeByDBID_revoked. left. rewrite Heq, str_eqb_refl. unfold str_eqb. by rewrite bool_decide_false.
    + pose proof Er as (_ & old & o & _ & _ & _ & _ & _ & _ & Hp & Ho & _)%Rotate_Ok.
      assert (old = u) as -> by congruence.
      destruct (Rotate_tables _ _ _ _ _ _ _ _ _ _ Er Hp Ho) as (_ & (iv & Hiv & Hold) & _). eauto.
  - exfalso. pose proof (MapError_status err) as Hin.
    assert (pr_Status (MapError (Some err)) = 200%Z) as Hst by (by injection Hresp). rewrite Hst in Hin.
    apply (bool_decide_pack _) in Hin. vm_compute in Hin. exact Hin.
Qed.

(** The audit log does not record the status RPC clients get for an error:
    a call of an unknown procedure is answered with 404 and audited as 500. *)
Theorem rpc_unknown_audited_500 cfg reg ws rq bodyBytes procedure a attempts t0 t1 g :
  hr_Body rq = Ok bodyBytes → decode_rpc bodyBytes = Ok (procedure, a) → registry_Get reg procedure = None →
  let effs := (handleRPCCall cfg reg ws rq attempts t0 t1 g).2 in
  (∃ body, responses effs = [(404%Z, body)]) ∧ (∃ en, audits effs = [en] ∧ en_StatusCode en = 500%Z).
Proof.
  clear IDKey.
  intros Hb Hd Hn. unfold handleRPCCall. rewrite Hb, Hd. unfold Call. simpl. rewrite Hn. simpl.
  split; [by eexists|]. by eexists.
Qed.

(** ** What a SQL request sends *)

(** The commands a SQL request adds to the tenant connection. *)
Lemma handleSQLExecute_conn cfg ws rq attempts t0 t1 g g' effs :
  handleSQLExecute cfg ws rq attempts t0 t1 g = (g', effs) →
  gw_conn g' = gw_conn g ∨
  ∃ sql params vres res, Execute srv marshal_row (ac_executor cfg) t0 t1
      {| ei_WorkspaceID := ws_WorkspaceID ws; ei_PgRole := ws_PgRole ws; ei_SQL := sql;
         ei_Params := params; ei_Result := Some vres |} (gw_conn g) = (gw_conn g', res).
Proof.
  clear IDKey.
  assert (∀ sql params vres g0 effs0, gw_conn g0 = gw_conn g →
    sql_run cfg ws rq t0 t1 sql params vres g0 = (g', effs0) →
    ∃ res, Execute srv marshal_row (ac_executor cfg) t0 t1
      {| ei_WorkspaceID := ws_WorkspaceID ws; ei_PgRole := ws_PgRole ws; ei_SQL := sql;
         ei_Params := params; ei_Result := Some vres |} (gw_conn g) = (gw_conn g', res)) as Hrun.
  { intros sql params vres g0 effs0 Hg Hr. unfold sql_run in Hr. rewrite Hg in Hr.
    destruct (Execute _ _ _ _ _ _ _) as [c er]. exists er. f_equal.
    repeat case_match; by simplify_eq. }
  intros Hx. apply handleSQLExecute_cases in Hx as [[-> _]|(bb & sql & ps & vr & _ & _ & _ & Hc)]; [by left|].
  destruct Hc as [[_ Hr]|(_ & w & rb & _ & [(ires & e0 & _ & _ & _ & Hr)|(Hg & _)])]; [right|right|by left];
    exists sql, ps, vr; by eapply Hrun; [|exact Hr].
Qed.
End Api.

(** ** Instances *)

Module ApiDemo.
#[local] Existing Instance text_uuid.
#[local] Existing Instance RpcDemo.lib.

Definition bad_json : error := errors_New (bs "unexpected end of JSON input").

(** Bodies are taken as they are: a statement without parameters, the name of a
    procedure, the role of a new key. *)
Definition json : ApiJson (V := bytes) := {|
  decode_sql b := if str_eqb b [] then Err bad_json else Ok (b, [bs "p"; bs "q"]);
  decode_rpc b := if str_eqb b [] then Err bad_json else Ok (b, bs "{}");
  decode_create b := match b with
                     | Ok role => Ok {| ck_WorkspaceID := []; ck_Env := []; ck_PgRole := role; ck_Name := bs "app" |}
                     | Err e => Err e
                     end;
  encode_response r := concat (concat (rp_Rows r));
  encode_problem p := pr_Title p;
  encode_call r := cr_Result r;
  encode_rotate r := rk_Token r;
  encode_me ws := ws_KeyID ws;
|}.

Definition request (body : bytes) : http_request :=
  {| hr_Method := bs "POST"; hr_Path := bs "/sql/execute"; hr_IdempotencyKey := bs "K"; hr_Body := Ok body;
     hr_RemoteAddr := bs "10.0.0.1:4711"; hr_RequestID := bs "r" |}.

Definition ws (role : bytes) : WorkspaceContext :=
  {| ws_WorkspaceID := bs "ws"; ws_KeyID := bs "key0"; ws_KeyDBID := bs "old"; ws_PgRole := role; ws_Env := EnvLive |}.

Definition cfg : api_config :=
  {| ac_validator := ValidatorDemo.cfg; ac_executor := ExecDemo.cfg; ac_MaxResponseBodyBytes := 0;
     ac_StatementTimeout := second; ac_IdleInTxTimeout := second; ac_KeyRotateOverlap := 50000000 |}.

Example clientIP_v4 : clientIP (bs "10.0.0.1:4711") = bs "10.0.0.1".
Proof. by vm_compute. Qed.
Example clientIP_v6 : clientIP (bs "[::1]:80") = bs "::1".
Proof. by vm_compute. Qed.
Example clientIP_bare : clientIP (bs "::1") = bs "::1".
Proof. by vm_compute. Qed.
End ApiDemo.

#[local] Existing Instance text_uuid.
#[local] Existing Instance RpcDemo.lib.
#[local] Existing Instance IdemDemo.gz.
#[local] Existing Instance IdemDemo.gz_laws.
#[local] Existing Instance ValidatorDemo.unicode.
#[local] Existing Instance ValidatorDemo.parser.
#[local] Existing Instance ApiDemo.json.

Module ApiRuns.
Definition post (n : Z) (id : byte) (g : gateway (V := bytes) (S := unit)) :=
  handleSQLExecute ExecDemo.server ExecDemo.marshal ApiDemo.cfg (ApiDemo.ws (bs "dbuser"))
    (ApiDemo.request ValidatorDemo.select2) [(n, Demo.uid [id])] 0 5 g.

(** The first request with the key reaches the tenant database. *)
Lemma first_ran g e : post 0 x69 RpcDemo.g0 = (g, e) → gw_conn g ≠ gw_conn RpcDemo.g0.
Proof.
  intros Hx Hc. apply (f_equal (fun p => length (cn_log (gw_conn p.1)))) in Hx. simpl in Hx.
  rewrite Hc in Hx. vm_compute in Hx. discriminate Hx.
Qed.
End ApiRuns.

Lemma sql_at_most_once_witness :
  ∃ g1 e1, ApiRuns.post 0 x69 RpcDemo.g0 = (g1, e1) ∧ gw_conn (ApiRuns.post 7 x6a g1).1 = gw_conn g1.
Proof.
  destruct (ApiRuns.post 0 x69 RpcDemo.g0) as [g1 e1] eqn:E1.
  exists g1, e1. split; [reflexivity|]. destruct (ApiRuns.post 7 x6a g1) as [g3 e2] eqn:E2.
  apply (sql_at_most_once ExecDemo.server ExecDemo.marshal ApiDemo.cfg ApiDemo.cfg
    (ApiDemo.ws (bs "dbuser")) (ApiDemo.ws (bs "dbuser")) (ApiDemo.request ValidatorDemo.select2)
    (ApiDemo.request ValidatorDemo.select2) [(0%Z, Demo.uid [x69])] [(7%Z, Demo.uid [x6a])] 0 5 0 5
    RpcDemo.g0 g1 e1 [] g1 g3 e2);
    [discriminate|reflexivity|reflexivity|exact E1|by eapply ApiRuns.first_ran|constructor|reflexivity| |exact E2].
  repeat constructor. vm_compute. discriminate.
Defined.


Lemma sql_audit_witness :
  let '(g', effs) := ApiRuns.post 0 x69 RpcDemo.g0 in
  (∃ status body en, responses effs = [(status, body)] ∧ audits effs = [en] ∧
     en_StatusCode en = status ∧ en_KeyDBID en = bs "old" ∧ en_SQL en = ValidatorDemo.select2) ∨
  (bs "K" ≠ [] ∧ gw_conn g' = gw_conn RpcDemo.g0 ∧ audits effs = []).
Proof.
  apply (sql_audit ExecDemo.server ExecDemo.marshal ApiDemo.cfg (ApiDemo.ws (bs "dbuser"))
    (ApiDemo.request ValidatorDemo.select2) ValidatorDemo.select2 ValidatorDemo.select2 [bs "p"; bs "q"]
    {| r_Command := bs "SELECT"; r_IsSelect := true; r_HasReturning := false; r_PlaceholderCount := 2 |});
    [reflexivity|by vm_compute|by vm_compute].
Defined.

Lemma handleKeyRotate_evicts_witness :
  ∃ w' cache' effs o,
    handleKeyRotate toy_IDKey ApiDemo.cfg (ApiDemo.ws (bs "dbadmin")) (Demo.draw x61) 0 Demo.w0 (NewVerifyCache 8 100)
      = ((w', cache'), effs) ∧
    db_keys (w_db w') !! Demo.uid (bs "old") = Some (set_expires 50001000 o).
Proof.
  destruct (handleKeyRotate toy_IDKey ApiDemo.cfg (ApiDemo.ws (bs "dbadmin")) (Demo.draw x61) 0 Demo.w0
              (NewVerifyCache 8 100)) as [[w' cache'] effs] eqn:E.
  assert (∃ body, responses effs = [(200%Z, body)]) as [body Hb].
  { apply (f_equal (fun p => responses p.2)) in E. vm_compute in E. eexists. exact (eq_sym E). }
  destruct (handleKeyRotate_evicts toy_IDKey ApiDemo.cfg (ApiDemo.ws (bs "dbadmin")) (Demo.uid (bs "old"))
    (Demo.draw x61) 0 Demo.w0 (NewVerifyCache 8 100) w' cache' effs body E Hb) as (_ & o & _ & iv & Hiv & Ho);
    [reflexivity|discriminate|].
  exists w', cache', effs, o. split; [reflexivity|]. injection Hiv as <-. exact Ho.
Defined.

Lemma rpc_unknown_audited_500_witness :
  let effs := (handleRPCCall ExecDemo.server ApiDemo.cfg RpcDemo.reg (ApiDemo.ws (bs "dbuser"))
                 (ApiDemo.request (bs "no_such")) [] 0 0 RpcDemo.g0).2 in
  (∃ body, responses effs = [(404%Z, body)]) ∧ (∃ en, audits effs = [en] ∧ en_StatusCode en = 500%Z).
Proof.
  apply (rpc_unknown_audited_500 ExecDemo.server ApiDemo.cfg RpcDemo.reg (ApiDemo.ws (bs "dbuser"))
    (ApiDemo.request (bs "no_such")) (bs "no_such") (bs "no_such") (bs "{}")); reflexivity.
Defined.
