(* ===== verification/ApiStages.v ===== *)
(** * The handlers with a key, stage by stage

    [handleSQLExecute] of internal/httpapi/api.go and [handleRPCCall] with the
    [Call] of internal/rpc/dispatcher.go go through the same stages: the checks
    that need no database, the claim of the idempotency key, the run against the
    tenant database, the completion of the key. Between two stages the handler of
    another request can run. Here every stage is a definition of its own;
    [handlers_staged] shows that the stages in a row are the handlers of HttpApi.v,
    and ConcurrentApi.v interleaves the stages of many requests. *)

From S2P Require Import Prelude GoStrings GoErrors AuthKey Lru AuthCache ControlPlane AuthStore AuthMiddleware Tenant SqlValidator SqlExecutor HttpErrors Idempotency RpcDispatcher HttpApi.

Section Stages.
Context {V S : Type} `{RpcLib V, UuidLib, Gzip, UnicodeTables, PgQuery}.
Context `{!ApiJson (V := V)}.
Variable srv : PgServer V S.
Variable marshal_row : list V → bytes.

#[local] Abbreviation effect := (effect (V := V)).

(** ** Jobs *)

(** What a run leaves: the completion of its key, and what the handler does before
    it, after it, and in between when it fails. *)
Record outcome : Type := {
  o_status : Z;
  o_body : bytes;
  o_ok : bool;
  o_before : list effect;
  o_warn : list effect;
  o_after : list effect;
}.

(** A request that passed the checks: its key and hash, what it does when the claim
    fails, when it is a replay and when it is to run, and the run. *)
Record job : Type := {
  jb_ws : bytes;
  jb_key : bytes;
  jb_hash : bytes;
  jb_refused : error → list effect;
  jb_replayed : IdempotencyResult → list effect;
  jb_missed : list effect;
  jb_run : Z → Z → conn V S → conn V S * outcome;
}.

(** ** POST /v1/sql/execute *)

Definition sql_refused (ierr : error) : list effect :=
  [WriteProblem
     (if error_Is ierr ErrIdempotencyConflict
      then mk_problem (bs "idempotency_conflict") 409 (bs "idempotency key was used with a different request body") []
      else mk_problem (bs "idempotency_internal") 500
             (bs "a request with this idempotency key is already in progress") [])].

Definition sql_replayed (ir : IdempotencyResult) : list effect :=
  [Respond (ir_StatusCode ir) [json_header; replay_header] (ir_Body ir); Count (bs "IdempotencyHits") []].

(** A run that ends in a problem. *)
Definition sql_problem (ws : WorkspaceContext) (rq : http_request) (sql : bytes) (params : list V) (vres : Result)
    (problem : Problem) (err : error) (sqlstate : bytes) : outcome :=
  {| o_status := pr_Status problem; o_body := encode_problem problem; o_ok := false;
     o_before := [WriteProblem problem;
                  audit rq ws sql_endpoint (r_Command vres) sql params (pr_Status problem) (Some err);
                  Count (bs "SQLStatements") [r_Command vres; sqlstate]];
     o_warn := [Warn (bs "idempotency complete failed")]; o_after := [] |}.

Definition sql_outcome (cfg : api_config) (ws : WorkspaceContext) (rq : http_request) (sql : bytes) (params : list V)
    (vres : Result) (er : res error (Response V)) : outcome :=
  match er with
  | Err err =>
      let problem := MapError (Some err) in
      sql_problem ws rq sql params vres problem err (pr_SQLState problem)
  | Ok resp =>
      let body := encode_response resp in
      let limit := ac_MaxResponseBodyBytes cfg in
      if (0 <? limit)%Z && (limit <? Z.of_nat (length body))%Z then
        sql_problem ws rq sql params vres
          (mk_problem (bs "response_too_large") 413
             (bs "serialized response exceeds AGENTCOOPDB_MAX_RESPONSE_BODY_BYTES") [])
          ErrResponseTooLarge (bs "00000")
      else
        {| o_status := 200; o_body := body; o_ok := true; o_before := [Respond 200 [json_header] body];
           o_warn := [Warn (bs "idempotency complete failed")];
           o_after := [audit rq ws sql_endpoint (r_Command vres) sql params 200 None;
                       Count (bs "SQLStatements") [r_Command vres; bs "00000"]] |}
  end.

(** A validated statement. *)
Definition sql_task (cfg : api_config) (ws : WorkspaceContext) (rq : http_request) (bodyBytes sql : bytes)
    (params : list V) (vres : Result) : job :=
  {| jb_ws := ws_WorkspaceID ws; jb_key := hr_IdempotencyKey rq;
     jb_hash := HashRequest (hr_Method rq) (hr_Path rq) bodyBytes;
     jb_refused := sql_refused; jb_replayed := sql_replayed; jb_missed := [Count (bs "IdempotencyMisses") []];
     jb_run t0 t1 c :=
       let '(c, er) := Execute srv marshal_row (ac_executor cfg) t0 t1
         {| ei_WorkspaceID := ws_WorkspaceID ws; ei_PgRole := ws_PgRole ws; ei_SQL := sql;
            ei_Params := params; ei_Result := Some vres |} c in
       (c, sql_outcome cfg ws rq sql params vres er) |}.

(** The checks: a response, or a job. *)
Definition sql_job (cfg : api_config) (ws : WorkspaceContext) (rq : http_request) : list effect + job :=
  match hr_Body rq with
  | Err e => inl [WriteProblem (mk_problem (bs "body_too_large") 413 (ErrorText e) [])]
  | Ok bodyBytes =>
      match decode_sql bodyBytes with
      | Err e => inl [WriteProblem (mk_problem (bs "invalid_json") 400 (ErrorText e) [])]
      | Ok (sql, params) =>
          match Validate (ac_validator cfg) sql (length params) with
          | Err err => inl [WriteProblem (MapError (Some err)); audit rq ws sql_endpoint [] sql params 400 (Some err)]
          | Ok vres => inr (sql_task cfg ws rq bodyBytes sql params vres)
          end
      end
  end.

(** ** POST /v1/rpc/call *)

Definition rpc_failed (ws : WorkspaceContext) (rq : http_request) (procedure : bytes) (a : args) (err : error) : list effect :=
  [WriteProblem
     (if error_Is err ErrUnknownProcedure
      then mk_problem (bs "unknown_procedure") 404 (ErrorText err) []
      else if error_Is err ErrRoleNotPermitted
      then mk_problem (bs "permission_denied") 403 (ErrorText err) []
      else if error_Is err ErrIdempotencyConflict
      then mk_problem (bs "idempotency_conflict") 409 (ErrorText err) []
      else MapError (Some err));
   audit rq ws rpc_endpoint (bs "RPC") procedure [args_any a] 500 (Some err);
   Count (bs "RPCInvocations") [procedure; bs "error"]].

Definition rpc_replayed (procedure : bytes) (ir : IdempotencyResult) : list effect :=
  [Respond (ir_StatusCode ir) [json_header; replay_header] (ir_Body ir);
   Count (bs "IdempotencyHits") []; Count (bs "RPCInvocations") [procedure; bs "ok"]].

(** The key is completed before the handler answers. *)
Definition rpc_outcome (ws : WorkspaceContext) (rq : http_request) (procedure : bytes) (a : args) (proc : Procedure) (t0 t1 : Z)
    (result : res error bytes) : outcome :=
  let durationMS := Milliseconds (t1 - t0) in
  {| o_status := if is_ok result then 200 else 500;
     o_body := marshal_call (pc_Name proc) (match result with Ok raw => Some raw | Err _ => None end) durationMS;
     o_ok := is_ok result; o_before := []; o_warn := [];
     o_after :=
       match result with
       | Err e => rpc_failed ws rq procedure a e
       | Ok raw =>
           [Count (bs "IdempotencyMisses") []; Count (bs "RPCInvocations") [procedure; bs "ok"];
            WriteJSON 200 (encode_call
              {| cr_Procedure := pc_Name proc; cr_Result := raw; cr_DurationMS := durationMS;
                 cr_Replay := false; cr_CachedStatus := 0; cr_CachedBody := [] |});
            audit rq ws rpc_endpoint (bs "RPC") procedure [args_any a] 200 None]
       end |}.

(** The input of [Call]. *)
Definition rpc_input (cfg : api_config) (ws : WorkspaceContext) (rq : http_request) (bodyBytes procedure : bytes)
    (a : args) : CallInput :=
  {| cl_WorkspaceID := ws_WorkspaceID ws; cl_PgRole := ws_PgRole ws; cl_Name := procedure;
     cl_Args := a; cl_IdempotencyKey := hr_IdempotencyKey rq;
     cl_RequestHash := HashRequest (hr_Method rq) (hr_Path rq) bodyBytes;
     cl_StatementTimeout := ac_StatementTimeout cfg; cl_IdleInTxTimeout := ac_IdleInTxTimeout cfg |}.

(** A call that is allowed and has valid arguments. *)
Definition rpc_task (cfg : api_config) (ws : WorkspaceContext) (rq : http_request) (bodyBytes procedure : bytes)
    (a : args) (proc : Procedure) : job :=
  let cin := rpc_input cfg ws rq bodyBytes procedure a in
  {| jb_ws := cl_WorkspaceID cin; jb_key := cl_IdempotencyKey cin; jb_hash := cl_RequestHash cin;
     jb_refused := rpc_failed ws rq procedure a; jb_replayed := rpc_replayed procedure; jb_missed := [];
     jb_run t0 t1 c :=
       let '(c, result) := run srv proc cin c in
       (c, rpc_outcome ws rq procedure a proc t0 t1 result) |}.

Definition rpc_job (cfg : api_config) (reg : Registry) (ws : WorkspaceContext) (rq : http_request) : list effect + job :=
  match hr_Body rq with
  | Err e => inl [WriteProblem (mk_problem (bs "body_too_large") 413 (ErrorText e) [])]
  | Ok bodyBytes =>
      match decode_rpc bodyBytes with
      | Err e => inl [WriteProblem (mk_problem (bs "invalid_json") 400 (ErrorText e) [])]
      | Ok (procedure, a) =>
          match registry_Get reg procedure with
          | None => inl (rpc_failed ws rq procedure a ErrUnknownProcedure)
          | Some proc =>
              if negb (str_eqb (pc_RequiredRole proc) []) && negb (str_eqb (pc_RequiredRole proc) (ws_PgRole ws))
              then inl (rpc_failed ws rq procedure a
                     (ErrWrap [] ErrRoleNotPermitted
                        [FLit (bs ": rpc "); FQuote procedure; FLit (bs " requires role ");
                         FQuote (pc_RequiredRole proc); FLit (bs ", key has "); FQuote (ws_PgRole ws)]))
              else
              match match pc_Schema proc with Some sch => schema_Validate sch a | None => None end with
              | Some e => inl (rpc_failed ws rq procedure a (wrapf (bs "rpc args validation: ") e))
              | None => inr (rpc_task cfg ws rq bodyBytes procedure a proc)
              end
          end
      end
  end.

(** ** One after the other *)

(** The completion of a run's key, with what the handler does around it. *)
Definition settle (j : job) (o : outcome) (w : world) : world * list effect :=
  if str_eqb (jb_key j) [] then (w, o_before o ++ o_after o)
  else
    let '(w, r) := Complete (jb_ws j) (jb_key j) (o_status o) (o_body o) (o_ok o) w in
    (w, o_before o ++ (if is_ok r then [] else o_warn o) ++ o_after o).

Definition run_job (j : job) (attempts : list (Z * uuid)) (t0 t1 : Z) (g : gateway (V := V) (S := S))
  : gateway (V := V) (S := S) * list effect :=
  let finish (w : world) (missed : list effect) :=
    let '(c, o) := jb_run j t0 t1 (gw_conn g) in
    let '(w, effs) := settle j o w in
    ({| gw_world := w; gw_conn := c |}, missed ++ effs) in
  if str_eqb (jb_key j) [] then finish (gw_world g) []
  else
    match BeginOrReplay attempts (jb_ws j) (jb_key j) (jb_hash j) hours24 (gw_world g) with
    | (w, Err e) => ({| gw_world := w; gw_conn := gw_conn g |}, jb_refused j e)
    | (w, Ok ir) =>
        if ir_Replay ir then ({| gw_world := w; gw_conn := gw_conn g |}, jb_replayed j ir)
        else finish w (jb_missed j)
    end.

Definition run_staged (x : list effect + job) (attempts : list (Z * uuid)) (t0 t1 : Z) (g : gateway (V := V) (S := S))
  : gateway (V := V) (S := S) * list effect :=
  match x with
  | inl effs => (g, effs)
  | inr j => run_job j attempts t0 t1 g
  end.

(** The part of the SQL handler after the claim. *)
Lemma sql_run_settle cfg ws rq bodyBytes sql params vres t0 t1 g :
  sql_run srv marshal_row cfg ws rq t0 t1 sql params vres g =
  let j := sql_task cfg ws rq bodyBytes sql params vres in
  let '(c, o) := jb_run j t0 t1 (gw_conn g) in
  let '(w, effs) := settle j o (gw_world g) in
  ({| gw_world := w; gw_conn := c |}, effs).
Proof.
  unfold sql_run, settle, complete_if. cbn [sql_task jb_run jb_key jb_ws]. unfold sql_outcome, sql_problem.
  destruct (Execute _ _ _ _ _ _ _) as [c [resp|err]]; [destruct (_ && _)|];
    cbn [o_status o_body o_ok o_before o_warn o_after];
    (destruct (str_eqb (hr_IdempotencyKey rq) []); [done|]); by destruct (Complete _ _ _ _ _ _) as [w [[]|e]].
Qed.

(** The part of the RPC handler after it. *)
Definition rpc_answer (ws : WorkspaceContext) (rq : http_request) (procedure : bytes) (a : args) (r : res error CallResult)
  : list effect :=
  match r with
  | Err err => rpc_failed ws rq procedure a err
  | Ok res =>
      if cr_Replay res
      then rpc_replayed procedure {| ir_Replay := true; ir_StatusCode := cr_CachedStatus res; ir_Body := cr_CachedBody res |}
      else [Count (bs "IdempotencyMisses") []; Count (bs "RPCInvocations") [procedure; bs "ok"];
            WriteJSON 200 (encode_call res); audit rq ws rpc_endpoint (bs "RPC") procedure [args_any a] 200 None]
  end.

Lemma call_run_settle cfg ws rq bodyBytes procedure a proc t0 t1 g :
  let j := rpc_task cfg ws rq bodyBytes procedure a proc in
  let '(g', r) := call_run srv t0 t1 proc (rpc_input cfg ws rq bodyBytes procedure a) g in
  (g', rpc_answer ws rq procedure a r) =
  let '(c, o) := jb_run j t0 t1 (gw_conn g) in
  let '(w, effs) := settle j o (gw_world g) in
  ({| gw_world := w; gw_conn := c |}, effs).
Proof.
  unfold call_run, settle, rpc_task. cbn [jb_run jb_key jb_ws].
  destruct (run srv proc _ _) as [c [raw|e]]; simpl; (destruct (str_eqb (hr_IdempotencyKey rq) []); [done|]);
    by destruct (Complete _ _ _ _ _ _) as [w []].
Qed.

(** The stages in a row. *)
Lemma staged cfg reg ws rq attempts t0 t1 g :
  handleSQLExecute srv marshal_row cfg ws rq attempts t0 t1 g = run_staged (sql_job cfg ws rq) attempts t0 t1 g ∧
  handleRPCCall srv cfg reg ws rq attempts t0 t1 g = run_staged (rpc_job cfg reg ws rq) attempts t0 t1 g.
Proof.
  split.
  - unfold handleSQLExecute, sql_job, run_staged. destruct (hr_Body rq) as [body|e]; [|done].
    destruct (decode_sql body) as [[sql params]|e]; [|done]. destruct (Validate _ _ _) as [vres|e]; [|done].
    unfold run_job. cbn [jb_key jb_ws jb_hash sql_task].
    destruct (str_eqb _ []) eqn:Ek.
    + rewrite (sql_run_settle _ _ _ body). cbv zeta. destruct (jb_run _ _ _ _) as [c o]. by destruct (settle _ _ _).
    + destruct (BeginOrReplay _ _ _ _ _ _) as [w [ir|e]]; [|done]. destruct (ir_Replay ir); [done|].
      rewrite (sql_run_settle _ _ _ body). cbv zeta. cbn [gw_conn gw_world].
      destruct (jb_run _ _ _ _) as [c o]. by destruct (settle _ _ _).
  - unfold handleRPCCall, rpc_job, run_staged, Call. destruct (hr_Body rq) as [body|e]; [|done].
    destruct (decode_rpc body) as [[procedure a]|e]; [|done]. cbn [cl_Name cl_PgRole cl_Args cl_IdempotencyKey].
    destruct (registry_Get reg procedure) as [proc|]; [|done]. destruct (_ && _); [done|].
    destruct (match pc_Schema proc with Some _ => _ | None => _ end) as [e|]; [done|].
    unfold run_job. cbn [jb_key jb_ws jb_hash rpc_task rpc_input cl_WorkspaceID cl_IdempotencyKey cl_RequestHash].
    destruct (str_eqb _ []).
    + pose proof (call_run_settle cfg ws rq body procedure a proc t0 t1 g) as Hc. cbv zeta in Hc.
      fold (rpc_input cfg ws rq body procedure a).
      destruct (call_run _ _ _ _ _ _) as [g' r]. destruct (jb_run _ _ _ _) as [c o]. destruct (settle _ _ _) as [w effs].
      injection Hc as <- <-. unfold rpc_answer. destruct r as [res|e]; [|done]. by destruct (cr_Replay res).
    + destruct (BeginOrReplay _ _ _ _ _ _) as [w [ir|e]]; [|done]. destruct (ir_Replay ir); [done|].
      pose proof (call_run_settle cfg ws rq body procedure a proc t0 t1 {| gw_world := w; gw_conn := gw_conn g |}) as Hc.
      cbv zeta in Hc. fold (rpc_input cfg ws rq body procedure a).
      destruct (call_run _ _ _ _ _ _) as [g' r]. cbn [gw_conn gw_world] in Hc.
      destruct (jb_run _ _ _ _) as [c o]. destruct (settle _ _ _) as [w' effs].
      injection Hc as <- <-. unfold rpc_answer. destruct r as [res|e]; [|done]. by destruct (cr_Replay res).
Qed.

(** A SQL request and a procedure call go through the stages: what the
    handlers of HttpApi.v do is the checks, then the claim, the run and the
    completion of the job they lead to, for every request, configuration, state
    and sequence of failing calls. *)
Theorem handlers_staged cfg reg ws rq attempts t0 t1 g :
  handleSQLExecute srv marshal_row cfg ws rq attempts t0 t1 g = run_staged (sql_job cfg ws rq) attempts t0 t1 g ∧
  handleRPCCall srv cfg reg ws rq attempts t0 t1 g = run_staged (rpc_job cfg reg ws rq) attempts t0 t1 g.
Proof. apply staged. Qed.

(** ** Answers *)

(** A run answers once, and the warning about its key is not an answer. *)
Definition answers_once (o : outcome) : Prop :=
  (∃ status body, responses (o_before o ++ o_after o) = [(status, body)]) ∧ responses (o_warn o) = [].

(** A job answers once, however it goes. *)
Record answering (j : job) : Prop := {
  an_refused e : ∃ status body, responses (jb_refused j e) = [(status, body)] ∧ (400 ≤ status)%Z;
  an_replayed ir : responses (jb_replayed j ir) = [(ir_StatusCode ir, ir_Body ir)];
  an_missed : responses (jb_missed j) = [];
  an_run t0 t1 c : answers_once (jb_run j t0 t1 c).2;
}.

Lemma sql_task_answering cfg ws rq bodyBytes sql params vres : answering (sql_task cfg ws rq bodyBytes sql params vres).
Proof.
  split; cbn [sql_task jb_refused jb_replayed jb_missed jb_run]; [|done|done|].
  - intros e. do 2 eexists. split; [done|]. by destruct (error_Is _ _).
  - intros t0 t1 c. destruct (Execute _ _ _ _ _ _ _) as [c' er]. cbn [snd]. unfold sql_outcome.
    destruct er as [resp|e]; [destruct (_ && _)|]; (split; [by do 2 eexists|done]).
Qed.

Lemma rpc_failed_refuses ws rq procedure a e :
  ∃ status body, responses (rpc_failed ws rq procedure a e) = [(status, body)] ∧ (400 ≤ status)%Z.
Proof.
  do 2 eexists. split; [done|]. repeat (destruct (error_Is _ _); [done|]). apply MapError_400.
Qed.

Lemma rpc_task_answering cfg ws rq bodyBytes procedure a proc :
  answering (rpc_task cfg ws rq bodyBytes procedure a proc).
Proof.
  split; cbn [rpc_task jb_refused jb_replayed jb_missed jb_run]; [|done|done|].
  - intros e. apply rpc_failed_refuses.
  - intros t0 t1 c. destruct (run srv _ _ c) as [c' r]. cbn [snd]. split; [|done].
    destruct r as [raw|e]; by do 2 eexists.
Qed.

Lemma sql_job_answering cfg ws rq j : sql_job cfg ws rq = inr j → answering j.
Proof. unfold sql_job. intros Hj. repeat case_match; simplify_eq. apply sql_task_answering. Qed.

Lemma rpc_job_answering cfg reg ws rq j : rpc_job cfg reg ws rq = inr j → answering j.
Proof. unfold rpc_job. intros Hj. repeat case_match; simplify_eq; apply rpc_task_answering. Qed.

(** ** Runs *)

(** A run starts a transaction, whatever the server answers. *)
Definition starts (j : job) : Prop :=
  ∀ t0 t1 c, ∃ rest, cn_log (jb_run j t0 t1 c).1 = cn_log c ++ CBegin :: rest.

Lemma sql_job_starts cfg ws rq j : sql_job cfg ws rq = inr j → starts j.
Proof.
  unfold sql_job. intros Hj t0 t1 c. repeat case_match; simplify_eq. simpl.
  destruct (Execute _ _ _ _ _ _ _) as [c' er] eqn:E. simpl.
  eapply Execute_trace in E; [|reflexivity]. destruct E as [(Hl & _)|[(n & Hl & _)|(fin & Hl & _)]]; rewrite Hl; eauto.
Qed.

Lemma rpc_task_starts cfg ws rq bodyBytes procedure a proc : starts (rpc_task cfg ws rq bodyBytes procedure a proc).
Proof.
  intros t0 t1 c. cbn [rpc_task jb_run]. destruct (run srv _ _ c) as [c' r] eqn:E. simpl.
  destruct (run_trace _ _ _ _ _ _ E) as [(Hl & _)|[(n & Hl & _)|(aj & fin & Hl & _)]]; rewrite Hl; eauto.
Qed.

Lemma rpc_job_starts cfg reg ws rq j : rpc_job cfg reg ws rq = inr j → starts j.
Proof. unfold rpc_job. intros Hj. repeat case_match; simplify_eq; apply rpc_task_starts. Qed.
End Stages.
