(* ===== verification/ConcurrentApi.v ===== *)
(** * Requests with idempotency keys, interleaved

    Any number of requests to POST /v1/sql/execute and POST /v1/rpc/call at any
    number of gateways that share one control-plane database. A request goes through
    the stages of ApiStages.v; its claim is a caller of IdemConcurrent.v, statement
    by statement at READ COMMITTED; its run has a connection to the tenant database
    of its own, whose server may answer anything; the completion of its key is one
    more statement on the shared table. The steps of the requests, and purges,
    happen in any order, and every call may fail, with or without its effect. A
    request that takes no further steps is one whose gateway died. *)

From stdpp Require Import gmap.
From S2P Require Import Prelude GoStrings GoErrors Sha256 AuthKey Lru AuthCache ControlPlane AuthStore AuthMiddleware Tenant SqlValidator SqlExecutor HttpErrors Idempotency IdemConcurrent RpcDispatcher HttpApi ApiStages.

Section Interleaved.
Context {V S : Type} `{RpcLib V, UuidLib, Gzip, UnicodeTables, PgQuery}.
Context `{!ApiJson (V := V)}.
Variable srv : PgServer V S.
Variable marshal_row : list V → bytes.

#[local] Abbreviation effect := (effect (V := V)).
#[local] Abbreviation outcome := (outcome (V := V)).
#[local] Abbreviation job := (job (V := V) (S := S)).

(** ** The system *)

Inductive endpoint : Type := EpSQL | EpRPC.

Definition prepare (ep : endpoint) (cfg : api_config) (reg : Registry) (ws : WorkspaceContext) (rq : http_request)
  : list effect + job :=
  match ep with
  | EpSQL => sql_job srv marshal_row cfg ws rq
  | EpRPC => rpc_job srv cfg reg ws rq
  end.

Inductive stage : Type := SClaim | SRun | SComplete | SDone.

(** A request: its job and stage, the outcome of its run, what it sent to the
    tenant database, and what the handler did so far. *)
Record rstate : Type := {
  rs_job : job;
  rs_stage : stage;
  rs_out : option outcome;
  rs_sent : list (cmd V);
  rs_effs : list effect;
}.

(** The control plane with the claims in progress, and the requests; a request
    and its claim have the same number. *)
Record sys : Type := {
  sy_conf : conf;
  sy_reqs : gmap nat rstate;
}.

Inductive act : Type :=
| QArrive (t : nat) (ep : endpoint) (cfg : api_config) (reg : Registry) (ws : WorkspaceContext) (rq : http_request)
| QCall (t : nat) (i : input)
| QExec (t : nat) (t0 t1 : Z) (st : S)
| QComplete (t : nat) (now : Z) (f : fault)
| QPurge (now : Z) (f : fault).

Definition in_stage (q : rstate) (st : stage) (effs : list effect) : rstate :=
  {| rs_job := rs_job q; rs_stage := st; rs_out := rs_out q; rs_sent := rs_sent q; rs_effs := rs_effs q ++ effs |}.

(** What the handler makes of the result of [BeginOrReplay]. *)
Definition answer_claim (q : rstate) (r : res error IdempotencyResult) : rstate :=
  match r with
  | Err e => in_stage q SDone (jb_refused (rs_job q) e)
  | Ok ir =>
      if ir_Replay ir then in_stage q SDone (jb_replayed (rs_job q) ir)
      else in_stage q SRun (jb_missed (rs_job q))
  end.

Definition observe (c : conf) (t : nat) (q : rstate) : rstate :=
  match c_threads c !! t with
  | Some th => match th_pc th with PDone r => answer_claim q r | _ => q end
  | None => q
  end.

(** The run, on a connection whose server is in the state [st]. *)
Definition execute (q : rstate) (t0 t1 : Z) (st : S) : rstate :=
  let '(c, o) := jb_run (rs_job q) t0 t1 {| cn_state := st; cn_log := [] |} in
  let unkeyed := str_eqb (jb_key (rs_job q)) [] in
  {| rs_job := rs_job q; rs_stage := if unkeyed then SDone else SComplete; rs_out := Some o; rs_sent := cn_log c;
     rs_effs := rs_effs q ++ o_before o ++ (if unkeyed then o_after o else []) |}.

Definition put (s : sys) (c : conf) (t : nat) (q : rstate) : sys :=
  {| sy_conf := c; sy_reqs := <[t := q]> (sy_reqs s) |}.

(** The completion of the key of [q], whose run ended in [o]. *)
Definition complete_act (q : rstate) (o : outcome) (now : Z) (f : fault) : action :=
  AComplete (jb_ws (rs_job q)) (jb_key (rs_job q)) (o_status o) (o_body o) (o_ok o) now f.

Definition completed (c : conf) (q : rstate) (o : outcome) (now : Z) (f : fault) : res error unit :=
  (Complete (jb_ws (rs_job q)) (jb_key (rs_job q)) (o_status o) (o_body o) (o_ok o)
     {| w_db := c_db c; w_dbnow := now; w_faults := [f] |}).2.

(** One step, or [None] when it is not enabled. *)
Definition sstep (s : sys) (a : act) : option sys :=
  let c := sy_conf s in
  match a with
  | QArrive t ep cfg reg ws rq =>
      match sy_reqs s !! t, prepare ep cfg reg ws rq with
      | Some _, _ => None
      | None, inl _ => Some s
      | None, inr j =>
          let q st := {| rs_job := j; rs_stage := st; rs_out := None; rs_sent := []; rs_effs := [] |} in
          if str_eqb (jb_key j) [] then Some (put s c t (q SRun))
          else c' ← step c (ABegin t (jb_ws j) (jb_key j) (jb_hash j) hours24); Some (put s c' t (q SClaim))
      end
  | QCall t i =>
      q ← sy_reqs s !! t;
      match rs_stage q with
      | SClaim => c' ← step c (ARun t i); Some (put s c' t (observe c' t q))
      | _ => None
      end
  | QExec t t0 t1 st =>
      q ← sy_reqs s !! t;
      match rs_stage q with
      | SRun => Some (put s c t (execute q t0 t1 st))
      | _ => None
      end
  | QComplete t now f =>
      q ← sy_reqs s !! t;
      match rs_stage q, rs_out q with
      | SComplete, Some o =>
          c' ← step c (complete_act q o now f);
          Some (put s c' t (in_stage q SDone ((if is_ok (completed c q o now f) then [] else o_warn o) ++ o_after o)))
      | _, _ => None
      end
  | QPurge now f => c' ← step c (APurge now f); Some {| sy_conf := c'; sy_reqs := sy_reqs s |}
  end.

Fixpoint ssteps (s : sys) (acts : list act) : option sys :=
  match acts with
  | [] => Some s
  | a :: acts => s' ← sstep s a; ssteps s' acts
  end.

(** Gateways that start with the tables [d] and no request. *)
Definition started (d : Db) : sys := {| sy_conf := {| c_db := d; c_threads := ∅ |}; sy_reqs := ∅ |}.

(** The request is one for the row [k] of the table. *)
Definition on_key (k : uuid * bytes) (q : rstate) : Prop := request_key (jb_ws (rs_job q)) (jb_key (rs_job q)) = Ok k.

(** ** Steps of the control plane *)

Lemma ssteps_ind (P : sys → Prop) (W : act → Prop) :
  (∀ s a s', W a → P s → sstep s a = Some s' → P s') →
  ∀ acts s s', Forall W acts → P s → ssteps s acts = Some s' → P s'.
Proof.
  intros Hstep. induction acts as [|a acts IH]; intros s s' Hw Hp Hx; simpl in Hx; [congruence|].
  apply Forall_cons_iff in Hw as [Ha Hw]. apply bind_Some in Hx as (s1 & H1' & Hx).
  eapply IH; [done| |done]. by eapply Hstep.
Qed.

Lemma ssteps_app s acts1 acts2 : ssteps s (acts1 ++ acts2) = (s' ← ssteps s acts1; ssteps s' acts2).
Proof. revert s. induction acts1 as [|a acts1 IH]; intros s; [done|]. simpl. destruct (sstep s a); [apply IH|done]. Qed.


(** A step of the system is one of the control plane, or leaves it alone. *)
Definition conf_act (s : sys) (a : act) : option action :=
  match a with
  | QArrive t ep cfg reg ws rq =>
      match prepare ep cfg reg ws rq with
      | inr j => if str_eqb (jb_key j) [] then None else Some (ABegin t (jb_ws j) (jb_key j) (jb_hash j) hours24)
      | inl _ => None
      end
  | QCall t i => Some (ARun t i)
  | QExec _ _ _ _ => None
  | QComplete t now f => q ← sy_reqs s !! t; o ← rs_out q; Some (complete_act q o now f)
  | QPurge now f => Some (APurge now f)
  end.

Lemma sstep_conf s a s' :
  sstep s a = Some s' →
  match conf_act s a with
  | None => sy_conf s' = sy_conf s
  | Some a' => step (sy_conf s) a' = Some (sy_conf s')
  end.
Proof.
  destruct a as [t ep cfg reg ws rq|t i|t t0 t1 st|t now f|now f]; cbn [sstep conf_act]; intros Hx.
  - destruct (sy_reqs s !! t); [done|]. destruct (prepare _ _ _ _ _) as [|j]; [by simplify_eq|].
    destruct (str_eqb _ []); [by simplify_eq|]. by apply bind_Some in Hx as (c' & Hc & [= <-]).
  - apply bind_Some in Hx as (q & Hq & Hx). destruct (rs_stage q); try done.
    by apply bind_Some in Hx as (c' & Hc & [= <-]).
  - apply bind_Some in Hx as (q & Hq & Hx). destruct (rs_stage q); by simplify_eq.
  - apply bind_Some in Hx as (q & Hq & Hx). rewrite Hq. cbn [base.mbind option_bind].
    destruct (rs_stage q); try done. destruct (rs_out q) as [o|]; [|done].
    by apply bind_Some in Hx as (c' & Hc & [= <-]).
  - by apply bind_Some in Hx as (c' & Hc & [= <-]).
Qed.

(** What a step of the control plane does to the claims. *)
Lemma step_threads c a c' :
  step c a = Some c' →
  match a with
  | ABegin t ws key hash ttl =>
      c_threads c !! t = None ∧
      c_threads c' = <[t := {| th_ws := ws; th_key := key; th_hash := hash; th_ttl := ttl; th_pc := PBegin |}]> (c_threads c)
  | ARun t _ => ∃ th p, c_threads c !! t = Some th ∧ c_threads c' = <[t := at_pc th p]> (c_threads c)
  | _ => c_threads c' = c_threads c
  end.
Proof.
  destruct a as [t ws key hash ttl|t i|ws key status body ok now f|now f]; cbn [step]; intros Hx.
  - destruct (c_threads c !! t); [done|]. by injection Hx as <-.
  - unfold IdemConcurrent.run_thread in Hx. destruct (c_threads c !! t) as [th|]; [|done]. exists th.
    destruct (th_row th) as [k|e]; [|destruct (th_pc th); simplify_eq; by eexists].
    destruct (th_pc th); try done; apply bind_Some in Hx as ([d p] & _ & [= <-]); by eexists.
  - destruct (complete_waits _ _ _); by simplify_eq.
  - destruct (purge_waits _ _); by simplify_eq.
Qed.

(** ** Requests and their claims *)

(** Who the claim of a request is made for. *)
Definition claims_for (j : job) (th : thread) : Prop :=
  th_ws th = jb_ws j ∧ th_key th = jb_key j ∧ th_hash th = jb_hash j ∧ th_ttl th = hours24.

(** What a request that ran did: a warning only if its key could not be completed. *)
Definition reported (q : rstate) (o : outcome) : Prop :=
  ∃ warn, (warn = [] ∨ warn = o_warn o) ∧ rs_effs q = jb_missed (rs_job q) ++ o_before o ++ warn ++ o_after o.

(** How far the claim of a request is. *)
Definition stage_ok (q : rstate) (th : thread) : Prop :=
  match rs_stage q with
  | SClaim => (∀ r, th_pc th ≠ PDone r) ∧ rs_out q = None ∧ rs_sent q = [] ∧ rs_effs q = []
  | SRun => fresh th ∧ rs_out q = None ∧ rs_sent q = [] ∧ rs_effs q = jb_missed (rs_job q)
  | SComplete => fresh th ∧ ∃ o, rs_out q = Some o ∧ rs_effs q = jb_missed (rs_job q) ++ o_before o
  | SDone =>
      (fresh th ∧ ∃ o, rs_out q = Some o ∧ reported q o) ∨
      (rs_out q = None ∧ rs_sent q = [] ∧
       ((∃ e, th_pc th = PDone (Err e) ∧ rs_effs q = jb_refused (rs_job q) e) ∨
        (∃ ir, th_pc th = PDone (Ok ir) ∧ ir_Replay ir = true ∧ rs_effs q = jb_replayed (rs_job q) ir)))
  end.

Definition link (c : conf) (t : nat) (q : rstate) : Prop :=
  jb_key (rs_job q) ≠ [] → ∃ th, c_threads c !! t = Some th ∧ claims_for (rs_job q) th ∧ stage_ok q th.

Definition linked (s : sys) : Prop := map_Forall (link (sy_conf s)) (sy_reqs s).

(** A request whose claim was not touched stays as it is. *)
Lemma link_frame c c' t q : c_threads c' !! t = c_threads c !! t → link c t q → link c' t q.
Proof. intros Ht Hl Hk. rewrite Ht. by apply Hl. Qed.

Lemma linked_put s c t q :
  linked s → (∀ t', t' ≠ t → c_threads c !! t' = c_threads (sy_conf s) !! t') → link c t q → linked (put s c t q).
Proof.
  intros Hl Hf Hq t' q'. cbn [put sy_reqs sy_conf]. rewrite lookup_insert_Some. intros [[<- <-]|[Hne Hq']]; [done|].
  eapply link_frame; [apply Hf; congruence|]. by apply Hl.
Qed.

Lemma observe_job c t q : rs_job (observe c t q) = rs_job q.
Proof. unfold observe, answer_claim. by repeat case_match. Qed.

Lemma observe_ok c t q th :
  c_threads c !! t = Some th → rs_stage q = SClaim → rs_out q = None → rs_sent q = [] → rs_effs q = [] →
  stage_ok (observe c t q) th.
Proof.
  intros Ht Hs Ho Hse He. unfold observe. rewrite Ht. destruct (th_pc th) as [| | | | |[ir|e]] eqn:Ep;
    try (unfold stage_ok; rewrite Hs, Ep; done).
  - unfold answer_claim. destruct (ir_Replay ir) eqn:Er; unfold stage_ok; cbn [in_stage rs_stage rs_out rs_sent rs_effs rs_job].
    + right. rewrite He. split; [done|]. split; [done|]. right. by exists ir.
    + split; [by exists ir|]. by rewrite He.
  - unfold answer_claim, stage_ok. cbn [in_stage rs_stage rs_out rs_sent rs_effs rs_job]. rewrite He.
    right. split; [done|]. split; [done|]. left. by exists e.
Qed.

Lemma sstep_linked s a s' : linked s → sstep s a = Some s' → linked s'.
Proof.
  intros Hl Hx. destruct a as [t ep cfg reg ws rq|t i|t t0 t1 st|t now f|now f]; cbn [sstep] in Hx.
  - destruct (sy_reqs s !! t); [done|]. destruct (prepare _ _ _ _ _) as [|j]; [by simplify_eq|].
    destruct (str_eqb (jb_key j) []) eqn:Ek; go_bool.
    + injection Hx as <-. apply linked_put; [done..|]. by intros Hne.
    + apply bind_Some in Hx as (c' & Hc & [= <-]). apply step_threads in Hc as [_ Hc].
      apply linked_put; [done|intros t' Hne; by rewrite Hc, lookup_insert_ne|].
      intros _. rewrite Hc, lookup_insert_eq. by eexists.
  - apply bind_Some in Hx as (q & Hq & Hx). destruct (rs_stage q) eqn:Es; try done.
    apply bind_Some in Hx as (c' & Hc & [= <-]). apply step_threads in Hc as (th & p & Ht & Hc).
    apply linked_put; [done|intros t' Hne; by rewrite Hc, lookup_insert_ne|].
    intros Hk. rewrite observe_job in *. destruct (Hl t q Hq Hk) as (th' & Ht' & Hcl & Hok).
    assert (th' = th) as -> by congruence. rewrite Hc, lookup_insert_eq. eexists. split; [done|]. split; [exact Hcl|].
    unfold stage_ok in Hok. rewrite Es in Hok. destruct Hok as (_ & Ho & Hse & He).
    apply observe_ok; [by rewrite Hc, lookup_insert_eq|done..].
  - apply bind_Some in Hx as (q & Hq & Hx). destruct (rs_stage q) eqn:Es; try done. injection Hx as <-.
    apply linked_put; [done..|]. intros Hk. unfold execute in *. destruct (jb_run _ _ _ _) as [c o]. cbn [rs_job] in *.
    destruct (Hl t q Hq Hk) as (th & Ht & Hcl & Hok). exists th. split; [done|]. split; [done|].
    unfold stage_ok in *. rewrite Es in Hok. cbn [rs_stage rs_out rs_effs rs_job].
    rewrite (bool_decide_false (jb_key (rs_job q) = []) Hk : str_eqb _ [] = false). destruct Hok as (Hf & _ & _ & ->).
    split; [done|]. exists o. by rewrite app_nil_r.
  - apply bind_Some in Hx as (q & Hq & Hx). destruct (rs_stage q) eqn:Es; try done.
    destruct (rs_out q) as [o|] eqn:Eo; [|done]. apply bind_Some in Hx as (c' & Hc & [= <-]). apply step_threads in Hc.
    apply linked_put; [done|by rewrite Hc|]. intros Hk. cbn [in_stage rs_job] in *. rewrite Hc.
    destruct (Hl t q Hq Hk) as (th & Ht & Hcl & Hok). exists th. split; [done|]. split; [done|].
    unfold stage_ok in *. rewrite Es, Eo in Hok. destruct Hok as (Hf & o' & [= <-] & He). left. split; [done|]. exists o.
    split; [done|]. unfold reported. cbn [in_stage rs_effs rs_job]. rewrite He, <- !app_assoc.
    eexists. split; [|reflexivity]. destruct (is_ok _); auto.
  - apply bind_Some in Hx as (c' & Hc & [= <-]). apply step_threads in Hc. intros t q Hq.
    eapply link_frame; [cbn [sy_conf]; by rewrite Hc|]. by apply Hl.
Qed.

Lemma linked_started d : linked (started d).
Proof. apply map_Forall_empty. Qed.

(** The claim of a request for [k]. *)
Lemma on_key_link s k t q :
  linked s → sy_reqs s !! t = Some q → on_key k q →
  ∃ th, c_threads (sy_conf s) !! t = Some th ∧ th_row th = Ok k ∧ th_hash th = jb_hash (rs_job q) ∧ stage_ok q th.
Proof.
  intros Hl Hq Hk. destruct (Hl t q Hq) as (th & Ht & (Hw & Hke & Hh & _) & Hok).
  { intros Hz. unfold on_key, request_key in Hk. by rewrite Hz in Hk. }
  exists th. split; [done|]. split; [|done]. unfold th_row. by rewrite Hw, Hke.
Qed.

(** Only a request that was told to run has an outcome, or sent anything. *)
Lemma ran_fresh q th : stage_ok q th → rs_sent q ≠ [] ∨ is_Some (rs_out q) → fresh th.
Proof.
  unfold stage_ok. intros Hok Hr. destruct (rs_stage q); [| |by destruct Hok|].
  - destruct Hok as (_ & Ho & Hs & _). rewrite Ho, Hs in Hr. destruct Hr as [|[? [=]]]; done.
  - by destruct Hok.
  - destruct Hok as [[? _]|(Ho & Hs & _)]; [done|]. rewrite Ho, Hs in Hr. destruct Hr as [|[? [=]]]; done.
Qed.

(** ** One run per key *)

(** The clocks the steps read, between [lo] and [lim]. *)
Definition clocks (lo lim : Z) (a : act) : Prop :=
  match a with
  | QCall _ i => (lo ≤ i_now i)%Z ∧ (i_app i ≤ lim)%Z
  | QPurge now _ => (now ≤ lim)%Z
  | _ => True
  end.

Lemma conf_act_window k lo lim s a a' :
  (lim ≤ lo + hours24)%Z → clocks lo lim a → conf_act s a = Some a' → in_window k lo lim a'.
Proof.
  intros Hlim Ha Hx. destruct a as [t ep cfg reg ws rq|t i|t t0 t1 st|t now f|now f]; cbn [conf_act] in Hx.
  - destruct (prepare _ _ _ _ _) as [|j]; [done|]. destruct (str_eqb _ []); [done|].
    injection Hx as <-. by intros _.
  - by injection Hx as <-.
  - done.
  - apply bind_Some in Hx as (q & _ & Hx). by apply bind_Some in Hx as (o & _ & [= <-]).
  - by injection Hx as <-.
Qed.

Lemma sstep_window k lo lim s a s' :
  (lim ≤ lo + hours24)%Z → clocks lo lim a → window_inv k lo lim (sy_conf s) → sstep s a = Some s' →
  window_inv k lo lim (sy_conf s').
Proof.
  intros Hlim Ha Hinv Hx. apply sstep_conf in Hx. destruct (conf_act s a) as [a'|] eqn:Ea; [|by rewrite Hx].
  eapply step_window; [|exact Hinv|exact Hx]. by eapply conf_act_window.
Qed.

Definition inv (k : uuid * bytes) (lo lim : Z) (s : sys) : Prop := linked s ∧ window_inv k lo lim (sy_conf s).

Lemma sstep_inv k lo lim s a s' :
  (lim ≤ lo + hours24)%Z → clocks lo lim a → inv k lo lim s → sstep s a = Some s' → inv k lo lim s'.
Proof. intros Hlim Ha [Hl Hi] Hx. split; [by eapply sstep_linked|by eapply sstep_window]. Qed.

Lemma window_started k lo lim d : db_idem d !! k = None → window_inv k lo lim (sy_conf (started d)).
Proof.
  intros Hd. split; cbn [started sy_conf c_db c_threads].
  - intros h e. unfold claim_of. by rewrite Hd.
  - intros t th Ht. by apply lookup_empty_Some in Ht.
  - intros t t' th th' Ht. by apply lookup_empty_Some in Ht.
Qed.

Lemma runs_inv k lo lim d acts s :
  db_idem d !! k = None → (lim ≤ lo + hours24)%Z → Forall (clocks lo lim) acts → ssteps (started d) acts = Some s →
  inv k lo lim s.
Proof.
  intros Hd Hlim Hw Hx. refine (ssteps_ind (inv k lo lim) (clocks lo lim) _ acts _ _ Hw _ Hx).
  - intros s0 a s1 Ha Hi Hs. by eapply sstep_inv.
  - split; [apply linked_started|by apply window_started].
Qed.

(** Two requests for [k] that ran are one. *)
Lemma one_run k lo lim s t t' q q' :
  inv k lo lim s → sy_reqs s !! t = Some q → sy_reqs s !! t' = Some q' → on_key k q → on_key k q' →
  rs_sent q ≠ [] ∨ is_Some (rs_out q) → rs_sent q' ≠ [] ∨ is_Some (rs_out q') → t = t'.
Proof.
  intros [Hl Hi] Hq Hq' Hk Hk' Hr Hr'.
  destruct (on_key_link _ _ _ _ Hl Hq Hk) as (th & Ht & Hrow & _ & Hok).
  destruct (on_key_link _ _ _ _ Hl Hq' Hk') as (th' & Ht' & Hrow' & _ & Hok').
  eapply (wi_one _ _ _ _ Hi); [done..| |]; left; by eapply ran_fresh.
Qed.

(** C5: Under concurrency a key reaches the tenant database at most once. Any
    number of SQL requests and procedure calls, at any number of gateways, in any
    interleaving of the statements of their claims, their runs and completions
    and of purges, with calls failing anywhere: of the requests that carry one
    idempotency key in one workspace, whatever they ask for, at most one has sent
    anything to the tenant database, as long as the key was new at the start and
    no clock is 24 hours past the first. *)
Theorem concurrent_once k lo lim d acts s t t' q q' :
  db_idem d !! k = None → (lim ≤ lo + hours24)%Z → Forall (clocks lo lim) acts → ssteps (started d) acts = Some s →
  sy_reqs s !! t = Some q → sy_reqs s !! t' = Some q' → on_key k q → on_key k q' →
  rs_sent q ≠ [] → rs_sent q' ≠ [] → t = t'.
Proof. intros Hd Hlim Hw Hx Hq Hq' Hk Hk' Hs Hs'. pose proof (runs_inv _ _ _ _ _ _ Hd Hlim Hw Hx). eapply one_run; eauto. Qed.

(** ** Replays *)

(** A request for [k] ran, ended in [o] and has tried to complete the key. *)
Definition settled (k : uuid * bytes) (s : sys) (o : outcome) : Prop :=
  ∃ t q, sy_reqs s !! t = Some q ∧ on_key k q ∧ rs_out q = Some o ∧ rs_stage q = SDone.

(** What a row holds, a claim read or a request was told comes from an outcome in
    [P]. *)
Definition stored_as (P : outcome → Prop) (st : option Z) (body : option bytes) : Prop :=
  ∃ o, P o ∧ st = Some (o_status o) ∧ body = Some (gz_compress (o_body o)).

Definition told (P : outcome → Prop) (ir : IdempotencyResult) : Prop :=
  ir_Replay ir = false ∨ ∃ o, P o ∧ ir_StatusCode ir = o_status o ∧ ir_Body ir = o_body o.

Definition pc_recorded (P : outcome → Prop) (p : pc) : Prop :=
  match p with
  | PCommit (Some (WInsert row)) cl => ir_state row = StatePending ∧ cl = Fresh
  | PCommit _ (Stored st body) => stored_as P st body
  | PDone (Ok ir) => told P ir
  | _ => True
  end.

Record recorded (k : uuid * bytes) (P : outcome → Prop) (c : conf) : Prop := {
  rc_row row : db_idem (c_db c) !! k = Some row →
    ir_state row = StatePending ∨ stored_as P (ir_status_code row) (ir_response_body row);
  rc_pc t th : c_threads c !! t = Some th → th_row th = Ok k → pc_recorded P (th_pc th);
}.

Lemma stored_as_mono (P Q : outcome → Prop) st body :
  (∀ o, P o → Q o) → stored_as P st body → stored_as Q st body.
Proof. intros Hpq (o & Ho & Hs). exists o. auto. Qed.

Lemma recorded_mono k (P Q : outcome → Prop) c : (∀ o, P o → Q o) → recorded k P c → recorded k Q c.
Proof.
  intros Hpq [Hr Ht]. split.
  - intros row Hrow. destruct (Hr row Hrow) as [|Hst]; [by left|right]. by eapply stored_as_mono.
  - intros t th Hth Hk. specialize (Ht t th Hth Hk). destruct (th_pc th) as [| | | |[[row|]|] []|[ir|e]]; try done;
      try (by eapply stored_as_mono).
    destruct Ht as [|(o & Ho & Hs)]; [by left|right]. exists o. auto.
Qed.

Context `{!GzipLaws}.

(** A stored response decodes to the outcome it was stored for. *)
Lemma finish_recorded P w cl :
  pc_recorded P (PCommit w cl) → pc_recorded P (finish cl).
Proof.
  intros Hp. destruct cl as [| | | |st body]; simpl; try done; [by left|].
  assert (stored_as P st body) as (o & Ho & -> & ->) by (destruct w as [[row|]|]; simpl in Hp; [by destruct Hp|done..]).
  unfold gunzip. simpl. pose proof (gz_compress_ne (o_body o)) as Hne.
  rewrite gz_read_compress. destruct (gz_compress (o_body o)); [done|]. right. by exists o.
Qed.

Lemma recorded_move k P c d t th p :
  recorded k P c → c_threads c !! t = Some th → (th_row th = Ok k → pc_recorded P p) →
  (∀ row, db_idem d !! k = Some row → db_idem (c_db c) !! k = Some row ∨ ir_state row = StatePending) →
  recorded k P {| c_db := d; c_threads := <[t := at_pc th p]> (c_threads c) |}.
Proof.
  intros [Hr Ht] Hth Hp Hd. split; cbn [c_db c_threads].
  - intros row Hrow. destruct (Hd row Hrow) as [Hrow'|]; [by apply Hr|by left].
  - intros t' th'. rewrite lookup_insert_Some. intros [[<- <-]|[_ Ht']] Hk; [by apply Hp|by eapply Ht].
Qed.

(** The calls of a claim. *)
Lemma call_recorded k P c t th k' i d p :
  recorded k P c → c_threads c !! t = Some th → th_row th = Ok k' → call c t th k' i = Some (d, p) →
  (k' = k → pc_recorded P p) ∧
  (∀ row, db_idem d !! k = Some row → db_idem (c_db c) !! k = Some row ∨ (k' = k ∧ ir_state row = StatePending)).
Proof.
  intros [Hr Ht] Hth Hk' Hx. unfold call in Hx.
  destruct (th_pc th) as [|now| | |w cl|r] eqn:Ep; [| | | | |done];
    try (apply fmap_Some in Hx as (p' & Hs & [= -> ->]); split; [intros ->|by left];
         unfold statement in Hs; (destruct (i_fault i); [|by simplify_eq..])).
  - by simplify_eq.
  - repeat case_match; by simplify_eq.
  - unfold select_idem in Hs. destruct (db_idem (c_db c) !! k) as [row|] eqn:Er; simplify_eq; [|done].
    unfold decide_row. destruct (_ <? _)%Z; [done|]. destruct (negb _); [done|].
    destruct (bool_decide _) eqn:Eb; [done|]. apply bool_decide_eq_false in Eb. simpl. by destruct (Hr row eq_refl).
  - repeat case_match; by simplify_eq.
  - assert (k' = k → pc_recorded P (PCommit w cl)) as Hpc by (intros ->; rewrite <- Ep; by eapply Ht).
    split.
    + intros Heq. specialize (Hpc Heq). pose proof (finish_recorded _ _ _ Hpc).
      destruct (i_fault i); simplify_eq; [done|destruct (commit_ignored cl); done..].
    + intros row Hrow.
      assert (d = c_db c ∨ d = apply_write k' w (c_db c)) as [->| ->] by (destruct (i_fault i); simplify_eq; auto); [by left|].
      destruct w as [[new|]|]; simpl in Hrow; [| |by left].
      * apply lookup_insert_Some in Hrow as [[-> <-]|[_ ?]]; [|by left]. right. split; [done|]. by apply Hpc.
      * apply lookup_delete_Some in Hrow as [_ ?]. by left.
Qed.

(** A completion stores the outcome it is for. *)
Lemma Complete_recorded k P c ws key o now f :
  k.2 ≠ [] → recorded k P c → (request_key ws key = Ok k → P o) →
  recorded k P (single c now f (Complete ws key (o_status o) (o_body o) (o_ok o))).
Proof.
  intros Hne [Hr Ht] Hp. split; [|exact Ht]. cbn [single set_c_db c_db]. unfold Complete, mbind, mlift, gzipBytes.
  assert (∀ u, uuid_Parse ws = Ok u → (u, key) = k → P o) as Hpo.
  { intros u Hu Hk. apply Hp. unfold request_key. rewrite <- Hk in Hne |- *.
    rewrite Hu. by rewrite (bool_decide_false (key = []) Hne : str_eqb _ [] = false). }
  destruct (uuid_Parse ws) as [u|e]; [|exact Hr]. specialize (Hpo u eq_refl).
  assert (∀ row, db_idem (set_idem (c_db c) (alter (complete_row (if o_ok o then StateDone else StateFailed) (o_status o)
            (gz_compress (o_body o)) now) (u, key) (db_idem (c_db c)))) !! k = Some row →
          ir_state row = StatePending ∨ stored_as P (ir_status_code row) (ir_response_body row)) as Hnew.
  { intros row. cbn [set_idem db_idem]. destruct (decide ((u, key) = k)) as [Heq|Hne'].
    - rewrite Heq, lookup_alter_eq. intros (row0 & _ & ->)%fmap_Some. right. exists o. auto.
    - rewrite lookup_alter_ne by done. apply Hr. }
  unfold exec. simpl. destruct f; [exact Hnew|exact Hr|exact Hnew].
Qed.

Lemma step_recorded k P c a c' :
  k.2 ≠ [] → recorded k P c → step c a = Some c' →
  (∀ ws key st body ok now f, a = AComplete ws key st body ok now f →
     ∃ o, st = o_status o ∧ body = o_body o ∧ ok = o_ok o ∧ (request_key ws key = Ok k → P o)) →
  recorded k P c'.
Proof.
  intros Hne Hrec Hx Hc. destruct a as [t ws key hash ttl|t i|ws key status body ok now f|now f]; cbn [step] in Hx.
  - destruct (c_threads c !! t) as [th|] eqn:Et; [done|]. injection Hx as <-. destruct Hrec as [Hr Ht].
    split; [exact Hr|]. cbn [c_threads]. intros t' th'. rewrite lookup_insert_Some. intros [[<- <-]|[_ H']]; [done|by eapply Ht].
  - unfold IdemConcurrent.run_thread in Hx. destruct (c_threads c !! t) as [th|] eqn:Et; [|done].
    destruct (th_row th) as [k'|e] eqn:Ek.
    2: { assert (c' = {| c_db := c_db c; c_threads := <[t := at_pc th (PDone (Err e))]> (c_threads c) |}) as ->
           by (destruct (th_pc th); congruence).
         apply recorded_move; [done..|by left]. }
    assert (∃ d p, call c t th k' i = Some (d, p) ∧
              c' = {| c_db := d; c_threads := <[t := at_pc th p]> (c_threads c) |}) as (d & p & Hcall & ->).
    { destruct (th_pc th); [..|done]; apply bind_Some in Hx as ([d p] & Hc' & [= <-]); eauto. }
    destruct (call_recorded k P _ _ _ _ _ _ _ Hrec Et Ek Hcall) as [Hp Hd].
    apply recorded_move; [done|done|intros Hk; apply Hp; congruence|].
    intros row Hrow. destruct (Hd row Hrow) as [|[_ ?]]; auto.
  - destruct (complete_waits _ _ _); [done|]. injection Hx as <-.
    destruct (Hc _ _ _ _ _ _ _ eq_refl) as (o & -> & -> & -> & Hp). by apply Complete_recorded.
  - destruct (purge_waits _ _); [done|]. injection Hx as <-. destruct Hrec as [Hr Ht]. split; [|exact Ht].
    cbn [single set_c_db c_db]. unfold PurgeExpired, exec. simpl. destruct f; simpl; [|exact Hr|];
      intros row [Hrow _]%map_lookup_filter_Some; by apply Hr.
Qed.

Lemma on_key_keyed k q : on_key k q → jb_key (rs_job q) ≠ [].
Proof. unfold on_key, request_key. intros Hk Hz. by rewrite Hz in Hk. Qed.

(** What a step does to the requests: the others stay, its own keeps its job and,
    if it has one, its outcome, and does not go back from its end. *)
Lemma sstep_reqs s a s' t q :
  linked s → sstep s a = Some s' → sy_reqs s !! t = Some q →
  ∃ q', sy_reqs s' !! t = Some q' ∧ rs_job q' = rs_job q ∧ (rs_stage q = SDone → q' = q) ∧
    (jb_key (rs_job q) ≠ [] → ∀ o, rs_out q = Some o → rs_out q' = Some o).
Proof.
  intros Hl Hx Hq.
  assert (∀ t2 c q2 q2', sy_reqs s !! t2 = Some q2 → s' = put s c t2 q2' → rs_stage q2 ≠ SDone → rs_job q2' = rs_job q2 →
            (jb_key (rs_job q2) ≠ [] → ∀ o, rs_out q2 = Some o → rs_out q2' = Some o) →
          ∃ q', sy_reqs s' !! t = Some q' ∧ rs_job q' = rs_job q ∧ (rs_stage q = SDone → q' = q) ∧
            (jb_key (rs_job q) ≠ [] → ∀ o, rs_out q = Some o → rs_out q' = Some o)) as Hput.
  { intros t2 c q2 q2' H2' -> Hs Hj Ho. cbn [put sy_reqs]. destruct (decide (t2 = t)) as [->|Hne].
    - rewrite lookup_insert_eq. simplify_eq. by exists q2'.
    - rewrite lookup_insert_ne by done. by exists q. }
  destruct a as [t2 ep cfg reg ws rq|t2 i|t2 t0 t1 st|t2 now f|now f]; cbn [sstep] in Hx.
  - destruct (sy_reqs s !! t2) eqn:E2; [done|]. assert (t2 ≠ t) by congruence.
    destruct (prepare _ _ _ _ _) as [|j]; [injection Hx as <-; by exists q|].
    exists q. destruct (str_eqb _ []); [injection Hx as <-|apply bind_Some in Hx as (c' & _ & [= <-])];
      cbn [put sy_reqs]; by rewrite lookup_insert_ne.
  - apply bind_Some in Hx as (q2 & Hq2 & Hx). destruct (rs_stage q2) eqn:Es; try done.
    apply bind_Some in Hx as (c' & _ & [= <-]). eapply Hput; [exact Hq2|reflexivity|congruence|apply observe_job|].
    intros _ o Ho. unfold observe, answer_claim. by repeat case_match.
  - apply bind_Some in Hx as (q2 & Hq2 & Hx). destruct (rs_stage q2) eqn:Es; try done. injection Hx as <-.
    eapply Hput; [exact Hq2|reflexivity|congruence|..]; unfold execute; destruct (jb_run _ _ _ _) as [c o]; [done|].
    intros Hk o' Ho. destruct (Hl t2 q2 Hq2 Hk) as (th & _ & _ & Hok). unfold stage_ok in Hok. rewrite Es in Hok.
    destruct Hok as (_ & Hn & _). congruence.
  - apply bind_Some in Hx as (q2 & Hq2 & Hx). destruct (rs_stage q2) eqn:Es; try done. destruct (rs_out q2) eqn:Eo; [|done].
    apply bind_Some in Hx as (c' & _ & [= <-]). eapply Hput; [exact Hq2|reflexivity|congruence|done|].
    intros _ o' Ho. cbn [in_stage rs_out]. congruence.
  - apply bind_Some in Hx as (c' & _ & [= <-]). by exists q.
Qed.

Lemma settled_mono k s a s' o : linked s → sstep s a = Some s' → settled k s o → settled k s' o.
Proof.
  intros Hl Hx (t & q & Hq & Hk & Ho & Hs). destruct (sstep_reqs _ _ _ _ _ Hl Hx Hq) as (q' & Hq' & _ & Hd & _).
  rewrite (Hd Hs) in Hq'. by exists t, q.
Qed.

(** The completion a step makes. *)
Lemma conf_act_complete s a s' ws key st body ok now f :
  sstep s a = Some s' → conf_act s a = Some (AComplete ws key st body ok now f) →
  ∃ t q o, sy_reqs s !! t = Some q ∧ rs_stage q = SComplete ∧ rs_out q = Some o ∧ a = QComplete t now f ∧
    ws = jb_ws (rs_job q) ∧ key = jb_key (rs_job q) ∧ st = o_status o ∧ body = o_body o ∧ ok = o_ok o ∧
    ∃ effs, sy_reqs s' !! t = Some (in_stage q SDone effs).
Proof.
  intros Hx Ea. destruct a as [t ep cfg reg ws' rq|t i|t t0 t1 st'|t now' f'|now' f']; cbn [conf_act] in Ea; try done.
  { destruct (prepare _ _ _ _ _); [done|]. by destruct (str_eqb _ []). }
  apply bind_Some in Ea as (q & Hq & Ea). apply bind_Some in Ea as (o & Ho & [= <- <- <- <- <- <- <-]).
  cbn [sstep] in Hx. rewrite Hq in Hx. cbn [base.mbind option_bind] in Hx. destruct (rs_stage q) eqn:Es; try done.
  rewrite Ho in Hx. apply bind_Some in Hx as (c' & _ & [= <-]). exists t, q, o. repeat (split; [done|]).
  eexists. cbn [put sy_reqs]. by rewrite lookup_insert_eq.
Qed.

Lemma sstep_recorded k s a s' :
  k.2 ≠ [] → linked s → recorded k (settled k s) (sy_conf s) → sstep s a = Some s' → recorded k (settled k s') (sy_conf s').
Proof.
  intros Hne Hl Hr Hx. apply (recorded_mono _ _ (settled k s')) in Hr; [|intros o; by eapply settled_mono].
  pose proof (sstep_conf _ _ _ Hx) as Hc. destruct (conf_act s a) as [a'|] eqn:Ea; [|by rewrite Hc].
  eapply step_recorded; [done..|]. intros ws key st body ok now f ->.
  destruct (conf_act_complete _ _ _ _ _ _ _ _ _ _ Hx Ea) as (t & q & o & Hq & _ & Ho & _ & -> & -> & -> & -> & -> & effs & Hq').
  exists o. repeat split; try done. intros Hk. by exists t, (in_stage q SDone effs).
Qed.

Lemma on_key_ne k q : on_key k q → k.2 ≠ [].
Proof.
  unfold on_key, request_key. destruct (str_eqb _ []) eqn:E; [done|]. go_bool. destruct (uuid_Parse _); by intros [= <-].
Qed.

Lemma runs_recorded k d acts s :
  k.2 ≠ [] → db_idem d !! k = None → ssteps (started d) acts = Some s → recorded k (settled k s) (sy_conf s).
Proof.
  intros Hne Hd Hx.
  refine (proj2 (ssteps_ind (fun s => linked s ∧ recorded k (settled k s) (sy_conf s)) (fun _ => True) _ acts _ _ _ _ Hx)).
  - intros s0 a s1 _ [Hl Hr] Hs. split; [by eapply sstep_linked|by eapply sstep_recorded].
  - by apply Forall_true.
  - split; [apply linked_started|]. split; cbn [started sy_conf c_db c_threads]; [congruence|].
    intros t th Ht. by apply lookup_empty_Some in Ht.
Qed.

(** Every request in the system can answer, and every run did. *)
Definition responsive (s : sys) : Prop :=
  map_Forall (fun _ q => answering (rs_job q) ∧ ∀ o, rs_out q = Some o → answers_once o) (sy_reqs s).

Lemma responsive_put s c t q :
  responsive s → answering (rs_job q) → (∀ o, rs_out q = Some o → answers_once o) → responsive (put s c t q).
Proof. intros Hr Hj Ho. by apply map_Forall_insert_2. Qed.

Lemma sstep_responsive s a s' : responsive s → sstep s a = Some s' → responsive s'.
Proof.
  intros Hr Hx. destruct a as [t ep cfg reg ws rq|t i|t t0 t1 st|t now f|now f]; cbn [sstep] in Hx.
  - destruct (sy_reqs s !! t); [done|]. destruct (prepare _ _ _ _ _) as [|j] eqn:Ej; [by simplify_eq|].
    assert (answering j) as Hj by (destruct ep; [by eapply sql_job_answering|by eapply rpc_job_answering]).
    destruct (str_eqb _ []); [injection Hx as <-|apply bind_Some in Hx as (c' & _ & [= <-])]; by apply responsive_put.
  - apply bind_Some in Hx as (q & Hq & Hx). destruct (rs_stage q); try done. destruct (Hr t q Hq) as [Hj Ho].
    apply bind_Some in Hx as (c' & _ & [= <-]). apply responsive_put; [done|by rewrite observe_job|].
    unfold observe, answer_claim. by repeat case_match.
  - apply bind_Some in Hx as (q & Hq & Hx). destruct (rs_stage q); try done. destruct (Hr t q Hq) as [Hj Ho].
    injection Hx as <-. pose proof (an_run _ Hj t0 t1 {| cn_state := st; cn_log := [] |}) as Hrun.
    unfold execute. destruct (jb_run _ _ _ _) as [c o]. apply responsive_put; [done..|]. by intros o' [= <-].
  - apply bind_Some in Hx as (q & Hq & Hx). destruct (rs_stage q); try done. destruct (Hr t q Hq) as [Hj Ho].
    destruct (rs_out q) eqn:Eo; [|done]. apply bind_Some in Hx as (c' & _ & [= <-]).
    apply responsive_put; [done..|]. cbn [in_stage rs_out]. by rewrite Eo.
  - by apply bind_Some in Hx as (c' & _ & [= <-]).
Qed.

Lemma runs_responsive d acts s : ssteps (started d) acts = Some s → responsive s.
Proof.
  intros Hx. refine (ssteps_ind responsive (fun _ => True) _ acts _ _ _ _ Hx).
  - intros ???? ?. by apply sstep_responsive.
  - by apply Forall_true.
  - apply map_Forall_empty.
Qed.

Lemma responses_app (a b : list effect) : responses (a ++ b) = responses a ++ responses b.
Proof. apply flat_map_app. Qed.

Lemma reported_once q o :
  answering (rs_job q) → answers_once o → reported q o → ∃ status body, responses (rs_effs q) = [(status, body)].
Proof.
  intros Hj [(st & body & Hr) Hw] (warn & Hwarn & ->). exists st, body. rewrite !responses_app, (an_missed _ Hj) in *.
  destruct Hwarn as [-> | ->]; [done|]. by rewrite Hw.
Qed.

(** ** The requests behind the hashes *)

(** The request [rq] arrived as number [t] and became [q]. *)
Definition arrived (acts : list act) (t : nat) (q : rstate) (rq : http_request) : Prop :=
  ∃ ep cfg reg ws, QArrive t ep cfg reg ws rq ∈ acts ∧ prepare ep cfg reg ws rq = inr (rs_job q).

Lemma sstep_arrived acts s a s' :
  a ∈ acts → linked s → map_Forall (fun t q => ∃ rq, arrived acts t q rq) (sy_reqs s) → sstep s a = Some s' →
  map_Forall (fun t q => ∃ rq, arrived acts t q rq) (sy_reqs s').
Proof.
  intros Ha Hl Hs Hx t q' Hq'. destruct (sy_reqs s !! t) as [q|] eqn:Hq.
  - destruct (sstep_reqs _ _ _ _ _ Hl Hx Hq) as (q2 & Hq2 & Hj & _). assert (q2 = q') as -> by congruence.
    destruct (Hs t q Hq) as (rq & ep & cfg & reg & ws & Hin & Hp). exists rq, ep, cfg, reg, ws. by rewrite Hj.
  - assert (∀ c t2 q2, s' = put s c t2 q2 → t2 = t ∧ q2 = q') as Hput.
    { intros c t2 q2 ->. cbn [put sy_reqs] in Hq'. apply lookup_insert_Some in Hq' as [[-> ->]|[_ ?]]; [done|congruence]. }
    destruct a as [t2 ep cfg reg ws rq|t2 i|t2 t0 t1 st|t2 now f|now f]; cbn [sstep] in Hx.
    + destruct (sy_reqs s !! t2); [done|]. destruct (prepare _ _ _ _ _) as [|j] eqn:Ej; [simplify_eq; congruence|].
      destruct (str_eqb _ []); [injection Hx as Hx|apply bind_Some in Hx as (c' & _ & [= Hx])];
        symmetry in Hx; destruct (Hput _ _ _ Hx) as [Et Ej2]; exists rq, ep, cfg, reg, ws; rewrite <- Et, <- Ej2; done.
    + apply bind_Some in Hx as (q2 & Hq2 & Hx). destruct (rs_stage q2); try done.
      apply bind_Some in Hx as (c' & _ & [= Hx]). symmetry in Hx. destruct (Hput _ _ _ Hx) as [Et _]. congruence.
    + apply bind_Some in Hx as (q2 & Hq2 & Hx). destruct (rs_stage q2); try done. injection Hx as Hx.
      symmetry in Hx. destruct (Hput _ _ _ Hx) as [Et _]. congruence.
    + apply bind_Some in Hx as (q2 & Hq2 & Hx). destruct (rs_stage q2); try done. destruct (rs_out q2); [|done].
      apply bind_Some in Hx as (c' & _ & [= Hx]). symmetry in Hx. destruct (Hput _ _ _ Hx) as [Et _]. congruence.
    + apply bind_Some in Hx as (c' & _ & [= <-]). cbn [sy_reqs] in Hq'. congruence.
Qed.

Lemma runs_arrived d acts s t q :
  ssteps (started d) acts = Some s → sy_reqs s !! t = Some q → ∃ rq, arrived acts t q rq.
Proof.
  intros Hx. revert t q.
  refine (proj2 (ssteps_ind (fun s => linked s ∧ map_Forall (fun t q => ∃ rq, arrived acts t q rq) (sy_reqs s))
    (fun a => a ∈ acts) _ acts _ _ _ _ Hx)).
  - intros s0 a s1 Ha [Hl Hs] Hx1. split; [by eapply sstep_linked|by eapply sstep_arrived].
  - by apply Forall_forall.
  - split; [apply linked_started|apply map_Forall_empty].
Qed.

Lemma prepare_hash ep cfg reg ws rq j :
  prepare ep cfg reg ws rq = inr j → ∃ body, hr_Body rq = Ok body ∧ jb_hash j = HashRequest (hr_Method rq) (hr_Path rq) body.
Proof.
  destruct ep; cbn [prepare]; unfold sql_job, rpc_job; destruct (hr_Body rq) as [body|e]; try done; intros Hx;
    exists body; (split; [done|]); repeat case_match; by simplify_eq.
Qed.

(** The server routes a method and a path without NUL bytes. *)
Definition routed (a : act) : Prop :=
  match a with
  | QArrive _ _ _ _ _ rq => (x00 ∉ hr_Method rq) ∧ (x00 ∉ hr_Path rq)
  | _ => True
  end.

(** Two requests with the same method, path and body, unless the bytes their hashes
    are made from are a collision of SHA-256. *)
Definition same_request (rq rq' : http_request) : Prop :=
  ∃ b b', hr_Body rq = Ok b ∧ hr_Body rq' = Ok b' ∧
    let x := hashed (hr_Method rq) (hr_Path rq) b in let x' := hashed (hr_Method rq') (hr_Path rq') b' in
    (hr_Method rq' = hr_Method rq ∧ hr_Path rq' = hr_Path rq ∧ b' = b) ∨ (x' ≠ x ∧ Sum256 x' = Sum256 x).

Lemma arrived_same acts t q t' q' rq rq' :
  Forall routed acts → arrived acts t q rq → arrived acts t' q' rq' → jb_hash (rs_job q') = jb_hash (rs_job q) →
  same_request rq rq'.
Proof.
  intros Hr (ep & cfg & reg & ws & Hin & Hp) (ep' & cfg' & reg' & ws' & Hin' & Hp') Hh.
  rewrite Forall_forall in Hr. apply Hr in Hin as [Hm Hpa], Hin' as [Hm' Hpa'].
  apply prepare_hash in Hp as (b & Hb & Ej), Hp' as (b' & Hb' & Ej'). rewrite Ej, Ej' in Hh. exists b, b'.
  split; [done|]. split; [done|]. by apply HashRequest_same.
Qed.

(** C6: What the requests for one key are answered, under concurrency. In every
    interleaving as above, a request that is finished has sent one response, and
    - it is the one that ran, and did what its run says, with a warning when its key
      could not be completed; or
    - it was refused with an error status, without reaching the tenant database:
      another one is in progress or asked for something else, or a call failed; or
    - its response is the very status and body that the run of the one other
      request was completed with, which arrived with the same method, path and
      body, unless the two are a collision of SHA-256, again without reaching the
      tenant database. *)
Theorem concurrent_answers k lo lim d acts s t q :
  db_idem d !! k = None → (lim ≤ lo + hours24)%Z → Forall (clocks lo lim) acts → Forall routed acts →
  ssteps (started d) acts = Some s → sy_reqs s !! t = Some q → on_key k q → rs_stage q = SDone →
  ∃ status body, responses (rs_effs q) = [(status, body)] ∧
  ((∃ o, rs_out q = Some o ∧ reported q o) ∨
   (rs_sent q = [] ∧ (400 ≤ status)%Z) ∨
   (rs_sent q = [] ∧ ∃ t' q' o rq rq', t' ≠ t ∧ sy_reqs s !! t' = Some q' ∧ on_key k q' ∧ rs_out q' = Some o ∧
      arrived acts t q rq ∧ arrived acts t' q' rq' ∧ same_request rq rq' ∧ status = o_status o ∧ body = o_body o)).
Proof.
  intros Hd Hlim Hw Hro Hx Hq Hk Hdone. pose proof (runs_inv _ _ _ _ _ _ Hd Hlim Hw Hx) as [Hl Hi].
  pose proof (runs_recorded _ _ _ _ (on_key_ne _ _ Hk) Hd Hx) as [_ Hrt].
  destruct (runs_responsive _ _ _ Hx t q Hq) as [Hj Hao].
  destruct (on_key_link _ _ _ _ Hl Hq Hk) as (th & Ht & Hrow & Hh & Hok).
  unfold stage_ok in Hok. rewrite Hdone in Hok.
  destruct Hok as [[_ (o & Ho & Hrep)]|(Ho & Hs & [(e & _ & He)|(ir & Hp & Hrep & He)])].
  - destruct (reported_once q o Hj (Hao o Ho) Hrep) as (st & body & Hr). exists st, body. split; [done|]. left. eauto.
  - destruct (an_refused _ Hj e) as (st & body & Hr & Hst). exists st, body. rewrite He. auto.
  - exists (ir_StatusCode ir), (ir_Body ir). rewrite He. split; [apply (an_replayed _ Hj)|]. right. right. split; [done|].
    pose proof (Hrt t th Ht Hrow) as Htold. rewrite Hp in Htold.
    destruct Htold as [Hf|(o & (t' & q' & Hq' & Hk' & Ho' & _) & Hst & Hbody)]; [congruence|].
    destruct (runs_arrived _ _ _ _ _ Hx Hq) as [rq Hrq], (runs_arrived _ _ _ _ _ Hx Hq') as [rq' Hrq'].
    exists t', q', o, rq, rq'. split; [intros ->; congruence|]. repeat (split; [done|]). split; [|done].
    eapply arrived_same; [done..|].
    destruct (on_key_link _ _ _ _ Hl Hq' Hk') as (th' & Ht' & Hrow' & Hh' & Hok').
    destruct (ran_fresh _ _ Hok') as (ir' & Hp' & _); [right; by eexists|].
    destruct (wi_pc _ _ _ _ Hi _ _ Ht Hrow) as [_ Hv]. destruct (wi_pc _ _ _ _ Hi _ _ Ht' Hrow') as [_ Hv'].
    rewrite Hp in Hv. rewrite Hp' in Hv'. destruct Hv as [e1 Hv], Hv' as [e2 Hv']. congruence.
Qed.
End Interleaved.

(** ** A concrete system *)

#[local] Existing Instance text_uuid.
#[local] Existing Instance RpcDemo.lib.
#[local] Existing Instance IdemDemo.gz.
#[local] Existing Instance IdemDemo.gz_laws.
#[local] Existing Instance ValidatorDemo.unicode.
#[local] Existing Instance ValidatorDemo.parser.
#[local] Existing Instance ApiDemo.json.

Module SharedDemo.
Definition k : uuid * bytes := (Demo.uid (bs "ws"), bs "K").

Definition arrive (t : nat) (ep : endpoint) (body : bytes) : act (S := unit) :=
  QArrive t ep ApiDemo.cfg RpcDemo.reg (ApiDemo.ws (bs "dbuser")) (ApiDemo.request body).

Definition calls (t : nat) (now : Z) (id : byte) (n : nat) : list (act (S := unit)) :=
  repeat (QCall t (RaceDemo.at_ now id)) n.

Definition run_acts (acts : list (act (S := unit))) : option sys :=
  ssteps ExecDemo.server ExecDemo.marshal (started Demo.db0) acts.

(** A statement sent twice and a procedure call with the same key. The second copy
    inserts while the first claim is open, and has to wait for it. *)
Definition race : list (act (S := unit)) :=
  [arrive 1 EpSQL ValidatorDemo.select2; arrive 2 EpSQL ValidatorDemo.select2] ++ calls 1 10 x61 2 ++ calls 2 11 x62 1 ++
  calls 1 12 x61 1 ++ [QExec 1 12 20 tt; arrive 3 EpRPC (bs "upsert_document")] ++ calls 3 21 x63 4 ++
  [QComplete 1 22 NoFault] ++ calls 2 23 x62 3.

Definition on_keyb (q : rstate (V := bytes) (S := unit)) : bool :=
  match request_key (jb_ws (rs_job q)) (jb_key (rs_job q)) with
  | Ok k' => bool_decide (k' = k)
  | Err _ => false
  end.

Definition is_done (q : rstate (V := bytes) (S := unit)) : bool :=
  match rs_stage q with SDone => true | _ => false end.

(** The request [t] is one for [k], is finished, and got this response. *)
Definition finished (s : sys) (t : nat) (sent : bool) (status : Z) (body : bytes) : bool :=
  match sy_reqs s !! t with
  | Some q => on_keyb q && is_done q && Bool.eqb (negb (bool_decide (length (rs_sent q) = 0))) sent &&
              bool_decide (responses (rs_effs q) = [(status, body)])
  | None => false
  end.

Lemma on_keyb_spec q : on_keyb q = true → on_key k q.
Proof. unfold on_keyb, on_key. destruct (request_key _ _); [|done]. by intros ->%bool_decide_eq_true. Qed.

Lemma finished_spec s t sent status body :
  finished s t sent status body = true →
  ∃ q, sy_reqs s !! t = Some q ∧ on_key k q ∧ rs_stage q = SDone ∧ (sent = true → rs_sent q ≠ []) ∧
    responses (rs_effs q) = [(status, body)].
Proof.
  unfold finished. destruct (sy_reqs s !! t) as [q|]; [|done].
  intros [[[Hk Hd]%andb_true_iff Hs]%andb_true_iff Hr]%andb_true_iff. exists q. split; [done|].
  split; [by apply on_keyb_spec|]. split; [unfold is_done in Hd; by destruct (rs_stage q)|].
  apply bool_decide_eq_true in Hr. split; [|done]. intros ->. by destruct (rs_sent q).
Qed.

(** The first copy runs, the second gets its response, the procedure call is refused. *)
Lemma race_runs :
  ∃ s, run_acts race = Some s ∧ finished s 1 true 200 (bs "hello") = true ∧
    finished s 2 false 200 (bs "hello") = true ∧ finished s 3 false 409 (bs "idempotency_conflict" ++ newline) = true.
Proof.
  assert (match run_acts race with
          | Some s => finished s 1 true 200 (bs "hello") && finished s 2 false 200 (bs "hello") &&
                      finished s 3 false 409 (bs "idempotency_conflict" ++ newline)
          | None => false
          end = true) as Hx by (vm_compute; reflexivity).
  destruct (run_acts race) as [s|]; [|done]. exists s.
  apply andb_true_iff in Hx as [[H1' H2']%andb_true_iff H3']. done.
Qed.
End SharedDemo.

Lemma concurrent_once_witness :
  ∃ s q1 q2, SharedDemo.run_acts SharedDemo.race = Some s ∧ sy_reqs s !! 1%nat = Some q1 ∧ sy_reqs s !! 2%nat = Some q2 ∧
    rs_sent q1 ≠ [] ∧ rs_sent q2 = [].
Proof.
  destruct SharedDemo.race_runs as (s & Hs & F1 & F2 & _).
  apply SharedDemo.finished_spec in F1 as (q1 & Hq1 & Hk1 & _ & Hs1 & _), F2 as (q2 & Hq2 & Hk2 & _ & _ & _).
  exists s, q1, q2. split; [exact Hs|]. split; [exact Hq1|]. split; [exact Hq2|]. split; [by apply Hs1|].
  destruct (rs_sent q2) as [|m l] eqn:E; [done|]. exfalso.
  enough (1%nat = 2%nat) by done.
  apply (concurrent_once ExecDemo.server ExecDemo.marshal SharedDemo.k 10 100 Demo.db0 SharedDemo.race s 1 2 q1 q2).
  - vm_compute. reflexivity.
  - vm_compute. discriminate.
  - repeat constructor; vm_compute; discriminate.
  - exact Hs.
  - exact Hq1.
  - exact Hq2.
  - exact Hk1.
  - exact Hk2.
  - by apply Hs1.
  - by rewrite E.
Defined.

Lemma concurrent_answers_witness :
  ∃ s q2 status body, SharedDemo.run_acts SharedDemo.race = Some s ∧ sy_reqs s !! 2%nat = Some q2 ∧
    responses (rs_effs q2) = [(status, body)] ∧ body = bs "hello".
Proof.
  destruct SharedDemo.race_runs as (s & Hs & _ & F2 & _).
  apply SharedDemo.finished_spec in F2 as (q2 & Hq2 & Hk2 & Hd2 & _ & Hr2).
  destruct (concurrent_answers ExecDemo.server ExecDemo.marshal SharedDemo.k 10 100 Demo.db0 SharedDemo.race s 2 q2)
    as (status & body & Hr & _).
  - vm_compute. reflexivity.
  - vm_compute. discriminate.
  - repeat constructor; vm_compute; discriminate.
  - repeat constructor; apply (bool_decide_unpack _); by vm_compute.
  - exact Hs.
  - exact Hq2.
  - exact Hk2.
  - exact Hd2.
  - exists s, q2, status, body. split; [exact Hs|]. split; [exact Hq2|]. split; [exact Hr|]. congruence.
Defined.
