(* ===== verification/ConcurrentProgress.v ===== *)
(** * Requests with idempotency keys: progress and lost completions

    More about the system of ConcurrentApi.v: no request hangs ([requests_progress]),
    a request for a new key takes at most six steps ([requests_bounded]), and what
    becomes of a key whose completion fails ([lost_completion_refuses]). *)

From stdpp Require Import gmap.
From S2P Require Import Prelude GoStrings GoErrors AuthKey Lru AuthCache ControlPlane AuthStore AuthMiddleware Tenant SqlValidator SqlExecutor HttpErrors Idempotency IdemConcurrent RpcDispatcher HttpApi ApiStages ConcurrentApi.

Section Progress.
Context {V S : Type} `{RpcLib V, UuidLib, Gzip, UnicodeTables, PgQuery}.
Context `{!ApiJson (V := V)}.
Variable srv : PgServer V S.
Variable marshal_row : list V → bytes.

#[local] Abbreviation effect := (effect (V := V)).
#[local] Abbreviation outcome := (outcome (V := V)).
#[local] Abbreviation rstate := (rstate (V := V) (S := S)).
#[local] Abbreviation sys := (sys (V := V) (S := S)).
#[local] Abbreviation act := (act (S := S)).
#[local] Abbreviation sstep := (sstep srv marshal_row).
#[local] Abbreviation ssteps := (ssteps srv marshal_row).

(** ** Every request is answered *)

(** The next step of a request. *)
Definition next_act (t : nat) (st : stage) (a : act) : bool :=
  match st, a with
  | SClaim, QCall t' _ | SRun, QExec t' _ _ _ | SComplete, QComplete t' _ _ => bool_decide (t' = t)
  | _, _ => false
  end.

(** Every claim belongs to a request with a key. *)
Definition owned (s : sys) : Prop :=
  ∀ t th, c_threads (sy_conf s) !! t = Some th → ∃ q, sy_reqs s !! t = Some q ∧ jb_key (rs_job q) ≠ [].

Lemma sstep_owned s a s' : linked s → owned s → sstep s a = Some s' → owned s'.
Proof.
  intros Hl Ho Hx t th Ht.
  assert (is_Some (c_threads (sy_conf s) !! t) → ∃ q, sy_reqs s' !! t = Some q ∧ jb_key (rs_job q) ≠ []) as Hold.
  { intros [th' Ht']. destruct (Ho t th' Ht') as (q & Hq & Hk).
    destruct (sstep_reqs _ _ _ _ _ _ _ Hl Hx Hq) as (q' & Hq' & Hj & _). exists q'. by rewrite Hj. }
  pose proof (sstep_conf _ _ _ _ _ Hx) as Hc. destruct (conf_act srv marshal_row s a) as [a'|] eqn:Ea; [|apply Hold; rewrite <- Hc; eauto].
  apply step_threads in Hc. destruct a' as [t2 ws key hash ttl|t2 i|ws key st body ok now f|now f];
    [|destruct Hc as (th2 & p & Ht2 & Hc)|apply Hold; rewrite <- Hc; eauto..].
  - destruct Hc as [Hn Hc]. rewrite Hc, lookup_insert_Some in Ht. destruct Ht as [[-> _]|[_ Ht]]; [|apply Hold; eauto].
    destruct a as [t3 ep cfg reg ws' rq|t3 i|t3 t0 t1 st'|t3 now' f'|now' f']; cbn [conf_act sstep] in Ea, Hx; try done.
    + destruct (sy_reqs s !! t3); [done|]. destruct (prepare _ _ _ _ _) as [|j]; [done|].
      destruct (str_eqb (jb_key j) []) eqn:Ek; [done|]. go_bool. injection Ea as -> _ _ _ _.
      apply bind_Some in Hx as (c' & _ & [= <-]). cbn [put sy_reqs]. rewrite lookup_insert_eq. by eexists.
    + apply bind_Some in Ea as (q & _ & Ea). by apply bind_Some in Ea as (o & _ & [=]).
  - rewrite Hc, lookup_insert_Some in Ht. destruct Ht as [[-> _]|[_ Ht]]; apply Hold; eauto.
Qed.

Lemma runs_owned d acts s : ssteps (started d) acts = Some s → linked s ∧ owned s.
Proof.
  intros Hx. refine (ssteps_ind _ _ (fun s => linked s ∧ owned s) (fun _ => True) _ acts _ _ _ _ Hx).
  - intros s0 a s1 _ [Hl Ho] Hs. split; [by eapply sstep_linked|by eapply sstep_owned].
  - by apply Forall_true.
  - split; [apply linked_started|]. intros t th Ht. by apply (lookup_empty_Some t th) in Ht.
Qed.

(** A request without a key makes no claim and completes none. *)
Definition unkeyed_ok (s : sys) : Prop :=
  map_Forall (fun _ q => jb_key (rs_job q) = [] → rs_stage q = SRun ∨ rs_stage q = SDone) (sy_reqs s).

Lemma unkeyed_put s c t q :
  unkeyed_ok s → (jb_key (rs_job q) = [] → rs_stage q = SRun ∨ rs_stage q = SDone) → unkeyed_ok (put s c t q).
Proof. intros Hu Hq. by apply map_Forall_insert_2. Qed.

Lemma sstep_unkeyed s a s' : unkeyed_ok s → sstep s a = Some s' → unkeyed_ok s'.
Proof.
  intros Hu Hx. destruct a as [t ep cfg reg ws rq|t i|t t0 t1 st|t now f|now f]; cbn [sstep] in Hx.
  - destruct (sy_reqs s !! t); [done|]. destruct (prepare _ _ _ _ _) as [|j]; [by simplify_eq|].
    destruct (str_eqb (jb_key j) []) eqn:Ek; go_bool; [injection Hx as <-|apply bind_Some in Hx as (c' & _ & [= <-])];
      (apply unkeyed_put; [done|]); simpl; [by left|by intros Hz].
  - apply bind_Some in Hx as (q & Hq & Hx). destruct (rs_stage q) eqn:Es; try done.
    apply bind_Some in Hx as (c' & _ & [= <-]). apply unkeyed_put; [done|]. rewrite observe_job. intros Hz.
    destruct (Hu t q Hq Hz); congruence.
  - apply bind_Some in Hx as (q & Hq & Hx). destruct (rs_stage q) eqn:Es; try done. injection Hx as <-.
    apply unkeyed_put; [done|]. unfold execute. destruct (jb_run _ _ _ _). simpl. intros ->. by right.
  - apply bind_Some in Hx as (q & Hq & Hx). destruct (rs_stage q); try done. destruct (rs_out q); [|done].
    apply bind_Some in Hx as (c' & _ & [= <-]). apply unkeyed_put; [done|]. by right.
  - by apply bind_Some in Hx as (c' & _ & [= <-]).
Qed.

Lemma unkeyed_stage d acts s t q :
  ssteps (started d) acts = Some s → sy_reqs s !! t = Some q → jb_key (rs_job q) = [] →
  rs_stage q = SRun ∨ rs_stage q = SDone.
Proof.
  intros Hx Hq. assert (unkeyed_ok s) as Hu; [|exact (Hu t q Hq)].
  refine (ssteps_ind _ _ unkeyed_ok (fun _ => True) _ acts _ _ _ _ Hx); [intros ???? ?; by apply sstep_unkeyed|by apply Forall_true|].
  apply map_Forall_empty.
Qed.

(** After its next call, whatever that meets, the request [t] holds no row. *)
Definition lets_go (s : sys) (t : nat) : Prop :=
  ∀ i, ∃ s' th, sstep s (QCall t i) = Some s' ∧ c_threads (sy_conf s') !! t = Some th ∧ pending_write th = None.

(** A claim that is about to commit can, and is a request's next step. *)
Lemma committer s t th w cl :
  linked s → owned s → c_threads (sy_conf s) !! t = Some th → th_pc th = PCommit w cl → can_finish (sy_conf s) t →
  ∃ q, sy_reqs s !! t = Some q ∧ lets_go s t.
Proof.
  intros Hl Ho Ht Hp Hf. destruct (Ho t th Ht) as (q & Hq & Hk). exists q. split; [done|]. intros i.
  destruct (Hl t q Hq Hk) as (th' & Ht' & _ & Hok). assert (th' = th) as -> by congruence.
  assert (rs_stage q = SClaim) as Hs.
  { unfold stage_ok, fresh in Hok. rewrite Hp in Hok. destruct (rs_stage q); naive_solver. }
  destruct (Hf i) as (c' & th' & Hc & Hth & Hw). cbn [sstep]. rewrite Hq. cbn [base.mbind option_bind]. rewrite Hs, Hc.
  eexists _, th'. split; [done|]. done.
Qed.

(** The id of the row a call would insert. *)
Definition drawn (a : act) : option uuid := match a with QCall _ i => Some (i_id i) | _ => None end.

(** C7: No request hangs: in every state the gateways can reach, whatever the next
    call of a request that is not finished meets, the request can take its next
    step now, or the row it is after, or the id it drew, is held by the open
    transaction of another request that has only its commit left; that commit waits
    for nothing, and whether it succeeds or fails the other request holds no row
    afterwards. *)
Theorem requests_progress d acts s t q a :
  ssteps (started d) acts = Some s → sy_reqs s !! t = Some q → next_act t (rs_stage q) a = true →
  is_Some (sstep s a) ∨
  ∃ k t' q' th', on_key k q ∧ t' ≠ t ∧ sy_reqs s !! t' = Some q' ∧ c_threads (sy_conf s) !! t' = Some th' ∧
    holds k (drawn a) th' ∧ lets_go s t'.
Proof.
  intros Hx Hq Ha. destruct (runs_owned _ _ _ Hx) as [Hl Ho]. unfold next_act in Ha.
  destruct (rs_stage q) eqn:Es, a as [t2 ep cfg reg ws rq|t2 i|t2 t0 t1 st|t2 now f|now f]; try done;
    apply bool_decide_eq_true in Ha as ->; cbn [sstep]; rewrite Hq; cbn [base.mbind option_bind]; rewrite Es.
  - destruct (decide (jb_key (rs_job q) = [])) as [Hz|Hk]; [by destruct (unkeyed_stage _ _ _ _ _ Hx Hq Hz) as [E|E]; rewrite E in Es|].
    destruct (Hl t q Hq Hk) as (th & Ht & (Hws & Hke & _) & Hok). unfold stage_ok in Hok. rewrite Es in Hok. destruct Hok as (Hnd & _).
    destruct (call_or_wait (sy_conf s) t th i Ht Hnd) as [[c' ->]|(k & t' & th' & Hrow & Hne & Ht' & Hh & Hf)]; [left; by eexists|right].
    pose proof Hh as (w & cl & Hp & _). destruct (committer _ _ _ _ _ Hl Ho Ht' Hp Hf) as (q' & Hq' & He).
    exists k, t', q', th'. split; [|done]. unfold on_key. unfold th_row in Hrow. by rewrite <- Hws, <- Hke.
  - left. by eexists.
  - destruct (decide (jb_key (rs_job q) = [])) as [Hz|Hk]; [by destruct (unkeyed_stage _ _ _ _ _ Hx Hq Hz) as [E|E]; rewrite E in Es|].
    destruct (Hl t q Hq Hk) as (th & Ht & _ & Hok). unfold stage_ok in Hok. rewrite Es in Hok.
    destruct Hok as (Hf & o & Hout & _). rewrite Hout. cbn [complete_act step].
    destruct (complete_waits _ _ _) eqn:Ew; [right|left; by eexists]. unfold complete_waits in Ew.
    destruct (uuid_Parse _) as [u|e] eqn:Eu; [|done].
    apply has_open_waits in Ew as (t' & th' & w & cl & _ & Ht' & Hp & Hr & _ & Hfin). apply on_row_spec in Hr.
    destruct (committer _ _ _ _ _ Hl Ho Ht' Hp Hfin) as (q' & Hq' & He). exists (u, jb_key (rs_job q)), t', q', th'.
    split; [unfold on_key, request_key; by rewrite (bool_decide_false (jb_key (rs_job q) = []) Hk : str_eqb _ [] = false), Eu|].
    split; [|repeat (split; [done|]); split; [exists w, cl; auto|done]]. intros ->. destruct Hf as (ir & Hf & _). congruence.
Qed.

(** *** How many steps a request takes *)

(** The steps of the request [t] after it arrived. *)
Definition own (t : nat) (a : act) : bool :=
  match a with
  | QCall t' _ | QExec t' _ _ _ | QComplete t' _ _ => bool_decide (t' = t)
  | _ => false
  end.

Definition own_steps (t : nat) (acts : list act) : nat := length (List.filter (own t) acts).

(** Calls a claim has left, while no row expires. *)
Definition calls_left (p : pc) : nat :=
  match p with
  | PBegin => 4
  | PInsert _ => 3
  | PSelect => 2
  | PDelete | PCommit _ _ => 1
  | PDone _ => 0
  end.

(** Steps a request has left. *)
Definition steps_left (s : sys) (t : nat) : nat :=
  match sy_reqs s !! t with
  | None => 6
  | Some q =>
      match rs_stage q with
      | SClaim => 2 + match c_threads (sy_conf s) !! t with Some th => calls_left (th_pc th) | None => 0 end
      | SRun => 2
      | SComplete => 1
      | SDone => 0
      end
  end.

Lemma call_progress lo lim v h c t th k i d p :
  pc_ok lo lim v h (th_pc th) → call c t th k i = Some (d, p) → calls_left p < calls_left (th_pc th).
Proof.
  intros Hok Hx. unfold call in Hx.
  destruct (th_pc th) as [|now| | |w cl|r]; cbn [pc_ok] in Hok; [| | |done| |done];
    try (apply fmap_Some in Hx as (p' & Hs & [= -> ->]); unfold statement in Hs;
         (destruct (i_fault i); [|simplify_eq; simpl; lia..])).
  - simplify_eq. simpl. lia.
  - repeat case_match; simplify_eq; simpl; lia.
  - destruct (select_idem k (c_db c)); simplify_eq; [|simpl; lia]. unfold decide_row. repeat case_match; simpl; lia.
  - assert (cl ≠ Stale) as Hcl by (intros ->; by destruct w as [[]|]).
    assert (calls_left (finish cl) = 0) as Hf by (destruct cl; try done; simpl; by destruct (gunzip _)).
    destruct (i_fault i); simplify_eq; [simpl; lia|destruct (commit_ignored cl); simpl; lia..].
Qed.

(** A call of the claim of [t] brings the request nearer to its end. *)
Lemma qcall_progress k lo lim s i s' t q :
  inv k lo lim s → sy_reqs s !! t = Some q → on_key k q → sstep s (QCall t i) = Some s' →
  steps_left s' t < steps_left s t.
Proof.
  intros [Hl Hi] Hq Hk Hx. destruct (on_key_link _ _ _ _ Hl Hq Hk) as (th & Ht & Hrow & _ & Hok).
  cbn [sstep] in Hx. rewrite Hq in Hx. cbn [base.mbind option_bind] in Hx. destruct (rs_stage q) eqn:Es; try done.
  apply bind_Some in Hx as (c' & Hc & [= <-]). unfold steps_left at 2. rewrite Hq, Es, Ht.
  cbn [step] in Hc. unfold IdemConcurrent.run_thread in Hc. rewrite Ht, Hrow in Hc.
  assert (∃ d p, call (sy_conf s) t th k i = Some (d, p) ∧
            c' = {| c_db := d; c_threads := <[t := at_pc th p]> (c_threads (sy_conf s)) |}) as (d & p & Hcall & ->).
  { destruct (th_pc th); [..|done]; apply bind_Some in Hc as ([d p] & Hc' & [= <-]); eauto. }
  destruct (wi_pc _ _ _ _ Hi _ _ Ht Hrow) as [_ Hpc]. pose proof (call_progress _ _ _ _ _ _ _ _ _ _ _ Hpc Hcall) as Hlt.
  unfold steps_left. cbn [put sy_reqs sy_conf c_threads]. rewrite !lookup_insert_eq. unfold observe. cbn [c_threads].
  rewrite lookup_insert_eq. cbn [th_pc at_pc]. destruct p as [| | | | |[ir|e]] eqn:Ep; try (rewrite Es; simpl in *; lia).
  - unfold answer_claim. destruct (ir_Replay ir); simpl in *; lia.
  - simpl in *. lia.
Qed.

(** The steps of the others take nothing from it. *)
Lemma sstep_idle k lo lim s a s' t q :
  inv k lo lim s → sstep s a = Some s' → sy_reqs s' !! t = Some q → on_key k q → own t a = false →
  steps_left s' t ≤ steps_left s t.
Proof.
  intros [Hl Hi] Hx Hq Hk Ho. destruct (sy_reqs s !! t) as [q0|] eqn:Hq0.
  - assert (sy_reqs s' !! t = Some q0 ∧ c_threads (sy_conf s') !! t = c_threads (sy_conf s) !! t) as [Hsame Hth].
    { pose proof (sstep_conf _ _ _ _ _ Hx) as Hc.
      destruct a as [t2 ep cfg reg ws rq|t2 i|t2 t0 t1 st|t2 now f|now f]; cbn [own] in Ho; cbn [sstep conf_act] in Hx, Hc.
      - destruct (sy_reqs s !! t2) eqn:E2; [done|]. assert (t2 ≠ t) by congruence.
        destruct (prepare _ _ _ _ _) as [|j]; [by simplify_eq|]. destruct (str_eqb _ []).
        + injection Hx as <-. cbn [put sy_reqs sy_conf]. by rewrite lookup_insert_ne.
        + apply bind_Some in Hx as (c' & _ & [= <-]). apply step_threads in Hc as [_ Hc]. cbn [put sy_reqs].
          rewrite Hc, !lookup_insert_ne by done. done.
      - apply bool_decide_eq_false in Ho. apply bind_Some in Hx as (q2 & _ & Hx). destruct (rs_stage q2); try done.
        apply bind_Some in Hx as (c' & _ & [= <-]). apply step_threads in Hc as (th & p & _ & Hc). cbn [put sy_reqs].
        rewrite Hc, !lookup_insert_ne by done. done.
      - apply bool_decide_eq_false in Ho. apply bind_Some in Hx as (q2 & _ & Hx). destruct (rs_stage q2); try done.
        injection Hx as <-. cbn [put sy_reqs sy_conf]. by rewrite lookup_insert_ne.
      - apply bool_decide_eq_false in Ho. apply bind_Some in Hx as (q2 & Hq2 & Hx). rewrite Hq2 in Hc.
        cbn [base.mbind option_bind] in Hc. destruct (rs_stage q2); try done. destruct (rs_out q2); [|done].
        apply bind_Some in Hx as (c' & _ & [= <-]). cbn [base.mbind option_bind] in Hc. apply step_threads in Hc. cbn [put sy_reqs].
        rewrite Hc, lookup_insert_ne by done. done.
      - apply bind_Some in Hx as (c' & _ & [= <-]). apply step_threads in Hc. by rewrite Hc. }
    unfold steps_left. by rewrite Hsame, Hth, Hq0.
  - unfold steps_left at 2. rewrite Hq0. unfold steps_left. rewrite Hq.
    destruct (rs_stage q); try lia. destruct (c_threads _ !! t) as [th|]; [|lia]. destruct (th_pc th); simpl; lia.
Qed.

Lemma sstep_progress k lo lim s a s' t q :
  inv k lo lim s → sstep s a = Some s' → sy_reqs s' !! t = Some q → on_key k q →
  steps_left s' t + (if own t a then 1 else 0) ≤ steps_left s t.
Proof.
  intros Hi Hx Hq Hk.
  assert (∀ q0, sy_reqs s !! t = Some q0 → on_key k q0) as Hk0.
  { intros q0 Hq0. destruct (sstep_reqs _ _ _ _ _ _ _ (proj1 Hi) Hx Hq0) as (q' & Hq' & Hj & _).
    unfold on_key in *. assert (q' = q) as -> by congruence. by rewrite <- Hj. }
  destruct (own t a) eqn:Eo.
  - destruct a as [t2 ep cfg reg ws rq|t2 i|t2 t0 t1 st|t2 now f|now f]; simpl in Eo; try done;
      apply bool_decide_eq_true in Eo as ->.
    + assert (∃ q0, sy_reqs s !! t = Some q0) as [q0 Hq0].
      { cbn [sstep] in Hx. apply bind_Some in Hx as (q0 & Hq0 & _). eauto. }
      pose proof (qcall_progress _ _ _ _ _ _ _ _ Hi Hq0 (Hk0 _ Hq0) Hx). lia.
    + cbn [sstep] in Hx. apply bind_Some in Hx as (q0 & Hq0 & Hx). destruct (rs_stage q0) eqn:Es; try done.
      injection Hx as <-. unfold steps_left. rewrite Hq0, Es. cbn [put sy_reqs]. rewrite lookup_insert_eq.
      unfold execute. destruct (jb_run _ _ _ _). cbn [rs_stage]. destruct (str_eqb _ []); lia.
    + cbn [sstep] in Hx. apply bind_Some in Hx as (q0 & Hq0 & Hx). destruct (rs_stage q0) eqn:Es; try done.
      destruct (rs_out q0); [|done]. apply bind_Some in Hx as (c' & _ & [= <-]).
      unfold steps_left. rewrite Hq0, Es. cbn [put sy_reqs]. rewrite lookup_insert_eq. simpl. lia.
  - rewrite Nat.add_0_r. by eapply sstep_idle.
Qed.

Lemma ssteps_job s acts s' t q0 :
  linked s → ssteps s acts = Some s' → sy_reqs s !! t = Some q0 →
  ∃ q, sy_reqs s' !! t = Some q ∧ rs_job q = rs_job q0.
Proof.
  revert s q0. induction acts as [|a acts IH]; intros s q0 Hl Hx Hq0; simpl in Hx; [injection Hx as <-; eauto|].
  apply bind_Some in Hx as (s1 & H1' & Hx). destruct (sstep_reqs _ _ _ _ _ _ _ Hl H1' Hq0) as (q1 & Hq1 & Hj & _).
  destruct (IH s1 q1 (sstep_linked _ _ _ _ _ Hl H1') Hx Hq1) as (q & Hq & Hj'). exists q. split; [done|congruence].
Qed.

Lemma runs_progress k lo lim acts : ∀ s s' t q,
  (lim ≤ lo + hours24)%Z → Forall (clocks lo lim) acts → inv k lo lim s → ssteps s acts = Some s' →
  sy_reqs s' !! t = Some q → on_key k q → own_steps t acts + steps_left s' t ≤ steps_left s t.
Proof.
  induction acts as [|a acts IH]; intros s s' t q Hlim Hw Hi Hx Hq Hk; simpl in Hx; [injection Hx as <-; done|].
  apply Forall_cons_iff in Hw as [Ha Hw]. apply bind_Some in Hx as (s1 & H1' & Hx).
  assert (inv k lo lim s1) as Hi1 by (by eapply sstep_inv).
  pose proof (IH s1 s' t q Hlim Hw Hi1 Hx Hq Hk) as Hrest. unfold own_steps in *. cbn [List.filter].
  destruct (sy_reqs s1 !! t) as [q1|] eqn:Hq1.
  - destruct (ssteps_job _ _ _ _ _ (proj1 Hi1) Hx Hq1) as (q' & Hq' & Hj). assert (q' = q) as -> by congruence.
    assert (on_key k q1) as Hk1 by (unfold on_key in *; by rewrite <- Hj).
    pose proof (sstep_progress _ _ _ _ _ _ _ _ Hi H1' Hq1 Hk1). destruct (own t a); simpl; lia.
  - destruct (sy_reqs s !! t) as [q0|] eqn:Hq0;
      [destruct (sstep_reqs _ _ _ _ _ _ _ (proj1 Hi) H1' Hq0) as (? & ? & _); congruence|].
    assert (own t a = false) as ->; [|unfold steps_left in *; rewrite Hq0, Hq1 in *; done].
    destruct a as [t2 ep cfg reg ws rq|t2 i|t2 t0 t1 st|t2 now f|now f]; try done; simpl; apply bool_decide_eq_false; intros ->;
      cbn [sstep] in H1'; by rewrite Hq0 in H1'.
Qed.

(** C8: A request for a new key finishes in six steps, as long as no clock is 24
    hours past the first: the claim takes at most four calls, because in that time
    no row for the key expires and the loop of [BeginOrReplay] that reclaims an
    expired row is not entered, and the run and the completion follow, whatever the
    other requests do in between. *)
Theorem requests_bounded k lo lim d acts s t q :
  db_idem d !! k = None → (lim ≤ lo + hours24)%Z → Forall (clocks lo lim) acts → ssteps (started d) acts = Some s →
  sy_reqs s !! t = Some q → on_key k q →
  own_steps t acts + steps_left s t ≤ 6.
Proof.
  intros Hd Hlim Hw Hx Hq Hk.
  pose proof (runs_progress k lo lim acts (started d) s t q Hlim Hw
    (conj (linked_started d) (window_started _ _ _ _ Hd)) Hx Hq Hk) as Hp.
  exact Hp.
Qed.

Context `{!GzipLaws}.

(** ** A completion that fails *)

(** The one request that ran has tried to complete its key, and the row does not
    hold its outcome. *)
Definition lost (k : uuid * bytes) (t : nat) (s : sys) : Prop :=
  recorded k (fun _ : outcome => False) (sy_conf s) ∧
  ∃ q, sy_reqs s !! t = Some q ∧ on_key k q ∧ is_Some (rs_out q) ∧ rs_stage q = SDone.

Lemma sstep_lost k lo lim t s a s' :
  k.2 ≠ [] → inv k lo lim s → lost k t s → sstep s a = Some s' → lost k t s'.
Proof.
  intros Hne Hi [Hr (q & Hq & Hk & Ho & Hd)] Hx. split.
  - pose proof (sstep_conf _ _ _ _ _ Hx) as Hc. destruct (conf_act srv marshal_row s a) as [a'|] eqn:Ea; [|by rewrite Hc].
    eapply step_recorded; [done..|]. intros ws key st body ok now f ->.
    destruct (conf_act_complete _ _ _ _ _ _ _ _ _ _ _ _ Hx Ea) as (t2 & q2 & o & Hq2 & Hs2 & Ho2 & _ & -> & -> & -> & -> & -> & _).
    exists o. repeat split; try done. intros Hk2.
    assert (t2 = t) as -> by (eapply one_run; try done; right; eauto using mk_is_Some). congruence.
  - destruct (sstep_reqs _ _ _ _ _ _ _ (proj1 Hi) Hx Hq) as (q' & Hq' & _ & Hsame & _). rewrite (Hsame Hd) in Hq'. by exists q.
Qed.

(** A failed completion makes the state lost. *)
Lemma complete_lost k lo lim s t now e s' q :
  inv k lo lim s → recorded k (settled k s) (sy_conf s) → sy_reqs s !! t = Some q → on_key k q →
  sstep s (QComplete t now (Fail e)) = Some s' → lost k t s'.
Proof.
  intros Hi Hr Hq Hk Hx. cbn [sstep] in Hx. rewrite Hq in Hx. cbn [base.mbind option_bind] in Hx.
  destruct (rs_stage q) eqn:Es; try done. destruct (rs_out q) as [o|] eqn:Eo; [|done].
  apply bind_Some in Hx as (c' & Hc & [= <-]). split.
  - apply (recorded_mono _ (settled k s)).
    + intros o2 (t2 & q2 & Hq2 & Hk2 & Ho2 & Hd2).
      assert (t2 = t) as -> by (eapply one_run; try done; right; eauto using mk_is_Some). congruence.
    + cbn [put sy_conf]. cbn [complete_act step] in Hc. destruct (complete_waits _ _ _); [done|]. injection Hc as <-.
      destruct Hr as [Hr Ht]. split; [|exact Ht]. cbn [single set_c_db c_db].
      unfold Complete, mbind, mlift, gzipBytes. by destruct (uuid_Parse _).
  - eexists. cbn [put sy_reqs]. rewrite lookup_insert_eq. split; [done|]. split; [done|].
    cbn [in_stage rs_out rs_stage]. rewrite Eo. eauto.
Qed.

(** C36: A completion that fails locks the key. The completion is made with the
    context of the request, after the run and, for SQL, after the response: when the
    client is gone by then and the statement of the completion fails, the row stays pending, and every other request for the key, the retries
    of that client among them, is refused with an error until the key expires; none of them
    gets the response. *)
Theorem lost_completion_refuses k lo lim d acts now e acts' s s' t q t' q' :
  db_idem d !! k = None → (lim ≤ lo + hours24)%Z → Forall (clocks lo lim) (acts ++ acts') →
  ssteps (started d) acts = Some s → sy_reqs s !! t = Some q → on_key k q →
  ssteps s (QComplete t now (Fail e) :: acts') = Some s' →
  sy_reqs s' !! t' = Some q' → on_key k q' → t' ≠ t → rs_stage q' = SDone →
  rs_sent q' = [] ∧ ∃ status body, responses (rs_effs q') = [(status, body)] ∧ (400 ≤ status)%Z.
Proof.
  intros Hd Hlim Hw Hx Hq Hk Hx' Hq' Hk' Hne Hdone. apply Forall_app in Hw as [Hw Hw'].
  pose proof (runs_inv _ _ _ _ _ _ _ _ Hd Hlim Hw Hx) as Hi.
  pose proof (runs_recorded _ _ _ _ _ _ (on_key_ne _ _ Hk) Hd Hx) as Hr.
  assert (responsive s') as Hresp.
  { apply (runs_responsive srv marshal_row d (acts ++ QComplete t now (Fail e) :: acts')). by rewrite ssteps_app, Hx. }
  cbn [ssteps] in Hx'. apply bind_Some in Hx' as (s1 & H1' & Hx').
  pose proof (complete_lost _ _ _ _ _ _ _ _ _ Hi Hr Hq Hk H1') as Hlost.
  assert (inv k lo lim s1) as Hi1 by (by eapply (sstep_inv srv marshal_row _ _ _ _ (QComplete t now (Fail e)))).
  assert (inv k lo lim s' ∧ lost k t s') as [[Hl Hi'] [Hr' (q0 & Hq0 & Hk0 & Ho0 & _)]].
  { refine (ssteps_ind _ _ (fun s => inv k lo lim s ∧ lost k t s) (clocks lo lim) _ acts' _ _ Hw' (conj Hi1 Hlost) Hx').
    intros s2 a s3 Ha [Hi2 Hl2] Hs. split; [by eapply sstep_inv|].
    eapply sstep_lost; [by eapply on_key_ne|done..]. }
  destruct (on_key_link _ _ _ _ Hl Hq' Hk') as (th & Ht & Hrow & _ & Hok). unfold stage_ok in Hok. rewrite Hdone in Hok.
  destruct (Hresp _ _ Hq') as [Hj _].
  destruct Hok as [[_ (o & Ho & _)]|(Ho & Hs & [(e' & _ & He)|(ir & Hp & Hrep & He)])].
  - exfalso. apply Hne. eapply (one_run k lo lim s'); try done; right; eauto using mk_is_Some.
  - split; [done|]. rewrite He. apply (an_refused _ Hj).
  - exfalso. pose proof (rc_pc _ _ _ Hr' t' th Ht Hrow) as Htold. rewrite Hp in Htold.
    destruct Htold as [?|(o & [] & _)]. congruence.
Qed.
End Progress.

(** ** Instances *)

#[local] Existing Instance text_uuid.
#[local] Existing Instance RpcDemo.lib.
#[local] Existing Instance IdemDemo.gz.
#[local] Existing Instance IdemDemo.gz_laws.
#[local] Existing Instance ValidatorDemo.unicode.
#[local] Existing Instance ValidatorDemo.parser.
#[local] Existing Instance ApiDemo.json.

Module LostDemo.
Import SharedDemo.

(** The second copy is about to insert, and the first has not committed. *)
Definition waiting : list (act (S := unit)) := take 5 race.

Lemma waiting_runs :
  ∃ s q, run_acts waiting = Some s ∧ sy_reqs s !! 2%nat = Some q ∧ rs_stage q = SClaim ∧
    ConcurrentApi.sstep ExecDemo.server ExecDemo.marshal s (QCall 2 (RaceDemo.at_ 11 x62)) = None.
Proof.
  assert (match run_acts waiting with
          | Some s => match sy_reqs s !! 2%nat, ConcurrentApi.sstep ExecDemo.server ExecDemo.marshal s (QCall 2 (RaceDemo.at_ 11 x62)) with
                      | Some q, None => match rs_stage q with SClaim => true | _ => false end
                      | _, _ => false
                      end
          | None => false
          end = true) as Hx by (vm_compute; reflexivity).
  destruct (run_acts waiting) as [s|]; [|done]. destruct (sy_reqs s !! 2%nat) as [q|] eqn:Eq; [|done].
  destruct (ConcurrentApi.sstep _ _ s _) eqn:Es; [done|]. exists s, q. destruct (rs_stage q) eqn:Er; done.
Qed.

(** The first copy has run, and its client is gone. *)
Definition run_first : list (act (S := unit)) :=
  [arrive 1 EpSQL ValidatorDemo.select2] ++ calls 1 10 x61 3 ++ [QExec 1 12 20 tt].

Definition canceled : error := errors_New (bs "context canceled").

Definition retry : list (act (S := unit)) := arrive 2 EpSQL ValidatorDemo.select2 :: calls 2 23 x62 4.

Definition refused : bytes := bs "idempotency_internal" ++ newline.

Lemma lost_runs :
  ∃ s s' q1 q2, run_acts run_first = Some s ∧ sy_reqs s !! 1%nat = Some q1 ∧ on_key k q1 ∧
    ConcurrentApi.ssteps ExecDemo.server ExecDemo.marshal s (QComplete 1 22 (Fail canceled) :: retry) = Some s' ∧
    sy_reqs s' !! 2%nat = Some q2 ∧ on_key k q2 ∧ rs_stage q2 = SDone ∧ responses (rs_effs q2) = [(500%Z, refused)].
Proof.
  assert (match run_acts run_first with
          | Some s => match sy_reqs s !! 1%nat,
                            ConcurrentApi.ssteps ExecDemo.server ExecDemo.marshal s (QComplete 1 22 (Fail canceled) :: retry) with
                      | Some q, Some s' => on_keyb q && finished s' 2 false 500 refused
                      | _, _ => false
                      end
          | None => false
          end = true) as Hx by (vm_compute; reflexivity).
  destruct (run_acts run_first) as [s|]; [|done]. destruct (sy_reqs s !! 1%nat) as [q1|] eqn:E1; [|done].
  destruct (ConcurrentApi.ssteps _ _ s _) as [s'|] eqn:Es; [|done]. apply andb_true_iff in Hx as [Hk F].
  apply finished_spec in F as (q2 & Hq2 & Hk2 & Hd2 & _ & Hr). apply on_keyb_spec in Hk. by exists s, s', q1, q2.
Qed.
End LostDemo.

Lemma requests_progress_witness :
  ∃ s q k t' q' th', SharedDemo.run_acts LostDemo.waiting = Some s ∧ sy_reqs s !! 2%nat = Some q ∧
    on_key k q ∧ t' ≠ 2%nat ∧ sy_reqs s !! t' = Some q' ∧ c_threads (sy_conf s) !! t' = Some th' ∧
    holds k (Some (i_id (RaceDemo.at_ 11 x62))) th' ∧ lets_go ExecDemo.server ExecDemo.marshal s t'.
Proof.
  destruct LostDemo.waiting_runs as (s & q & Hs & Hq & Hst & Hn).
  destruct (requests_progress ExecDemo.server ExecDemo.marshal Demo.db0 LostDemo.waiting s 2 q (QCall 2 (RaceDemo.at_ 11 x62)))
    as [[s' Hx]|(k & t' & q' & th' & Ht)].
  - exact Hs.
  - exact Hq.
  - rewrite Hst. reflexivity.
  - congruence.
  - exists s, q, k, t', q', th'. split; [exact Hs|]. split; [exact Hq|exact Ht].
Defined.

Lemma requests_bounded_witness :
  ∃ s, SharedDemo.run_acts SharedDemo.race = Some s ∧ own_steps 2 SharedDemo.race = 4 ∧
    own_steps 2 SharedDemo.race + steps_left s 2 ≤ 6.
Proof.
  destruct SharedDemo.race_runs as (s & Hs & _ & F2 & _). exists s. split; [exact Hs|]. split; [reflexivity|].
  apply SharedDemo.finished_spec in F2 as (q2 & Hq2 & Hk2 & _).
  apply (requests_bounded ExecDemo.server ExecDemo.marshal SharedDemo.k 10 100 Demo.db0 SharedDemo.race s 2 q2).
  - vm_compute. reflexivity.
  - vm_compute. discriminate.
  - repeat constructor; vm_compute; discriminate.
  - exact Hs.
  - exact Hq2.
  - exact Hk2.
Defined.

Lemma lost_completion_refuses_witness :
  ∃ s s' q2, SharedDemo.run_acts LostDemo.run_first = Some s ∧
    ssteps ExecDemo.server ExecDemo.marshal s (QComplete 1 22 (Fail LostDemo.canceled) :: LostDemo.retry) = Some s' ∧
    sy_reqs s' !! 2%nat = Some q2 ∧
    rs_sent q2 = [] ∧ ∃ status body, responses (rs_effs q2) = [(status, body)] ∧ (400 ≤ status)%Z.
Proof.
  destruct LostDemo.lost_runs as (s & s' & q1 & q2 & Hs & Hq1 & Hk1 & Hs' & Hq2 & Hk2 & Hd2 & _).
  exists s, s', q2. split; [exact Hs|]. split; [exact Hs'|]. split; [exact Hq2|].
  apply (lost_completion_refuses ExecDemo.server ExecDemo.marshal SharedDemo.k 10 100 Demo.db0 LostDemo.run_first 22
    LostDemo.canceled LostDemo.retry s s' 1 q1 2 q2).
  - vm_compute. reflexivity.
  - vm_compute. discriminate.
  - repeat constructor; vm_compute; discriminate.
  - exact Hs.
  - exact Hq1.
  - exact Hk1.
  - exact Hs'.
  - exact Hq2.
  - exact Hk2.
  - discriminate.
  - exact Hd2.
Defined.
