(* ===== verification/ConcurrentSolo.v ===== *)
(** * The sequential handlers are runs of the interleaved system

    HttpApi.v takes a request as one call, ConcurrentApi.v as steps that interleave
    with those of other requests. [sequential_is_a_run] relates the two: what a
    handler does is what the system does when the steps of one request follow each
    other. *)

From stdpp Require Import gmap.
From S2P Require Import Prelude GoStrings GoErrors AuthKey Lru AuthCache ControlPlane AuthStore AuthMiddleware Tenant SqlValidator SqlExecutor HttpErrors Idempotency IdemConcurrent RpcDispatcher HttpApi ApiStages ConcurrentApi.

Section Solo.
Context {V S : Type} `{RpcLib V, UuidLib, Gzip, UnicodeTables, PgQuery}.
Context `{!ApiJson (V := V)}.
Variable srv : PgServer V S.
Variable marshal_row : list V → bytes.

#[local] Abbreviation rstate := (rstate (V := V) (S := S)).
#[local] Abbreviation sys := (sys (V := V) (S := S)).
#[local] Abbreviation job := (job (V := V) (S := S)).
#[local] Abbreviation sstep := (sstep srv marshal_row).
#[local] Abbreviation ssteps := (ssteps srv marshal_row).

(** The handlers of HttpApi.v. *)
Definition handler (ep : endpoint) (cfg : api_config) (reg : Registry) (ws : WorkspaceContext) (rq : http_request)
    (attempts : list (Z * uuid)) (t0 t1 : Z) (g : gateway (V := V) (S := S)) : gateway * list effect :=
  match ep with
  | EpSQL => handleSQLExecute srv marshal_row cfg ws rq attempts t0 t1 g
  | EpRPC => handleRPCCall srv cfg reg ws rq attempts t0 t1 g
  end.

Lemma handler_staged ep cfg reg ws rq attempts t0 t1 g :
  handler ep cfg reg ws rq attempts t0 t1 g = run_staged (prepare srv marshal_row ep cfg reg ws rq) attempts t0 t1 g.
Proof. destruct (staged srv marshal_row cfg reg ws rq attempts t0 t1 g) as [Hs Hr]. by destruct ep. Qed.

(** The calls of a claim, lifted to its request. *)
Definition lift (a : action) : list (act (S := S)) :=
  match a with
  | ARun t i => [QCall t i]
  | _ => []
  end.

Lemma run_done c t i th r : c_threads c !! t = Some th → th_pc th = PDone r → step c (ARun t i) = None.
Proof. intros Ht Hp. cbn [step]. unfold IdemConcurrent.run_thread. rewrite Ht, Hp. by destruct (th_row th). Qed.

Lemma lift_run t acts : ∀ s q th r c',
  Forall (fun a => ∃ i, a = ARun t i) acts → acts ≠ [] → sy_reqs s !! t = Some q → rs_stage q = SClaim →
  steps (sy_conf s) acts = Some c' → c_threads c' !! t = Some th → th_pc th = PDone r →
  ssteps s (flat_map lift acts) = Some (put s c' t (answer_claim q r)).
Proof.
  induction acts as [|a acts IH]; intros s q th r c' Ha Hne Hq Hst Hx Ht Hp; [done|].
  apply Forall_cons_iff in Ha as [[i ->] Ha]. cbn [steps] in Hx. apply bind_Some in Hx as (c1 & Hc & Hx).
  cbn [flat_map lift app ConcurrentApi.ssteps ConcurrentApi.sstep]. rewrite Hq. cbn [base.mbind option_bind].
  rewrite Hst, Hc. cbn [base.mbind option_bind]. destruct acts as [|a acts].
  - cbn [steps] in Hx. injection Hx as ->. cbn [flat_map ConcurrentApi.ssteps]. unfold observe. by rewrite Ht, Hp.
  - assert (∃ th1, c_threads c1 !! t = Some th1 ∧ ∀ r1, th_pc th1 ≠ PDone r1) as (th1 & Ht1 & Hnd).
    { apply Forall_cons_iff in Ha as [[i1 ->] _]. cbn [steps] in Hx. apply bind_Some in Hx as (c2 & Hc2 & _).
      pose proof (step_threads _ _ _ Hc) as (th0 & p & _ & Hth). exists (at_pc th0 p).
      rewrite Hth, lookup_insert_eq. split; [done|]. intros r1 Hr1.
      rewrite (run_done c1 t i1 (at_pc th0 p) r1) in Hc2; [done| |done]. by rewrite Hth, lookup_insert_eq. }
    assert (observe c1 t q = q) as ->.
    { unfold observe. rewrite Ht1. destruct (th_pc th1) as [| | | | |r1] eqn:E; try done. by destruct (Hnd r1). }
    rewrite (IH (put s c1 t q) q th r c'); [|done|done|by cbn [put sy_reqs]; rewrite lookup_insert_eq|done..].
    unfold put. cbn [sy_reqs]. by rewrite insert_insert_eq.
Qed.

(** A completion reads one fault. *)
Lemma Complete_one_fault ws key status body ok w f w1 :
  next_fault w = (f, w1) →
  let x := Complete ws key status body ok w in
  let y := Complete ws key status body ok {| w_db := w_db w; w_dbnow := w_dbnow w; w_faults := [f] |} in
  w_db x.1 = w_db y.1 ∧ x.2 = y.2.
Proof.
  intros Hf. apply next_fault_db in Hf as Hd. destruct Hd as [Hd Hn]. cbv zeta. unfold Complete, mbind, mlift, gzipBytes.
  destruct (uuid_Parse ws) as [u|e]; [|done]. unfold exec. rewrite Hf. simpl. rewrite Hd, Hn.
  destruct f; simpl; done.
Qed.

(** The request [t] is finished, with these tables, effects and commands sent. *)
Definition ends (t : nat) (s : sys) (d : Db) (effs : list (effect (V := V))) (sent : list (cmd V)) : Prop :=
  c_db (sy_conf s) = d ∧ ∃ q, sy_reqs s !! t = Some q ∧ rs_stage q = SDone ∧ rs_effs q = effs ∧ rs_sent q = sent.

Definition quiet (c : conf) : Prop := ∀ t th, c_threads c !! t = Some th → pending_write th = None.

Lemma quiet_complete c ws key : quiet c → complete_waits c ws key = false.
Proof.
  intros Hq. unfold complete_waits. destruct (uuid_Parse ws) as [u|e]; [|done].
  destruct (has_open _ _ _ _) eqn:E; [|done]. apply has_open_true in E as (t & th & w & Ht & _ & _ & Hw & _).
  by rewrite (Hq t th Ht) in Hw.
Qed.

(** From the run to the end. *)
Lemma solo_finish t s q w t0 t1 st missed :
  sy_reqs s !! t = Some q → rs_stage q = SRun → rs_effs q = missed → quiet (sy_conf s) → c_db (sy_conf s) = w_db w →
  let '(c, o) := jb_run (rs_job q) t0 t1 {| cn_state := st; cn_log := [] |} in
  let '(w', effs) := settle (rs_job q) o w in
  ∃ acts s', ssteps s acts = Some s' ∧ ends t s' (w_db w') (missed ++ effs) (cn_log c).
Proof.
  intros Hq Hst He Hquiet Hdb. destruct (jb_run _ _ _ _) as [c o] eqn:Er. unfold settle.
  destruct (str_eqb (jb_key (rs_job q)) []) eqn:Ek.
  - exists [QExec t t0 t1 st]. eexists. cbn [ConcurrentApi.ssteps ConcurrentApi.sstep]. rewrite Hq. cbn [base.mbind option_bind].
    rewrite Hst. split; [reflexivity|]. split; [exact Hdb|]. eexists. cbn [put sy_reqs]. rewrite lookup_insert_eq.
    split; [done|]. unfold execute. rewrite Er, Ek. cbn [rs_stage rs_effs rs_sent]. by rewrite He.
  - destruct (next_fault w) as [f w1] eqn:Ef.
    destruct (Complete_one_fault (jb_ws (rs_job q)) (jb_key (rs_job q)) (o_status o) (o_body o) (o_ok o) w f w1 Ef) as [Hd Hr].
    destruct (Complete _ _ _ _ _ w) as [w2 r]. cbn [fst snd] in Hd, Hr.
    exists [QExec t t0 t1 st; QComplete t (w_dbnow w) f]. eexists.
    cbn [ConcurrentApi.ssteps ConcurrentApi.sstep]. rewrite Hq. cbn [base.mbind option_bind]. rewrite Hst.
    cbn [put sy_reqs sy_conf base.mbind option_bind]. rewrite lookup_insert_eq. cbn [base.mbind option_bind].
    unfold execute. rewrite Er, Ek. cbn [rs_stage rs_out]. cbn [complete_act step rs_job].
    rewrite quiet_complete by done. cbn [base.mbind option_bind]. split; [reflexivity|]. split.
    + cbn [put sy_conf single set_c_db c_db]. by rewrite Hdb, <- Hd.
    + eexists. cbn [put sy_reqs]. rewrite lookup_insert_eq. split; [done|]. cbn [in_stage rs_stage rs_effs rs_sent].
      split; [done|]. split; [|done]. unfold completed. cbn [rs_job]. rewrite Hdb, <- Hr, He, app_nil_r, <- !app_assoc. done.
Qed.

(** The state after the arrival of [j]. *)
Definition arrived (t : nat) (d : Db) (j : job) : sys :=
  let q st : rstate := {| rs_job := j; rs_stage := st; rs_out := None; rs_sent := []; rs_effs := [] |} in
  if str_eqb (jb_key j) [] then put (started d) (sy_conf (started (V := V) (S := S) d)) t (q SRun)
  else
    put (started d)
      {| c_db := d;
         c_threads := <[t := {| th_ws := jb_ws j; th_key := jb_key j; th_hash := jb_hash j; th_ttl := hours24; th_pc := PBegin |}]> ∅ |}
      t (q SClaim).

Lemma arrive_arrived t ep cfg reg ws rq d j :
  prepare srv marshal_row ep cfg reg ws rq = inr j →
  sstep (started d) (QArrive t ep cfg reg ws rq) = Some (arrived t d j).
Proof.
  intros Hp. cbn [ConcurrentApi.sstep started sy_reqs]. rewrite lookup_empty, Hp. unfold arrived.
  destruct (str_eqb (jb_key j) []); [done|]. cbn [step started sy_conf c_threads]. by rewrite lookup_empty.
Qed.

Lemma solo_job t j w n1 id1 n2 id2 rest t0 t1 st :
  let '(g', effs) := run_job j ((n1, id1) :: (n2, id2) :: rest) t0 t1
                       {| gw_world := w; gw_conn := {| cn_state := st; cn_log := [] |} |} in
  ∃ acts s', ssteps (arrived t (w_db w) j) acts = Some s' ∧ ends t s' (w_db (gw_world g')) effs (cn_log (gw_conn g')).
Proof.
  unfold run_job. destruct (str_eqb (jb_key j) []) eqn:Ek.
  - pose proof (solo_finish t (arrived t (w_db w) j)
      {| rs_job := j; rs_stage := SRun; rs_out := None; rs_sent := []; rs_effs := [] |} w t0 t1 st []) as Hf.
    unfold arrived in *. rewrite Ek in *. cbn [gw_conn gw_world rs_job] in *. destruct (jb_run _ _ _ _) as [c o].
    destruct (settle j o w) as [w' effs]. apply Hf; try done. cbn [put sy_reqs]. by rewrite lookup_insert_eq.
  - set (th := {| th_ws := jb_ws j; th_key := jb_key j; th_hash := jb_hash j; th_ttl := hours24; th_pc := PBegin |}).
    pose proof (solo_reach ∅ t th n1 id1 n2 id2 rest w) as Hs. cbn [th th_ws th_key th_hash th_ttl] in Hs.
    cbn [gw_world gw_conn]. destruct (BeginOrReplay _ _ _ _ _ w) as [w1 r].
    destruct Hs as (cacts & Ha & Hx); [intros t' th' Ht'; by apply lookup_empty_Some in Ht'|].
    set (q := {| rs_job := j; rs_stage := SClaim; rs_out := None; rs_sent := []; rs_effs := [] |} : rstate).
    assert (ssteps (arrived t (w_db w) j) (flat_map lift cacts) =
            Some (put (arrived t (w_db w) j) {| c_db := w_db w1; c_threads := <[t := at_pc th (PDone r)]> ∅ |} t (answer_claim q r))) as Hl.
    { eapply lift_run; [exact Ha| | |done| |cbn [c_threads]; by rewrite lookup_insert_eq|done].
      - intros ->. cbn [steps] in Hx. apply (f_equal (fun o => c ← o; c_threads c !! t)) in Hx.
        cbn [base.mbind option_bind c_threads] in Hx. rewrite !lookup_insert_eq in Hx. by injection Hx.
      - unfold arrived. rewrite Ek. cbn [put sy_reqs]. by rewrite lookup_insert_eq.
      - unfold arrived. rewrite Ek. exact Hx. }
    set (s1 := put _ _ t (answer_claim q r)) in Hl.
    assert (sy_reqs s1 !! t = Some (answer_claim q r)) as Hq1 by (subst s1; cbn [put sy_reqs]; by rewrite lookup_insert_eq).
    destruct r as [ir|e]; [destruct (ir_Replay ir) eqn:Er|].
    + exists (flat_map lift cacts), s1. split; [exact Hl|]. split; [done|]. eexists. split; [exact Hq1|].
      unfold answer_claim. by rewrite Er.
    + pose proof (solo_finish t s1 (answer_claim q (Ok ir)) w1 t0 t1 st (jb_missed j) Hq1) as Hf.
      unfold answer_claim in Hf. rewrite Er in Hf. cbn [in_stage rs_job rs_stage rs_effs q app] in Hf.
      destruct (jb_run _ _ _ _) as [c o]. destruct (settle j o w1) as [w2 effs].
      destruct Hf as (acts & s' & Hs' & He); [done|done| |done|].
      { intros t' th' Ht'. subst s1. cbn [put sy_conf c_threads] in Ht'.
        apply lookup_insert_Some in Ht' as [[_ <-]|[_ Ht']]; [done|by apply lookup_empty_Some in Ht']. }
      exists (flat_map lift cacts ++ acts), s'. split; [|exact He]. by rewrite ssteps_app, Hl.
    + exists (flat_map lift cacts), s1. split; [exact Hl|]. split; [done|]. eexists. split; [exact Hq1|done].
Qed.

(** The handlers, taken as one call each, are runs of the interleaved
    system. For every request, configuration, tables and sequence of failing
    calls, either the handler refuses the request without touching a database, or
    the system, with this request alone in it, has a run in which the request
    ends with the tables the handler leaves, with the effects of the handler and
    with what the handler sent to the tenant database. *)
Theorem sequential_is_a_run t ep cfg reg ws rq w n1 id1 n2 id2 rest t0 t1 st :
  let g := {| gw_world := w; gw_conn := {| cn_state := st; cn_log := [] |} |} in
  let '(g', effs) := handler ep cfg reg ws rq ((n1, id1) :: (n2, id2) :: rest) t0 t1 g in
  (g' = g ∧ prepare srv marshal_row ep cfg reg ws rq = inl effs) ∨
  ∃ acts s, ssteps (started (w_db w)) (QArrive t ep cfg reg ws rq :: acts) = Some s ∧
    ends t s (w_db (gw_world g')) effs (cn_log (gw_conn g')).
Proof.
  cbv zeta. rewrite handler_staged. destruct (prepare _ _ _ _ _ _ _) as [effs|j] eqn:Ep; cbn [run_staged]; [by left|].
  pose proof (solo_job t j w n1 id1 n2 id2 rest t0 t1 st) as Hs. destruct (run_job _ _ _ _ _) as [g' effs].
  destruct Hs as (acts & s & Hx & He). right. exists acts, s. split; [|exact He].
  cbn [ConcurrentApi.ssteps]. rewrite (arrive_arrived _ _ _ _ _ _ _ _ Ep). exact Hx.
Qed.
End Solo.
