(* ===== verification/Routes.v ===== *)
(** * internal/httpapi/api.go, Routes: the request pipeline

    The routes of the API with the middleware [wrap] puts around every handler:
    authentication outside, rate limiting inside. The theorems tie the pipeline
    to the components: what reaches the tenant database was authenticated, was
    within the limit, and runs as the authenticated tenant. *)

From S2P Require Import Prelude GoStrings GoErrors AuthKey Lru AuthCache ControlPlane AuthStore AuthMiddleware Tenant SqlValidator SqlExecutor HttpErrors Idempotency RpcDispatcher HttpApi RateLimit.
From Stdlib Require QArith_base.

Inductive route : Type := SqlExecute | RpcCall | KeyRotate | KeyCreate | Me.

(** The patterns of the ServeMux; no match is answered by the mux itself. *)
Definition route_of (method path : bytes) : option route :=
  if str_eqb method (bs "POST") then
    if str_eqb path (bs "/sql/execute") then Some SqlExecute
    else if str_eqb path (bs "/rpc/call") then Some RpcCall
    else if str_eqb path (bs "/auth/keys/rotate") then Some KeyRotate
    else if str_eqb path (bs "/auth/keys") then Some KeyCreate
    else None
  else if str_eqb method (bs "GET") || str_eqb method (bs "HEAD") then
    if str_eqb path (bs "/me") then Some Me else None
  else None.

(** The readings of the clock and the random draws of one request. *)
Record moment : Type := {
  mo_get : Z; mo_put : Z; mo_active : Z;
  mo_new : Z; mo_allow : Z; mo_tokens : Z;
  mo_start : Z; mo_end : Z; mo_now : Z;
}.

Section Pipeline.
Context {V S : Type} `{RpcLib V, UuidLib, Gzip, UnicodeTables, PgQuery, Float64}.
Context {LK : LRU cachedKey} {LB : LRU nat}.
Context `{!ApiJson (V := V)}.
Variable srv : PgServer V S.
Variable marshal_row : list V → bytes.
Variable IDKey : bytes → bytes → Z → Z → Z → Z → bytes.
Variable dummySalt : res error bytes.
Variable cfg : api_config.
Variable reg : Registry.

Record api_state : Type := {
  as_gateway : gateway (V := V) (S := S);
  as_cache : VerifyCache;
  as_limit : RateLimit;
}.

(** The handler of a route, for an authenticated request. *)
Definition handle (rt : route) (ws : WorkspaceContext) (rq : http_request) (attempts : list (Z * uuid))
    (dr : Draw) (m : moment) (s : api_state) : api_state * list effect :=
  match rt with
  | SqlExecute =>
      let '(g, effs) := handleSQLExecute srv marshal_row cfg ws rq attempts (mo_start m) (mo_end m) (as_gateway s) in
      ({| as_gateway := g; as_cache := as_cache s; as_limit := as_limit s |}, effs)
  | RpcCall =>
      let '(g, effs) := handleRPCCall srv cfg reg ws rq attempts (mo_start m) (mo_end m) (as_gateway s) in
      ({| as_gateway := g; as_cache := as_cache s; as_limit := as_limit s |}, effs)
  | KeyRotate =>
      let '((w, cache), effs) := handleKeyRotate IDKey cfg ws dr (mo_now m) (gw_world (as_gateway s)) (as_cache s) in
      ({| as_gateway := {| gw_world := w; gw_conn := gw_conn (as_gateway s) |}; as_cache := cache;
          as_limit := as_limit s |}, effs)
  | KeyCreate =>
      let '(w, effs) := handleKeyCreate IDKey ws rq dr (mo_now m) (gw_world (as_gateway s)) in
      ({| as_gateway := {| gw_world := w; gw_conn := gw_conn (as_gateway s) |}; as_cache := as_cache s;
          as_limit := as_limit s |}, effs)
  | Me => (s, handleMe ws)
  end.

(** Headers set by the middleware before the handler's own. *)
Definition add_headers (hs : list (bytes * bytes)) (e : effect (V := V)) : effect :=
  match e with
  | Respond status hs' body => Respond status (hs ++ hs') body
  | _ => e
  end.

(** [wrap(h)]: authenticate, then limit, then handle. A panic ends in the
    Recoverer, with a plain-text 500. *)
Definition wrap (rt : route) (header : bytes) (rq : http_request) (attempts : list (Z * uuid)) (dr : Draw)
    (m : moment) (s : api_state) : api_state * list effect :=
  match Authenticate IDKey dummySalt (mo_get m) (mo_put m) (mo_active m) header (as_cache s)
          (gw_world (as_gateway s)) with
  | ((cache, w), o) =>
      let s := {| as_gateway := {| gw_world := w; gw_conn := gw_conn (as_gateway s) |};
                  as_cache := cache; as_limit := as_limit s |} in
      match o with
      | Panicked =>
          (s, [Respond 500 [(bs "Content-Type", bs "text/plain; charset=utf-8");
                            (bs "X-Content-Type-Options", bs "nosniff")]
                 (bs "Internal Server Error" ++ newline)])
      | Reject r => (s, [Respond (ar_status r) (ar_headers r) (ar_body r)])
      | Next ws _ =>
          match Middleware (as_limit s) (Some ws) (mo_new m) (mo_allow m) (mo_tokens m) with
          | (Limited hs p, rl) =>
              ({| as_gateway := as_gateway s; as_cache := as_cache s; as_limit := rl |},
               [add_headers hs (WriteProblem p)])
          | (Passed hs, rl) =>
              let '(s, effs) := handle rt ws rq attempts dr m
                {| as_gateway := as_gateway s; as_cache := as_cache s; as_limit := rl |} in
              (s, add_headers hs <$> effs)
          end
      end
  end.

(** [Routes()] serving a request; [None] is a request no pattern matches, which
    the mux answers itself (404, 405 or a redirect). *)
Definition serve (header : bytes) (rq : http_request) (attempts : list (Z * uuid)) (dr : Draw) (m : moment)
    (s : api_state) : option (api_state * list effect) :=
  match route_of (hr_Method rq) (hr_Path rq) with
  | Some rt => Some (wrap rt header rq attempts dr m s)
  | None => None
  end.

(** ** The pipeline *)

Lemma responses_headers hs effs : responses (add_headers hs <$> effs) = responses effs.
Proof.
  unfold responses. induction effs as [|e effs IH]; [done|].
  rewrite fmap_cons. cbn [flat_map]. rewrite IH. by destruct e.
Qed.

(** Only the two statement routes talk to the tenant database. *)
Lemma handle_conn rt ws rq attempts dr m s s' effs :
  handle rt ws rq attempts dr m s = (s', effs) →
  gw_conn (as_gateway s') = gw_conn (as_gateway s) ∨ rt = SqlExecute ∨ rt = RpcCall.
Proof.
  intros Hx. destruct rt; [by right; left|by right; right|left..]; simpl in Hx.
  - destruct (handleKeyRotate _ _ _ _ _ _ _) as [[]]. by simplify_eq.
  - destruct (handleKeyCreate _ _ _ _ _ _) as []. by simplify_eq.
  - by simplify_eq.
Qed.

(** Nothing reaches the tenant database without passing authentication and
    the rate limit. If handling a request changed the tenant connection, the
    Authorization header was accepted, the limiter let the key through, and the
    route is one of the two that run statements; a request that is refused by
    authentication leaves the limiter as it was. *)
Theorem pipeline_guarded header rq attempts dr m s s' effs :
  serve header rq attempts dr m s = Some (s', effs) →
  let a := Authenticate IDKey dummySalt (mo_get m) (mo_put m) (mo_active m) header (as_cache s)
             (gw_world (as_gateway s)) in
  (gw_conn (as_gateway s') ≠ gw_conn (as_gateway s) →
     (route_of (hr_Method rq) (hr_Path rq) = Some SqlExecute ∨ route_of (hr_Method rq) (hr_Path rq) = Some RpcCall) ∧
     ∃ ws touch hs rl, a.2 = Next ws touch ∧
       Middleware (as_limit s) (Some ws) (mo_new m) (mo_allow m) (mo_tokens m) = (Passed hs, rl)) ∧
  ((∀ ws touch, a.2 ≠ Next ws touch) →
     as_limit s' = as_limit s ∧ gw_conn (as_gateway s') = gw_conn (as_gateway s) ∧
     ∃ status body, responses effs = [(status, body)] ∧ (400 ≤ status)%Z).
Proof.
  unfold serve. destruct (route_of _ _) as [rt|]; [|done]. intros [= Hx]. unfold wrap in Hx. simpl.
  destruct (Authenticate _ _ _ _ _ _ _ _) as [[cache w] o] eqn:Ea. simpl. destruct o as [r|ws touch|].
  - simplify_eq/=. split; [done|]. intros _. split; [done|]. split; [done|]. do 2 eexists. split; [done|].
    pose proof (Authenticate_Reject IDKey dummySalt (mo_get m) (mo_put m) (mo_active m) header (as_cache s)
      (gw_world (as_gateway s)) r) as Hr. rewrite Ea in Hr. destruct (Hr eq_refl); lia.
  - destruct (Middleware _ _ _ _ _) as [[hs p|hs] rl] eqn:Em.
    + simplify_eq/=. split; [done|]. intros Hn. by destruct (Hn ws touch).
    + destruct (handle _ _ _ _ _ _ _) as [s1 e1] eqn:Eh. simplify_eq/=. split; [|intros Hn; by destruct (Hn ws touch)].
      intros Hne. apply handle_conn in Eh as [Heq|Hrt]; [done|].
      split; [naive_solver|]. by exists ws, touch, hs, rl.
  - simplify_eq/=. split; [done|]. intros _. split; [done|]. split; [done|]. by do 2 eexists.
Qed.

(** A statement sent over the API runs as the authenticated tenant: the
    commands a request adds to the tenant connection are at most the start of a
    transaction's setup, closed again, or the whole setup followed by the one
    statement, at a point where the session has the workspace and the role of the
    key that authenticated the request. *)
Theorem statement_runs_as_tenant header rq attempts dr m s s' effs :
  in_int64 (ec_StatementTimeout (ac_executor cfg)) → in_int64 (ec_IdleInTxTimeout (ac_executor cfg)) →
  route_of (hr_Method rq) (hr_Path rq) = Some SqlExecute →
  serve header rq attempts dr m s = Some (s', effs) →
  let log := cn_log (gw_conn (as_gateway s)) in
  let log' := cn_log (gw_conn (as_gateway s')) in
  log' = log ∨
  ∃ ws touch, (Authenticate IDKey dummySalt (mo_get m) (mo_put m) (mo_active m) header (as_cache s)
                 (gw_world (as_gateway s))).2 = Next ws touch ∧
    let setup := setup_cmds (ws_WorkspaceID ws) (ws_PgRole ws) (ec_StatementTimeout (ac_executor cfg))
                   (ec_IdleInTxTimeout (ac_executor cfg)) in
    ((∃ n fin, log' = log ++ take n (CBegin :: setup) ++ fin ∧ (fin = [] ∧ n = 1 ∨ fin = [CRollback])) ∨
     (∃ user fin, log' = (log ++ CBegin :: setup) ++ user :: fin ∧ closing fin ∧
        ∀ does, session_of does (log ++ CBegin :: setup) =
          tenant_session (ws_WorkspaceID ws) (ws_PgRole ws) (ec_StatementTimeout (ac_executor cfg))
            (ec_IdleInTxTimeout (ac_executor cfg)))).
Proof.
  intros Hst Hid Hrt Hx. simpl. unfold serve in Hx. rewrite Hrt in Hx. injection Hx as Hx. unfold wrap in Hx.
  destruct (Authenticate _ _ _ _ _ _ _ _) as [[cache w] o]. simpl in *. destruct o as [r|ws touch|];
    [simplify_eq; by left| |simplify_eq; by left].
  destruct (Middleware _ _ _ _ _) as [[hs p|hs] rl]; [simplify_eq; by left|].
  destruct (handleSQLExecute _ _ _ _ _ _ _ _ _) as [g1 e1] eqn:Eh. simplify_eq/=.
  apply handleSQLExecute_conn in Eh as [->|(sql & params & vres & res & He)]; [by left|right].
  exists ws, touch. split; [done|].
  cbn [gw_conn] in He. eapply Execute_trace in He; [|reflexivity].
  destruct He as [(Hl & _)|[(n & Hl & _)|(fin & Hl & Hc & _ & Hsafe & _)]].
  - left. exists 1, []. rewrite Hl. simpl. auto.
  - left. exists (Datatypes.S n), [CRollback]. rewrite Hl. simpl. auto.
  - right. eexists _, fin. rewrite <- app_assoc. split; [exact Hl|]. split; [done|]. intros does. by apply setup_session.
Qed.
End Pipeline.

(** ** Instances *)

#[local] Existing Instance text_uuid.
#[local] Existing Instance RpcDemo.lib.
#[local] Existing Instance IdemDemo.gz.
#[local] Existing Instance ValidatorDemo.unicode.
#[local] Existing Instance ValidatorDemo.parser.
#[local] Existing Instance LimitDemo.exact.
#[local] Existing Instance ApiDemo.json.

Module RouteDemo.
Definition start : api_state (V := bytes) (S := unit) :=
  {| as_gateway := {| gw_world := MwDemo.w1; gw_conn := ExecDemo.start |};
     as_cache := NewVerifyCache 8 100; as_limit := NewRateLimit (QArith_base.inject_Z 1) 2 |}.

Definition at_zero : moment :=
  {| mo_get := 0; mo_put := 0; mo_active := 0; mo_new := 0; mo_allow := 0; mo_tokens := 0;
     mo_start := 0; mo_end := 5; mo_now := 0 |}.

Definition post (header : bytes) : option (api_state (V := bytes) (S := unit) * list effect) :=
  serve ExecDemo.server ExecDemo.marshal toy_IDKey (Ok (repeat x00 16)) ApiDemo.cfg RpcDemo.reg
    header (ApiDemo.request ValidatorDemo.select2) [(0%Z, Demo.uid [x69])] (Demo.draw x62) at_zero start.

Definition auth (header : bytes) : auth_outcome :=
  (Authenticate toy_IDKey (Ok (repeat x00 16)) 0 0 0 header (as_cache start) (gw_world (as_gateway start))).2.

Definition log_length (r : option (api_state (V := bytes) (S := unit) * list (effect (V := bytes)))) : nat :=
  match r with Some (s, _) => length (cn_log (gw_conn (as_gateway s))) | None => 0 end.

(** The request of a valid key runs its statement. *)
Lemma ran s' effs : post MwDemo.header = Some (s', effs) →
  gw_conn (as_gateway s') ≠ gw_conn (as_gateway start).
Proof.
  intros Hx Hc. apply (f_equal log_length) in Hx. cbn [log_length] in Hx.
  rewrite Hc in Hx. vm_compute in Hx. discriminate Hx.
Qed.
End RouteDemo.

Lemma pipeline_guarded_witness :
  ∃ ws touch, RouteDemo.auth MwDemo.header = Next ws touch.
Proof.
  destruct (RouteDemo.post MwDemo.header) as [[s' effs]|] eqn:E;
    [|apply (f_equal RouteDemo.log_length) in E; vm_compute in E; discriminate E].
  destruct (pipeline_guarded ExecDemo.server ExecDemo.marshal toy_IDKey (Ok (repeat x00 16)) ApiDemo.cfg RpcDemo.reg
    MwDemo.header (ApiDemo.request ValidatorDemo.select2) [(0%Z, Demo.uid [x69])] (Demo.draw x62)
    RouteDemo.at_zero RouteDemo.start s' effs E) as [Hran _].
  destruct (Hran (RouteDemo.ran s' effs E)) as (_ & ws & touch & _ & _ & Hn & _).
  exists ws, touch. exact Hn.
Defined.

Lemma statement_runs_as_tenant_witness :
  ∃ s' effs ws touch, RouteDemo.post MwDemo.header = Some (s', effs) ∧ RouteDemo.auth MwDemo.header = Next ws touch.
Proof.
  destruct (RouteDemo.post MwDemo.header) as [[s' effs]|] eqn:E;
    [|apply (f_equal RouteDemo.log_length) in E; vm_compute in E; discriminate E].
  destruct (statement_runs_as_tenant ExecDemo.server ExecDemo.marshal toy_IDKey (Ok (repeat x00 16)) ApiDemo.cfg RpcDemo.reg
    MwDemo.header (ApiDemo.request ValidatorDemo.select2) [(0%Z, Demo.uid [x69])] (Demo.draw x62)
    RouteDemo.at_zero RouteDemo.start s' effs) as [Hl|(ws & touch & Hn & _)].
  - unfold in_int64, min_int64, max_int64. vm_compute. split; discriminate.
  - unfold in_int64, min_int64, max_int64. vm_compute. split; discriminate.
  - reflexivity.
  - exact E.
  - exfalso. apply (f_equal RouteDemo.log_length) in E. cbn [RouteDemo.log_length] in E.
    rewrite Hl in E. vm_compute in E. discriminate E.
  - exists s', effs, ws, touch. split; [reflexivity|exact Hn].
Defined.
