(* ===== verification/KeyRows.v ===== *)
(** * The keys a request over the API can make

    What the table of keys looks like after a request to any route of the API:
    the gateway's own statements for a SQL or RPC request go to the table of
    idempotency keys (the client's go to the tenant database, another state), a creation adds a row, a rotation adds one and dates another.
    Every outcome of the database calls is covered, lost acknowledgements included. *)

From S2P Require Import Prelude GoStrings GoErrors AuthKey Lru AuthCache ControlPlane AuthStore AuthMiddleware Tenant SqlValidator SqlExecutor HttpErrors Idempotency RpcDispatcher HttpApi ApiStages RateLimit Routes.

Section Claims.
Context `{UuidLib, Gzip}.



End Claims.

Section KeyRows.
Context {V S : Type} `{RpcLib V, UuidLib, Gzip, UnicodeTables, PgQuery, Float64}.
Context {LK : LRU cachedKey} {LB : LRU nat}.
Context `{!ApiJson (V := V)}.
Variable srv : PgServer V S.
Variable marshal_row : list V → bytes.
Variable IDKey : bytes → bytes → Z → Z → Z → Z → bytes.
Variable dummySalt : res error bytes.
Variable cfg : api_config.
Variable reg : Registry.







End KeyRows.

(** ** A rotation *)

#[local] Existing Instance text_uuid.
#[local] Existing Instance RpcDemo.lib.
#[local] Existing Instance IdemDemo.gz.
#[local] Existing Instance ValidatorDemo.unicode.
#[local] Existing Instance ValidatorDemo.parser.
#[local] Existing Instance LimitDemo.exact.
#[local] Existing Instance ApiDemo.json.

Module RotateDemo.


End RotateDemo.

