(* ===== verification/HttpMiddleware.v ===== *)
(** * internal/httpapi/middleware.go: the middleware around the server

    RequestID, RealIP, Recoverer, AccessLog, MaxBodyBytes and MetricsMiddleware in
    the order cmd/server/main.go composes them, over a model of net/http's
    response. A response writer is an interface ([ResponseWriter]) that net/http's
    writer and the [responseWriter] wrapper implement; a handler is what it
    writes, and whether it returns or panics. *)

From S2P Require Import Prelude GoStrings GoErrors Sha256 Observability.

(** ** net/http *)

Abbreviation Header := (list (bytes * bytes)).

(** [Header.Set] with a canonical key *)
Definition header_Set (k v : bytes) (h : Header) : Header :=
  (k, v) :: List.filter (fun p => negb (str_eqb p.1 k)) h.

(** [Header.Get] *)
Definition header_Get (h : Header) (k : bytes) : bytes :=
  match List.find (fun p => str_eqb p.1 k) h with
  | Some p => p.2
  | None => []
  end.

(** What an [http.ResponseWriter] offers. [WriteHeader] tells whether it
    panicked, [Write] how many bytes it took. *)
Class ResponseWriter (W : Type) : Type := {
  rw_SetHeader : bytes → bytes → W → W;
  rw_WriteHeader : Z → W → W * bool;
  rw_Write : bytes → W → W * Z;
}.

(** The response of net/http: the headers of a handler, what was sent, and the bytes
    of the body it took from the handler. *)
Record response : Type := {
  rs_handlerHeader : Header;
  rs_sent : option (Z * Header);
  rs_written : bytes;
}.

Definition bodyAllowedForStatus (status : Z) : bool :=
  negb (((100 <=? status) && (status <=? 199)) || (status =? 204) || (status =? 304))%Z.

(** An informational status is sent at once and is not the final one. *)
Definition response_WriteHeader (code : Z) (w : response) : response * bool :=
  match rs_sent w with
  | Some _ => (w, false)
  | None =>
      if (code <? 100)%Z || (999 <? code)%Z then (w, true)
      else if (100 <=? code)%Z && (code <=? 199)%Z && negb (code =? 101)%Z then (w, false)
      else ({| rs_handlerHeader := rs_handlerHeader w; rs_sent := Some (code, rs_handlerHeader w);
               rs_written := rs_written w |}, false)
  end.

Definition response_Write (b : bytes) (w : response) : response * Z :=
  let w := match rs_sent w with Some _ => w | None => (response_WriteHeader 200 w).1 end in
  match rs_sent w with
  | Some (status, _) =>
      if bodyAllowedForStatus status
      then ({| rs_handlerHeader := rs_handlerHeader w; rs_sent := rs_sent w; rs_written := rs_written w ++ b |},
            Z.of_nat (length b))
      else (w, 0%Z)
  | None => (w, 0%Z)
  end.

#[export] Instance response_writer : ResponseWriter response := {|
  rw_SetHeader k v w :=
    {| rs_handlerHeader := header_Set k v (rs_handlerHeader w); rs_sent := rs_sent w; rs_written := rs_written w |};
  rw_WriteHeader := response_WriteHeader;
  rw_Write := response_Write;
|}.

Definition new_response : response := {| rs_handlerHeader := []; rs_sent := None; rs_written := [] |}.

(** What the client gets: a handler that wrote nothing answers 200. *)
Definition client_status (w : response) : Z :=
  match rs_sent w with Some (status, _) => status | None => 200 end.
Definition client_header (w : response) : Header :=
  match rs_sent w with Some (_, h) => h | None => rs_handlerHeader w end.

(** The body of a response to HEAD is taken, and not sent. *)
Definition client_body (method : bytes) (w : response) : bytes :=
  if str_eqb method (bs "HEAD") then [] else rs_written w.

(** ** The wrapper *)

Record responseWriter (W : Type) : Type := {
  ww_ResponseWriter : W;
  ww_status : Z;
  ww_bytesWritten : Z;
  ww_wroteHeader : bool;
}.
Arguments ww_ResponseWriter {W} _.
Arguments ww_status {W} _.
Arguments ww_bytesWritten {W} _.
Arguments ww_wroteHeader {W} _.

Definition wrapResponseWriter {W} (w : W) : responseWriter W :=
  {| ww_ResponseWriter := w; ww_status := 200; ww_bytesWritten := 0; ww_wroteHeader := false |}.

Definition ww_WriteHeader `{ResponseWriter W} (code : Z) (w : responseWriter W) : responseWriter W * bool :=
  if ww_wroteHeader w then (w, false)
  else
    let '(inner, panicked) := rw_WriteHeader code (ww_ResponseWriter w) in
    ({| ww_ResponseWriter := inner; ww_status := code; ww_bytesWritten := ww_bytesWritten w;
        ww_wroteHeader := true |}, panicked).

Definition ww_Write `{ResponseWriter W} (b : bytes) (w : responseWriter W) : responseWriter W * Z :=
  let '(inner, n) := rw_Write b (ww_ResponseWriter w) in
  ({| ww_ResponseWriter := inner; ww_status := ww_status w;
      ww_bytesWritten := wrap64 (ww_bytesWritten w + n); ww_wroteHeader := true |}, n).

#[export] Instance wrapped_writer `{ResponseWriter W} : ResponseWriter (responseWriter W) := {|
  rw_SetHeader k v w :=
    {| ww_ResponseWriter := rw_SetHeader k v (ww_ResponseWriter w); ww_status := ww_status w;
       ww_bytesWritten := ww_bytesWritten w; ww_wroteHeader := ww_wroteHeader w |};
  rw_WriteHeader := ww_WriteHeader;
  rw_Write := ww_Write;
|}.

(** ** Handlers *)

Inductive wop : Type :=
| OpSetHeader (k v : bytes)
| OpWriteHeader (code : Z)
| OpWrite (b : bytes).

(** How a handler ends; [PanicAbort] is the panic with [http.ErrAbortHandler]. *)
Inductive finish : Type := Returned | Panicking | PanicAbort.

(** A request as the middleware sees it; [rq_body] is the reader's outcome. *)
Record Request : Type := {
  rq_Method : bytes;
  rq_Path : bytes;
  rq_Header : Header;
  rq_RemoteAddr : bytes;
  rq_requestID : bytes;            (** the context value of [requestIDKey] *)
  rq_Body : res error bytes;
}.

(** What the middleware reports to the logger and to prometheus. *)
Inductive event : Type :=
| EvPanic (method path : bytes)
| EvRequest (route method status : bytes)
| EvAccess (method path : bytes) (status bytes_written : Z) (remote request_id : bytes).

(** A handler works on any response writer. *)
Definition Handler : Type :=
  ∀ W (rw : ResponseWriter W), Request → W → W * list event * finish.

(** Runs what a handler writes, up to a panic of the writer. *)
Fixpoint run_ops `{ResponseWriter W} (ops : list wop) (fin : finish) (w : W) : W * finish :=
  match ops with
  | [] => (w, fin)
  | OpSetHeader k v :: ops => run_ops ops fin (rw_SetHeader k v w)
  | OpWriteHeader code :: ops =>
      let '(w, panicked) := rw_WriteHeader code w in
      if panicked then (w, Panicking) else run_ops ops fin w
  | OpWrite b :: ops => run_ops ops fin (rw_Write b w).1
  end.

(** The innermost handler: a program for each request. *)
Definition program : Type := Request → list wop * finish.

Definition handler_of (p : program) : Handler :=
  fun W rw r w => let '(w, fin) := run_ops (p r).1 (p r).2 w in (w, [], fin).

(** ** The middleware *)

Definition x_request_id : bytes := bs "X-Request-Id".

Definition with_requestID (r : Request) (id : bytes) : Request :=
  {| rq_Method := rq_Method r; rq_Path := rq_Path r; rq_Header := rq_Header r;
     rq_RemoteAddr := rq_RemoteAddr r; rq_requestID := id; rq_Body := rq_Body r |}.

(** [rnd] is the array the random reader filled (all zero if it failed). *)
Definition RequestID (rnd : bytes) (next : Handler) : Handler :=
  fun W rw r w =>
    let id := header_Get (rq_Header r) x_request_id in
    let id := if str_eqb id [] then hex_encode rnd else id in
    next W rw (with_requestID r id) (rw_SetHeader x_request_id id w).

Definition with_RemoteAddr (r : Request) (addr : bytes) : Request :=
  {| rq_Method := rq_Method r; rq_Path := rq_Path r; rq_Header := rq_Header r;
     rq_RemoteAddr := addr; rq_requestID := rq_requestID r; rq_Body := rq_Body r |}.

Definition RealIP (trustProxy : bool) (next : Handler) : Handler :=
  if negb trustProxy then next
  else fun W rw r w =>
    let rip := header_Get (rq_Header r) (bs "X-Real-Ip") in
    let fwd := header_Get (rq_Header r) (bs "X-Forwarded-For") in
    let r :=
      if negb (str_eqb rip []) then with_RemoteAddr r rip
      else if negb (str_eqb fwd []) then
        match IndexByte fwd "," with
        | Some (S i) => with_RemoteAddr r (TrimSpace (take (S i) fwd))
        | _ => with_RemoteAddr r (TrimSpace fwd)
        end
      else r in
    next W rw r w.

(** [http.Error(w, "Internal Server Error", 500)]; the headers of a body it also
    deletes are set by no handler. *)
Definition http_Error_ops : list wop :=
  [OpSetHeader (bs "Content-Type") (bs "text/plain; charset=utf-8");
   OpSetHeader (bs "X-Content-Type-Options") (bs "nosniff");
   OpWriteHeader 500; OpWrite (bs "Internal Server Error" ++ [x0a])].

Definition Recoverer (next : Handler) : Handler :=
  fun W rw r w =>
    let '(w, evs, fin) := next W rw r w in
    match fin with
    | Panicking =>
        let '(w, fin) := run_ops http_Error_ops Returned w in
        (w, evs ++ [EvPanic (rq_Method r) (rq_Path r)], fin)
    | _ => (w, evs, fin)
    end.

Definition too_large : error := errors_New (bs "http: request body too large").

(** [http.MaxBytesReader], seen by a handler that reads to the end. *)
Definition MaxBodyBytes (n : Z) (next : Handler) : Handler :=
  fun W rw r w =>
    let body := match rq_Body r with
                | Ok b => if (Z.of_nat (length b) <=? Z.max 0 n)%Z then Ok b else Err too_large
                | Err e => Err e
                end in
    next W rw {| rq_Method := rq_Method r; rq_Path := rq_Path r; rq_Header := rq_Header r;
                 rq_RemoteAddr := rq_RemoteAddr r; rq_requestID := rq_requestID r; rq_Body := body |} w.

(** The durations are not modelled. The first [WithLabelValues] panics if the
    client refuses the labels. *)
Definition MetricsMiddleware `{Prometheus} (next : Handler) : Handler :=
  fun W rw r w =>
    let '(ww, evs, fin) := next _ wrapped_writer r (wrapResponseWriter w) in
    match fin with
    | Returned =>
        let route := if str_eqb (rq_Path r) [] then bs "unknown" else rq_Path r in
        let status := Itoa (ww_status ww) in
        if label_values_ok route_labels [route; rq_Method r; status]
        then (ww_ResponseWriter ww, evs ++ [EvRequest route (rq_Method r) status], Returned)
        else (ww_ResponseWriter ww, evs, Panicking)
    | _ => (ww_ResponseWriter ww, evs, fin)
    end.

Definition AccessLog (next : Handler) : Handler :=
  fun W rw r w =>
    let '(ww, evs, fin) := next _ wrapped_writer r (wrapResponseWriter w) in
    match fin with
    | Returned =>
        (ww_ResponseWriter ww,
         evs ++ [EvAccess (rq_Method r) (rq_Path r) (ww_status ww) (ww_bytesWritten ww) (rq_RemoteAddr r)
                   (rq_requestID r)], Returned)
    | _ => (ww_ResponseWriter ww, evs, fin)
    end.

(** The chain of cmd/server/main.go around the mux. *)
Definition server_chain `{Prometheus} (trustProxy : bool) (maxBody : Z) (rnd : bytes) (mux : Handler) : Handler :=
  RealIP trustProxy (RequestID rnd (Recoverer (AccessLog (MaxBodyBytes maxBody (MetricsMiddleware mux))))).

(** ** Writers that show what net/http sends *)

(** A writer on top of a response: what it promises to the middleware. *)
Class LawfulWriter (W : Type) `{ResponseWriter W} : Type := {
  base : W → response;
  wok : W → Prop;
  law_set k v w : wok w → wok (rw_SetHeader k v w) ∧ base (rw_SetHeader k v w) = rw_SetHeader k v (base w);
  law_header code w : (200 ≤ code ≤ 999)%Z → wok w →
    (rw_WriteHeader code w).2 = false ∧ wok (rw_WriteHeader code w).1 ∧
    base (rw_WriteHeader code w).1 = (rw_WriteHeader code (base w)).1;
  law_write b w : wok w →
    wok (rw_Write b w).1 ∧ base (rw_Write b w).1 = (rw_Write b (base w)).1 ∧
    (rw_Write b w).2 = (rw_Write b (base w)).2;
}.

Lemma response_WriteHeader_final code w : (200 ≤ code ≤ 999)%Z →
  response_WriteHeader code w =
    (match rs_sent w with
     | Some _ => w
     | None => {| rs_handlerHeader := rs_handlerHeader w; rs_sent := Some (code, rs_handlerHeader w);
                  rs_written := rs_written w |}
     end, false).
Proof.
  intros Hc. unfold response_WriteHeader. destruct (rs_sent w); [done|].
  repeat (case_match; go_bool; try lia); done.
Qed.

#[export] Program Instance response_lawful : LawfulWriter response := {|
  base w := w; wok _ := True
|}.
Next Obligation. done. Qed.
Next Obligation. intros code w Hc _. simpl. by rewrite response_WriteHeader_final. Qed.
Next Obligation. done. Qed.

(** The wrapper's fields describe the response below it. *)
Definition observes (status n : Z) (wrote : bool) (w : response) : Prop :=
  wrote = bool_decide (is_Some (rs_sent w)) ∧ status = client_status w ∧
  n = wrap64 (Z.of_nat (length (rs_written w))).

Lemma wrap64_add a b : wrap64 (wrap64 a + b) = wrap64 (a + b).
Proof.
  unfold wrap64. f_equal.
  replace ((a + 2 ^ 63) mod 2 ^ 64 - 2 ^ 63 + b + 2 ^ 63)%Z with ((a + 2 ^ 63) mod 2 ^ 64 + b)%Z by lia.
  rewrite Z.add_mod_idemp_l by lia. f_equal. lia.
Qed.

Lemma observes_write b status n wrote w :
  observes status n wrote w →
  observes status (wrap64 (n + (response_Write b w).2)) true (response_Write b w).1.
Proof.
  destruct w as [hh sent body]. intros (Hw & Hs & Hn). unfold response_Write.
  rewrite (response_WriteHeader_final 200) by lia. simpl in *.
  destruct sent as [[st h]|]; simpl; unfold observes; unfold client_status in *; simpl in *; subst status n.
  - destruct (bodyAllowedForStatus st); simpl; rewrite wrap64_add; [|by rewrite Z.add_0_r].
    by rewrite length_app, Nat2Z.inj_add.
  - rewrite wrap64_add. by rewrite length_app, Nat2Z.inj_add.
Qed.

Lemma observes_header code status n wrote w : (200 ≤ code ≤ 999)%Z → wrote = false →
  observes status n wrote w → observes code n true (response_WriteHeader code w).1.
Proof.
  intros Hc -> (Hw & _ & Hn). rewrite response_WriteHeader_final by done. symmetry in Hw.
  apply bool_decide_eq_false in Hw. destruct (rs_sent w) as [?|] eqn:E; [exfalso; eauto|]. done.
Qed.

#[export] Program Instance wrapped_lawful `{LawfulWriter W} : LawfulWriter (responseWriter W) := {|
  base w := base (ww_ResponseWriter w);
  wok w := wok (ww_ResponseWriter w) ∧
           observes (ww_status w) (ww_bytesWritten w) (ww_wroteHeader w) (base (ww_ResponseWriter w));
|}.
Next Obligation.
  intros W H0 H1 k v w [Hok Ho]. simpl in *. destruct (law_set k v _ Hok) as [Hok' Hb]. by rewrite Hb.
Qed.
Next Obligation.
  intros W H0 H1 code w Hc [Hok Ho]. simpl in *. unfold ww_WriteHeader.
  destruct (law_header code _ Hc Hok) as (Hp & Hok' & Hb).
  destruct (ww_wroteHeader w) eqn:Ew; simpl.
  - split; [done|]. split; [by rewrite Ew|]. rewrite response_WriteHeader_final by done.
    destruct Ho as [Hw _]. symmetry in Hw. apply bool_decide_eq_true in Hw as [x ->]. done.
  - destruct (rw_WriteHeader code _) as [inner p]. simpl in *. subst p. split; [done|].
    split; [|done]. split; [done|]. rewrite Hb. eapply observes_header; [done|reflexivity|exact Ho].
Qed.
Next Obligation.
  intros W H0 H1 b w [Hok Ho]. simpl in *. unfold ww_Write.
  destruct (law_write b _ Hok) as (Hok' & Hb & Hn).
  destruct (rw_Write b _) as [inner n]. simpl in *. subst n. split; [|done]. split; [done|].
  rewrite Hb. eapply observes_write, Ho.
Qed.

(** Writes a handler may do: final statuses, and not the header RequestID sets. *)
Definition good_op (o : wop) : Prop :=
  match o with
  | OpSetHeader k _ => k ≠ x_request_id
  | OpWriteHeader code => (200 ≤ code ≤ 999)%Z
  | OpWrite _ => True
  end.

Lemma run_ops_base `{LawfulWriter W} ops fin (w : W) :
  Forall good_op ops → wok w →
  wok (run_ops ops fin w).1 ∧ base (run_ops ops fin w).1 = (run_ops ops fin (base w)).1 ∧
  (run_ops ops fin w).2 = fin.
Proof.
  intros Hg. revert w. induction Hg as [|o ops Ho _ IH]; intros w Hok; [done|].
  destruct o as [k v|code|b]; cbn [run_ops].
  - destruct (law_set k v w Hok) as [Hok' Hb]. rewrite <- Hb. by apply IH.
  - destruct (law_header code w Ho Hok) as (Hp & Hok' & Hb).
    pose proof (law_header code (base w) Ho I) as (Hp' & _ & _).
    destruct (rw_WriteHeader code w) as [w' p], (rw_WriteHeader code (base w)) as [b' p']. simpl in *. subst.
    by apply IH.
  - destruct (law_write b w Hok) as (Hok' & Hb & _). rewrite <- Hb. by apply IH.
Qed.

(** ** The chain *)

(** The request the mux sees. *)
Definition real_addr (trustProxy : bool) (r : Request) : bytes :=
  let rip := header_Get (rq_Header r) (bs "X-Real-Ip") in
  let fwd := header_Get (rq_Header r) (bs "X-Forwarded-For") in
  if negb trustProxy then rq_RemoteAddr r
  else if negb (str_eqb rip []) then rip
  else if negb (str_eqb fwd []) then
    match IndexByte fwd "," with
    | Some (S i) => TrimSpace (take (S i) fwd)
    | _ => TrimSpace fwd
    end
  else rq_RemoteAddr r.

Definition request_id (rnd : bytes) (r : Request) : bytes :=
  let id := header_Get (rq_Header r) x_request_id in
  if str_eqb id [] then hex_encode rnd else id.

Definition mux_request (trustProxy : bool) (maxBody : Z) (rnd : bytes) (r : Request) : Request :=
  {| rq_Method := rq_Method r; rq_Path := rq_Path r; rq_Header := rq_Header r;
     rq_RemoteAddr := real_addr trustProxy r; rq_requestID := request_id rnd r;
     rq_Body := match rq_Body r with
                | Ok b => if (Z.of_nat (length b) <=? Z.max 0 maxBody)%Z then Ok b else Err too_large
                | Err e => Err e
                end |}.

Lemma RealIP_addr tp next W rw r w :
  RealIP tp next W rw r w = next W rw (with_RemoteAddr r (real_addr tp r)) w.
Proof.
  destruct r. unfold RealIP, real_addr, with_RemoteAddr. simpl. destruct tp; simpl; [|done].
  by repeat case_match.
Qed.

Lemma header_Get_Set k v h : header_Get (header_Set k v h) k = v.
Proof. unfold header_Get, header_Set. simpl. by rewrite str_eqb_refl. Qed.

Lemma header_Get_Set_other k k' v h : k' ≠ k → header_Get (header_Set k' v h) k = header_Get h k.
Proof.
  intros Hne. unfold header_Get, header_Set. simpl.
  rewrite (bool_decide_false _ Hne : str_eqb k' k = false).
  induction h as [|[k1 v1] h IH]; [done|]. simpl. destruct (str_eqb k1 k') eqn:E1; simpl.
  - apply str_eqb_eq in E1 as ->. by rewrite (bool_decide_false _ Hne : str_eqb k' k = false).
  - destruct (str_eqb k1 k); [done|]. exact IH.
Qed.

(** The response carries the request id, and still will. *)
Definition carries (id : bytes) (w : response) : Prop :=
  header_Get (rs_handlerHeader w) x_request_id = id ∧ header_Get (client_header w) x_request_id = id.

Lemma run_ops_carries id ops fin w :
  Forall good_op ops → carries id w → carries id (run_ops ops fin w).1.
Proof.
  intros Hg. revert w. induction Hg as [|o ops Ho _ IH]; intros w Hc; [done|].
  destruct o as [k v|code|b]; cbn [run_ops].
  - apply IH. destruct w as [hh [[]|] body], Hc; unfold carries, client_header in *; simpl in *;
      rewrite header_Get_Set_other by done; done.
  - simpl in *. rewrite response_WriteHeader_final by done. apply IH.
    destruct w as [hh [[]|] body], Hc; done.
  - apply IH. simpl. unfold response_Write. rewrite (response_WriteHeader_final 200) by lia.
    destruct w as [hh [[st h]|] body], Hc; simpl; [case_match|]; done.
Qed.

(** The panic answer reaches the client only if nothing was sent before. *)
Lemma error_ops_sent w :
  let w' := (run_ops http_Error_ops Returned w).1 in
  match rs_sent w with
  | None => client_status w' = 500%Z ∧ rs_written w' = rs_written w ++ bs "Internal Server Error" ++ [x0a]
  | Some _ => client_status w' = client_status w
  end.
Proof.
  destruct w as [hh [[st h]|] body]; simpl.
  - unfold response_Write; simpl. by destruct (bodyAllowedForStatus st).
  - done.
Qed.

Lemma error_ops_good : Forall good_op http_Error_ops.
Proof. repeat constructor; try done; vm_compute; discriminate. Qed.

Definition route_of_path (path : bytes) : bytes := if str_eqb path [] then bs "unknown" else path.

Section Chain.
Context `{Prometheus}.

(** What the chain does, in terms of what the handler writes to a bare response. *)
Lemma server_chain_run tp mb rnd p r :
  let q := mux_request tp mb rnd r in
  let w0 := (run_ops (p q).1 (p q).2 (rw_SetHeader x_request_id (rq_requestID q) new_response)).1 in
  Forall good_op (p q).1 →
  let panicked := ((run_ops http_Error_ops Returned w0).1, [EvPanic (rq_Method r) (rq_Path r)], Returned) in
  server_chain tp mb rnd (handler_of p) response _ r new_response =
  match (p q).2 with
  | Returned =>
      if label_values_ok route_labels [route_of_path (rq_Path r); rq_Method r; Itoa (client_status w0)] then
        (w0, [EvRequest (route_of_path (rq_Path r)) (rq_Method r) (Itoa (client_status w0));
              EvAccess (rq_Method r) (rq_Path r) (client_status w0) (wrap64 (Z.of_nat (length (rs_written w0))))
                (rq_RemoteAddr q) (rq_requestID q)], Returned)
      else panicked
  | Panicking => panicked
  | PanicAbort => (w0, [], PanicAbort)
  end.
Proof.
  intros q w0 Hg panicked. unfold server_chain. rewrite RealIP_addr. unfold RequestID, Recoverer, AccessLog, MaxBodyBytes,
    MetricsMiddleware, handler_of, route_of_path.
  cbn [rq_Method rq_Path rq_Header rq_RemoteAddr rq_requestID rq_Body with_requestID with_RemoteAddr].
  fold (request_id rnd r).
  change {| rq_Method := rq_Method r; rq_Path := rq_Path r; rq_Header := rq_Header r;
            rq_RemoteAddr := real_addr tp r; rq_requestID := request_id rnd r; rq_Body := _ |} with q.
  set (ww := wrapResponseWriter _).
  destruct (run_ops_base (p q).1 (p q).2 ww Hg) as (Hok & Hb & Hf); [by repeat split|].
  destruct (run_ops (p q).1 (p q).2 ww) as [ww' fin']. simpl in Hf. subst fin'.
  simpl in Hok, Hb. change (ww_ResponseWriter (ww_ResponseWriter ww')  = w0) in Hb.
  destruct Hok as [[_ (_ & Hs1 & Hn1)] (_ & Hs2 & Hn2)]. rewrite Hb in *.
  pose proof (run_ops_base http_Error_ops Returned w0 error_ops_good I) as (_ & _ & He).
  destruct (p q).2.
  - rewrite Hs2. destruct (label_values_ok _ _); [by rewrite Hs1, Hn1, Hb|]. rewrite Hb.
    subst panicked. destruct (run_ops http_Error_ops Returned w0). simpl in *. by subst.
  - rewrite Hb. subst panicked. destruct (run_ops http_Error_ops Returned w0). simpl in *. by subst.
  - by rewrite Hb.
Qed.

Lemma mux_request_limits tp mb rnd r :
  let q := mux_request tp mb rnd r in
  (∀ b, rq_Body q = Ok b → (Z.of_nat (length b) ≤ Z.max 0 mb)%Z ∧ rq_Body r = Ok b) ∧
  (tp = false → rq_RemoteAddr q = rq_RemoteAddr r).
Proof.
  split; [|by intros ->]. simpl. intros b. destruct (rq_Body r) as [b'|]; [|done]. case_match; [|done].
  go_bool. by intros [= ->].
Qed.

Context `{!PrometheusLaws}.

Lemma route_labels_ok path method status :
  ValidString path = true → ValidString method = true →
  label_values_ok route_labels [route_of_path path; method; Itoa status] = true.
Proof.
  intros Hp Hm. apply values_ok. split; [done|]. repeat constructor; [|done|apply ValidString_ascii, Itoa_ascii].
  unfold route_of_path. by case_match.
Qed.

(** C38: The server reports what the client got. For any handler under the
    middleware chain that sends no informational status and does not abort the
    connection, and any request whose path and method are valid UTF-8: when the
    handler returns, the metrics and the access log hold the status the client got,
    and the access log the number of bytes of the body, which are sent unless the
    request is a HEAD; when it panics, the client gets a 500 if nothing had been
    sent, and the panic is logged instead; in both cases the response carries the
    request id under which the request is logged. The handler never sees a longer
    body than the limit, and without a trusted proxy its client address is the
    connection's. *)
Theorem server_observes tp mb rnd p r :
  let q := mux_request tp mb rnd r in
  Forall good_op (p q).1 → (p q).2 ≠ PanicAbort → ValidString (rq_Path r) = true → ValidString (rq_Method r) = true →
  let w0 := (run_ops (p q).1 (p q).2 (rw_SetHeader x_request_id (rq_requestID q) new_response)).1 in
  let '(w, evs, fin) := server_chain tp mb rnd (handler_of p) response _ r new_response in
  fin = Returned ∧ header_Get (client_header w) x_request_id = rq_requestID q ∧
  ((p q).2 = Returned → w = w0 ∧
     evs = [EvRequest (route_of_path (rq_Path r)) (rq_Method r) (Itoa (client_status w));
            EvAccess (rq_Method r) (rq_Path r) (client_status w) (wrap64 (Z.of_nat (length (rs_written w))))
              (rq_RemoteAddr q) (rq_requestID q)] ∧
     client_body (rq_Method r) w = (if str_eqb (rq_Method r) (bs "HEAD") then [] else rs_written w)) ∧
  ((p q).2 = Panicking → evs = [EvPanic (rq_Method r) (rq_Path r)] ∧
     match rs_sent w0 with
     | None => client_status w = 500%Z ∧ rs_written w = rs_written w0 ++ bs "Internal Server Error" ++ [x0a]
     | Some _ => client_status w = client_status w0
     end) ∧
  (∀ b, rq_Body q = Ok b → (Z.of_nat (length b) ≤ Z.max 0 mb)%Z ∧ rq_Body r = Ok b) ∧
  (tp = false → rq_RemoteAddr q = rq_RemoteAddr r).
Proof.
  intros q Hg Hna Hpath Hmeth w0.
  assert (carries (rq_requestID q) w0) as Hc.
  { apply run_ops_carries; [done|]. unfold carries, client_header. simpl. by rewrite header_Get_Set. }
  destruct (mux_request_limits tp mb rnd r) as [Hbody Haddr].
  rewrite (server_chain_run tp mb rnd p r Hg), route_labels_ok by done. fold q w0. destruct (p q).2; [|..|done].
  - split; [done|]. split; [apply Hc|]. by split.
  - split; [done|]. split; [apply (run_ops_carries _ http_Error_ops Returned w0 error_ops_good Hc)|].
    split; [done|]. split; [|done]. intros _. split; [done|]. apply error_ops_sent.
Qed.

(** A request can keep itself out of the access log. The labels of the request
    metrics hold the raw path, and the client refuses values that are not valid
    UTF-8 with a panic, after the response was written: for a path with a byte such
    as the one of /%ff neither the metrics nor the access log see the request,
    whatever handler answered it and with whatever status; and the recovered panic
    appends its text to a body that was already sent. *)
Theorem bad_path_unlogged tp mb rnd p r :
  let q := mux_request tp mb rnd r in
  Forall good_op (p q).1 → (p q).2 = Returned → ValidString (rq_Path r) = false →
  let w0 := (run_ops (p q).1 Returned (rw_SetHeader x_request_id (rq_requestID q) new_response)).1 in
  let '(w, evs, fin) := server_chain tp mb rnd (handler_of p) response _ r new_response in
  evs = [EvPanic (rq_Method r) (rq_Path r)] ∧
  ∀ status h, rs_sent w0 = Some (status, h) → bodyAllowedForStatus status = true →
    client_status w = status ∧ rs_written w = rs_written w0 ++ bs "Internal Server Error" ++ [x0a].
Proof.
  intros q Hg Hret Hbad w0. rewrite (server_chain_run tp mb rnd p r Hg). fold q. rewrite Hret. fold w0.
  destruct (label_values_ok _ _) eqn:E.
  - apply values_ok in E as [_ E]. apply Forall_cons_iff in E as [E _]. unfold route_of_path in E.
    destruct (str_eqb (rq_Path r) []) eqn:Ep; [|congruence]. go_bool. by rewrite Ep in Hbad.
  - split; [done|]. intros status h Hs Hb. destruct w0 as [hh sent body]. simpl in Hs. subst sent.
    simpl. unfold response_Write. simpl. by rewrite Hb.
Qed.
End Chain.

(** ** Instances *)

Module MiddlewareDemo.
Definition get : Request :=
  {| rq_Method := bs "GET"; rq_Path := bs "/healthz"; rq_Header := [(bs "X-Forwarded-For", bs "10.1.1.1 , 10.2.2.2")];
     rq_RemoteAddr := bs "127.0.0.1:9"; rq_requestID := []; rq_Body := Ok [] |}.

Definition health : program := fun _ =>
  ([OpSetHeader (bs "Content-Type") (bs "application/json"); OpWriteHeader 200; OpWrite (bs "ok")], Returned).

Definition odd : Request :=
  {| rq_Method := bs "GET"; rq_Path := [x2f; xff]; rq_Header := []; rq_RemoteAddr := bs "127.0.0.1:9";
     rq_requestID := []; rq_Body := Ok [] |}.

Definition not_found : program := fun _ =>
  ([OpSetHeader (bs "Content-Type") (bs "text/plain; charset=utf-8"); OpWriteHeader 404;
    OpWrite (bs "404 page not found")], Returned).

Example forwarded : real_addr true get = bs "10.1.1.1".
Proof. by vm_compute. Qed.
End MiddlewareDemo.

#[local] Existing Instance PromDemo.client.
#[local] Existing Instance PromDemo.client_laws.

Lemma server_observes_witness :
  let '(w, evs, fin) := server_chain false 10 (repeat x00 16) (handler_of MiddlewareDemo.health) response _
                          MiddlewareDemo.get new_response in
  fin = Returned ∧ header_Get (client_header w) x_request_id = hex_encode (repeat x00 16).
Proof.
  pose proof (server_observes false 10 (repeat x00 16) MiddlewareDemo.health MiddlewareDemo.get) as Hs.
  cbv zeta in Hs. destruct (server_chain _ _ _ _ _ _ _ _) as [[w evs] fin].
  destruct Hs as (Hf & Hi & _).
  - simpl. repeat constructor; try lia. vm_compute. discriminate.
  - discriminate.
  - reflexivity.
  - reflexivity.
  - split; [exact Hf|exact Hi].
Defined.

(** GET /%ff *)
Lemma bad_path_unlogged_witness :
  let '(w, evs, fin) := server_chain false 10 (repeat x00 16) (handler_of MiddlewareDemo.not_found) response _
                          MiddlewareDemo.odd new_response in
  evs = [EvPanic (bs "GET") [x2f; xff]] ∧ client_status w = 404%Z ∧
  rs_written w = bs "404 page not found" ++ bs "Internal Server Error" ++ [x0a].
Proof.
  pose proof (bad_path_unlogged false 10 (repeat x00 16) MiddlewareDemo.not_found MiddlewareDemo.odd) as Hs.
  cbv zeta in Hs. destruct (server_chain _ _ _ _ _ _ _ _) as [[w evs] fin].
  destruct Hs as (Hf & Hi).
  - simpl. repeat constructor; try lia. vm_compute. discriminate.
  - reflexivity.
  - reflexivity.
  - split; [exact Hf|]. eapply Hi; reflexivity.
Defined.
