(* ===== verification/Telemetry.v ===== *)
(** * What the requests leave in the metrics

    The counters the handlers of httpapi/api.go and [MetricsMiddleware] touch, on
    the instruments of Observability.v: a [Count] effect is [WithLabelValues]
    followed by [Inc] on the field it names, an [EvRequest] event the two calls of
    the middleware. [None] is a panic of the client. *)

From Stdlib Require QArith_base.
From stdpp Require Import gmap.
From S2P Require Import Prelude GoStrings GoErrors Observability AuthKey Lru AuthCache ControlPlane AuthStore AuthMiddleware Tenant SqlValidator SqlExecutor HttpErrors Idempotency RateLimit RpcDispatcher HttpApi Routes HttpMiddleware.

Section Telemetry.
Context `{Prometheus}.

Definition set_counters (m : Metrics) (sql rpc hits misses : Vec) : Metrics :=
  {| Observability.Registry := Observability.Registry m; RequestDuration := RequestDuration m; RequestsTotal := RequestsTotal m;
     SQLStatements := sql; RPCInvocations := rpc; IdempotencyHits := hits; IdempotencyMisses := misses;
     AuthCacheSize := AuthCacheSize m; QueueDepth := QueueDepth m; BuildInfo := BuildInfo m |}.

(** [a.deps.Metrics.<name>.WithLabelValues(labels...).Inc()] *)
Definition count (m : Metrics) (name : bytes) (labels : list bytes) : option Metrics :=
  if str_eqb name (bs "SQLStatements") then
    v ← vec_Inc (SQLStatements m) labels;
    Some (set_counters m v (RPCInvocations m) (IdempotencyHits m) (IdempotencyMisses m))
  else if str_eqb name (bs "RPCInvocations") then
    v ← vec_Inc (RPCInvocations m) labels;
    Some (set_counters m (SQLStatements m) v (IdempotencyHits m) (IdempotencyMisses m))
  else if str_eqb name (bs "IdempotencyHits") then
    v ← vec_Inc (IdempotencyHits m) labels;
    Some (set_counters m (SQLStatements m) (RPCInvocations m) v (IdempotencyMisses m))
  else if str_eqb name (bs "IdempotencyMisses") then
    v ← vec_Inc (IdempotencyMisses m) labels;
    Some (set_counters m (SQLStatements m) (RPCInvocations m) (IdempotencyHits m) v)
  else None.

Fixpoint count_all {V} (m : Metrics) (effs : list (effect (V := V))) : option Metrics :=
  match effs with
  | [] => Some m
  | Count name labels :: effs => m ← count m name labels; count_all m effs
  | _ :: effs => count_all m effs
  end.

(** [m.RequestDuration...Observe], then [m.RequestsTotal...Inc] *)
Definition observe (m : Metrics) (e : event) : option Metrics :=
  match e with
  | EvRequest route method status =>
      d ← vec_Inc (RequestDuration m) [route; method; status];
      t ← vec_Inc (RequestsTotal m) [route; method; status];
      Some {| Observability.Registry := Observability.Registry m; RequestDuration := d; RequestsTotal := t;
              SQLStatements := SQLStatements m; RPCInvocations := RPCInvocations m;
              IdempotencyHits := IdempotencyHits m; IdempotencyMisses := IdempotencyMisses m;
              AuthCacheSize := AuthCacheSize m; QueueDepth := QueueDepth m; BuildInfo := BuildInfo m |}
  | _ => Some m
  end.

Fixpoint observe_all (m : Metrics) (evs : list event) : option Metrics :=
  match evs with
  | [] => Some m
  | e :: evs => m ← observe m e; observe_all m evs
  end.

(** ** The labels fit the instruments *)


Definition arity (name : bytes) : option nat :=
  if str_eqb name (bs "SQLStatements") || str_eqb name (bs "RPCInvocations") then Some 2
  else if str_eqb name (bs "IdempotencyHits") || str_eqb name (bs "IdempotencyMisses") then Some 0
  else None.

Definition declared {V} (e : effect (V := V)) : Prop :=
  match e with
  | Count name labels => arity name = Some (length labels)
  | _ => True
  end.

Definition printable {V} (e : effect (V := V)) : Prop :=
  match e with
  | Count _ labels => Forall (fun l => ValidString l = true) labels
  | _ => True
  end.

Definition well_labelled (m : Metrics) : Prop :=
  length (d_labels (v_desc (SQLStatements m))) = 2 ∧ length (d_labels (v_desc (RPCInvocations m))) = 2 ∧
  length (d_labels (v_desc (IdempotencyHits m))) = 0 ∧ length (d_labels (v_desc (IdempotencyMisses m))) = 0 ∧
  d_labels (v_desc (RequestDuration m)) = route_labels ∧ d_labels (v_desc (RequestsTotal m)) = route_labels.

Lemma NewMetrics_labelled build len m : NewMetrics build len = Some m → well_labelled m.
Proof.
  unfold NewMetrics. intros Hx. repeat (apply bind_Some in Hx as (? & _ & Hx)). injection Hx as <-. done.
Qed.

Context `{!PrometheusLaws}.

Lemma count_ok m name labels :
  well_labelled m → arity name = Some (length labels) → Forall (fun l => ValidString l = true) labels →
  ∃ m', count m name labels = Some m' ∧ well_labelled m'.
Proof.
  intros (L1 & L2 & L3 & L4 & L5) Ha Hv. unfold count, arity in *.
  destruct (str_eqb name (bs "SQLStatements")); [|destruct (str_eqb name (bs "RPCInvocations"));
    [|destruct (str_eqb name (bs "IdempotencyHits")); [|destruct (str_eqb name (bs "IdempotencyMisses")); [|done]]]];
    simpl in Ha; injection Ha as Ha.
  1: destruct (vec_Inc_ok (SQLStatements m) labels) as (v & -> & Hd & _).
  4: destruct (vec_Inc_ok (RPCInvocations m) labels) as (v & -> & Hd & _).
  7: destruct (vec_Inc_ok (IdempotencyHits m) labels) as (v & -> & Hd & _).
  10: destruct (vec_Inc_ok (IdempotencyMisses m) labels) as (v & -> & Hd & _).
  all: first [congruence | done | eexists; split; [done|]; unfold well_labelled; simpl; by rewrite Hd].
Qed.

Lemma count_all_ok {V} (effs : list (effect (V := V))) : ∀ m,
  well_labelled m → Forall declared effs → Forall printable effs → ∃ m', count_all m effs = Some m' ∧ well_labelled m'.
Proof.
  induction effs as [|e effs IH]; intros m Hm Hd Hp; [by exists m|].
  apply Forall_cons_iff in Hd as [Hd Hds]. apply Forall_cons_iff in Hp as [Hp Hps].
  destruct e as [| |name labels|]; simpl; try by apply IH.
  destruct (count_ok m name labels Hm Hd Hp) as (m1 & -> & Hm1). by apply IH.
Qed.
End Telemetry.

(** ** The handlers *)

Section Handlers.
Context {V S : Type} `{RpcLib V, UuidLib, Gzip, UnicodeTables, PgQuery, Float64}.
Context {LK : LRU cachedKey} {LB : LRU nat} `{!ApiJson (V := V)}.
Context `{Prometheus, !PrometheusLaws}.
Variable srv : PgServer V S.
Variable marshal_row : list V → bytes.
Variable IDKey : bytes → bytes → Z → Z → Z → Z → bytes.
Variable dummySalt : res error bytes.
Variable cfg : api_config.
Variable reg : Registry.

Lemma complete_if_declared key ws status body ok w : Forall (declared (V := V)) (complete_if key ws status body ok w).2.
Proof.
  unfold complete_if. destruct (str_eqb key []); [done|]. destruct (Complete _ _ _ _ _ _) as [? []]; by repeat constructor.
Qed.

Lemma sql_run_declared ws rq t0 t1 sql params vres g :
  Forall declared (sql_run srv marshal_row cfg ws rq t0 t1 sql params vres g).2.
Proof.
  unfold sql_run. destruct (Execute _ _ _ _ _ _ _) as [c [resp|err]]; [destruct (_ && _)|].
  1: set (p := mk_problem _ _ _ _).
  3: set (p := MapError _).
  1, 3: pose proof (complete_if_declared (hr_IdempotencyKey rq) ws (pr_Status p) (encode_problem p) false (gw_world g)) as Hc.
  3: pose proof (complete_if_declared (hr_IdempotencyKey rq) ws 200 (encode_response resp) true (gw_world g)) as Hc.
  all: destruct (complete_if _ _ _ _ _ _) as [w warn]; simpl in *; repeat constructor; try done.
  apply Forall_app. split; [done|]. by repeat constructor.
Qed.

Lemma handle_declared rt ws rq attempts dr m s :
  Forall declared (handle srv marshal_row IDKey cfg reg rt ws rq attempts dr m s).2.
Proof.
  destruct rt; simpl.
  - unfold handleSQLExecute. destruct (hr_Body rq); [|by repeat constructor].
    destruct (decode_sql _) as [[sql params]|]; [|by repeat constructor].
    destruct (Validate _ _ _) as [vres|]; [|by repeat constructor].
    destruct (str_eqb _ []).
    + pose proof (sql_run_declared ws rq (mo_start m) (mo_end m) sql params vres (as_gateway s)) as Hd.
      by destruct (sql_run _ _ _ _ _ _ _ _ _ _ _).
    + destruct (BeginOrReplay _ _ _ _ _ _) as [w [ir|e]]; [|by repeat constructor].
      destruct (ir_Replay ir); [by repeat constructor|].
      pose proof (sql_run_declared ws rq (mo_start m) (mo_end m) sql params vres {| gw_world := w; gw_conn := gw_conn (as_gateway s) |}) as Hd.
      destruct (sql_run _ _ _ _ _ _ _ _ _ _ _). simpl in *. by constructor.
  - unfold handleRPCCall. destruct (hr_Body rq); [|by repeat constructor].
    destruct (decode_rpc _) as [[procedure args0]|]; [|by repeat constructor].
    destruct (Call _ _ _ _ _ _ _) as [g [res|e]]; [destruct (cr_Replay res)|]; by repeat constructor.
  - unfold handleKeyRotate. destruct (Rotate _ _ _ _ _ _) as [w [c|e]]; by repeat constructor.
  - unfold handleKeyCreate. destruct (negb _); [by repeat constructor|].
    destruct (decode_create _); [|by repeat constructor]. destruct (_ && _); [by repeat constructor|].
    destruct (Create _ _ _ _ _) as [w [c|e]]; by repeat constructor.
  - by repeat constructor.
Qed.

Lemma add_headers_declared hs (effs : list (effect (V := V))) :
  Forall declared effs → Forall declared (add_headers hs <$> effs).
Proof. intros Hd. apply Forall_fmap. eapply Forall_impl; [exact Hd|]. by intros []. Qed.

(** Counting never fails a request of the API. On the instruments [NewMetrics]
    makes, and however many requests were counted before, everything a request to
    any route counts has the labels its instrument declares: no call of the
    prometheus client panics, unless the command, the SQLSTATE or the procedure name
    it is labelled with is not valid UTF-8. *)
Theorem counting_total header rq attempts dr mo s s' effs m :
  well_labelled m → serve srv marshal_row IDKey dummySalt cfg reg header rq attempts dr mo s = Some (s', effs) →
  Forall printable effs → ∃ m', count_all m effs = Some m' ∧ well_labelled m'.
Proof.
  intros Hm Hs Hp. apply count_all_ok; [done| |done]. unfold serve in Hs. destruct (route_of _ _) as [rt|]; [|done].
  injection Hs as Hs. unfold wrap in Hs. destruct (Authenticate _ _ _ _ _ _ _ _) as [[cache w] o].
  destruct o as [r|ws touch|]; [injection Hs as _ <-; by repeat constructor| |injection Hs as _ <-; by repeat constructor].
  destruct (Middleware _ _ _ _ _) as [[hs p|hs] rl]; [injection Hs as _ <-; by repeat constructor|].
  match type of Hs with context [handle ?a ?b ?c ?d ?e ?f ?g ?h ?i ?j ?k ?l] =>
    pose proof (handle_declared f g h i j k l) as Hd; destruct (handle a b c d e f g h i j k l) as [s1 effs1] end.
  injection Hs as _ <-. by apply add_headers_declared.
Qed.

(** ** What is counted *)

(** How often a request counted in a field. *)
Definition times (name : bytes) (effs : list (effect (V := V))) : nat :=
  length (List.filter (fun e => match e with Count n _ => str_eqb n name | _ => false end) effs).

Lemma complete_if_uncounted name key ws status body ok w :
  times name (complete_if key ws status body ok w).2 = 0.
Proof. unfold complete_if. destruct (str_eqb key []); [done|]. by destruct (Complete _ _ _ _ _ _) as [? []]. Qed.

(** The counters account for the requests. A SQL request that reached the
    executor counts once in SQLStatements and once as a miss if it has an
    idempotency key; one that was replayed counts as a hit and nothing else; one
    that was refused before counts nowhere. *)
Theorem sql_accounting ws rq attempts t0 t1 g :
  let effs := (handleSQLExecute srv marshal_row cfg ws rq attempts t0 t1 g).2 in
  let keyed := negb (str_eqb (hr_IdempotencyKey rq) []) in
  let n := times (bs "SQLStatements") effs in
  let hits := times (bs "IdempotencyHits") effs in
  let misses := times (bs "IdempotencyMisses") effs in
  times (bs "RPCInvocations") effs = 0 ∧
  (n = 1 ∧ hits = 0 ∧ misses = (if keyed then 1 else 0) ∨
   n = 0 ∧ hits = 1 ∧ misses = 0 ∧ keyed = true ∨
   n = 0 ∧ hits = 0 ∧ misses = 0 ∧ gw_conn (handleSQLExecute srv marshal_row cfg ws rq attempts t0 t1 g).1 = gw_conn g).
Proof.
  assert (∀ sql params vres g, let effs := (sql_run srv marshal_row cfg ws rq t0 t1 sql params vres g).2 in
    times (bs "RPCInvocations") effs = 0 ∧ times (bs "SQLStatements") effs = 1 ∧
    times (bs "IdempotencyHits") effs = 0 ∧ times (bs "IdempotencyMisses") effs = 0) as Hrun.
  { intros sql params vres g1. unfold sql_run. destruct (Execute _ _ _ _ _ _ _) as [c [resp|err]]; [destruct (_ && _)|];
      match goal with |- context [complete_if ?a ?b ?c ?d ?e ?f] =>
        pose proof (fun name => complete_if_uncounted name a b c d e f) as Hq; destruct (complete_if a b c d e f) as [w warn] end;
      simpl in Hq; unfold times in *; simpl; rewrite ?List.filter_app; simpl; rewrite ?length_app, ?Hq; done. }
  unfold handleSQLExecute. destruct (hr_Body rq); [|simpl; split; [done|]; by right; right].
  destruct (decode_sql _) as [[sql params]|]; [|simpl; split; [done|]; by right; right].
  destruct (Validate _ _ _) as [vres|]; [|simpl; split; [done|]; by right; right].
  destruct (str_eqb (hr_IdempotencyKey rq) []).
  - destruct (Hrun sql params vres g) as (T1 & T2 & T3 & T4). simpl. split; [done|]. by left.
  - destruct (BeginOrReplay _ _ _ _ _ _) as [w [ir|e]]; [|simpl; split; [done|]; by right; right].
    destruct (ir_Replay ir); [simpl; split; [done|]; by right; left|].
    destruct (Hrun sql params vres {| gw_world := w; gw_conn := gw_conn g |}) as (T1 & T2 & T3 & T4).
    destruct (sql_run _ _ _ _ _ _ _ _ _ _ _) as [g1 effs]. simpl in *. unfold times in *. simpl.
    split; [done|]. left. rewrite T2, T3, T4. done.
Qed.

(** A procedure call without an idempotency key counts as a miss of the
    idempotency cache, a statement without one does not. *)
Theorem rpc_miss_without_key ws rq attempts t0 t1 g body procedure a g' res :
  hr_Body rq = Ok body → decode_rpc body = Ok (procedure, a) → hr_IdempotencyKey rq = [] →
  Call srv reg attempts t0 t1
    {| cl_WorkspaceID := ws_WorkspaceID ws; cl_PgRole := ws_PgRole ws; cl_Name := procedure; cl_Args := a;
       cl_IdempotencyKey := []; cl_RequestHash := HashRequest (hr_Method rq) (hr_Path rq) body;
       cl_StatementTimeout := ac_StatementTimeout cfg; cl_IdleInTxTimeout := ac_IdleInTxTimeout cfg |} g = (g', Ok res) →
  cr_Replay res = false →
  times (bs "IdempotencyMisses") (handleRPCCall srv cfg reg ws rq attempts t0 t1 g).2 = 1.
Proof.
  intros Hb Hd Hk Hc Hr. unfold handleRPCCall. rewrite Hb, Hd, Hk, Hc, Hr. done.
Qed.
End Handlers.

(** ** Series *)

Section Series.
Context `{Prometheus, !PrometheusLaws}.

(** A handler under the server's chain, asked by requests one after the other. *)
Fixpoint run_requests (tp : bool) (mb : Z) (rnd : bytes) (p : program) (rs : list Request) (m : Metrics) : option Metrics :=
  match rs with
  | [] => Some m
  | r :: rs =>
      m ← observe_all m (server_chain tp mb rnd (handler_of p) response _ r new_response).1.2;
      run_requests tp mb rnd p rs m
  end.

Definition routes_of (m : Metrics) : gset bytes :=
  set_map (fun l : list bytes => default [] (head l)) (dom (v_series (RequestsTotal m)) : gset (list bytes)).

Lemma observe_route m route method status :
  well_labelled m → label_values_ok route_labels [route; method; status] = true →
  ∃ m', observe m (EvRequest route method status) = Some m' ∧ well_labelled m' ∧ routes_of m' = {[route]} ∪ routes_of m.
Proof.
  intros (L1 & L2 & L3 & L4 & L5 & L6) Hv. unfold observe, vec_Inc. rewrite L5, L6, Hv. simpl. eexists. split; [done|].
  split; [done|]. unfold routes_of. simpl. apply leibniz_equiv. intros x. rewrite elem_of_union, !elem_of_map, elem_of_singleton.
  setoid_rewrite elem_of_dom. split.
  - intros (l & -> & Hl). destruct (decide (l = [route; method; status])) as [->|Hne]; [by left|].
    rewrite lookup_partial_alter_ne in Hl by done. right. by exists l.
  - intros [->|(l & -> & Hl)]; [exists [route; method; status]|exists l]; (split; [done|]).
    + rewrite lookup_partial_alter_eq. by eexists.
    + destruct (decide (l = [route; method; status])) as [->|Hne]; [rewrite lookup_partial_alter_eq; by eexists|].
      by rewrite lookup_partial_alter_ne.
Qed.

Lemma size_list_to_set_le (l : list bytes) : size (list_to_set l : gset bytes) ≤ length l.
Proof.
  induction l as [|x l IH]; [done|]. simpl. rewrite size_union_alt, size_singleton.
  pose proof (subseteq_size ((list_to_set l : gset bytes) ∖ {[x]}) (list_to_set l) ltac:(set_solver)). lia.
Qed.

(** A request to some path that the handler answers. *)
Definition answered_request (tp : bool) (mb : Z) (rnd : bytes) (p : program) (r : Request) : Prop :=
  rq_Path r ≠ [] ∧ ValidString (rq_Path r) = true ∧ ValidString (rq_Method r) = true ∧
  Forall good_op (p (mux_request tp mb rnd r)).1 ∧ (p (mux_request tp mb rnd r)).2 = Returned.

Lemma run_requests_routes tp mb rnd p rs : ∀ m,
  well_labelled m → Forall (answered_request tp mb rnd p) rs →
  ∃ m', run_requests tp mb rnd p rs m = Some m' ∧ routes_of m' = list_to_set (rq_Path <$> rs) ∪ routes_of m.
Proof.
  induction rs as [|r rs IH]; intros m Hm Hrs; [exists m; split; [done|]; simpl; set_solver|].
  apply Forall_cons_iff in Hrs as [(Hne & Hp & Hmt & Hg & Hret) Hrs]. cbn [run_requests].
  rewrite (server_chain_run tp mb rnd p r Hg), Hret, route_labels_ok by done. cbn [fst snd observe_all].
  assert (route_of_path (rq_Path r) = rq_Path r) as Hroute
    by (unfold route_of_path; destruct (str_eqb (rq_Path r) []) eqn:E; [go_bool|]; done).
  match goal with |- context [EvRequest ?a ?b ?c] => destruct (observe_route m a b c Hm) as (m1 & Ho & Hm1 & Hr1) end;
    [by apply route_labels_ok|].
  rewrite Ho. cbn [base.mbind option_bind observe]. destruct (IH m1 Hm1 Hrs) as (m' & -> & Hr'). exists m'. split; [done|].
  rewrite Hr', Hr1, Hroute. simpl. set_solver.
Qed.

(** Anyone can grow the gateway's memory. The label called route holds the path
    the client sent, matched or not, before authentication: requests to paths that
    all differ leave at least one series each in the request metrics, whatever the
    handler answers, and nothing ever removes one. *)
Theorem series_unbounded tp mb rnd p rs m :
  well_labelled m → Forall (answered_request tp mb rnd p) rs → NoDup (rq_Path <$> rs) →
  ∃ m', run_requests tp mb rnd p rs m = Some m' ∧
    routes_of m' = list_to_set (rq_Path <$> rs) ∪ routes_of m ∧ length rs ≤ size (v_series (RequestsTotal m')).
Proof.
  intros Hm Hrs Hnd. destruct (run_requests_routes tp mb rnd p rs m Hm Hrs) as (m' & Hx & Hr).
  exists m'. split; [done|]. split; [done|].
  rewrite <- size_dom, <- (length_fmap rq_Path rs), <- (size_list_to_set (C := gset bytes)) by done.
  trans (size (routes_of m')); [apply subseteq_size; set_solver|]. unfold routes_of, set_map.
  etrans; [apply size_list_to_set_le|]. by rewrite length_fmap.
Qed.
End Series.

(** ** Instances *)

#[local] Existing Instance PromDemo.client.
#[local] Existing Instance PromDemo.client_laws.
#[local] Existing Instance text_uuid.
#[local] Existing Instance RpcDemo.lib.
#[local] Existing Instance IdemDemo.gz.
#[local] Existing Instance ValidatorDemo.unicode.
#[local] Existing Instance ValidatorDemo.parser.
#[local] Existing Instance LimitDemo.exact.
#[local] Existing Instance ApiDemo.json.

#[export] Instance printable_dec {V} (e : effect (V := V)) : Decision (printable e).
Proof. destruct e; simpl; apply _. Defined.

(** The posted statement of Routes.v, counted on new instruments. *)
Lemma demo_metrics : is_Some (NewMetrics unset_build None).
Proof.
  assert (match NewMetrics unset_build None with Some _ => true | None => false end = true) as Hx by (vm_compute; reflexivity).
  destruct (NewMetrics unset_build None); [by eexists|done].
Qed.

Lemma demo_counts :
  ∃ m s' effs, NewMetrics unset_build None = Some m ∧ RouteDemo.post MwDemo.header = Some (s', effs) ∧ Forall printable effs.
Proof.
  assert (match RouteDemo.post MwDemo.header with Some (_, effs) => bool_decide (Forall printable effs) | None => false end
          = true) as Hp by (by vm_compute).
  destruct (RouteDemo.post MwDemo.header) as [[s' effs]|]; [|done]. apply bool_decide_eq_true in Hp.
  destruct (NewMetrics unset_build None) as [m|] eqn:Em; [by exists m, s', effs|].
  exfalso. by destruct demo_metrics as [m Hm]; rewrite Hm in Em.
Qed.

Lemma counting_total_witness :
  ∃ m s' effs m', RouteDemo.post MwDemo.header = Some (s', effs) ∧ count_all m effs = Some m'.
Proof.
  destruct demo_counts as (m & s' & effs & Hm & Hs & Hp).
  destruct (counting_total ExecDemo.server ExecDemo.marshal toy_IDKey (Ok (repeat x00 16)) ApiDemo.cfg RpcDemo.reg
    MwDemo.header (ApiDemo.request ValidatorDemo.select2) [(0%Z, Demo.uid [x69])] (Demo.draw x62) RouteDemo.at_zero
    RouteDemo.start s' effs m) as (m' & Hc & _).
  - exact (NewMetrics_labelled _ _ _ Hm).
  - exact Hs.
  - exact Hp.
  - exists m, s', effs, m'. split; [exact Hs|exact Hc].
Defined.

Module SeriesDemo.
Definition probe (c : byte) : Request :=
  {| rq_Method := bs "GET"; rq_Path := [x2f; c]; rq_Header := []; rq_RemoteAddr := bs "192.0.2.7:4711";
     rq_requestID := []; rq_Body := Ok [] |}.

Definition probes : list Request := probe <$> bs "abcdefghij".
End SeriesDemo.

(** Ten requests for pages that do not exist. *)
Lemma series_unbounded_witness :
  ∃ m m', NewMetrics unset_build None = Some m ∧
    run_requests false 10 (repeat x00 16) MiddlewareDemo.not_found SeriesDemo.probes m = Some m' ∧
    10 ≤ size (v_series (RequestsTotal m')).
Proof.
  destruct demo_metrics as [m Em].
  destruct (series_unbounded false 10 (repeat x00 16) MiddlewareDemo.not_found SeriesDemo.probes m) as (m' & Hx & _ & Hs).
  - exact (NewMetrics_labelled _ _ _ Em).
  - change SeriesDemo.probes with (SeriesDemo.probe <$> bs "abcdefghij"). cbn [bs].
    repeat (apply Forall_cons_2; [split; [discriminate|]; do 2 (split; [reflexivity|]); split; [|reflexivity];
      repeat constructor; first [discriminate | simpl; lia]|]). apply Forall_nil_2.
  - apply (bool_decide_unpack _). by vm_compute.
  - exists m, m'. split; [exact Em|]. split; [exact Hx|exact Hs].
Defined.

(** Statements are counted by what ran: the request of Routes.v is one SELECT and
    one miss, its retry a hit. *)
Example demo_accounting :
  match RouteDemo.post MwDemo.header with
  | Some (s', effs) => times (bs "SQLStatements") effs = 1 ∧ times (bs "IdempotencyMisses") effs = 1
  | None => False
  end.
Proof. by vm_compute. Qed.

(** A procedure called without a key. *)
Example demo_rpc_miss :
  let rq := {| hr_Method := bs "POST"; hr_Path := bs "/rpc/call"; hr_IdempotencyKey := [];
               hr_Body := Ok (bs "upsert_document"); hr_RemoteAddr := []; hr_RequestID := [] |} in
  times (bs "IdempotencyMisses")
    (handleRPCCall ExecDemo.server ApiDemo.cfg RpcDemo.reg (ApiDemo.ws (bs "dbuser")) rq [] 0 5 RpcDemo.g0).2 = 1.
Proof. by vm_compute. Qed.
