(* ===== verification/Gateway.v ===== *)
(** * A request through the whole server

    The middleware chain of cmd/server/main.go around the routes of the API: what a
    handler shows ([effect]) is written to net/http's response under the chain of
    HttpMiddleware.v, with the request id, the client address and the body limit the
    chain gives it. The theorem follows one request from the connection to the
    response, the access log, the request metrics and the audit entries. *)

From Stdlib Require QArith_base.
From stdpp Require Import gmap.
From S2P Require Import Prelude GoStrings GoErrors Sha256 Observability AuthKey Lru AuthCache ControlPlane AuthStore AuthMiddleware Tenant SqlValidator SqlExecutor HttpErrors Idempotency RateLimit RpcDispatcher HttpApi Routes HttpMiddleware.

(** ** Stored statuses *)

Definition final (status : Z) : Prop := (200 ≤ status ≤ 999)%Z.

Section Codes.
Context `{UuidLib, Gzip}.

(** The responses kept for replays have final statuses. *)
Definition codes_ok (d : Db) : Prop :=
  map_Forall (fun _ row => ∀ st, ir_status_code row = Some st → final st) (db_idem d).

Lemma BeginOrReplay_codes attempts ws key hash ttl : preserves codes_ok (BeginOrReplay attempts ws key hash ttl).
Proof.
  induction attempts as [|[appNow id] attempts IH]; cbn [BeginOrReplay]; [by apply preserves_pure|].
  destruct (str_eqb key []); [by apply preserves_pure|].
  apply preserves_bind; [apply preserves_wrap; by apply preserves_pure|]. intros u.
  apply preserves_bind.
  - apply preserves_tx_lenient, preserves_bind.
    { apply preserves_exec. intros now d Hd. unfold insert_idem. destruct (db_idem d !! (u, key)); [done|].
      destruct (existsb _ _); [done|]. destruct (negb _); [done|]. by apply map_Forall_insert_2. }
    intros n. destruct (n =? 1)%Z; [by apply preserves_pure|]. apply preserves_bind; [by apply preserves_exec|].
    intros row. destruct (ir_expires_at row <? appNow)%Z; [|by repeat case_match; apply preserves_pure].
    apply preserves_bind; [|intros; by apply preserves_pure]. apply preserves_exec. intros now d Hd.
    by apply map_Forall_delete.
  - intros []; try (by apply preserves_pure); [done|].
    apply preserves_bind; [by apply preserves_pure|intros; by apply preserves_pure].
Qed.

Lemma Complete_codes ws key status body ok : final status → preserves codes_ok (Complete ws key status body ok).
Proof.
  intros Hs. apply preserves_bind; [by apply preserves_pure|]. intros u. apply preserves_bind; [by apply preserves_pure|].
  intros gz. apply preserves_exec. intros now d Hd k row. simpl. rewrite lookup_alter_Some.
  intros [(<- & r & Hr & ->)|[_ Hr]]; [|by eapply Hd]. by intros st [= <-].
Qed.

(** A replay has the status that was stored, or 200. *)
Lemma BeginOrReplay_final attempts ws key hash ttl w w' r :
  codes_ok (w_db w) → BeginOrReplay attempts ws key hash ttl w = (w', Ok r) → ir_Replay r = true →
  final (ir_StatusCode r).
Proof.
  revert w. induction attempts as [|[n id] attempts IH]; intros w Hd Hx Hr; [done|].
  destruct (decide (key = [])) as [Hk|Hk]; [|destruct (uuid_Parse ws) as [u|e] eqn:Eu].
  1, 3: destruct (BeginOrReplay_bad n id ws key hash ttl w) as [e' He]; [by eauto|]; by rewrite He in Hx.
  rewrite (BeginOrReplay_step n id _ ws u) in Hx by done.
  destruct (with_tx_lenient _ _ w) as [w1 [c|e]] eqn:E; [|done].
  destruct c as [| | | |st body]; cbn [answer] in Hx; try done; [by injection Hx as <- <-| |].
  - eapply IH; [|exact Hx|exact Hr].
    pose proof (BeginOrReplay_codes [(n, id)] ws key hash ttl w) as Hp.
    rewrite (BeginOrReplay_step n id _ ws u), E in Hp by done. by eapply (Hp w1).
  - apply mbind_Ok in Hx as (w2 & dec & _ & [= <- <-]). simpl.
    apply with_tx_lenient_Ok in E as (v1 & v2 & Hv & _ & Hs & _). rewrite <- Hv in Hd.
    destruct (db_idem (w_db v1) !! (u, key)) as [row|] eqn:Ek.
    + pose proof (claim_present _ _ _ _ _ _ _ _ _ Ek Hs) as Hc. destruct (ir_expires_at row <? n)%Z; [by destruct Hc|].
      destruct (negb _); [done|]. destruct (bool_decide _); [done|]. injection Hc as -> _.
      destruct (ir_status_code row) as [st|] eqn:Es; [exact (Hd _ _ Ek _ Es)|]. unfold final. simpl. lia.
    + by destruct (claim_absent _ _ _ _ _ _ _ _ Ek Hs).
Qed.

(** The key store does not touch the table. *)
Lemma Create_codes IDKey dr now cin : preserves codes_ok (Create IDKey dr now cin).
Proof.
  unfold Create. destruct (IsValid _); simpl; [|by apply preserves_pure].
  repeat (apply preserves_bind; [by apply preserves_pure|]; intros).
  destruct a0 as [[keyID secret] tok].
  apply preserves_bind; [by apply preserves_pure|]. intros hash.
  apply preserves_bind; [|intros; by apply preserves_pure].
  apply preserves_tx, preserves_bind; [by apply preserves_wrap, preserves_exec|]. intros []; [|by apply preserves_pure].
  apply preserves_bind; [by apply preserves_wrap, preserves_exec|]. intros []; simpl; [|by apply preserves_pure].
  apply preserves_wrap, preserves_exec. intros now' d Hd. unfold insert_key. by repeat case_match.
Qed.

Lemma Rotate_codes IDKey dr now oldID overlap : preserves codes_ok (Rotate IDKey dr now oldID overlap).
Proof.
  unfold Rotate. apply preserves_bind; [by apply preserves_pure|]. intros u.
  apply preserves_tx, preserves_bind; [by apply preserves_map, preserves_exec|].
  intros [[[ws env] role] name].
  apply preserves_bind; [by apply preserves_pure|]. intros [[keyID secret] tok].
  apply preserves_bind; [by apply preserves_pure|]. intros hash.
  apply preserves_bind; [apply preserves_exec; intros now' d Hd; unfold insert_key; by repeat case_match|]. intros _.
  apply preserves_bind; [|intros; by apply preserves_pure]. apply preserves_exec. intros now' d Hd. by destruct (pg_interval overlap).
Qed.

Lemma Authenticate_codes `{LRU cachedKey} IDKey dummySalt tget tput tact header c w c' w' o :
  Authenticate IDKey dummySalt tget tput tact header c w = ((c', w'), o) → codes_ok (w_db w) → codes_ok (w_db w').
Proof.
  intros Hx Hd. unfold Authenticate, resolve in Hx. destruct (ParseBearer header) as [p|]; [|by simplify_eq].
  destruct (cache_Get _ _ _) as [[rec|] c1]; [by simplify_eq|]. simpl in Hx.
  destruct (FindByKeyID _ w) as [w1 r1] eqn:E. pose proof (FindByKeyID_preserves codes_ok _ _ _ _ E Hd) as Hd1.
  destruct r1; destruct (VerifySecret _ _ _) as [[]|]; by simplify_eq.
Qed.
End Codes.

(** ** What handlers may show *)

(** A final status, no request id of its own, and audit entries of the request. *)
Definition good_effect {V} (rid : bytes) (e : effect (V := V)) : Prop :=
  match e with
  | Respond status hs _ => final status ∧ Forall (fun h => h.1 ≠ x_request_id) hs
  | Audit en => en_RequestID en = rid
  | _ => True
  end.

Lemma problem_final `{UnicodeTables} e : final (pr_Status (MapError (Some e))).
Proof.
  pose proof (MapError_status e) as Hs. unfold final. rewrite !elem_of_cons, elem_of_nil in Hs. lia.
Qed.

(** A content type is not the request id's header. *)
Lemma not_rid k : bool_decide (k = x_request_id) = false → k ≠ x_request_id.
Proof. apply bool_decide_eq_false. Qed.

Ltac good_headers := repeat apply Forall_cons_2; try apply Forall_nil_2; try (apply not_rid; reflexivity).

Section Effects.
Context {V S : Type} `{RpcLib V, UuidLib, Gzip, UnicodeTables, PgQuery, Float64}.
Context {LK : LRU cachedKey} {LB : LRU nat} `{!ApiJson (V := V)}.
Variable srv : PgServer V S.
Variable marshal_row : list V → bytes.
Variable IDKey : bytes → bytes → Z → Z → Z → Z → bytes.
Variable dummySalt : res error bytes.
Variable cfg : api_config.
Variable reg : Registry.

Lemma good_problem rid p : final (pr_Status p) → good_effect (V := V) rid (WriteProblem p).
Proof. intros Hp. split; [done|]. good_headers. Qed.

Lemma good_json rid status body : final status → good_effect (V := V) rid (WriteJSON status body).
Proof. intros Hp. split; [done|]. good_headers. Qed.

Lemma good_respond rid status hs body :
  final status → hs = [json_header] ∨ hs = [json_header; replay_header] → good_effect (V := V) rid (Respond status hs body).
Proof. intros Hp [-> | ->]; (split; [done|]); good_headers. Qed.

Lemma complete_if_good rid key ws status body ok w :
  final status → codes_ok (w_db w) →
  Forall (good_effect (V := V) rid) (complete_if key ws status body ok w).2 ∧
  codes_ok (w_db (complete_if (V := V) key ws status body ok w).1).
Proof.
  intros Hs Hd. unfold complete_if. destruct (str_eqb key []); [done|].
  destruct (Complete _ _ _ _ _ _) as [w' r] eqn:E. pose proof (Complete_codes _ _ _ _ _ Hs _ _ _ E Hd) as Hc.
  destruct r; (split; [|done]); by repeat constructor.
Qed.

Lemma sql_run_good ws rq t0 t1 sql params vres g g' effs :
  codes_ok (w_db (gw_world g)) → sql_run srv marshal_row cfg ws rq t0 t1 sql params vres g = (g', effs) →
  Forall (good_effect (hr_RequestID rq)) effs ∧ codes_ok (w_db (gw_world g')).
Proof.
  intros Hd Hx. unfold sql_run in Hx. destruct (Execute _ _ _ _ _ _ _) as [c [resp|err]]; [destruct (_ && _)|].
  1: set (p := mk_problem _ _ _ _) in Hx; assert (final (pr_Status p)) as Hp by (unfold final; simpl; lia).
  3: set (p := MapError _) in Hx; assert (final (pr_Status p)) as Hp by apply problem_final.
  1, 3: destruct (complete_if_good (hr_RequestID rq) (hr_IdempotencyKey rq) ws (pr_Status p) (encode_problem p) false
          (gw_world g) Hp Hd) as [Hw Hc].
  3: assert (final 200) as Hp by (unfold final; lia);
     destruct (complete_if_good (hr_RequestID rq) (hr_IdempotencyKey rq) ws 200 (encode_response resp) true
          (gw_world g) Hp Hd) as [Hw Hc].
  all: destruct (complete_if _ _ _ _ _ _) as [w warn]; simpl in Hw, Hc; injection Hx as <- <-; (split; [|done]).
  1, 2: apply Forall_cons_2; [by apply good_problem|]; by repeat apply Forall_cons_2.
  apply Forall_cons_2; [by apply good_respond; [|left]|]. apply Forall_app. split; [done|]. by repeat constructor.
Qed.

Lemma handleSQLExecute_good ws rq attempts t0 t1 g g' effs :
  codes_ok (w_db (gw_world g)) → handleSQLExecute srv marshal_row cfg ws rq attempts t0 t1 g = (g', effs) →
  Forall (good_effect (hr_RequestID rq)) effs ∧ codes_ok (w_db (gw_world g')).
Proof.
  intros Hd Hx. unfold handleSQLExecute in Hx.
  destruct (hr_Body rq) as [body|]; [|injection Hx as <- <-; split; [|done]; repeat constructor; try done; good_headers].
  destruct (decode_sql body) as [[sql params]|];
    [|injection Hx as <- <-; split; [|done]; repeat constructor; try done; good_headers].
  destruct (Validate _ _ _) as [vres|err].
  2: { injection Hx as <- <-. split; [|done]. apply Forall_cons_2; [apply good_problem, problem_final|]. by repeat constructor. }
  destruct (str_eqb _ []); [by eapply sql_run_good|].
  destruct (BeginOrReplay _ _ _ _ _ _) as [w rb] eqn:Eb. pose proof (BeginOrReplay_codes _ _ _ _ _ _ _ _ Eb Hd) as Hw.
  destruct rb as [ir|e]; [destruct (ir_Replay ir) eqn:Ei|].
  - injection Hx as <- <-. split; [|done]. apply Forall_cons_2; [|by repeat constructor].
    apply good_respond; [|by right]. exact (BeginOrReplay_final _ _ _ _ _ _ _ _ Hd Eb Ei).
  - destruct (sql_run _ _ _ _ _ _ _ _ _ _ _) as [g1 effs1] eqn:Er. injection Hx as <- <-.
    apply sql_run_good in Er as [He Hg]; [|done]. split; [|done]. by apply Forall_cons_2.
  - injection Hx as <- <-. split; [|done]. apply Forall_cons_2; [|by repeat constructor].
    apply good_problem. destruct (error_Is e _); unfold final; simpl; lia.
Qed.

Lemma call_run_codes t0 t1 proc cin g :
  codes_ok (w_db (gw_world g)) → codes_ok (w_db (gw_world (call_run srv t0 t1 proc cin g).1)).
Proof.
  intros Hd. unfold call_run. destruct (run _ _ _ _) as [c result]. simpl. destruct (str_eqb _ []); [done|].
  destruct (Complete _ _ _ _ _ _) as [w r] eqn:E. eapply Complete_codes; [|exact E|exact Hd].
  destruct (is_ok result); unfold final; lia.
Qed.

Lemma Call_codes attempts t0 t1 cin g g' r :
  codes_ok (w_db (gw_world g)) → Call srv reg attempts t0 t1 cin g = (g', r) →
  codes_ok (w_db (gw_world g')) ∧ ∀ res, r = Ok res → cr_Replay res = true → final (cr_CachedStatus res).
Proof.
  intros Hd Hx. apply Call_cases in Hx as [[-> Hr]|(proc & _ & _ & _ & Hc)]; [split; [done|]; by intros res ->|].
  assert (∀ g0, codes_ok (w_db (gw_world g0)) → call_run srv t0 t1 proc cin g0 = (g', r) → codes_ok (w_db (gw_world g')) ∧
    ∀ res, r = Ok res → cr_Replay res = true → final (cr_CachedStatus res)) as Hrun.
  { intros g0 Hg0 E. pose proof (call_run_codes t0 t1 proc cin g0 Hg0) as Hc0. rewrite E in Hc0. split; [exact Hc0|].
    intros res -> Hrep. unfold call_run in E. destruct (run _ _ _ _) as [c [raw|e]]; [|done]. by simplify_eq. }
  destruct Hc as [[_ Hc]|(_ & w & rb & Eb & Hc)]; [by eapply Hrun|].
  pose proof (BeginOrReplay_codes _ _ _ _ _ _ _ _ Eb Hd) as Hw.
  destruct Hc as [(ires & _ & _ & Hc)|(_ & -> & Hrep & ->)]; [by eapply Hrun; [|exact Hc]|]. split; [done|].
  destruct rb as [ires|e]; [|done]. intros res [= <-] _. simpl.
  exact (BeginOrReplay_final _ _ _ _ _ _ _ _ Hd Eb (Hrep _ eq_refl)).
Qed.

Lemma handleRPCCall_good ws rq attempts t0 t1 g g' effs :
  codes_ok (w_db (gw_world g)) → handleRPCCall srv cfg reg ws rq attempts t0 t1 g = (g', effs) →
  Forall (good_effect (hr_RequestID rq)) effs ∧ codes_ok (w_db (gw_world g')).
Proof.
  intros Hd Hx. unfold handleRPCCall in Hx.
  destruct (hr_Body rq) as [body|]; [|injection Hx as <- <-; split; [|done]; repeat constructor; try done; good_headers].
  destruct (decode_rpc body) as [[procedure a]|];
    [|injection Hx as <- <-; split; [|done]; repeat constructor; try done; good_headers].
  destruct (Call _ _ _ _ _ _ _) as [g1 r] eqn:Ec.
  destruct (Call_codes _ _ _ _ _ _ _ Hd Ec) as [Hg Hf].
  destruct r as [res|err]; [destruct (cr_Replay res) eqn:Er|]; injection Hx as <- <-; (split; [|done]).
  - apply Forall_cons_2; [|by repeat constructor]. apply good_respond; [by apply Hf|by right].
  - do 2 (apply Forall_cons_2; [done|]). apply Forall_cons_2; [|by repeat constructor].
    apply good_json. unfold final. lia.
  - apply Forall_cons_2; [|by repeat constructor]. apply good_problem.
    destruct (error_Is err ErrUnknownProcedure); [|destruct (error_Is err ErrRoleNotPermitted);
      [|destruct (error_Is err ErrIdempotencyConflict); [|apply problem_final]]]; unfold final; simpl; lia.
Qed.

Lemma handle_good rt ws rq attempts dr m s s' effs :
  codes_ok (w_db (gw_world (as_gateway s))) →
  handle srv marshal_row IDKey cfg reg rt ws rq attempts dr m s = (s', effs) →
  Forall (good_effect (hr_RequestID rq)) effs ∧ codes_ok (w_db (gw_world (as_gateway s'))).
Proof.
  intros Hd Hx. destruct rt; simpl in Hx.
  - destruct (handleSQLExecute _ _ _ _ _ _ _ _ _) as [g e] eqn:E. injection Hx as <- <-. by apply handleSQLExecute_good in E.
  - destruct (handleRPCCall _ _ _ _ _ _ _ _ _) as [g e] eqn:E. injection Hx as <- <-. by apply handleRPCCall_good in E.
  - destruct (handleKeyRotate _ _ _ _ _ _ _) as [[w cache] e] eqn:E. injection Hx as <- <-. unfold handleKeyRotate in E.
    destruct (Rotate _ _ _ _ _ _) as [w1 r] eqn:Er. pose proof (Rotate_codes _ _ _ _ _ _ _ _ Er Hd) as Hr.
    destruct r; injection E as <- <- <-; (split; [|done]); apply Forall_cons_2; try done;
      [apply good_json; unfold final; lia|apply good_problem, problem_final].
  - destruct (handleKeyCreate _ _ _ _ _ _) as [w e] eqn:E. injection Hx as <- <-. unfold handleKeyCreate in E.
    destruct (negb _); [injection E as <- <-; split; [|done]; apply Forall_cons_2; [|done]; apply good_problem; unfold final; simpl; lia|].
    destruct (decode_create _); [|injection E as <- <-; split; [|done]; apply Forall_cons_2; [|done]; apply good_problem; unfold final; simpl; lia].
    destruct (_ && _); [injection E as <- <-; split; [|done]; apply Forall_cons_2; [|done]; apply good_problem; unfold final; simpl; lia|].
    destruct (Create _ _ _ _ _) as [w1 r] eqn:Er. pose proof (Create_codes _ _ _ _ _ _ _ Er Hd) as Hr.
    destruct r; injection E as <- <-; (split; [|done]); apply Forall_cons_2; try done;
      [apply good_json; unfold final; lia|apply good_problem, problem_final].
  - injection Hx as <- <-. split; [|done]. apply Forall_cons_2; [|done]. apply good_json. unfold final. lia.
Qed.

Lemma handle_one_response rt ws rq attempts dr m s :
  ∃ status body, responses (handle srv marshal_row IDKey cfg reg rt ws rq attempts dr m s).2 = [(status, body)].
Proof.
  assert (∀ l : list (Z * bytes), length l = 1 → ∃ status body, l = [(status, body)]) as Hone
    by (intros [|[st b] []] Hl; try done; by do 2 eexists).
  apply Hone. destruct (handlers_respond_once srv marshal_row IDKey cfg reg ws rq attempts (mo_start m) (mo_end m)
    (as_gateway s) dr (mo_now m) (gw_world (as_gateway s)) (as_cache s)) as (O1 & O2 & O3 & O4 & O5).
  destruct rt; simpl.
  - by destruct (handleSQLExecute _ _ _ _ _ _ _ _ _).
  - by destruct (handleRPCCall _ _ _ _ _ _ _ _ _).
  - by destruct (handleKeyRotate _ _ _ _ _ _ _) as [[]].
  - by destruct (handleKeyCreate _ _ _ _ _ _).
  - done.
Qed.

(** The middleware around the handlers does not set the request id either. *)
Lemma reject_headers status code detail r :
  reject status code detail = Reject r → Forall (fun h => h.1 ≠ x_request_id) (ar_headers r).
Proof. unfold reject, writeAuthError. destruct (itoa status); simpl; [|done]. intros [= <-]. good_headers. Qed.

Lemma Authenticate_headers tget tput tact header c (w : world) r :
  (Authenticate IDKey dummySalt tget tput tact header c w).2 = Reject r →
  Forall (fun h => h.1 ≠ x_request_id) (ar_headers r).
Proof.
  unfold Authenticate. destruct (ParseBearer header) as [p|]; [|apply reject_headers].
  destruct (resolve _ _ _ _ _ _ _) as [st [[rec|e]|]]; cbn [snd]; [| |done].
  - unfold admit_record. destruct (negb _); [apply reject_headers|done].
  - unfold reject_resolve. destruct (_ || _); apply reject_headers.
Qed.

Lemma Middleware_headers r ws t1 t2 t3 :
  match (Middleware r ws t1 t2 t3).1 with
  | Limited hs p => p = limited_problem ∧ Forall (fun h => h.1 ≠ x_request_id) hs
  | Passed hs => Forall (fun h => h.1 ≠ x_request_id) hs
  end.
Proof.
  unfold Middleware. destruct (limiterFor _ _ _) as [i r1]. destruct (rl_heap r1 !! i) as [lim|]; [|done].
  destruct (Allow lim t2) as [[] lim1]; [destruct (Tokens lim1 t3)|]; simpl; [|split; [done|]]; good_headers.
Qed.

Lemma good_add_headers rid hs (e : effect (V := V)) :
  Forall (fun h => h.1 ≠ x_request_id) hs → good_effect rid e → good_effect rid (add_headers hs e).
Proof. intros Hh. destruct e; try done. intros [Hs He]. split; [done|]. by apply Forall_app. Qed.

(** Whatever a request does, the effects of serving it are good ones, the stored
    statuses stay final, and there is one response. *)
Lemma serve_good header rq attempts dr m s s' effs :
  codes_ok (w_db (gw_world (as_gateway s))) →
  serve srv marshal_row IDKey dummySalt cfg reg header rq attempts dr m s = Some (s', effs) →
  Forall (good_effect (hr_RequestID rq)) effs ∧ codes_ok (w_db (gw_world (as_gateway s'))) ∧
  ∃ status body, responses effs = [(status, body)].
Proof.
  intros Hd Hx. unfold serve in Hx. destruct (route_of _ _) as [rt|]; [|done]. injection Hx as Hx. unfold wrap in Hx.
  destruct (Authenticate _ _ _ _ _ _ _ _) as [[cache w] o] eqn:Ea.
  pose proof (Authenticate_codes _ _ _ _ _ _ _ _ _ _ _ Ea Hd) as Hw. destruct o as [r|ws touch|].
  - injection Hx as <- <-.
    pose proof (Authenticate_headers (mo_get m) (mo_put m) (mo_active m) header (as_cache s) (gw_world (as_gateway s)) r) as Hh.
    pose proof (Authenticate_Reject IDKey dummySalt (mo_get m) (mo_put m) (mo_active m) header (as_cache s)
      (gw_world (as_gateway s)) r) as Hr. rewrite Ea in Hh, Hr. split; [|split; [done|by do 2 eexists]].
    apply Forall_cons_2; [|done]. split; [unfold final; destruct (Hr eq_refl); lia|by apply Hh].
  - pose proof (Middleware_headers (as_limit s) (Some ws) (mo_new m) (mo_allow m) (mo_tokens m)) as Hh.
    simpl in Hx. destruct (Middleware _ _ _ _ _) as [[hs p|hs] rl]; simpl in Hh.
    + destruct Hh as [-> Hh]. injection Hx as <- <-. split; [|split; [done|by do 2 eexists]].
      apply Forall_cons_2; [|done]. apply (good_add_headers _ hs (WriteProblem limited_problem)); [done|].
      apply good_problem. unfold final. simpl. lia.
    + set (s1 := {| as_gateway := _; as_cache := _; as_limit := rl |}) in Hx.
      destruct (handle _ _ _ _ _ _ _ _ _ _ _ _) as [s2 effs2] eqn:Eh. injection Hx as <- <-.
      pose proof (handle_one_response rt ws rq attempts dr m s1) as Hone. rewrite Eh in Hone.
      apply handle_good in Eh as [He Hc]; [|done]. split; [|split; [done|]].
      * apply Forall_fmap. eapply Forall_impl; [exact He|]. intros e. by apply good_add_headers.
      * by rewrite responses_headers.
  - injection Hx as <- <-. split; [|split; [done|by do 2 eexists]]. apply Forall_cons_2; [|done].
    split; [unfold final; lia|good_headers].
Qed.
End Effects.

(** ** From the connection to the client *)

(** What a handler writes to its response writer. *)
Definition effect_ops {V} (e : effect (V := V)) : list wop :=
  match e with
  | Respond status hs body => ((fun h => OpSetHeader h.1 h.2) <$> hs) ++ [OpWriteHeader status; OpWrite body]
  | _ => []
  end.

Lemma effect_ops_one {V} (effs : list (effect (V := V))) status body :
  responses effs = [(status, body)] →
  ∃ hs, flat_map effect_ops effs = effect_ops (Respond (V := V) status hs body) ∧ Respond status hs body ∈ effs.
Proof.
  assert (∀ l : list (effect (V := V)), responses l = [] → flat_map effect_ops l = []) as Hnil.
  { induction l as [|e l IH]; [done|]. by destruct e. }
  induction effs as [|e effs IH]; [done|]. cbn [responses flat_map].
  destruct e as [st hs b| | |]; simpl; [|intros (hs & E & Hin)%IH; exists hs; split; [exact E|by right]..].
  intros [= -> -> Hr]. exists hs. rewrite (Hnil effs Hr), app_nil_r. split; [done|by left].
Qed.

Lemma effect_ops_good {V} rid (e : effect (V := V)) : good_effect rid e → Forall good_op (effect_ops e).
Proof.
  destruct e as [st hs b| | |]; try done. intros [Hs Hh]. apply Forall_app. split; [|by do 2 (apply Forall_cons_2; [done|])].
  apply Forall_fmap. eapply Forall_impl; [exact Hh|]. done.
Qed.

(** A response that nothing was sent of yet: headers, then status and body. *)
Lemma respond_ops {V} status hs body w :
  final status → rs_sent w = None →
  let w' := (run_ops (effect_ops (Respond (V := V) status hs body)) Returned w).1 in
  client_status w' = status ∧ (bodyAllowedForStatus status = true → rs_written w' = rs_written w ++ body).
Proof.
  intros Hs Hw. cbn [effect_ops]. cbv zeta. revert w Hw.
  induction hs as [|h hs IH]; intros w Hw;
    [|rewrite fmap_cons; cbn [app run_ops]; exact (IH (rw_SetHeader h.1 h.2 w) Hw)].
  cbn [fmap list_fmap app run_ops]. change (rw_WriteHeader status w) with (response_WriteHeader status w).
  rewrite response_WriteHeader_final, Hw by done. cbn [run_ops fst rw_Write response_writer].
  unfold response_Write. cbn [rs_sent]. destruct (bodyAllowedForStatus status); done.
Qed.

Section Served.
Context {V S : Type} `{RpcLib V, UuidLib, Gzip, UnicodeTables, PgQuery, Float64}.
Context {LK : LRU cachedKey} {LB : LRU nat} `{!ApiJson (V := V)}.
Context `{Prometheus, !PrometheusLaws}.
Variable srv : PgServer V S.
Variable marshal_row : list V → bytes.
Variable IDKey : bytes → bytes → Z → Z → Z → Z → bytes.
Variable dummySalt : res error bytes.
Variable cfg : api_config.
Variable reg : Registry.

(** The request as the handlers of the API read it, behind [StripPrefix("/v1")]. *)
Definition http_of (r : Request) : http_request :=
  {| hr_Method := rq_Method r; hr_Path := TrimPrefix (rq_Path r) (bs "/v1");
     hr_IdempotencyKey := header_Get (rq_Header r) (bs "Idempotency-Key"); hr_Body := rq_Body r;
     hr_RemoteAddr := rq_RemoteAddr r; hr_RequestID := rq_requestID r |}.

(** [mux.Handle("/v1/", ...)]: the new state and what the handler did; [None] where no
    pattern matches. *)
Definition api_call (r : Request) (attempts : list (Z * uuid)) (dr : Draw) (m : moment)
    (s : api_state (V := V) (S := S)) : option (api_state (V := V) (S := S) * list (effect (V := V)) * finish) :=
  if negb (HasPrefix (rq_Path r) (bs "/v1/")) then None else
  let header := header_Get (rq_Header r) (bs "Authorization") in
  match serve srv marshal_row IDKey dummySalt cfg reg header (http_of r) attempts dr m s with
  | None => None
  | Some (s', effs) =>
      match (Authenticate IDKey dummySalt (mo_get m) (mo_put m) (mo_active m) header (as_cache s)
               (gw_world (as_gateway s))).2 with
      | Panicked => Some (s', [], Panicking)
      | _ => Some (s', effs, Returned)
      end
  end.

(** The mux under the chain; [other] is what it answers itself. *)
Definition api_program (other : program) (attempts : list (Z * uuid)) (dr : Draw) (m : moment)
    (s : api_state (V := V) (S := S)) : program :=
  fun q => match api_call q attempts dr m s with
           | Some (_, effs, fin) => (flat_map effect_ops effs, fin)
           | None => other q
           end.

(** C3: A request to the API through the whole server. Whatever it asks for and
    whatever the databases do, if its path and method are valid UTF-8 and no
    handler panics: the client gets the one response of the handler, its status and,
    unless the method is HEAD, its body; the request metrics and the access log hold that status; and the
    request id in the response is the one in the access log and in every audit entry
    of the request. The statuses stored for replays stay final ones, so that this
    holds of the requests after it. *)
Theorem request_traced tp mb rnd other r attempts dr m s s' effs :
  let q := mux_request tp mb rnd r in
  codes_ok (w_db (gw_world (as_gateway s))) → ValidString (rq_Path r) = true → ValidString (rq_Method r) = true →
  api_call q attempts dr m s = Some (s', effs, Returned) →
  let '(w, evs, fin) :=
    server_chain tp mb rnd (handler_of (api_program other attempts dr m s)) response _ r new_response in
  let id := header_Get (client_header w) x_request_id in
  codes_ok (w_db (gw_world (as_gateway s'))) ∧ fin = Returned ∧ id = request_id rnd r ∧
  Forall (fun en => en_RequestID en = id) (audits effs) ∧
  ∃ status body, responses effs = [(status, body)] ∧ client_status w = status ∧
    (bodyAllowedForStatus status = true →
       rs_written w = body ∧ client_body (rq_Method r) w = if str_eqb (rq_Method r) (bs "HEAD") then [] else body) ∧
    evs = [EvRequest (route_of_path (rq_Path r)) (rq_Method r) (Itoa status);
           EvAccess (rq_Method r) (rq_Path r) status (wrap64 (Z.of_nat (length (rs_written w))))
             (real_addr tp r) id].
Proof.
  intros q Hd Hpath Hmeth Hcall.
  assert (Forall (good_effect (rq_requestID q)) effs ∧ codes_ok (w_db (gw_world (as_gateway s'))) ∧
          ∃ status body, responses effs = [(status, body)]) as (Hgood & Hcodes & status & body & Hresp).
  { unfold api_call in Hcall. destruct (negb _); [done|]. destruct (serve _ _ _ _ _ _ _ _ _ _ _ _) as [[s1 e1]|] eqn:Es; [|done].
    apply serve_good in Es; [|done]. destruct (Authenticate _ _ _ _ _ _ _ _).2; by simplify_eq. }
  destruct (effect_ops_one effs status body Hresp) as (hs & Hops & Hin).
  rewrite Forall_forall in Hgood. pose proof (Hgood _ Hin) as Hone. pose proof (effect_ops_good _ _ Hone) as Hg.
  destruct Hone as [Hfinal _].
  assert (api_program other attempts dr m s q = (effect_ops (Respond (V := V) status hs body), Returned)) as Hp
    by (unfold api_program; by rewrite Hcall, Hops).
  pose proof (server_chain_run tp mb rnd (api_program other attempts dr m s) r) as Hrun. cbv zeta in Hrun. fold q in Hrun.
  rewrite Hp in Hrun. cbn [fst snd] in Hrun. specialize (Hrun Hg). rewrite route_labels_ok in Hrun by done. rewrite Hrun.
  set (w := (run_ops _ Returned _).1).
  destruct (respond_ops (V := V) status hs body (rw_SetHeader x_request_id (rq_requestID q) new_response) Hfinal)
    as [Hst Hbody]; [done|]. fold w in Hst, Hbody.
  assert (carries (rq_requestID q) w) as [_ Hid].
  { apply run_ops_carries; [done|]. unfold carries, client_header. simpl. by rewrite header_Get_Set. }
  cbv zeta. rewrite Hid. split; [done|]. split; [done|]. split; [done|]. split.
  - apply Forall_forall. intros en Hen. unfold audits in Hen. apply list_elem_of_In, in_flat_map in Hen as (e & He & Hx).
    apply list_elem_of_In in He. specialize (Hgood _ He). destruct e; simpl in Hx; try done. by destruct Hx as [<-|[]].
  - exists status, body. split; [done|]. split; [done|]. split; [|by rewrite Hst].
    intros Ha. specialize (Hbody Ha). unfold client_body. by rewrite Hbody.
Qed.
End Served.

(** ** Instances *)

#[local] Existing Instance PromDemo.client.
#[local] Existing Instance PromDemo.client_laws.
#[local] Existing Instance text_uuid.
#[local] Existing Instance RpcDemo.lib.
#[local] Existing Instance IdemDemo.gz.
#[local] Existing Instance ValidatorDemo.unicode.
#[local] Existing Instance ValidatorDemo.parser.
#[local] Existing Instance LimitDemo.exact.
#[local] Existing Instance ApiDemo.json.

Module GatewayDemo.
(** A statement posted with a key and a request id of the client's. *)
Definition post : Request :=
  {| rq_Method := bs "POST"; rq_Path := bs "/v1/sql/execute";
     rq_Header := [(bs "Authorization", MwDemo.header); (bs "Idempotency-Key", bs "K"); (x_request_id, bs "trace-7")];
     rq_RemoteAddr := bs "10.0.0.1:4711"; rq_requestID := []; rq_Body := Ok ValidatorDemo.select2 |}.

Definition call (r : Request) : option (api_state (V := bytes) (S := unit) * list (effect (V := bytes)) * finish) :=
  api_call ExecDemo.server ExecDemo.marshal toy_IDKey (Ok (repeat x00 16)) ApiDemo.cfg RpcDemo.reg
    r [(0%Z, Demo.uid [x69])] (Demo.draw x62) RouteDemo.at_zero RouteDemo.start.

Definition q : Request := mux_request false 1000 (repeat x00 16) post.
End GatewayDemo.

Lemma request_traced_witness :
  ∃ s' effs w evs fin, GatewayDemo.call GatewayDemo.q = Some (s', effs, Returned) ∧
    server_chain false 1000 (repeat x00 16)
      (handler_of (api_program ExecDemo.server ExecDemo.marshal toy_IDKey (Ok (repeat x00 16)) ApiDemo.cfg RpcDemo.reg
         MiddlewareDemo.not_found [(0%Z, Demo.uid [x69])] (Demo.draw x62) RouteDemo.at_zero RouteDemo.start))
      response _ GatewayDemo.post new_response = (w, evs, fin) ∧
    header_Get (client_header w) x_request_id = bs "trace-7".
Proof.
  assert (match GatewayDemo.call GatewayDemo.q with Some (_, _, Returned) => true | _ => false end = true) as Hr
    by (vm_compute; reflexivity).
  destruct (GatewayDemo.call GatewayDemo.q) as [[[s' effs] []]|] eqn:Ec; try discriminate Hr.
  destruct (server_chain _ _ _ _ _ _ _ _) as [[w evs] fin] eqn:Es.
  exists s', effs, w, evs, fin. split; [reflexivity|]. split; [reflexivity|].
  pose proof (request_traced ExecDemo.server ExecDemo.marshal toy_IDKey (Ok (repeat x00 16)) ApiDemo.cfg RpcDemo.reg
    false 1000 (repeat x00 16) MiddlewareDemo.not_found GatewayDemo.post [(0%Z, Demo.uid [x69])] (Demo.draw x62)
    RouteDemo.at_zero RouteDemo.start s' effs) as Ht.
  cbv zeta in Ht. rewrite Es in Ht. destruct Ht as (_ & _ & Hid & _).
  - intros k row Hk. assert (db_idem (w_db (gw_world (as_gateway RouteDemo.start))) = ∅) as Hz by (vm_compute; reflexivity).
    rewrite Hz in Hk. exfalso. exact (lookup_empty_Some k row Hk).
  - reflexivity.
  - reflexivity.
  - exact Ec.
  - rewrite Hid. vm_compute. reflexivity.
Defined.
