(* ===== verification/AuditLog.v ===== *)
(** * internal/audit/audit.go: the audit log

    [Write] as a function from the writer's configuration and an entry to the
    line it logs, the row it inserts and the warning it logs if that fails. *)

From S2P Require Import Prelude GoStrings GoErrors Sha256 ControlPlane.

Section Audit.
Context {V IP : Type} `{UuidLib}.
Variable json_Marshal : list V → res error bytes.    (** [json.Marshal(params)] *)
Variable ParseIP : bytes → option IP.                (** [net.ParseIP] *)

(** [e.Params] may be nil. *)
Record Entry : Type := {
  e_RequestID : bytes;
  e_WorkspaceID : bytes;
  e_KeyDBID : bytes;
  e_Endpoint : bytes;
  e_Command : bytes;
  e_SQL : bytes;
  e_Params : option (list V);
  e_DurationMS : Z;
  e_StatusCode : Z;
  e_ErrorCode : bytes;
  e_SQLState : bytes;
  e_ClientIP : bytes;
}.

Record Writer : Type := {
  wr_pool : bool;          (** [w.pool != nil] *)
  wr_disabled : bool;
  wr_includeSQL : bool;
}.

Definition NewWriter (pool disabled includeSQL : bool) : Writer :=
  {| wr_pool := pool; wr_disabled := disabled; wr_includeSQL := includeSQL |}.

(** The structured line "request". *)
Record log_line : Type := {
  ll_request_id : bytes;
  ll_workspace_id : bytes;
  ll_key_id : bytes;
  ll_endpoint : bytes;
  ll_command : bytes;
  ll_duration_ms : Z;
  ll_status_code : Z;
  ll_error_code : bytes;
  ll_sqlstate : bytes;
  ll_client_ip : bytes;
}.

(** The arguments of the INSERT into audit_logs. *)
Record audit_row : Type := {
  ar_id : uuid;
  ar_request_id : bytes;
  ar_workspace_id : option uuid;
  ar_key_id : option uuid;
  ar_endpoint : bytes;
  ar_command : bytes;
  ar_sql_hash : bytes;
  ar_params_hash : bytes;
  ar_sql_text : option bytes;
  ar_params_json : option bytes;
  ar_duration_ms : Z;
  ar_status_code : Z;
  ar_error_code : bytes;
  ar_sqlstate : bytes;
  ar_client_ip : option IP;
}.

Definition hashOrEmpty (s : bytes) : bytes :=
  if str_eqb s [] then [] else hex_encode (Sum256 s).

(** [len(params) == 0] holds of nil and of the empty slice. *)
Definition paramsHash (params : option (list V)) : bytes :=
  match default [] params with
  | [] => []
  | ps => match json_Marshal ps with
          | Err _ => []
          | Ok b => hex_encode (Sum256 b)
          end
  end.

(** [if s != "" { if u, err := uuid.Parse(s); err == nil { id = &u } }] *)
Definition optional_uuid (s : bytes) : option uuid :=
  if str_eqb s [] then None
  else match uuid_Parse s with Ok u => Some u | Err _ => None end.

Definition line_of (e : Entry) : log_line :=
  {| ll_request_id := e_RequestID e; ll_workspace_id := e_WorkspaceID e; ll_key_id := e_KeyDBID e;
     ll_endpoint := e_Endpoint e; ll_command := e_Command e; ll_duration_ms := e_DurationMS e;
     ll_status_code := e_StatusCode e; ll_error_code := e_ErrorCode e; ll_sqlstate := e_SQLState e;
     ll_client_ip := e_ClientIP e |}.

(** A marshalling error leaves [params] nil. *)
Definition row_of (w : Writer) (id : uuid) (e : Entry) : audit_row :=
  {| ar_id := id; ar_request_id := e_RequestID e;
     ar_workspace_id := optional_uuid (e_WorkspaceID e); ar_key_id := optional_uuid (e_KeyDBID e);
     ar_endpoint := e_Endpoint e; ar_command := e_Command e;
     ar_sql_hash := hashOrEmpty (e_SQL e); ar_params_hash := paramsHash (e_Params e);
     ar_sql_text := if wr_includeSQL w then Some (e_SQL e) else None;
     ar_params_json := if wr_includeSQL w then
                         match e_Params e with
                         | Some ps => match json_Marshal ps with Ok b => Some b | Err _ => None end
                         | None => None
                         end
                       else None;
     ar_duration_ms := e_DurationMS e; ar_status_code := e_StatusCode e; ar_error_code := e_ErrorCode e;
     ar_sqlstate := e_SQLState e;
     ar_client_ip := if str_eqb (e_ClientIP e) [] then None else ParseIP (e_ClientIP e) |}.

Inductive audit_event : Type :=
| LogRequest (l : log_line)
| LogWriteFailed (err : error) (request_id : bytes).

(** [Write(e)]: [insert] is the pool, given the row. *)
Definition Write {D : Type} (insert : audit_row → D → D * res error unit) (w : Writer) (id : uuid) (e : Entry)
    (d : D) : D * list audit_event :=
  if wr_disabled w || negb (wr_pool w) then (d, [LogRequest (line_of e)])
  else match insert (row_of w id e) d with
       | (d, Ok _) => (d, [LogRequest (line_of e)])
       | (d, Err err) => (d, [LogRequest (line_of e); LogWriteFailed err (e_RequestID e)])
       end.

(** ** Properties *)

(** Two entries that differ only in statement and parameters. *)
Definition same_request (a b : Entry) : Prop :=
  e_RequestID a = e_RequestID b ∧ e_WorkspaceID a = e_WorkspaceID b ∧ e_KeyDBID a = e_KeyDBID b ∧
  e_Endpoint a = e_Endpoint b ∧ e_Command a = e_Command b ∧ e_DurationMS a = e_DurationMS b ∧
  e_StatusCode a = e_StatusCode b ∧ e_ErrorCode a = e_ErrorCode b ∧ e_SQLState a = e_SQLState b ∧
  e_ClientIP a = e_ClientIP b.

(** C40: Without AGENTCOOPDB_AUDIT_INCLUDE_SQL, [Write] hands statements and
    parameters on only as hashes: what it logs, and what it does to the table, are
    the same for two requests whose statements and parameters have the same hashes,
    whatever the pool answers. The comments of audit.go and of the first migration
    say otherwise of the log: that it holds the full text by default. *)
Theorem audit_hides_sql {D} (insert : audit_row → D → D * res error unit) w id a b d :
  wr_includeSQL w = false → same_request a b →
  hashOrEmpty (e_SQL a) = hashOrEmpty (e_SQL b) → paramsHash (e_Params a) = paramsHash (e_Params b) →
  Write insert w id a d = Write insert w id b d.
Proof.
  intros Hi (H1 & H2 & H3 & H4 & H5 & H6 & H7 & H8 & H9 & H10) Hs Hp. unfold Write.
  replace (row_of w id b) with (row_of w id a) by (unfold row_of; by rewrite Hi, H1, H2, H3, H4, H5, H6, H7, H8, H9, H10, Hs, Hp).
  replace (line_of b) with (line_of a) by (unfold line_of; congruence).
  by rewrite H1.
Qed.

(** Auditing is best effort and never silent: every entry is logged once, first;
    a disabled writer or one without a pool leaves the table alone; an insert
    that fails is logged with the request's id and reaches nobody else. *)
Theorem audit_write {D} (insert : audit_row → D → D * res error unit) w id e d :
  let '(d', evs) := Write insert w id e d in
  (wr_disabled w = true ∨ wr_pool w = false → d' = d ∧ evs = [LogRequest (line_of e)]) ∧
  (wr_disabled w = false → wr_pool w = true →
     d' = (insert (row_of w id e) d).1 ∧
     evs = LogRequest (line_of e) ::
           match (insert (row_of w id e) d).2 with
           | Ok _ => []
           | Err err => [LogWriteFailed err (e_RequestID e)]
           end).
Proof.
  unfold Write. destruct (wr_disabled w), (wr_pool w); simpl;
    try (split; [done|intros; done]); destruct (insert _ d) as [d' [[]|err]]; simpl; naive_solver.
Qed.
End Audit.

(** ** Instances *)

#[local] Existing Instance text_uuid.

Module AuditDemo.
Definition entry (ps : option (list bytes)) : Entry (V := bytes) :=
  {| e_RequestID := bs "r"; e_WorkspaceID := bs "w"; e_KeyDBID := bs "k"; e_Endpoint := bs "POST /v1/sql/execute";
     e_Command := bs "SELECT"; e_SQL := bs "SELECT 1"; e_Params := ps; e_DurationMS := 3; e_StatusCode := 200;
     e_ErrorCode := []; e_SQLState := bs "00000"; e_ClientIP := bs "10.0.0.1" |}.

Definition marshal (ps : list bytes) : res error bytes := Ok (concat ps).
Definition insert (r : audit_row (IP := bytes)) (d : list bytes) : list bytes * res error unit :=
  (ar_sql_hash r :: d, Ok tt).
End AuditDemo.

Lemma audit_hides_sql_witness :
  Write AuditDemo.marshal (fun s => Some s) AuditDemo.insert (NewWriter true false false)
    (exist _ [x61] I) (AuditDemo.entry None) [] =
  Write AuditDemo.marshal (fun s => Some s) AuditDemo.insert (NewWriter true false false)
    (exist _ [x61] I) (AuditDemo.entry (Some [])) [].
Proof.
  apply (audit_hides_sql AuditDemo.marshal (fun s => Some s) AuditDemo.insert (NewWriter true false false)
           (exist _ [x61] I) (AuditDemo.entry None) (AuditDemo.entry (Some [])) []);
    [reflexivity|repeat split|reflexivity|reflexivity].
Defined.
