(* ===== verification/Pool.v ===== *)
(** * internal/db/pool.go: opening the pool, and transactions on it

    pgxpool is a parameter; what is opened and closed is a log. *)

From S2P Require Import Prelude GoStrings GoErrors SqlLex Tenant.

Record PoolConfig : Type := {
  pl_URL : bytes;
  pl_Password : bytes;
  pl_MaxConns : Z;
  pl_MinConns : Z;
  pl_ConnLifetime : Z;
}.

(** The parts of a [pgxpool.Config] the source sets; the rest is [px_Rest]. *)
Record pgx_config (R : Type) : Type := {
  px_Password : bytes;
  px_MaxConns : Z;
  px_MinConns : Z;
  px_MaxConnLifetime : Z;
  px_RuntimeParams : list (bytes * bytes);
  px_Rest : R;
}.
Arguments px_Password {R} _.
Arguments px_MaxConns {R} _.
Arguments px_MinConns {R} _.
Arguments px_MaxConnLifetime {R} _.
Arguments px_RuntimeParams {R} _.
Arguments px_Rest {R} _.

Class PgxPool : Type := {
  px_rest : Type;
  pool : Type;
  pool_ParseConfig : bytes → res error (pgx_config px_rest);
  pool_New : pgx_config px_rest → res error pool;
  pool_Ping : pool → option error;
}.

(** [m[k] = v] *)
Fixpoint param_set (m : list (bytes * bytes)) (k v : bytes) : list (bytes * bytes) :=
  match m with
  | [] => [(k, v)]
  | (k', v') :: m' => if str_eqb k' k then (k, v) :: m' else (k', v') :: param_set m' k v
  end.

Fixpoint param_get (m : list (bytes * bytes)) (k : bytes) : option bytes :=
  match m with
  | [] => None
  | (k', v) :: m' => if str_eqb k' k then Some v else param_get m' k
  end.

Section Pool.
Context `{PgxPool}.

Inductive pool_event : Type :=
| PoolOpened (cfg : pgx_config px_rest)
| PoolPinged (answered : bool)
| PoolClosed.

(** The configuration [OpenPool] connects with. *)
Definition configure (c : PoolConfig) (cfg : pgx_config px_rest) : pgx_config px_rest :=
  {| px_Password := if negb (str_eqb (pl_Password c) []) then pl_Password c else px_Password cfg;
     px_MaxConns := if (0 <? pl_MaxConns c)%Z then pl_MaxConns c else px_MaxConns cfg;
     px_MinConns := if (0 <? pl_MinConns c)%Z then pl_MinConns c else px_MinConns cfg;
     px_MaxConnLifetime := if (0 <? pl_ConnLifetime c)%Z then pl_ConnLifetime c else px_MaxConnLifetime cfg;
     px_RuntimeParams :=
       param_set (param_set (px_RuntimeParams cfg) (bs "application_name") (bs "agentcoopdb_gateway"))
         (bs "search_path") (bs "agentcoopdb,public");
     px_Rest := px_Rest cfg |}.

Definition OpenPool (c : PoolConfig) (log : list pool_event) : list pool_event * res error pool :=
  if str_eqb (pl_URL c) [] then (log, Err (errors_New (bs "db: empty database URL"))) else
  match pool_ParseConfig (pl_URL c) with
  | Err err => (log, Err (wrapf (bs "parse: ") err))
  | Ok cfg =>
      let cfg := configure c cfg in
      match pool_New cfg with
      | Err err => (log, Err (wrapf (bs "connect: ") err))
      | Ok p =>
          let log := log ++ [PoolOpened cfg] in
          match pool_Ping p with
          | Some err => (log ++ [PoolPinged false; PoolClosed], Err (wrapf (bs "ping: ") err))
          | None => (log ++ [PoolPinged true], Ok p)
          end
      end
  end.

Lemma param_get_set m k v k' : param_get (param_set m k v) k' = if str_eqb k k' then Some v else param_get m k'.
Proof.
  induction m as [|[k0 v0] m IH]; cbn [param_set param_get]; [by destruct (str_eqb k k')|].
  destruct (str_eqb k0 k) eqn:E; cbn [param_get]; [go_bool; subst; by destruct (str_eqb k k')|].
  rewrite IH. destruct (str_eqb k0 k') eqn:E'; [|done]. destruct (str_eqb k k') eqn:E''; [|done]. go_bool. congruence.
Qed.

(** A pool is left open exactly if it is handed out. *)
Lemma OpenPool_log c log log' r : OpenPool c log = (log', r) →
  match r with
  | Ok _ => ∃ cfg, log' = log ++ [PoolOpened cfg; PoolPinged true]
  | Err _ => log' = log ∨ ∃ cfg, log' = log ++ [PoolOpened cfg; PoolPinged false; PoolClosed]
  end.
Proof.
  unfold OpenPool. destruct (str_eqb (pl_URL c) []); [intros [= <- <-]; by left|].
  destruct (pool_ParseConfig (pl_URL c)) as [base|e]; [|intros [= <- <-]; by left].
  destruct (pool_New (configure c base)) as [p|e]; [|intros [= <- <-]; by left].
  destruct (pool_Ping p); intros [= <- <-]; [right|]; exists (configure c base); by rewrite <- ?app_assoc.
Qed.

(** A pool that is handed out has answered a ping, runs as the gateway with
    the control-plane schema first on its search path and the configured password
    and limits wherever they are set; in every other case the error says which
    step failed and no pool is left open. *)
Theorem OpenPool_spec c log log' r :
  OpenPool c log = (log', r) →
  match r with
  | Ok p => ∃ base cfg, pool_ParseConfig (pl_URL c) = Ok base ∧ pool_New cfg = Ok p ∧ pool_Ping p = None ∧
      log' = log ++ [PoolOpened cfg; PoolPinged true] ∧
      param_get (px_RuntimeParams cfg) (bs "application_name") = Some (bs "agentcoopdb_gateway") ∧
      param_get (px_RuntimeParams cfg) (bs "search_path") = Some (bs "agentcoopdb,public") ∧
      (∀ k, k ≠ bs "application_name" → k ≠ bs "search_path" →
         param_get (px_RuntimeParams cfg) k = param_get (px_RuntimeParams base) k) ∧
      (pl_Password c ≠ [] → px_Password cfg = pl_Password c) ∧
      ((0 < pl_MaxConns c)%Z → px_MaxConns cfg = pl_MaxConns c) ∧
      px_Rest cfg = px_Rest base
  | Err _ => log' = log ∨ ∃ cfg, log' = log ++ [PoolOpened cfg; PoolPinged false; PoolClosed]
  end.
Proof.
  unfold OpenPool. destruct (str_eqb (pl_URL c) []); [intros [= <- <-]; by left|].
  destruct (pool_ParseConfig (pl_URL c)) as [base|e]; [|intros [= <- <-]; by left].
  destruct (pool_New (configure c base)) as [p|e] eqn:En; [|intros [= <- <-]; by left].
  destruct (pool_Ping p) eqn:Ep; intros [= <- <-]; [right; exists (configure c base); by rewrite <- app_assoc|].
  exists base, (configure c base). do 3 (split; [done|]). split; [by rewrite <- app_assoc|]. unfold configure. cbn [px_RuntimeParams px_Password px_MaxConns px_Rest].
  rewrite !param_get_set. split; [done|]. split; [done|]. split.
  - intros k H1 H2. rewrite !param_get_set.
    rewrite !(bool_decide_false _ (not_eq_sym H1) : str_eqb _ k = false), !(bool_decide_false _ (not_eq_sym H2) : str_eqb _ k = false). done.
  - split; [|split; [|done]].
    + intros Hp. by rewrite (bool_decide_false _ Hp : str_eqb _ [] = false).
    + intros Hm. by rewrite (proj2 (Z.ltb_lt _ _) Hm).
Qed.
End Pool.

(** ** Transactions *)

Section InTx.
Context {V S : Type}.
Variable srv : PgServer V S.

(** A function may return or panic. *)
Inductive outcome : Type :=
| Returned (err : option error)
| Panics (value : bytes).

(** [InTx(ctx, pool, fn)] *)
Definition InTx (fn : conn V S → conn V S * outcome) (c : conn V S) : conn V S * outcome :=
  match send srv CBegin c with
  | (c, Err err) => (c, Returned (Some (wrapf (bs "begin: ") err)))
  | (c, Ok _) =>
      match fn c with
      | (c, Panics p) => ((send srv CRollback c).1, Panics p)
      | (c, Returned (Some err)) => ((send srv CRollback c).1, Returned (Some err))
      | (c, Returned None) =>
          match send srv CCommit c with
          | (c, Err err) => (c, Returned (Some err))
          | (c, Ok _) => (c, Returned None)
          end
      end
  end.

Lemma send_snoc m (c : conn V S) : cn_log (send srv m c).1 = cn_log c ++ [m].
Proof. unfold send. by destruct (srv_exec _ _ _). Qed.

(** A transaction of [InTx] is always ended: once begun, what the function
    sent is followed by exactly one commit, if the function returned no error, or
    one rollback, if it returned an error or panicked (and the panic goes on);
    nil is returned only if the server accepted the commit. *)
Theorem InTx_closed fn c c' o :
  (∀ c, ∃ l, cn_log (fn c).1 = cn_log c ++ l) → InTx fn c = (c', o) →
  (∃ err, cn_log c' = cn_log c ++ [CBegin] ∧ o = Returned (Some err)) ∨
  ∃ c1 l, cn_log c1 = cn_log c ++ [CBegin] ∧ cn_log (fn c1).1 = cn_log c1 ++ l ∧
    ((fn c1).2 = Returned None ∧ cn_log c' = cn_log c ++ CBegin :: l ++ [CCommit] ∧
       (o = Returned None ↔ is_ok (send srv CCommit (fn c1).1).2 = true) ∨
     (fn c1).2 ≠ Returned None ∧ cn_log c' = cn_log c ++ CBegin :: l ++ [CRollback] ∧ o = (fn c1).2).
Proof.
  intros Hfn. unfold InTx. pose proof (send_snoc CBegin c) as Hb. destruct (send srv CBegin c) as [c1 [z|e]]; cbn [fst] in Hb;
    [|intros [= <- <-]; left; by eexists].
  destruct (Hfn c1) as [l Hl]. intros Hx. right. exists c1, l. split; [done|]. split; [done|].
  destruct (fn c1) as [c2 o2]. cbn [fst snd] in *.
  assert (∀ m, cn_log (send srv m c2).1 = cn_log c ++ CBegin :: l ++ [m]) as Hs.
  { intros m. rewrite send_snoc, Hl, Hb, <- !app_assoc. done. }
  destruct o2 as [[err|]|p].
  - right. injection Hx as <- <-. by rewrite Hs.
  - left. split; [done|]. specialize (Hs CCommit). destruct (send srv CCommit c2) as [c3 [z'|e']]; injection Hx as <- <-; done.
  - right. injection Hx as <- <-. by rewrite Hs.
Qed.
End InTx.

(** ** Instances *)

Module PoolDemo.
(** A pool is its URL; it is up unless the URL is "down". *)
Definition lib : PgxPool := {|
  px_rest := bytes; pool := bytes;
  pool_ParseConfig url := Ok {| px_Password := []; px_MaxConns := 4; px_MinConns := 0; px_MaxConnLifetime := 0;
                                px_RuntimeParams := [(bs "search_path", bs "public")]; px_Rest := url |};
  pool_New cfg := Ok (px_Rest cfg);
  pool_Ping p := if str_eqb p (bs "down") then Some (errors_New (bs "refused")) else None;
|}.

Definition input (url : bytes) : PoolConfig :=
  {| pl_URL := url; pl_Password := bs "s3cret"; pl_MaxConns := 20; pl_MinConns := 2; pl_ConnLifetime := 0 |}.

Definition server : PgServer bytes unit := {|
  srv_exec m s := (s, Ok 1%Z);
  srv_query sql args s := (s, Err ErrNoRows);
|}.

(** One statement, then a panic. *)
Definition panicking (c : conn bytes unit) : conn bytes unit * outcome :=
  ((send server (CExec (bs "DELETE FROM t") []) c).1, Panics (bs "boom")).
End PoolDemo.

#[local] Existing Instance PoolDemo.lib.

Lemma OpenPool_spec_witness :
  ∃ log cfg, OpenPool (PoolDemo.input (bs "down")) [] = (log, Err (wrapf (bs "ping: ") (errors_New (bs "refused")))) ∧
    log = [] ++ [PoolOpened cfg; PoolPinged false; PoolClosed].
Proof.
  destruct (OpenPool (PoolDemo.input (bs "down")) []) as [log r] eqn:E.
  pose proof (OpenPool_spec (PoolDemo.input (bs "down")) [] log r E) as Hs.
  assert (r = Err (wrapf (bs "ping: ") (errors_New (bs "refused")))) as ->.
  { apply (f_equal snd) in E. cbn [snd] in E. rewrite <- E. by vm_compute. }
  exists log. destruct Hs as [->|(cfg & ->)]; [apply (f_equal (fun p => length p.1)) in E; vm_compute in E; discriminate E|].
  exists cfg. split; reflexivity.
Defined.

Lemma InTx_closed_witness :
  cn_log (InTx PoolDemo.server PoolDemo.panicking {| cn_state := tt; cn_log := [] |}).1 =
    [CBegin; CExec (bs "DELETE FROM t") []; CRollback].
Proof.
  destruct (InTx PoolDemo.server PoolDemo.panicking {| cn_state := tt; cn_log := [] |}) as [c' o] eqn:E.
  destruct (InTx_closed PoolDemo.server PoolDemo.panicking {| cn_state := tt; cn_log := [] |} c' o) as [(err & Hl & Ho)|Hr].
  - intros c. exists [CExec (bs "DELETE FROM t") []]. apply send_snoc.
  - exact E.
  - apply (f_equal snd) in E. rewrite Ho in E. vm_compute in E. discriminate E.
  - destruct Hr as (c1 & l & H1 & H2 & [(Hn & _)|(_ & H3 & _)]); [discriminate Hn|].
    unfold PoolDemo.panicking in H2. cbn [fst] in H2. rewrite send_snoc in H2. apply app_inv_head in H2 as <-.
    cbn [fst]. rewrite H3. reflexivity.
Defined.
