(* ===== verification/Vector.v ===== *)
(** * internal/vector/vector.go: pgvector helpers

    The helpers run on a transaction of [Tenant]; reading a row into Go variables
    is a parameter. The statements are proved against [SqlLex]. *)

From Stdlib Require Import Floats.SpecFloat.
From S2P Require Import Prelude GoStrings GoErrors SqlLex Tenant.

(** One row of a search: the id, the metadata and the distance. *)
Record found (M : Type) : Type := { f_id : bytes; f_metadata : M; f_distance : spec_float }.

(** [Scan] into the variables of the source, the [int] as a parameter of a
    statement, and [%g] of a float32. *)
Class VectorLib (V : Type) : Type := {
  metadata : Type;
  scan_bool : list V → res error bool;
  scan_int : list V → res error Z;
  scan_found : list V → res error (found metadata);
  int_arg : Z → V;
  fmt_g32 : spec_float → bytes;
}.

Section Vector.
Context {V S : Type} `{VectorLib V, UnicodeTables}.
Variable srv : PgServer V S.

Definition isSafeIdent (s : bytes) : bool :=
  if str_eqb s [] || (63 <? Z.of_nat (length s))%Z then false
  else forallb (fun r => ((97 <=? r) && (r <=? 122))%Z || ((48 <=? r) && (r <=? 57))%Z ||
                         (r =? 95)%Z) (runes s).

Fixpoint format_loop (i : nat) (v : list spec_float) : bytes :=
  match v with
  | [] => []
  | f :: v' => (if (0 <? i)%nat then bs "," else []) ++ fmt_g32 f ++ format_loop (Datatypes.S i) v'
  end.

Definition Format (v : list spec_float) : bytes := bs "[" ++ format_loop 0 v ++ bs "]".

(** [tx.QueryRow(sql, args...).Scan(&x)] *)
Definition query_row {A : Type} (scan : list V → res error A) (sql : bytes) (args : list (arg V))
  : X (V := V) (S := S) A :=
  let+ rows := send_query srv sql args in
  match rs_rows rows with
  | [] => xfail (default ErrNoRows (rs_err rows))
  | Err e :: _ => xfail e
  | Ok values :: _ =>
      match scan values, rs_err rows with
      | Err e, _ => xfail e
      | Ok _, Some e => xfail e
      | Ok a, None => xret a
      end
  end.

Definition index_name (table column : bytes) : bytes :=
  Sprintf [FStr table; FLit (bs "_"); FStr column; FLit (bs "_ivfflat_idx")].

Definition exists_sql : bytes := bs "SELECT EXISTS (SELECT 1 FROM pg_indexes WHERE indexname = $1)".

Definition count_sql (table : bytes) : bytes := Sprintf [FLit (bs "SELECT count(*) FROM "); FQuote table].

(** The number of lists: the caller's, or one from the number of rows. *)
Definition ivf_lists (lists rowCount : Z) : Z :=
  if (lists <=? 0)%Z then if (1000000 <? rowCount)%Z then 1000 else 100 else lists.

Definition create_index_sql (table column : bytes) (lists : Z) : bytes :=
  Sprintf [FLit (bs "CREATE INDEX "); FQuote (index_name table column); FLit (bs " ON "); FQuote table;
           FLit (bs " USING ivfflat ("); FQuote column; FLit (bs " vector_cosine_ops) WITH (lists = "); FInt lists;
           FLit (bs ")")].

Definition EnsureIVFFlatIndex (table column : bytes) (minRows lists : Z) : X (V := V) (S := S) bool :=
  if negb (isSafeIdent table) || negb (isSafeIdent column)
  then xfail (errors_New (bs "vector.EnsureIVFFlatIndex: unsafe identifier"))
  else
    let+ present := query_row scan_bool exists_sql [AStr (index_name table column)] in
    if (present : bool) then xret false else
    let+ rowCount := query_row scan_int (count_sql table) [] in
    if (rowCount <? minRows)%Z then xret false else
    let+ _ := send srv (CExec (create_index_sql table column (ivf_lists lists rowCount)) []) in
    xret true.

Definition search_stmt (table column : bytes) : bytes :=
  Sprintf [FLit (bs "SELECT id, metadata, "); FQuote column; FLit (bs " <=> $1::vector AS distance
         FROM "); FQuote table; FLit (bs "
         ORDER BY "); FQuote column; FLit (bs " <=> $1::vector
         LIMIT $2")].

(** [for rows.Next() { rows.Scan(...) }] *)
Fixpoint scan_all (rows : list (res error (list V))) : res error (list (found metadata)) :=
  match rows with
  | [] => Ok []
  | Err e :: _ => Err e
  | Ok values :: rows' => let! f := scan_found values in let! fs := scan_all rows' in Ok (f :: fs)
  end.

Definition Search (table column : bytes) (query : list spec_float) (k : Z) : X (V := V) (S := S) (list (found metadata)) :=
  if negb (isSafeIdent table) || negb (isSafeIdent column)
  then xfail (errors_New (bs "vector.Search: unsafe identifier"))
  else
    let k := if (k <=? 0)%Z then 5%Z else k in
    let+ rows := send_query srv (search_stmt table column) [AStr (Format query); AVal (int_arg k)] in
    match scan_all (rs_rows rows), rs_err rows with
    | Err e, _ => xfail e
    | Ok _, Some e => xfail e
    | Ok out, None => xret out
    end.
End Vector.

(** ** What the helpers send *)

Section VectorFacts.
Context {V S : Type} `{VectorLib V, UnicodeTables}.
Variable srv : PgServer V S.

Lemma isSafeIdent_bytes s : isSafeIdent s = true → forallb safe_byte s = true.
Proof. by intros [_ Hs]%isSafeRoleName_bytes. Qed.

Lemma index_name_safe table column : isSafeIdent table = true → isSafeIdent column = true →
  forallb safe_byte (index_name table column) = true.
Proof.
  intros Ht%isSafeIdent_bytes Hc%isSafeIdent_bytes. unfold index_name, Sprintf. cbn [fmap list_fmap concat].
  rewrite !forallb_app, Ht, Hc. by vm_compute.
Qed.

Definition create_index_tokens (table column : bytes) (lists : Z) : list sql_token :=
  [TWord (bs "CREATE"); TWord (bs "INDEX"); TIdent (index_name table column); TWord (bs "ON"); TIdent table;
   TWord (bs "USING"); TWord (bs "ivfflat"); TChar "("; TIdent column; TWord (bs "vector_cosine_ops"); TChar ")";
   TWord (bs "WITH"); TChar "("; TWord (bs "lists"); TChar "="; TNumber (Itoa lists); TChar ")"].

Definition create_index_pieces (table column : bytes) : list piece :=
  [PLit (bs "CREATE INDEX") x20; PIdent (index_name table column); PLit (bs " ON") x20; PIdent table;
   PLit (bs " USING ivfflat ") "("; PIdent column; PLit (bs " vector_cosine_ops) WITH (lists =") x20].

(** A number closed by a parenthesis. *)
Lemma lex_number z : (0 ≤ z)%Z → lex (Itoa z ++ bs ")") = Some [TNumber (Itoa z); TChar ")"].
Proof.
  intros Hz. destruct (Itoa_nonneg z Hz) as (Hne & Hd & _). destruct (Itoa z) as [|c ds]; [done|].
  simpl in Hd. apply andb_true_iff in Hd as [Hc Hd]. cbn [app]. rewrite lex_cons. unfold next_token.
  assert (is_space c = false ∧ byte_eqb c dq = false ∧ byte_eqb c "'" = false ∧ is_letter c = false) as (-> & -> & -> & ->).
  { assert (∀ b, implb (is_digit b) (negb (is_space b) && negb (byte_eqb b dq) && negb (byte_eqb b "'") && negb (is_letter b)) = true)
      as Hall by (by apply byte_forall; vm_compute).
    specialize (Hall c). rewrite Hc in Hall. cbn [implb] in Hall. apply andb_true_iff in Hall as [Hall H4].
    apply andb_true_iff in Hall as [Hall H3]. apply andb_true_iff in Hall as [H1 H2]. by repeat split; apply negb_true_iff. }
  rewrite Hc, span_digits; [done|done|]. by intros ? [= <-].
Qed.

Lemma create_index_lex table column lists : isSafeIdent table = true → isSafeIdent column = true → (0 ≤ lists)%Z →
  lex (create_index_sql table column lists) = Some (create_index_tokens table column lists).
Proof.
  intros Ht Hc Hl. pose proof (index_name_safe table column Ht Hc) as Hi.
  destruct (safe_plain _ (isSafeIdent_bytes _ Ht)) as [Eqt Hqt], (safe_plain _ (isSafeIdent_bytes _ Hc)) as [Eqc Hqc],
    (safe_plain _ Hi) as [Eqi Hqi].
  assert (create_index_sql table column lists = render (create_index_pieces table column) ++ Itoa lists ++ bs ")") as ->.
  { unfold create_index_sql, create_index_pieces. generalize dependent (index_name table column). intros name _ Eqi _.
    unfold Sprintf. cbn [fmap list_fmap concat render render_piece]. rewrite Eqi, Eqt, Eqc.
    generalize (Itoa lists). intros n. text_eq. }
  rewrite lex_render, lex_number by (done || pieces).
  assert (lex_pieces (create_index_pieces table column) =
    Some (take 15 (create_index_tokens table column lists))) as Hlp.
  { unfold create_index_pieces, create_index_tokens. generalize (index_name table column). intros name. by vm_compute. }
  rewrite Hlp. done.
Qed.

Definition search_stmt_tokens (table column : bytes) : list sql_token :=
  let cosine := [TChar "<"; TChar "="; TChar ">"; TParam (bs "1"); TChar ":"; TChar ":"; TWord (bs "vector")] in
  [TWord (bs "SELECT"); TWord (bs "id"); TChar ","; TWord (bs "metadata"); TChar ","; TIdent column] ++ cosine ++
  [TWord (bs "AS"); TWord (bs "distance"); TWord (bs "FROM"); TIdent table; TWord (bs "ORDER"); TWord (bs "BY");
   TIdent column] ++ cosine ++ [TWord (bs "LIMIT"); TParam (bs "2")].

Definition search_stmt_pieces (table column : bytes) : list piece :=
  [PLit (bs "SELECT id, metadata,") x20; PIdent column; PLit (bs " <=> $1::vector AS distance
         FROM") x20; PIdent table; PLit (bs "
         ORDER BY") x20; PIdent column; PLit (bs " <=> $1::vector
         LIMIT") x20].

Lemma search_stmt_lex table column : isSafeIdent table = true → isSafeIdent column = true →
  lex (search_stmt table column) = Some (search_stmt_tokens table column).
Proof.
  intros Ht Hc.
  destruct (safe_plain _ (isSafeIdent_bytes _ Ht)) as [Eqt Hqt], (safe_plain _ (isSafeIdent_bytes _ Hc)) as [Eqc Hqc].
  assert (search_stmt table column = render (search_stmt_pieces table column) ++ bs "$2") as ->.
  { unfold search_stmt, search_stmt_pieces, Sprintf. cbn [fmap list_fmap concat render render_piece].
    rewrite Eqt, Eqc. text_eq. }
  rewrite lex_render by pieces. by vm_compute.
Qed.

Lemma query_row_log {A} (scan : list V → res error A) sql args (c : conn V S) :
  cn_log (query_row srv scan sql args c).1 = cn_log c ++ [CQuery sql args].
Proof.
  unfold query_row, xbind, send_query. destruct (srv_query _ _ _ _) as [s [rows|e]]; [|done].
  destruct (rs_rows rows) as [|[values|e] l]; [done| |done].
  destruct (scan values); [by destruct (rs_err rows)|done].
Qed.

(** The pgvector helpers send nothing for an unsafe table or column name.
    Otherwise the index helper asks whether the index exists, then for the number
    of rows, then creates the index, stops at the first failure or reason not to,
    and reports true only after a CREATE INDEX the server accepted; the statement
    is read by Postgres as creating that index on that column, with a positive
    number of lists. The search sends one statement over that table and column. *)
Theorem vector_helpers_exact table column minRows lists query k (c c1 c2 : conn V S) r1 r2 :
  EnsureIVFFlatIndex srv table column minRows lists c = (c1, r1) →
  Search srv table column query k c = (c2, r2) →
  if isSafeIdent table && isSafeIdent column then
    (∃ n rowCount, let l := ivf_lists lists rowCount in
       cn_log c1 = cn_log c ++ take n [CQuery exists_sql [AStr (index_name table column)]; CQuery (count_sql table) [];
                                       CExec (create_index_sql table column l) []] ∧
       lex (create_index_sql table column l) = Some (create_index_tokens table column l) ∧ (0 < l)%Z ∧
       (r1 = Ok true → n = 3 ∧ (minRows ≤ rowCount)%Z)) ∧
    cn_log c2 = cn_log c ++ [CQuery (search_stmt table column) [AStr (Format query); AVal (int_arg (if (k <=? 0)%Z then 5%Z else k))]] ∧
    lex (search_stmt table column) = Some (search_stmt_tokens table column)
  else c1 = c ∧ is_ok r1 = false ∧ c2 = c ∧ is_ok r2 = false.
Proof.
  unfold EnsureIVFFlatIndex, Search. destruct (isSafeIdent table) eqn:Et, (isSafeIdent column) eqn:Ec; cbn [negb orb andb];
    try by (intros [= <- <-] [= <- <-]).
  assert (∀ l n, (0 < ivf_lists l n)%Z) as Hpos.
  { intros l n. unfold ivf_lists. destruct (Z.leb_spec l 0); [by destruct (_ <? _)%Z|done]. }
  assert (∀ l, (0 < l)%Z → lex (create_index_sql table column l) = Some (create_index_tokens table column l)) as Hlex.
  { intros l Hl. apply create_index_lex; [done|done|lia]. }
  intros Hx Hy. split; [|split; [|by apply search_stmt_lex]].
  - unfold xbind at 1 in Hx. pose proof (query_row_log scan_bool exists_sql [AStr (index_name table column)] c) as Hl1.
    destruct (query_row srv scan_bool exists_sql _ c) as [d1 [b|e]]; cbn [fst] in Hl1;
      [|injection Hx as <- <-; exists 1, 0%Z; rewrite Hl1; naive_solver].
    destruct b; [injection Hx as <- <-; exists 1, 0%Z; rewrite Hl1; naive_solver|].
    unfold xbind at 1 in Hx. pose proof (query_row_log scan_int (count_sql table) [] d1) as Hl2.
    destruct (query_row srv scan_int (count_sql table) [] d1) as [d2 [n|e]]; cbn [fst] in Hl2;
      [|injection Hx as <- <-; exists 2, 0%Z; rewrite Hl2, Hl1, <- app_assoc; naive_solver].
    exists (if (n <? minRows)%Z then 2 else 3), n.
    destruct (Z.ltb_spec n minRows); [injection Hx as <- <-; rewrite Hl2, Hl1, <- app_assoc; naive_solver|].
    unfold xbind, send in Hx. destruct (srv_exec _ _ _) as [s [z|e]]; injection Hx as <- <-;
      cbn [cn_log]; rewrite Hl2, Hl1, <- !app_assoc; naive_solver.
  - unfold xbind, send_query in Hy. destruct (srv_query _ _ _ _) as [s [rows|e]]; [|by injection Hy as <- _].
    destruct (scan_all (rs_rows rows)); [destruct (rs_err rows)|]; by injection Hy as <- _.
Qed.
End VectorFacts.

(** ** A server that truncates identifiers

    Postgres keeps the first 63 bytes of an identifier. *)

Module VectorDemo.
Inductive value : Type := VBool (b : bool) | VInt (z : Z).

Definition lib : VectorLib value := {|
  metadata := unit;
  scan_bool vs := match vs with [VBool b] => Ok b | _ => Err (errors_New (bs "scan")) end;
  scan_int vs := match vs with [VInt z] => Ok z | _ => Err (errors_New (bs "scan")) end;
  scan_found _ := Err (errors_New (bs "scan"));
  int_arg := VInt;
  fmt_g32 _ := bs "0";
|}.

Definition unicode : UnicodeTables := {| is_print_high := fun _ => true |}.

Definition row (v : value) : res error (rowset value) :=
  Ok {| rs_columns := []; rs_rows := [Ok [v]]; rs_err := None |}.

(** Its state is the names of the indexes; every table has 2000 rows. *)
Definition server : PgServer value (list bytes) := {|
  srv_exec m s :=
    match m with
    | CExec sql _ =>
        match lex sql with
        | Some (TWord _ :: TWord _ :: TIdent name :: _) =>
            let name := take 63 name in
            if bool_decide (name ∈ s) then (s, Err (errors_New (bs "relation already exists"))) else (name :: s, Ok 0%Z)
        | _ => (s, Err (errors_New (bs "syntax error")))
        end
    | _ => (s, Ok 0%Z)
    end;
  srv_query sql args s :=
    (s, match args with
        | [AStr name] => row (VBool (bool_decide (name ∈ s)))
        | _ => row (VInt 2000)
        end);
|}.

Definition start : conn value (list bytes) := {| cn_state := []; cn_log := [] |}.
End VectorDemo.

#[local] Existing Instance VectorDemo.lib.
#[local] Existing Instance VectorDemo.unicode.

(** The index helper can be repeated as long as the name it builds fits an
    identifier: with names that are too long it looks for a name the server cut
    short, does not find it, and fails on the second call. *)
Theorem long_index_name_fails :
  let ensure table column c := EnsureIVFFlatIndex VectorDemo.server table column 1000 0 c in
  let short := ensure (bs "docs") (bs "embedding") in
  let long := ensure (bs "customer_support_conversation_messages") (bs "message_embedding_large") in
  (short VectorDemo.start).2 = Ok true ∧ (short (short VectorDemo.start).1).2 = Ok false ∧
  (long VectorDemo.start).2 = Ok true ∧ is_ok (long (long VectorDemo.start).1).2 = false.
Proof. by vm_compute. Qed.

Lemma vector_helpers_exact_witness :
  cn_log (Search VectorDemo.server (bs "docs") (bs "embedding") [] 0 VectorDemo.start).1 =
    [CQuery (search_stmt (bs "docs") (bs "embedding")) [AStr (bs "[]"); AVal (VectorDemo.VInt 5)]].
Proof.
  destruct (EnsureIVFFlatIndex VectorDemo.server (bs "docs") (bs "embedding") 1000 0 VectorDemo.start) as [c1 r1] eqn:E1.
  destruct (Search VectorDemo.server (bs "docs") (bs "embedding") [] 0 VectorDemo.start) as [c2 r2] eqn:E2.
  pose proof (vector_helpers_exact VectorDemo.server (bs "docs") (bs "embedding") 1000 0 [] 0 VectorDemo.start c1 c2 r1 r2 E1 E2)
    as Hv.
  destruct Hv as (_ & Hl & _). exact Hl.
Defined.
