(* ===== verification/Migrate.v ===== *)
(** * internal/db/migrate.go: migrations and role passwords

    The functions that connect as the owner of the database: they put a password
    into a URL, run migrations, create the owner role and set role passwords, and
    scrub secrets from every error they return. The parser and printer of net/url,
    golang-migrate and the Postgres server are parameters. *)

From S2P Require Import Prelude GoStrings GoErrors SqlLex Tenant.

(** ** net/url *)

(** [url.Userinfo]: a name and perhaps a password. *)
Record Userinfo : Type := { ui_Username : bytes; ui_Password : option bytes }.

(** [url.URL]: the scheme, the user information and the rest. *)
Record URL (R : Type) : Type := { u_Scheme : bytes; u_User : option Userinfo; u_Rest : R }.
Arguments u_Scheme {R} _.
Arguments u_User {R} _.
Arguments u_Rest {R} _.

Class NetUrl : Type := {
  url_rest : Type;
  url_Parse : bytes → res error (URL url_rest);
  url_String : URL url_rest → bytes;
}.

(** ** Connections as the owner *)

(** The server: connecting, statements, and the one query of the file. *)
Record OwnerServer (S : Type) : Type := {
  os_Connect : bytes → S → S * option error;
  os_Exec : bytes → S → S * option error;
  os_QueryBool : bytes → S → S * res error bool;
  os_User : bytes;                       (** [conn.Config().User] *)
}.
Arguments os_Connect {S} _.
Arguments os_Exec {S} _.
Arguments os_QueryBool {S} _.
Arguments os_User {S} _.

(** The server's state and the statements sent to it. *)
Record owner_conn (S : Type) : Type := { oc_state : S; oc_sent : list bytes }.
Arguments oc_state {S} _.
Arguments oc_sent {S} _.

Definition oc_exec {S} (srv : OwnerServer S) (stmt : bytes) (c : owner_conn S) : owner_conn S * option error :=
  let '(s, r) := os_Exec srv stmt (oc_state c) in
  ({| oc_state := s; oc_sent := oc_sent c ++ [stmt] |}, r).

Definition oc_query {S} (srv : OwnerServer S) (stmt : bytes) (c : owner_conn S) : owner_conn S * res error bool :=
  let '(s, r) := os_QueryBool srv stmt (oc_state c) in
  ({| oc_state := s; oc_sent := oc_sent c ++ [stmt] |}, r).

Definition oc_connect {S} (srv : OwnerServer S) (url : bytes) (c : owner_conn S) : owner_conn S * option error :=
  let '(s, r) := os_Connect srv url (oc_state c) in
  ({| oc_state := s; oc_sent := oc_sent c |}, r).

(** ** golang-migrate *)

(** A migrate instance is its source and its database URL; the operations act on
    the database. [no_change] and [as_dirty] are [errors.Is(err, ErrNoChange)] and
    [errors.As] for [ErrDirty]. *)
Record MigrateLib (D : Type) : Type := {
  mg_New : bytes → bytes → D → D * option error;
  mg_Up : bytes → bytes → D → D * option error;
  mg_Force : bytes → bytes → Z → D → D * option error;
  no_change : error → bool;
  as_dirty : error → option Z;
}.
Arguments mg_New {D} _.
Arguments mg_Up {D} _.
Arguments mg_Force {D} _.
Arguments no_change {D} _.
Arguments as_dirty {D} _.

(** The environment and the file system as MigrationsDir sees them. *)
Record Files : Type := {
  fs_env : bytes;                        (** AGENTCOOPDB_MIGRATIONS_DIR *)
  fs_is_dir : bytes → bool;              (** [os.Stat] succeeds and [IsDir] *)
  fs_abs : bytes → res error bytes;      (** [filepath.Abs] *)
}.

(** ** URLs *)

Section Urls.
Context `{NetUrl, UnicodeTables}.

(** [urlPassword(rawURL)] *)
Definition urlPassword (rawURL : bytes) : bytes :=
  match url_Parse rawURL with
  | Err _ => []
  | Ok u => match u_User u with
            | None => []
            | Some ui => default [] (ui_Password ui)
            end
  end.

(** [injectPassword(rawURL, password)] *)
Definition injectPassword (rawURL password : bytes) : res error bytes :=
  if str_eqb password [] then Ok rawURL
  else match url_Parse rawURL with
       | Err e => Err e
       | Ok u =>
           match u_User u with
           | None => Err (ErrFmt [FLit (bs "URL "); FQuote rawURL;
                                  FLit (bs " has no user component to attach a password to")])
           | Some ui =>
               Ok (url_String {| u_Scheme := u_Scheme u;
                                 u_User := Some {| ui_Username := ui_Username ui; ui_Password := Some password |};
                                 u_Rest := u_Rest u |})
           end
       end.

(** [rewriteSchemeForMigrate(rawURL)] *)
Definition rewriteSchemeForMigrate (rawURL : bytes) : res error bytes :=
  match url_Parse rawURL with
  | Err e => Err e
  | Ok u =>
      if str_eqb (u_Scheme u) (bs "postgres") || str_eqb (u_Scheme u) (bs "postgresql")
      then Ok (url_String {| u_Scheme := bs "pgx5"; u_User := u_User u; u_Rest := u_Rest u |})
      else if str_eqb (u_Scheme u) (bs "pgx5") then Ok (url_String u)
      else Err (ErrFmt [FLit (bs "unsupported scheme "); FQuote (u_Scheme u);
                        FLit (bs " (expected postgres / postgresql / pgx5)")])
  end.

(** ** Redaction *)

Definition redacted : bytes := bs "REDACTED".

(** The loop over the secrets: the message and whether it changed. *)
Fixpoint redact_loop (secrets : list bytes) (msg : bytes) (changed : bool) : bytes * bool :=
  match secrets with
  | [] => (msg, changed)
  | s :: secrets =>
      if str_eqb s [] then redact_loop secrets msg changed
      else if Contains msg s then redact_loop secrets (ReplaceAll msg s redacted) true
      else redact_loop secrets msg changed
  end.

(** [redactSecrets(err, secrets...)] *)
Definition redactSecrets (err : option error) (secrets : list bytes) : option error :=
  match err with
  | None => None
  | Some e =>
      let '(msg, changed) := redact_loop secrets (ErrorText e) false in
      if changed then Some (errors_New msg) else Some e
  end.

(** ** Identifiers *)

(** [isSafeIdent(s)] *)
Definition isSafeIdent (s : bytes) : bool :=
  if str_eqb s [] || (63 <? Z.of_nat (length s))%Z then false
  else forallb (fun r => ((97 <=? r) && (r <=? 122))%Z || ((48 <=? r) && (r <=? 57))%Z ||
                         (r =? 95)%Z) (runes s).

(** ** Role passwords and the owner role *)

(** ALTER ROLE with the password as a literal *)
Definition alter_role (role newPassword : bytes) : bytes :=
  Sprintf [FLit (bs "ALTER ROLE "); FQuote role; FLit (bs " WITH PASSWORD '");
           FStr (ReplaceAll newPassword (bs "'") (bs "''")); FLit (bs "'")].

(** The body of [SetRolePassword], before the deferred redaction. *)
Definition set_role_password {S} (srv : OwnerServer S) (migrationsURL ownerPassword role newPassword : bytes)
    (c : owner_conn S) : owner_conn S * option error :=
  if negb (isSafeIdent role) then
    (c, Some (ErrFmt [FLit (bs "SetRolePassword: unsafe role identifier "); FQuote role]))
  else if str_eqb newPassword [] then (c, Some (errors_New (bs "SetRolePassword: empty new password")))
  else if bool_decide (is_Some (IndexByte newPassword x00)) then
    (c, Some (errors_New (bs "SetRolePassword: password contains NUL byte")))
  else match injectPassword migrationsURL ownerPassword with
       | Err e => (c, Some (wrapf (bs "inject password: ") e))
       | Ok finalURL =>
           match oc_connect srv finalURL c with
           | (c, Some e) => (c, Some (wrapf (bs "connect: ") e))
           | (c, None) =>
               match oc_exec srv (alter_role role newPassword) c with
               | (c, Some e) => (c, Some (wrapf (bs "alter role: ") e))
               | (c, None) => (c, None)
               end
           end
       end.

Definition SetRolePassword {S} (srv : OwnerServer S) (migrationsURL ownerPassword role newPassword : bytes)
    (c : owner_conn S) : owner_conn S * option error :=
  let '(c, err) := set_role_password srv migrationsURL ownerPassword role newPassword c in
  (c, redactSecrets err [ownerPassword; newPassword; urlPassword migrationsURL]).

Definition owner_role_sql : bytes := bs "
DO $$
BEGIN
    IF NOT EXISTS (
        SELECT 1 FROM pg_roles
        WHERE rolname IN ('agentcoopdb_owner', 'aicoopdb_owner')
    ) THEN
        CREATE ROLE agentcoopdb_owner NOLOGIN CREATEDB CREATEROLE;
    END IF;
END$$;".

Definition grantPublic : bytes := bs "GRANT CREATE ON SCHEMA public TO CURRENT_USER".
Definition has_create_sql : bytes := bs "SELECT has_schema_privilege(current_user, 'public', 'CREATE')".

Definition ensure_owner_role {S} (srv : OwnerServer S) (migrationsURL ownerPassword : bytes) (c : owner_conn S)
  : owner_conn S * option error :=
  if str_eqb migrationsURL [] then
    (c, Some (errors_New (bs "EnsureOwnerRole: migrations database URL is empty (set AGENTCOOPDB_MIGRATIONS_DATABASE_URL or AGENTCOOPDB_DATABASE_URL)")))
  else match injectPassword migrationsURL ownerPassword with
       | Err e => (c, Some (wrapf (bs "inject password: ") e))
       | Ok finalURL =>
           match oc_connect srv finalURL c with
           | (c, Some e) => (c, Some (wrapf (bs "connect: ") e))
           | (c, None) =>
               match oc_exec srv owner_role_sql c with
               | (c, Some e) => (c, Some (wrapf (bs "create agentcoopdb_owner: ") e))
               | (c, None) =>
                   match oc_exec srv grantPublic c with
                   | (c, None) => (c, None)
                   | (c, Some _) =>
                       match oc_query srv has_create_sql c with
                       | (c, Ok true) => (c, None)
                       | (c, _) =>
                           (c, Some (ErrFmt [FLit (bs "migrations user cannot CREATE in the public schema (PostgreSQL 15+ revoked this by default). Connect to the database as a superuser and run: GRANT CREATE ON SCHEMA public TO ");
                                             FQuote (os_User srv)]))
                       end
                   end
               end
           end
       end.

Definition EnsureOwnerRole {S} (srv : OwnerServer S) (migrationsURL ownerPassword : bytes) (c : owner_conn S)
  : owner_conn S * option error :=
  let '(c, err) := ensure_owner_role srv migrationsURL ownerPassword c in
  (c, redactSecrets err [ownerPassword; urlPassword migrationsURL]).

(** ** Migrations *)

Fixpoint first_dir (fs : Files) (candidates : list bytes) : res error bytes :=
  match candidates with
  | [] => Err (errors_New (bs "migrations directory not found (set AGENTCOOPDB_MIGRATIONS_DIR)"))
  | c :: cs => if fs_is_dir fs c then fs_abs fs c else first_dir fs cs
  end.

Definition MigrationsDir (fs : Files) : res error bytes :=
  if negb (str_eqb (fs_env fs) []) then Ok (fs_env fs)
  else first_dir fs [bs "/app/migrations"; bs "migrations"].

(** The URL and source given to [migrate.New]. *)
Definition migrate_target (fs : Files) (empty_url : bytes) (migrationsURL password : bytes)
  : res error (bytes * bytes) :=
  if str_eqb migrationsURL [] then Err (errors_New empty_url)
  else
    let! finalURL := res_map_err (wrapf (bs "inject password: ")) (injectPassword migrationsURL password) in
    let! finalURL := res_map_err (wrapf (bs "rewrite scheme: ")) (rewriteSchemeForMigrate finalURL) in
    let! dir := MigrationsDir fs in
    Ok (bs "file://" ++ dir, finalURL).

(** [err != nil && !errors.Is(err, migrate.ErrNoChange)] *)
Definition up_failed {D} (lib : MigrateLib D) (r : option error) : option error :=
  match r with
  | Some e => if no_change lib e then None else Some e
  | None => None
  end.

(** [m.Up] with the recovery from a dirty version. *)
Definition migrate_up {D} (lib : MigrateLib D) (src url : bytes) (d : D) : D * option error :=
  let '(d, r) := mg_Up lib src url d in
  match up_failed lib r with
  | None => (d, None)
  | Some e =>
      match as_dirty lib e with
      | None => (d, Some (wrapf (bs "migrate.Up: ") e))
      | Some v =>
          let prev := wrap64 (v - 1) in
          match mg_Force lib src url prev d with
          | (d, Some fe) =>
              (d, Some (ErrWrap [FLit (bs "migrate.Up: dirty v"); FInt v; FLit (bs "; force to "); FInt prev;
                                 FLit (bs " failed: ")] fe []))
          | (d, None) =>
              let '(d, r) := mg_Up lib src url d in
              match up_failed lib r with
              | Some re =>
                  (d, Some (ErrWrap [FLit (bs "migrate.Up: dirty v"); FInt v;
                                     FLit (bs "; retry after force also failed: ")] re []))
              | None => (d, None)
              end
          end
      end
  end.

Definition run_migrations {D} (lib : MigrateLib D) (fs : Files) (migrationsURL password : bytes) (d : D)
  : D * option error :=
  match migrate_target fs (bs "RunMigrations: empty migrations URL") migrationsURL password with
  | Err e => (d, Some e)
  | Ok (src, url) =>
      match mg_New lib src url d with
      | (d, Some e) => (d, Some (wrapf (bs "migrate.New: ") e))
      | (d, None) => migrate_up lib src url d
      end
  end.

Definition RunMigrations {D} (lib : MigrateLib D) (fs : Files) (migrationsURL password : bytes) (d : D)
  : D * option error :=
  let '(d, err) := run_migrations lib fs migrationsURL password d in
  (d, redactSecrets err [password; urlPassword migrationsURL]).

Definition force_version {D} (lib : MigrateLib D) (fs : Files) (migrationsURL password : bytes) (version : Z) (d : D)
  : D * option error :=
  match migrate_target fs (bs "ForceVersion: empty migrations URL") migrationsURL password with
  | Err e => (d, Some e)
  | Ok (src, url) =>
      match mg_New lib src url d with
      | (d, Some e) => (d, Some (wrapf (bs "migrate.New: ") e))
      | (d, None) =>
          match mg_Force lib src url version d with
          | (d, Some e) => (d, Some (wrapf (bs "migrate.Force: ") e))
          | (d, None) => (d, None)
          end
      end
  end.

Definition ForceVersion {D} (lib : MigrateLib D) (fs : Files) (migrationsURL password : bytes) (version : Z) (d : D)
  : D * option error :=
  let '(d, err) := force_version lib fs migrationsURL password version d in
  (d, redactSecrets err [password; urlPassword migrationsURL]).
End Urls.

(** ** Substrings and ReplaceAll *)

Definition infix (s l : bytes) : Prop := ∃ a b, l = a ++ s ++ b.

Lemma Contains_infix l s : Contains l s = true ↔ infix s l.
Proof.
  induction l as [|c l IH]; cbn [Contains].
  - rewrite orb_false_r, HasPrefix_spec. split.
    + intros [t Ht]. by exists [], t.
    + intros (a & b & Hab). symmetry in Hab. apply app_eq_nil in Hab as [-> Hb]. by exists b.
  - rewrite orb_true_iff, IH, HasPrefix_spec. split.
    + intros [[t Ht]|(a & b & ->)]; [by exists [], t|by exists (c :: a), b].
    + intros ([|x a] & b & Hab); simplify_eq/=; [left; by exists b|right; by exists a, b].
Qed.

Lemma not_Contains l s : Contains l s = false ↔ ¬ infix s l.
Proof. rewrite <- Contains_infix. by destruct (Contains l s). Qed.

Lemma infix_app_r s l k : infix s l → infix s (l ++ k).
Proof. intros (a & b & ->). exists a, (b ++ k). by rewrite <- !app_assoc. Qed.

Lemma infix_app_l s l k : infix s l → infix s (k ++ l).
Proof. intros (a & b & ->). exists (k ++ a), b. by rewrite <- !app_assoc. Qed.

Lemma replace_from_drop n s old new : replace_from n s old new = replace_from 0 (drop n s) old new.
Proof. revert s. induction n as [|n IH]; intros [|c s]; try done. simpl. apply IH. Qed.

(** [ReplaceAll] finds the first occurrence and goes on after it. *)
Lemma ReplaceAll_step s old new : old ≠ [] →
  (Contains s old = false ∧ ReplaceAll s old new = s) ∨
  ∃ p t, s = p ++ old ++ t ∧ ¬ infix old p ∧ ReplaceAll s old new = p ++ new ++ ReplaceAll t old new.
Proof.
  intros Hne. unfold ReplaceAll. induction s as [|c s IH]; [left; by destruct old|].
  cbn [Contains replace_from]. destruct (HasPrefix (c :: s) old) eqn:Ep.
  - right. apply HasPrefix_spec in Ep as [t Ht]. exists [], t. split; [done|]. split.
    + intros (a & b & Hab). symmetry in Hab. apply app_eq_nil in Hab as [_ Hb].
      by apply app_eq_nil in Hb as [? _].
    + simpl. f_equal. rewrite replace_from_drop. f_equal. destruct old as [|o old]; [done|].
      simplify_eq/=. by rewrite Nat.sub_0_r, drop_app_length.
  - simpl. destruct IH as [[Hc Hr]|(p & t & -> & Hp & Hr)]; [left; by rewrite Hr|right].
    exists (c :: p), t. split; [done|]. split; [|by rewrite Hr].
    intros ([|x a] & b & Hab); simplify_eq/=; [|apply Hp; by exists a, b].
    assert (HasPrefix (c :: (p ++ old ++ t)) old = true) as Hx; [|by simpl in Hx; rewrite Hx in Ep].
    apply HasPrefix_spec. exists (b ++ old ++ t).
    change (c :: p ++ old ++ t) with ((c :: p) ++ old ++ t). rewrite Hab, <- !app_assoc. done.
Qed.

(** ** Redaction removes the secrets *)

(** A secret that cannot be made of pieces of the mark [m]. *)
Definition clear_of (m s : bytes) : Prop :=
  (∃ c t, s = c :: t ∧ c ∉ m) ∧ (∃ c t, s = t ++ [c] ∧ c ∉ m) ∧ ¬ infix m s.

Lemma infix_across m s p t : clear_of m s → infix s (p ++ m ++ t) → infix s p ∨ infix s t.
Proof.
  intros ((c1 & t1 & Hs1 & Hc1) & (c2 & t2 & Hs2 & Hc2) & Hm) (a & b & Hab).
  apply app_eq_app in Hab as [k [[-> Hk]|[-> Hk]]].
  - apply app_eq_app in Hk as [k' [[Hs Hk']|[-> Hk']]]; [|left; by exists a, k'].
    symmetry in Hk'. apply app_eq_app in Hk' as [x [[Hx1 Hx2]|[Hx1 Hx2]]].
    + exfalso. apply Hm. exists k, x. by rewrite <- Hx1.
    + destruct k' as [|y k' _] using rev_ind; [left; exists a, []; by rewrite Hs, !app_nil_r|].
      exfalso. apply Hc2. rewrite Hx1. rewrite Hs, app_assoc in Hs2. apply app_inj_tail in Hs2 as [_ ->].
      apply elem_of_app. left. apply elem_of_app. right. by left.
  - apply app_eq_app in Hk as [x [[Hx1 Hx2]|[-> Hx2]]].
    + destruct x as [|y x]; [right; exists [], b; simpl in *; congruence|].
      exfalso. apply Hc1. rewrite Hs1 in Hx2. injection Hx2 as -> _. rewrite Hx1. apply elem_of_app. right. by left.
    + right. by exists x, b.
Qed.

(** Replacing any secret by the mark makes no clear secret appear. *)
Lemma ReplaceAll_no_new m s old msg : old ≠ [] → clear_of m s →
  ¬ infix s msg → ¬ infix s (ReplaceAll msg old m).
Proof.
  intros Hne Hc. remember (length msg) as n eqn:Hn. revert msg Hn.
  induction (lt_wf n) as [n _ IH]. intros msg -> Hm.
  destruct (ReplaceAll_step msg old m Hne) as [[_ ->]|(p & t & -> & _ & ->)]; [done|].
  intros Hi%infix_across; [|done]. destruct Hi as [Hi|Hi].
  - by apply Hm, infix_app_r.
  - eapply (IH (length t)); [|done| |exact Hi].
    + rewrite !length_app. destruct old; [done|]. simpl. lia.
    + intros Ht. by apply Hm, infix_app_l, infix_app_l.
Qed.

(** Replacing a clear secret removes it. *)
Lemma ReplaceAll_removes m s msg : s ≠ [] → clear_of m s → ¬ infix s (ReplaceAll msg s m).
Proof.
  intros Hne Hc. remember (length msg) as n eqn:Hn. revert msg Hn.
  induction (lt_wf n) as [n _ IH]. intros msg ->.
  destruct (ReplaceAll_step msg s m Hne) as [[Hf ->]|(p & t & -> & Hp & ->)]; [by apply not_Contains|].
  intros Hi%infix_across; [|done]. destruct Hi as [Hi|Hi]; [done|].
  eapply (IH (length t)); [|done|exact Hi]. rewrite !length_app. destruct s; [done|]. simpl. lia.
Qed.

Lemma redact_loop_clean secrets msg changed s :
  clear_of redacted s → s ∈ secrets ∨ ¬ infix s msg → ¬ infix s (redact_loop secrets msg changed).1.
Proof.
  intros Hc. assert (s ≠ []) as Hs by (destruct Hc as ((? & ? & -> & _) & _); done).
  revert msg changed. induction secrets as [|x secrets IH]; intros msg changed Hin; cbn [redact_loop].
  - destruct Hin as [Hin|?]; [by apply elem_of_nil in Hin|done].
  - destruct (str_eqb x []) eqn:Ex; go_bool.
    + apply IH. destruct Hin as [Hin|?]; [|by right]. left. by apply elem_of_cons in Hin as [->|?].
    + destruct (Contains msg x) eqn:Em; apply IH; destruct Hin as [Hin|Hm];
        [apply elem_of_cons in Hin as [->|?]; [right; by apply ReplaceAll_removes|by left]
        |right; by apply ReplaceAll_no_new
        |apply elem_of_cons in Hin as [->|?]; [right; by apply not_Contains|by left]
        |by right].
Qed.

Lemma redact_loop_unchanged secrets msg : (redact_loop secrets msg false).2 = false →
  (redact_loop secrets msg false).1 = msg.
Proof.
  assert (∀ l m, (redact_loop l m true).2 = true) as Ht.
  { induction l as [|x l IH]; intros m; simpl; [done|]. by repeat case_match. }
  induction secrets as [|x secrets IH]; simpl; [done|]. repeat case_match; try done. by rewrite Ht.
Qed.

Section Redaction.
Context `{UnicodeTables}.

Lemma redactSecrets_None err secrets : redactSecrets err secrets = None ↔ err = None.
Proof. unfold redactSecrets. destruct err; [|done]. by destruct (redact_loop _ _ _) as [? []]. Qed.

Lemma redactSecrets_clean e secrets e' s :
  redactSecrets (Some e) secrets = Some e' → s ∈ secrets → clear_of redacted s → ¬ infix s (ErrorText e').
Proof.
  unfold redactSecrets. intros Hr Hin Hc.
  pose proof (redact_loop_clean secrets (ErrorText e) false s Hc (or_introl Hin)) as Hcl.
  pose proof (redact_loop_unchanged secrets (ErrorText e)) as Hu.
  destruct (redact_loop _ _ _) as [msg []]; simplify_eq/=.
  - unfold Sprintf. simpl. by rewrite app_nil_r.
  - by rewrite <- (Hu eq_refl).
Qed.
End Redaction.

(** ** Theorems *)

Section Theorems.
Context `{NetUrl, UnicodeTables}.

(** The URL parses, and [s] is the password in it, decoded. *)
Definition password_in (url s : bytes) : Prop :=
  ∃ u ui, url_Parse url = Ok u ∧ u_User u = Some ui ∧ ui_Password ui = Some s.

Lemma urlPassword_in url s : password_in url s → urlPassword url = s.
Proof. intros (u & ui & Hu & Hi & Hp). unfold urlPassword. by rewrite Hu, Hi, Hp. Qed.

(** C37: No error of the four functions reveals a password given to it, or that of
    a URL that parses: whatever golang-migrate and the server answer, the text of a
    returned error contains neither the owner's password, nor the new password, nor
    the decoded password in the URL if net/url parses it, as long as the password is
    clear of the mark it is replaced by (it does not start or end with one of its
    letters and does not contain it). *)
Theorem db_errors_redacted {D S} (lib : MigrateLib D) (srv : OwnerServer S) fs url pw role newpw version d c s :
  clear_of redacted s →
  (∀ e, s = pw ∨ password_in url s →
     (RunMigrations lib fs url pw d).2 = Some e ∨ (ForceVersion lib fs url pw version d).2 = Some e ∨
     (EnsureOwnerRole srv url pw c).2 = Some e → Contains (ErrorText e) s = false) ∧
  (∀ e, s = pw ∨ s = newpw ∨ password_in url s →
     (SetRolePassword srv url pw role newpw c).2 = Some e → Contains (ErrorText e) s = false).
Proof.
  intros Hc. unfold RunMigrations, ForceVersion, EnsureOwnerRole, SetRolePassword.
  assert (∀ err secrets e, redactSecrets err secrets = Some e → s ∈ secrets → Contains (ErrorText e) s = false) as Hr.
  { intros [e0|] secrets e Hx Hin; [|done]. apply not_Contains. by eapply redactSecrets_clean. }
  split.
  - intros e Hin. assert (s ∈ [pw; urlPassword url]) as Hs by (rewrite !elem_of_cons; destruct Hin as [->|<-%urlPassword_in]; auto).
    destruct (run_migrations _ _ _ _ _) as [? ?], (force_version _ _ _ _ _ _) as [? ?],
      (ensure_owner_role _ _ _ _) as [? ?]. simpl. intros [Hx|[Hx|Hx]]; by eapply Hr.
  - intros e Hin. assert (s ∈ [pw; newpw; urlPassword url]) as Hs
      by (rewrite !elem_of_cons; destruct Hin as [->|[->|<-%urlPassword_in]]; auto).
    destruct (set_role_password _ _ _ _ _ _) as [? ?]. simpl. intros Hx. by eapply Hr.
Qed.

(** A URL that does not parse is not scrubbed: its password is read from the
    parsed URL, so the only secret replaced in the parser's error, which quotes
    the URL, is the password given separately. *)
Theorem unparsable_url_not_redacted {D} (lib : MigrateLib D) fs url pw d e :
  url ≠ [] → url_Parse url = Err e → pw ≠ [] → Contains (bs "inject password: " ++ ErrorText e) pw = false →
  RunMigrations lib fs url pw d = (d, Some (wrapf (bs "inject password: ") e)).
Proof.
  intros Hne Hp Hpw Hc. unfold RunMigrations, run_migrations, migrate_target, urlPassword, injectPassword.
  rewrite (bool_decide_false _ Hne : str_eqb url [] = false), (bool_decide_false _ Hpw : str_eqb pw [] = false), Hp.
  cbn [res_bind res_map_err redactSecrets redact_loop].
  rewrite (bool_decide_false _ Hpw : str_eqb pw [] = false).
  assert (ErrorText (wrapf (bs "inject password: ") e) = bs "inject password: " ++ ErrorText e) as ->.
  { unfold wrapf. cbn [ErrorText]. unfold Sprintf. cbn [fmap list_fmap concat]. by rewrite !app_nil_r. }
  by rewrite Hc.
Qed.

(** A crash in the middle of a migration is repaired by one run: if the first
    Up reports version [v] dirty, the version is forced to [v - 1] and Up runs
    once more, and the run succeeds exactly when both do (or there was nothing
    left to apply). *)
Theorem RunMigrations_recovers {D} (lib : MigrateLib D) fs url pw src target d0 d1 d e v :
  migrate_target fs (bs "RunMigrations: empty migrations URL") url pw = Ok (src, target) →
  mg_New lib src target d0 = (d1, None) → mg_Up lib src target d1 = (d, Some e) →
  no_change lib e = false → as_dirty lib e = Some v →
  (RunMigrations lib fs url pw d0).2 = None ↔
  (mg_Force lib src target (wrap64 (v - 1)) d).2 = None ∧
  up_failed lib (mg_Up lib src target (mg_Force lib src target (wrap64 (v - 1)) d).1).2 = None.
Proof.
  intros Ht Hn Hu Hnc Hd. unfold RunMigrations, run_migrations. rewrite Ht, Hn. unfold migrate_up.
  rewrite Hu. cbn [up_failed]. rewrite Hnc, Hd.
  destruct (mg_Force _ _ _ _ d) as [d2 [fe|]]; cbn [fst snd]; [rewrite redactSecrets_None; naive_solver|].
  destruct (mg_Up _ _ _ d2) as [d3 r]. cbn [fst snd].
  destruct (up_failed lib r); cbn [snd]; rewrite redactSecrets_None; naive_solver.
Qed.
End Theorems.

(** ** ALTER ROLE as the server reads it *)

Section AlterRole.
Context `{NetUrl, UnicodeTables}.

Lemma isSafeIdent_roles s : isSafeIdent s = isSafeRoleName s.
Proof. done. Qed.

Lemma safe_quote role : isSafeIdent role = true → Quote role = dq :: role ++ [dq] ∧ dq ∉ role.
Proof.
  rewrite isSafeIdent_roles, isSafeRoleName_bytes. intros [_ Hs]. by apply safe_plain.
Qed.

(** C24: Setting a role's password cannot be abused to run anything else: if
    SetRolePassword sends a statement at all, it is one statement, sent after a
    successful connect, and Postgres reads it as setting the password of exactly
    the given role to exactly the given text, whatever characters the password
    has. *)
Theorem SetRolePassword_exact {S} (srv : OwnerServer S) url pw role newpw c c' err :
  SetRolePassword srv url pw role newpw c = (c', err) →
  oc_sent c' = oc_sent c ∧ err ≠ None ∨
  ∃ stmt, oc_sent c' = oc_sent c ++ [stmt] ∧ newpw ≠ [] ∧ isSafeIdent role = true ∧
    lex stmt =
      Some [TWord (bs "ALTER"); TWord (bs "ROLE"); TIdent role; TWord (bs "WITH"); TWord (bs "PASSWORD");
            TString newpw].
Proof.
  unfold SetRolePassword. destruct (set_role_password _ _ _ _ _ _) as [c1 e1] eqn:E. intros [= <- <-].
  unfold set_role_password in E. destruct (isSafeIdent role) eqn:Es; simpl in E; [|simplify_eq; left; split; [done|by rewrite redactSecrets_None]].
  destruct (str_eqb newpw []) eqn:En; [simplify_eq; left; split; [done|by rewrite redactSecrets_None]|].
  destruct (bool_decide _) in E; [simplify_eq; left; split; [done|by rewrite redactSecrets_None]|].
  destruct (injectPassword url pw) as [final|e]; [|simplify_eq; left; split; [done|by rewrite redactSecrets_None]].
  unfold oc_connect in E. destruct (os_Connect _ _ _) as [s [e|]]; [simplify_eq; left; split; [done|by rewrite redactSecrets_None]|].
  unfold oc_exec in E. simpl in E. right. exists (alter_role role newpw). go_bool.
  split; [destruct (os_Exec _ _ _) as [? []]; by simplify_eq|]. split; [done|]. split; [done|].
  destruct (safe_quote role Es) as [Hq Hn]. unfold alter_role, Sprintf. cbn [fmap list_fmap concat]. rewrite Hq.
  change (bs "ALTER ROLE " ++ (dq :: role ++ [dq]) ++ bs " WITH PASSWORD '" ++ ReplaceAll newpw (bs "'") (bs "''") ++ bs "'" ++ [])
    with ((bs "ALTER ROLE" ++ [x20]) ++ dq :: (role ++ [dq]) ++ (bs " WITH PASSWORD" ++ [x20]) ++
          x27 :: ReplaceAll newpw (bs "'") (bs "''") ++ [x27]).
  rewrite <- (app_assoc role). cbn [app].
  rewrite (lex_piece_ident (bs "ALTER ROLE") x20 role _ [TWord (bs "ALTER"); TWord (bs "ROLE")]) by done.
  rewrite (lex_app (bs " WITH PASSWORD") x20 _ [TWord (bs "WITH"); TWord (bs "PASSWORD")]) by done.
  by rewrite lex_string.
Qed.
End AlterRole.

(** ** Instances *)

Module MigrateDemo.
(** A URL is "scheme:user" with the password after a second colon. *)
Definition net : NetUrl := {|
  url_rest := unit;
  url_Parse s := match Split s ":" with
                 | [sch; user] => Ok {| u_Scheme := sch;
                                        u_User := Some {| ui_Username := user; ui_Password := None |}; u_Rest := tt |}
                 | [sch; user; pw] => Ok {| u_Scheme := sch;
                                            u_User := Some {| ui_Username := user; ui_Password := Some pw |};
                                            u_Rest := tt |}
                 | _ => Err (ErrFmt [FLit (bs "parse "); FQuote s; FLit (bs ": missing protocol scheme")])
                 end;
  url_String u := Join (u_Scheme u :: match u_User u with
                                      | Some ui => ui_Username ui :: match ui_Password ui with Some p => [p] | None => [] end
                                      | None => []
                                      end) (bs ":");
|}.

Definition unicode : UnicodeTables := {| is_print_high := fun _ => true |}.

(** A server that refuses every statement and shows it. *)
Definition refusing : OwnerServer unit := {|
  os_Connect _ s := (s, None);
  os_Exec stmt s := (s, Some (errors_New (bs "refused: " ++ stmt)));
  os_QueryBool _ s := (s, Ok false);
  os_User := bs "owner";
|}.

Definition conn : owner_conn unit := {| oc_state := tt; oc_sent := [] |}.

(** Version 3 is dirty; Up fails while it is. *)
Definition lib : MigrateLib (option Z) := {|
  mg_New _ _ d := (d, None);
  mg_Up _ _ d := match d with
                 | Some v => (d, Some (ErrFmt [FLit (bs "Dirty database version "); FInt v]))
                 | None => (d, None)
                 end;
  mg_Force _ _ _ _ := (None, None);
  no_change _ := false;
  as_dirty e := match e with ErrFmt [_; FInt v] => Some v | _ => None end;
|}.

Definition files : Files := {| fs_env := bs "/m"; fs_is_dir := fun _ => false; fs_abs := fun s => Ok s |}.
End MigrateDemo.

#[local] Existing Instance MigrateDemo.net.
#[local] Existing Instance MigrateDemo.unicode.

Lemma db_errors_redacted_witness :
  ∃ e, (SetRolePassword MigrateDemo.refusing (bs "postgres:o") (bs "pw") (bs "gw") (bs "hunter2") MigrateDemo.conn).2 = Some e ∧
    Contains (ErrorText e) (bs "hunter2") = false.
Proof.
  destruct (SetRolePassword MigrateDemo.refusing (bs "postgres:o") (bs "pw") (bs "gw") (bs "hunter2") MigrateDemo.conn)
    as [c' [e|]] eqn:E; [|apply (f_equal snd) in E; vm_compute in E; discriminate E].
  exists e. split; [reflexivity|].
  destruct (db_errors_redacted MigrateDemo.lib MigrateDemo.refusing MigrateDemo.files (bs "postgres:o") (bs "pw")
    (bs "gw") (bs "hunter2") 0 None MigrateDemo.conn (bs "hunter2")) as [_ Hs].
  - split; [|split].
    + eexists _, _. split; [reflexivity|]. apply (bool_decide_unpack _). by vm_compute.
    + exists "2"%byte, (bs "hunter"). split; [reflexivity|]. apply (bool_decide_unpack _). by vm_compute.
    + apply not_Contains. by vm_compute.
  - apply Hs; [right; left; reflexivity|]. rewrite E. reflexivity.
Defined.

Lemma unparsable_url_not_redacted_witness :
  ∃ e, (RunMigrations MigrateDemo.lib MigrateDemo.files (bs "hunter2") (bs "pw") None).2 = Some e ∧
    Contains (ErrorText e) (bs "hunter2") = true.
Proof.
  rewrite (unparsable_url_not_redacted MigrateDemo.lib MigrateDemo.files (bs "hunter2") (bs "pw") None
    (ErrFmt [FLit (bs "parse "); FQuote (bs "hunter2"); FLit (bs ": missing protocol scheme")])).
  - eexists. split; [reflexivity|]. by vm_compute.
  - discriminate.
  - by vm_compute.
  - discriminate.
  - by vm_compute.
Defined.

Lemma RunMigrations_recovers_witness :
  (RunMigrations MigrateDemo.lib MigrateDemo.files (bs "postgres:o") [] (Some 3%Z)).2 = None.
Proof.
  apply (RunMigrations_recovers MigrateDemo.lib MigrateDemo.files (bs "postgres:o") [] (bs "file:///m") (bs "pgx5:o")
    (Some 3%Z) (Some 3%Z) (Some 3%Z) (ErrFmt [FLit (bs "Dirty database version "); FInt 3]) 3).
  - by vm_compute.
  - reflexivity.
  - reflexivity.
  - reflexivity.
  - reflexivity.
  - split; reflexivity.
Defined.

Lemma SetRolePassword_exact_witness :
  ∃ stmt, lex stmt =
    Some [TWord (bs "ALTER"); TWord (bs "ROLE"); TIdent (bs "gw"); TWord (bs "WITH"); TWord (bs "PASSWORD");
          TString (bs "x'; DROP TABLE t; --")].
Proof.
  destruct (SetRolePassword MigrateDemo.refusing (bs "postgres:o") (bs "pw") (bs "gw") (bs "x'; DROP TABLE t; --")
    MigrateDemo.conn) as [c' err] eqn:E.
  destruct (SetRolePassword_exact MigrateDemo.refusing (bs "postgres:o") (bs "pw") (bs "gw")
    (bs "x'; DROP TABLE t; --") MigrateDemo.conn c' err E) as [[Hs _]|(stmt & _ & _ & _ & Ht)].
  - apply (f_equal (fun p => length (oc_sent p.1))) in E. cbn [fst] in E. rewrite Hs in E. vm_compute in E. discriminate E.
  - exists stmt. exact Ht.
Defined.
