(* ===== verification/KeyAdmin.v ===== *)
(** * internal/db/keymint.go, keylist.go, keyrevoke.go: key administration

    The subcommands -mint-key, -list-keys and -revoke-key of the server. They
    connect as the owner of the database and work on the same tables as the
    gateway's key store. *)

From stdpp Require Import sorting.
From S2P Require Import Prelude GoStrings GoErrors AuthKey ControlPlane AuthStore Tenant Migrate.

Section KeyAdmin.
Context `{UuidLib, NetUrl, UnicodeTables}.
Variable IDKey : bytes → bytes → Z → Z → Z → Z → bytes.
Variable connect : bytes → option error.       (** [pgx.Connect] *)

(** The error after the deferred redaction. *)
Definition redact (ownerPassword migrationsURL : bytes) (e : error) : error :=
  default e (redactSecrets (Some e) [ownerPassword; urlPassword migrationsURL]).

(** [injectPassword] and [pgx.Connect] *)
Definition open (migrationsURL ownerPassword : bytes) : res error unit :=
  match injectPassword migrationsURL ownerPassword with
  | Err e => Err (wrapf (bs "inject password: ") e)
  | Ok finalURL => match connect finalURL with
                   | Some e => Err (wrapf (bs "connect: ") e)
                   | None => Ok tt
                   end
  end.

(** [conn.Begin], the statements, [tx.Commit], each error with its prefix. *)
Definition with_tx_named {A} (stmts : M A) : M A :=
  fun w => match next_fault w with
           | (NoFault, w1) =>
               match stmts w1 with
               | (w2, Err e) => (set_db w2 (w_db w1), Err e)
               | (w2, Ok a) =>
                   match next_fault w2 with
                   | (NoFault, w3) => (w3, Ok a)
                   | (Fail e, w3) => (set_db w3 (w_db w1), Err (wrapf (bs "commit: ") e))
                   | (Ambiguous e, w3) => (w3, Err (wrapf (bs "commit: ") e))
                   end
               end
           | (Fail e, w1) | (Ambiguous e, w1) => (w1, Err (wrapf (bs "begin tx: ") e))
           end.

(** ** MintKey *)

(** The row a lookup by name returns: names are not unique. *)
Definition find_workspace (d : Db) (name : bytes) : option uuid :=
  fst <$> List.find (fun p => str_eqb p.2 name) (map_to_list (db_workspaces d)).

Definition insert_workspace (id : uuid) (name : bytes) (d : Db) : Db * res error unit :=
  if bool_decide (is_Some (db_workspaces d !! id))
  then (d, Err (pg_error (bs "23505") (bs "workspaces_pkey")))
  else (set_workspaces d (<[id := name]> (db_workspaces d)), Ok tt).

Definition find_or_create_workspace (fresh : uuid) (workspace : bytes) : M uuid :=
  fun w =>
    match exec (fun _ d => (d, match find_workspace d workspace with
                               | Some id => Ok id
                               | None => Err ErrNoRows
                               end)) w with
    | (w, Ok id) => (w, Ok id)
    | (w, Err e) =>
        if error_Is e ErrNoRows
        then mbind (mwrap (bs "create workspace: ") (exec (fun _ d => insert_workspace fresh workspace d)))
               (fun _ => mret fresh) w
        else (w, Err (wrapf (bs "lookup workspace: ") e))
    end.

Definition minted_row (wsID : uuid) (keyID hash env pgRole : bytes) (now : Z) : key_row :=
  {| kw_workspace := wsID; kw_key_id := keyID; kw_secret_hash := hash; kw_env := env; kw_pg_role := pgRole;
     kw_name := Some (bs "mint-key"); kw_created_at := now; kw_last_used_at := None; kw_expires_at := None;
     kw_revoked_at := None; kw_replaces := None |}.

(** The statements of the transaction. *)
Definition mint_tx (fresh keyPK : uuid) (workspace pgRole env keyID hash : bytes) : M unit :=
  let* wsID := find_or_create_workspace fresh workspace in
  mwrap (bs "insert api_key: ")
    (exec (fun now d => insert_key keyPK (minted_row wsID keyID hash env pgRole now) d)).

Definition mint_key (dr : Draw) (fresh : uuid) (migrationsURL ownerPassword workspace pgRole env : bytes) : M bytes :=
  if str_eqb workspace [] then mfail (errors_New (bs "MintKey: empty workspace"))
  else if str_eqb pgRole [] then mfail (errors_New (bs "MintKey: empty pg_role"))
  else if negb (IsValid env) then
    mfail (ErrFmt [FLit (bs "MintKey: invalid env "); FQuote env; FLit (bs " (must be dev / live / test)")])
  else
    let* (keyID, secret, token) := mwrap (bs "auth.Mint: ") (mlift (Mint (dr_id dr) (dr_secret dr) env)) in
    let* hash := mwrap (bs "auth.HashSecret: ") (mlift (HashSecret IDKey (dr_salt dr) secret)) in
    let* _ := mlift (open migrationsURL ownerPassword) in
    let* _ := with_tx_named (mint_tx fresh (dr_uuid dr) workspace pgRole env keyID hash) in
    mret token.

Definition MintKey (dr : Draw) (fresh : uuid) (migrationsURL ownerPassword workspace pgRole env : bytes) : M bytes :=
  fun w => let '(w, r) := mint_key dr fresh migrationsURL ownerPassword workspace pgRole env w in
           (w, res_map_err (redact ownerPassword migrationsURL) r).

(** ** RevokeKey *)

(** UPDATE ... WHERE id = $1 AND revoked_at IS NULL, with the rows affected *)
Definition revoke_rows (id : uuid) (now : Z) (d : Db) : Db * res error Z :=
  match db_keys d !! id with
  | Some r => match kw_revoked_at r with
              | None => (update_key id (set_revoked now) d, Ok 1%Z)
              | Some _ => (d, Ok 0%Z)
              end
  | None => (d, Ok 0%Z)
  end.

Definition revoke_key (migrationsURL ownerPassword keyID : bytes) : M unit :=
  fun w =>
    match uuid_Parse keyID with
    | Err e => (w, Err (ErrWrap [FLit (bs "invalid key ID "); FQuote keyID; FLit (bs ": ")] e []))
    | Ok id =>
        mbind (mlift (open migrationsURL ownerPassword)) (fun _ =>
        mbind (mwrap (bs "revoke: ") (exec (revoke_rows id))) (fun n =>
        if (n =? 0)%Z
        then mfail (ErrFmt [FLit (bs "key "); FStr keyID; FLit (bs " not found or already revoked")])
        else mret tt)) w
    end.

Definition RevokeKey (migrationsURL ownerPassword keyID : bytes) : M unit :=
  fun w => let '(w, r) := revoke_key migrationsURL ownerPassword keyID w in
           (w, res_map_err (redact ownerPassword migrationsURL) r).

(** ** ListKeys *)

Record KeySummary : Type := {
  ks_ID : bytes;
  ks_WorkspaceName : bytes;
  ks_PgRole : bytes;
  ks_Env : bytes;
  ks_Name : bytes;
  ks_Status : bytes;
  ks_CreatedAt : Z;
}.

Definition keyStatus (now : Z) (revokedAt expiresAt : option Z) : bytes :=
  match revokedAt with
  | Some _ => bs "revoked"
  | None => match expiresAt with
            | Some e => if negb (now <? e)%Z then bs "expired" else bs "active"
            | None => bs "active"
            end
  end.

(** ORDER BY k.created_at *)
Definition created_le (a b : uuid * key_row) : Prop := (kw_created_at a.2 ≤ kw_created_at b.2)%Z.
#[local] Instance created_le_dec a b : Decision (created_le a b) := Z.le_dec _ _.

Definition key_rows (d : Db) : list (uuid * key_row) := merge_sort created_le (map_to_list (db_keys d)).

Definition summary (d : Db) (now : Z) (p : uuid * key_row) : KeySummary :=
  {| ks_ID := uuid_String p.1; ks_WorkspaceName := coalesce_empty (db_workspaces d !! kw_workspace p.2);
     ks_PgRole := kw_pg_role p.2; ks_Env := kw_env p.2; ks_Name := coalesce_empty (kw_name p.2);
     ks_Status := keyStatus now (kw_revoked_at p.2) (kw_expires_at p.2); ks_CreatedAt := kw_created_at p.2 |}.

(** What [rows.Next] and [rows.Scan] meet at the [i]-th row: they read it, and the
    clock shows [now]; the values do not fit; or the stream ends with an error. *)
Inductive fetched : Type :=
| Fetched (now : Z)
| ScanFailed (err : error)
| RowsFailed (err : error).

Definition cursor : Type := nat → fetched.

(** The loop over the rows from the [i]-th on, then [rows.Err]. *)
Fixpoint scan_keys (d : Db) (cur : cursor) (i : nat) (rows : list (uuid * key_row)) : res error (list KeySummary) :=
  match cur i, rows with
  | RowsFailed e, _ => Err e
  | _, [] => Ok []
  | ScanFailed e, _ :: _ => Err (wrapf (bs "scan: ") e)
  | Fetched now, p :: rows =>
      match scan_keys d cur (S i) rows with
      | Ok keys => Ok (summary d now p :: keys)
      | Err e => Err e
      end
  end.

(** The errors of [injectPassword] and of the rows are not redacted; the keys read
    before an error, which no caller looks at, are dropped. *)
Definition ListKeys (cur : cursor) (migrationsURL ownerPassword : bytes) : M (list KeySummary) :=
  fun w =>
    match injectPassword migrationsURL ownerPassword with
    | Err e => (w, Err (wrapf (bs "inject password: ") e))
    | Ok finalURL =>
        match connect finalURL with
        | Some e => (w, Err (wrapf (bs "connect: ") (redact ownerPassword migrationsURL e)))
        | None =>
            match exec (fun _ d => (d, Ok d)) w with
            | (w, Err e) => (w, Err (wrapf (bs "query: ") (redact ownerPassword migrationsURL e)))
            | (w, Ok d) => (w, scan_keys d cur 0 (key_rows d))
            end
        end
    end.

(** ** Properties *)

(** The named transaction ends like the plain one, up to the error's text. *)
Lemma with_tx_named_plain {A} (stmts : M A) w w' r :
  with_tx_named stmts w = (w', r) →
  ∃ r', with_tx stmts w = (w', r') ∧ ∀ a, r = Ok a ↔ r' = Ok a.
Proof.
  unfold with_tx_named, with_tx. destruct (next_fault w) as [f w1].
  destruct f; [|intros [= <- <-]; by eexists..].
  destruct (stmts w1) as [w2 [a|e]]; [|intros [= <- <-]; by eexists].
  destruct (next_fault w2) as [g w3]. by destruct g; intros [= <- <-]; eexists.
Qed.

Lemma insert_workspace_wf id name d : keys_wf d → keys_wf (insert_workspace id name d).1.
Proof.
  intros Hwf. unfold insert_workspace. case_bool_decide as Hb; [done|]. simpl.
  split; simpl; [intros i j r s ??; by eapply wf_key_id|intros; by eapply wf_env|]. intros i r Hi.
  apply lookup_insert_is_Some'. right. by eapply wf_workspace.
Qed.

Lemma find_or_create_wf fresh name : preserves keys_wf (find_or_create_workspace fresh name).
Proof.
  intros w w' r Hx Hwf. unfold find_or_create_workspace in Hx. destruct (exec _ w) as [w1 r1] eqn:E.
  apply preserves_exec with (P := keys_wf) in E; [|done]. specialize (E Hwf).
  destruct r1 as [id|e]; [by simplify_eq|]. destruct (error_Is e ErrNoRows); [|by simplify_eq].
  refine (preserves_bind keys_wf _ _ _ _ _ _ _ Hx E); [|intros u; by apply preserves_pure].
  apply preserves_wrap, preserves_exec. intros. by apply insert_workspace_wf.
Qed.

Lemma mint_tx_wf fresh pk ws role env kid hash : preserves keys_wf (mint_tx fresh pk ws role env kid hash).
Proof.
  apply preserves_bind; [apply find_or_create_wf|]. intros id.
  apply preserves_wrap, preserves_exec. intros. by apply insert_key_wf.
Qed.

Lemma mint_key_wf dr fresh url pw ws role env : preserves keys_wf (mint_key dr fresh url pw ws role env).
Proof.
  unfold mint_key. repeat (case_match; [by apply preserves_pure|]).
  apply preserves_bind; [by apply preserves_wrap, preserves_pure|]. intros [[kid sec] tok].
  apply preserves_bind; [by apply preserves_wrap, preserves_pure|]. intros hash.
  apply preserves_bind; [by apply preserves_pure|]. intros _.
  apply preserves_bind; [|intros u; by apply preserves_pure].
  intros w w' r Hx Hwf. apply with_tx_named_plain in Hx as (r' & Hx & _).
  by eapply (preserves_tx keys_wf); [apply mint_tx_wf|..].
Qed.

(** The workspace of a minted key has the requested name, and without failures
    it is the existing one if there is one. *)
Lemma find_or_create_Ok fresh name w w' id :
  find_or_create_workspace fresh name w = (w', Ok id) →
  db_keys (w_db w') = db_keys (w_db w) ∧ w_dbnow w' = w_dbnow w ∧ db_workspaces (w_db w') !! id = Some name ∧
  (clean w → is_Some (find_workspace (w_db w) name) → w_db w' = w_db w).
Proof.
  unfold find_or_create_workspace. destruct (exec _ w) as [w1 [i|e]] eqn:E.
  - intros [= <- <-]. apply exec_Ok in E as [[= Hd Hf] Hn]. rewrite <- Hd.
    destruct (find_workspace (w_db w) name) as [j|] eqn:Hj; simplify_eq/=. split; [done|]. split; [done|].
    split; [|done]. unfold find_workspace in Hj. apply fmap_Some in Hj as ([j n] & Hj & ->).
    apply find_some in Hj as [Hin Hn']. simpl in *. go_bool. subst n.
    by apply list_elem_of_In, elem_of_map_to_list in Hin.
  - destruct (error_Is e ErrNoRows); [|done]. intros Hx.
    assert (w_db w1 = w_db w ∧ w_dbnow w1 = w_dbnow w ∧ (clean w → ¬ is_Some (find_workspace (w_db w) name)))
      as (Hd & Hn & Hc).
    { unfold exec in E. destruct (next_fault w) as [f w0] eqn:Ef. pose proof Ef as [Hd Hn]%next_fault_db.
      split; [by destruct f; simplify_eq/=|]. split; [by destruct f; simplify_eq/=|].
      intros Hc [j Hj]. rewrite next_fault_clean in Ef by done. injection Ef as <- <-. by rewrite Hj in E. }
    apply mbind_Ok in Hx as (w2 & [] & Hi%mwrap_Ok & [= <- <-]). apply exec_Ok in Hi as [Hi Hn2].
    unfold insert_workspace in Hi. case_bool_decide; [done|]. injection Hi as <-. simpl.
    rewrite Hd, lookup_insert_eq. split; [done|]. split; [congruence|]. split; [done|]. intros Hcl Hs. by destruct (Hc Hcl).
Qed.

(** What a successful [MintKey] did. *)
Lemma mint_key_Ok dr fresh url pw ws role env w w' token :
  mint_key dr fresh url pw ws role env w = (w', Ok token) →
  ∃ wsID keyID secret hash,
    Mint (dr_id dr) (dr_secret dr) env = Ok (keyID, secret, token) ∧
    HashSecret IDKey (dr_salt dr) secret = Ok hash ∧
    db_workspaces (w_db w') !! wsID = Some ws ∧
    db_keys (w_db w) !! dr_uuid dr = None ∧
    db_keys (w_db w') = <[dr_uuid dr := minted_row wsID keyID hash env role (w_dbnow w)]> (db_keys (w_db w)) ∧
    (clean w → is_Some (find_workspace (w_db w) ws) → db_workspaces (w_db w') = db_workspaces (w_db w)).
Proof.
  unfold mint_key. intros Hx. do 3 (case_match; [done|]).
  apply mbind_Ok in Hx as (w1 & [[keyID secret] tok] & [= <- Hm]%mwrap_Ok & Hx).
  apply mbind_Ok in Hx as (w2 & hash & [= <- Hh]%mwrap_Ok & Hx).
  apply mbind_Ok in Hx as (w3 & [] & [= <- _] & Hx).
  apply mbind_Ok in Hx as (w4 & [] & Htx & [= <- <-]).
  unfold with_tx_named in Htx. destruct (next_fault w) as [f v1] eqn:Ef.
  pose proof Ef as [Hd1 Hn1]%next_fault_db. destruct f; [|done..].
  destruct (mint_tx _ _ _ _ _ _ _ v1) as [v2 [[]|e]] eqn:Htx'; [|done].
  destruct (next_fault v2) as [g v3] eqn:Eg. apply next_fault_db in Eg as [Hd3 _]. destruct g; [|done..].
  injection Htx as <-.
  apply mbind_Ok in Htx' as (v4 & wsID & Hf & Hi). apply mwrap_Ok, exec_Ok in Hi as [Hins _].
  apply find_or_create_Ok in Hf as (Hk & Hn & Hws & Hcl).
  apply insert_key_Ok in Hins as (_ & Hnone & _ & _ & Hd). exists wsID, keyID, secret, hash.
  rewrite Hd3, Hd. simpl. rewrite Hk, Hd1, Hn, Hn1 in *. repeat split; try done.
  intros Hc Hs. rewrite next_fault_clean in Ef by done. injection Ef as <-. by rewrite Hcl.
Qed.

(** argon2id returns as many bytes as it is asked for. *)
Hypothesis IDKey_length : ∀ pw salt,
  length (IDKey pw salt argonTime argonMemory argonThreads argonKeyLen) = 32.

(** C30: A key printed by -mint-key works: its token parses, the lookup by its key id
    finds the new row, the secret verifies against the stored hash, and the record
    has the requested role and environment and a workspace of the requested name;
    no other key changes, an existing workspace of that name is used, and the
    table stays well formed. *)
Theorem MintKey_usable dr idB secB fresh url pw ws role env w w' w'' token :
  dr_id dr = Ok idB → length idB = keyIDRawBytes → dr_secret dr = Ok secB → length secB = secretRawBytes →
  keys_wf (w_db w) → MintKey dr fresh url pw ws role env w = (w', Ok token) →
  clean w'' → w_db w'' = w_db w' →
  keys_wf (w_db w') ∧ (∀ i, i ≠ dr_uuid dr → db_keys (w_db w') !! i = db_keys (w_db w) !! i) ∧
  (clean w → is_Some (find_workspace (w_db w) ws) → db_workspaces (w_db w') = db_workspaces (w_db w)) ∧
  ∃ p rec wsID, ParseBearer (bs "Bearer " ++ token) = Ok p ∧
    FindByKeyID (pk_KeyID p) w'' = (w'', Ok rec) ∧
    VerifySecret IDKey (pk_Secret p) (kr_SecretHash rec) = Some (Ok tt) ∧
    kr_WorkspaceID rec = uuid_String wsID ∧ db_workspaces (w_db w') !! wsID = Some ws ∧
    kr_PgRole rec = role ∧ kr_Env rec = env ∧ ∀ t, Active rec t = true.
Proof.
  intros Hi Hil Hs Hsl Hwf Hx Hc Hd. unfold MintKey in Hx.
  destruct (mint_key _ _ _ _ _ _ _ w) as [w1 [tok|e]] eqn:E; simplify_eq/=.
  pose proof (mint_key_wf _ _ _ _ _ _ _ _ _ _ E Hwf) as Hwf'.
  apply mint_key_Ok in E as (wsID & kid & sec & hash & Hm & Hh & Hws & Hnone & Hk & Hcl).
  split; [done|]. split; [intros i Hne; by rewrite Hk, lookup_insert_ne|]. split; [done|].
  assert (db_keys (w_db w'') !! dr_uuid dr = Some (minted_row wsID kid hash env role (w_dbnow w))) as Hrow
    by (rewrite Hd, Hk; apply lookup_insert_eq).
  rewrite <- Hd in Hwf'.
  destruct (minted_usable IDKey IDKey_length dr idB secB _ _ _ _ _ w'' _ _ Hi Hil Hs Hsl Hm Hh Hwf' Hc Hrow)
    as (p & Hp & Hf & Hv); [done..|].
  exists p. eexists _, wsID. repeat split; try done.
Qed.

(** -revoke-key succeeds exactly for a key that exists and is not revoked yet,
    and then the key is revoked for good: no later reading of its row is active,
    and no other row changed. *)
Theorem RevokeKey_spec url pw keyID u w :
  keys_wf (w_db w) → clean w → uuid_Parse keyID = Ok u → is_ok (open url pw) = true →
  let '(w', r) := RevokeKey url pw keyID w in
  (is_ok r = true ↔ ∃ row, db_keys (w_db w) !! u = Some row ∧ kw_revoked_at row = None) ∧
  (∀ i, i ≠ u → db_keys (w_db w') !! i = db_keys (w_db w) !! i) ∧
  ∀ row, db_keys (w_db w) !! u = Some row →
    ∃ rec, FindByKeyID (kw_key_id row) w' = (w', Ok rec) ∧
           ∀ t, Active rec t = false.
Proof.
  intros Hwf Hc Hu Ho. unfold RevokeKey, revoke_key. rewrite Hu.
  destruct (open url pw) as [[]|]; [|done]. unfold mlift, mbind, mwrap. rewrite exec_clean by done.
  unfold revoke_rows. destruct (db_keys (w_db w) !! u) as [row|] eqn:Hrow; simpl.
  - destruct (kw_revoked_at row) as [at_|] eqn:Hat; simpl.
    + split; [split; [done|naive_solver congruence]|]. split; [done|]. intros row' [= <-].
      eexists. split; [by apply FindByKeyID_row|]. intros t. unfold Active; simpl. by rewrite Hat.
    + split; [split; [eauto|done]|]. split; [intros i Hne; by rewrite lookup_alter_ne|]. intros row' [= <-].
      eexists. split.
      * rewrite <- (proj1 (proj2 (set_revoked_identity (w_dbnow w) row))). apply FindByKeyID_row; [|done|].
        -- apply (update_key_wf u (set_revoked (w_dbnow w)) (w_db w)); [apply set_revoked_identity|done].
        -- simpl. by rewrite lookup_alter_eq, Hrow.
      * intros t. unfold Active, set_revoked; simpl. by rewrite Hat.
  - split; [split; [done|naive_solver]|]. by split.
Qed.

(** The first error of a listing: where the stream breaks, or a row does not scan. *)
Definition first_error (cur : cursor) (i n : nat) : option error :=
  match cur i with
  | RowsFailed e => Some e
  | ScanFailed e => if (i <? n)%nat then Some (wrapf (bs "scan: ") e) else None
  | Fetched _ => None
  end.

Lemma scan_keys_spec d cur rows : ∀ i,
  match scan_keys d cur i rows with
  | Ok keys => length keys = length rows ∧
      (∀ j, j ≤ length rows → first_error cur (i + j) (i + length rows) = None) ∧
      ∀ j p, rows !! j = Some p → ∃ now, cur (i + j) = Fetched now ∧ keys !! j = Some (summary d now p)
  | Err e => ∃ j, j ≤ length rows ∧ first_error cur (i + j) (i + length rows) = Some e ∧
      ∀ j', j' < j → first_error cur (i + j') (i + length rows) = None
  end.
Proof.
  induction rows as [|p rows IH]; intros i; cbn [scan_keys length].
  - rewrite Nat.add_0_r. assert (∀ j, j ≤ 0 → i + j = i) as Hi by lia. unfold first_error.
    destruct (cur i) as [now|e|e] eqn:Ei.
    + split; [done|]. split; [|done]. intros j Hj. by rewrite (Hi j Hj), Ei.
    + split; [done|]. split; [|done]. intros j Hj. by rewrite (Hi j Hj), Ei, Nat.ltb_irrefl.
    + exists 0. rewrite Nat.add_0_r, Ei. split; [done|]. split; [done|lia].
  - specialize (IH (S i)). replace (i + S (length rows)) with (S i + length rows) by lia.
    assert (∀ j, i + S j = S i + j) as Hs by lia.
    destruct (cur i) as [now|e|e] eqn:Ei.
    + assert (∀ n, first_error cur (i + 0) n = None) as Hfst by (intros n; unfold first_error; by rewrite Nat.add_0_r, Ei).
      destruct (scan_keys d cur (S i) rows) as [keys|e].
      * destruct IH as (Hl & Hf & Hr). split; [simpl; lia|]. split.
        -- intros [|j] Hj; [done|]. rewrite Hs. apply Hf. lia.
        -- intros [|j] q Hq; simplify_eq/=; [exists now; by rewrite Nat.add_0_r|]. rewrite Hs. by apply Hr.
      * destruct IH as (j & Hj & He & Hb). exists (S j). rewrite Hs. split; [lia|]. split; [done|].
        intros [|j'] Hj'; [done|]. rewrite Hs. apply Hb. lia.
    + exists 0. unfold first_error. rewrite Nat.add_0_r, Ei. split; [lia|]. split; [|lia].
      replace (i <? S i + length rows)%nat with true; [done|]. symmetry. apply Nat.ltb_lt. lia.
    + exists 0. unfold first_error. rewrite Nat.add_0_r, Ei. split; [lia|]. split; [done|lia].
Qed.

(** C31: A listing over an open connection: the rows are all keys by their time of
    creation; either each of them was read and is reported, "active" exactly when
    the key is accepted at the time its row was read, or the first failure is
    reported and nothing else. *)
Theorem ListKeys_spec cur url pw w :
  clean w → is_ok (open url pw) = true →
  ∃ rows r, ListKeys cur url pw w = (w, r) ∧
    rows ≡ₚ map_to_list (db_keys (w_db w)) ∧ Sorted created_le rows ∧
    match r with
    | Ok keys => length keys = length rows ∧
        ∀ i p, rows !! i = Some p → ∃ now, cur i = Fetched now ∧ keys !! i = Some (summary (w_db w) now p) ∧
          (ks_Status (summary (w_db w) now p) = bs "active" ↔ Active (record_of_row p.1 p.2) now = true)
    | Err e => ∃ i, i ≤ length rows ∧ first_error cur i (length rows) = Some e ∧
        ∀ j, j < i → first_error cur j (length rows) = None
    end.
Proof.
  intros Hc Ho. exists (key_rows (w_db w)), (scan_keys (w_db w) cur 0 (key_rows (w_db w))). split; [|split; [|split]].
  - unfold ListKeys. unfold open in Ho. destruct (injectPassword url pw) as [final|]; [|done].
    destruct (connect final); [done|]. rewrite exec_clean by done. by destruct w.
  - apply merge_sort_Permutation.
  - apply Sorted_merge_sort. intros a b. unfold created_le. lia.
  - pose proof (scan_keys_spec (w_db w) cur (key_rows (w_db w)) 0) as Hs. simpl in Hs.
    destruct (scan_keys _ _ _ _) as [keys|e]; [|done]. destruct Hs as (Hl & _ & Hr). split; [done|].
    intros i [u r] Hi. destruct (Hr i _ Hi) as (now & Hcur & Hk). exists now. split; [done|]. split; [done|].
    simpl. unfold keyStatus, Active. simpl.
    destruct (kw_revoked_at r); [done|]. destruct (kw_expires_at r) as [e|]; [|done]. by destruct (now <? e)%Z.
Qed.
End KeyAdmin.

(** ** Instances *)

#[local] Existing Instance text_uuid.
#[local] Existing Instance MigrateDemo.net.
#[local] Existing Instance MigrateDemo.unicode.

Module AdminDemo.
Definition connect (url : bytes) : option error := None.
Definition mint : M bytes :=
  MintKey toy_IDKey connect (Demo.draw x61) (Demo.uid (bs "new-ws")) (bs "postgres:o") [] (bs "team") (bs "dbuser") EnvDev.
End AdminDemo.

Lemma MintKey_usable_witness :
  ∃ w' token p, AdminDemo.mint Demo.w0 = (w', Ok token) ∧ ParseBearer (bs "Bearer " ++ token) = Ok p.
Proof.
  destruct (AdminDemo.mint Demo.w0) as [w' [token|e]] eqn:E; [|apply (f_equal snd) in E; vm_compute in E; discriminate E].
  destruct (MintKey_usable toy_IDKey AdminDemo.connect (fun pw salt => toy_IDKey_length pw salt _ _ _ _)
    (Demo.draw x61) (repeat x61 12) (repeat x61 24) (Demo.uid (bs "new-ws")) (bs "postgres:o") [] (bs "team")
    (bs "dbuser") EnvDev Demo.w0 w' {| w_db := w_db w'; w_dbnow := 5; w_faults := [] |} token)
    as (_ & _ & _ & p & rec & wsID & Hp & _);
    [reflexivity|reflexivity|reflexivity|reflexivity|exact Demo.db0_wf|exact E|reflexivity|reflexivity|].
  exists w', token, p. split; [reflexivity|exact Hp].
Defined.

Lemma RevokeKey_spec_witness :
  is_ok (RevokeKey AdminDemo.connect (bs "postgres:o") [] (bs "old") Demo.w0).2 = true.
Proof.
  pose proof (RevokeKey_spec AdminDemo.connect (bs "postgres:o") [] (bs "old") (Demo.uid (bs "old")) Demo.w0
    Demo.db0_wf eq_refl eq_refl eq_refl) as Hs.
  destruct (RevokeKey AdminDemo.connect (bs "postgres:o") [] (bs "old") Demo.w0) as [w' r].
  destruct Hs as [Hs _]. apply Hs. exists Demo.row0. split; reflexivity.
Defined.

Lemma ListKeys_spec_witness :
  ∃ keys, (ListKeys AdminDemo.connect (fun _ => Fetched 0) (bs "postgres:o") [] Demo.w0).2 = Ok keys ∧ length keys = 1%nat.
Proof.
  destruct (ListKeys_spec AdminDemo.connect (fun _ => Fetched 0) (bs "postgres:o") [] Demo.w0 eq_refl eq_refl)
    as (rows & r & Hl & Hp & _ & Hr).
  rewrite Hl. destruct r as [keys|e].
  - exists keys. split; [done|]. destruct Hr as [-> _]. rewrite Hp. reflexivity.
  - destruct Hr as (i & _ & He & _). discriminate He.
Defined.
