(* ===== verification/McpTools.v ===== *)
(** * internal/mcp: the tools an agent can call

    tools.go and server.go: the eight tool handlers over a [Doer], the interface
    through which a tool reaches the database, and the table [NewServer] registers
    them in. JSON encoding and the float formatting of fmt are parameters. The
    statements the vector tools put together are proved against [SqlLex]. *)

From Stdlib Require Import Floats.SpecFloat.
From S2P Require Import Prelude GoStrings GoErrors SqlLex Tenant.

(** ** Go values of type [any]

    What encoding/json decodes into an [any], and the [int] a tool passes on. A
    [float64] is a [spec_float]; a map is the list of its entries. *)

Inductive any : Type :=
| GNil
| GBool (b : bool)
| GFloat (f : spec_float)
| GInt (z : Z)
| GStr (s : bytes)
| GSlice (l : list any)
| GMap (m : list (bytes * any)).

Abbreviation gomap := (list (bytes * any)).

(** [v, ok := m[key]] *)
Fixpoint map_get (m : gomap) (key : bytes) : option any :=
  match m with
  | [] => None
  | (k, v) :: m' => if str_eqb k key then Some v else map_get m' key
  end.

(** [s, _ := m[key].(string)] *)
Definition get_string (m : gomap) (key : bytes) : bytes :=
  match map_get m key with Some (GStr s) => s | _ => [] end.

(** [kv > 0] *)
Definition float_pos (f : spec_float) : bool :=
  match f with S754_finite false _ _ | S754_infinity false => true | _ => false end.

(** The integer part of a finite float. *)
Definition float_trunc (s : bool) (m : positive) (e : Z) : Z :=
  let v := (if 0 <=? e then Z.pos m * 2 ^ e else Z.pos m / 2 ^ (- e))%Z in
  if s then (- v)%Z else v.

(** ** The interface *)

Record SQLResult : Type := {
  sq_Command : bytes;
  sq_Columns : list bytes;
  sq_Rows : list (list any);
  sq_RowsAffected : Z;
  sq_DurationMS : Z;
}.

Record MeResult : Type := {
  me_WorkspaceID : bytes;
  me_KeyID : bytes;
  me_Role : bytes;
  me_Env : bytes;
}.

Record HealthResult : Type := {
  he_Healthy : bool;
  he_Ready : bool;
  he_Detail : bytes;
}.

(** A [Doer] over the states [St]; a nil slice or map is [None]. *)
Record Doer (St : Type) : Type := {
  do_SQLExecute : bytes → option (list any) → bytes → St → St * res error SQLResult;
  do_RPCCall : bytes → option gomap → St → St * res error (option gomap);
  do_Me : St → St * res error MeResult;
  do_Health : St → St * res error HealthResult;
}.
Arguments do_SQLExecute {St} _ _ _ _ _.
Arguments do_RPCCall {St} _ _ _ _.
Arguments do_Me {St} _ _.
Arguments do_Health {St} _ _.

(** What a tool returns: one text, and whether it reports an error. *)
Record CallToolResult : Type := { tr_Text : bytes; tr_IsError : bool }.

Inductive json_value : Type :=
| JSQL (r : SQLResult)
| JMe (m : MeResult)
| JMap (m : option gomap).

(** fmt's [%g], the conversion of a float an [int] cannot hold, which Go leaves to
    the platform, and encoding/json. *)
Class McpLib : Type := {
  fmt_g : spec_float → bytes;
  int_unrepresentable : spec_float → Z;
  map_Marshal : gomap → res error bytes;
  MarshalIndent : json_value → res error bytes;
}.

Section Tools.
Context `{UnicodeTables, McpLib}.

(** [int(kv)] *)
Definition int_of_float (f : spec_float) : Z :=
  match f with
  | S754_zero _ => 0
  | S754_finite s m e =>
      let z := float_trunc s m e in if in_range min_int64 max_int64 z then z else int_unrepresentable f
  | _ => int_unrepresentable f
  end.

Definition isSafeIdent (s : bytes) : bool :=
  if str_eqb s [] || (63 <? Z.of_nat (length s))%Z then false
  else forallb (fun r => ((97 <=? r) && (r <=? 122))%Z || ((48 <=? r) && (r <=? 57))%Z ||
                         (r =? 95)%Z) (runes s).

(** [for i, f := range v]; [i] starts at 0. *)
Fixpoint format_loop (i : nat) (v : list spec_float) : bytes :=
  match v with
  | [] => []
  | f :: v' => (if (0 <? i)%nat then bs "," else []) ++ fmt_g f ++ format_loop (Datatypes.S i) v'
  end.

Definition formatVector (v : list spec_float) : bytes := bs "[" ++ format_loop 0 v ++ bs "]".

Definition errResult (msg : bytes) : CallToolResult := {| tr_Text := msg; tr_IsError := true |}.

Definition textResult (text : bytes) : CallToolResult := {| tr_Text := text; tr_IsError := false |}.

Definition jsonResult (v : json_value) : CallToolResult :=
  match MarshalIndent v with
  | Err err => errResult (bs "marshal result: " ++ ErrorText err)
  | Ok b => textResult b
  end.

(** ** The handlers *)

Section Handlers.
Context {St : Type}.
Variable d : Doer St.

(** The end of every handler: the error's text, or the result as JSON. *)
Definition answer {A : Type} (f : A → json_value) (x : St * res error A) : St * CallToolResult :=
  let '(st, r) := x in
  (st, match r with Err err => errResult (ErrorText err) | Ok a => jsonResult (f a) end).

(** Arguments are checked first; the first failure is the result. *)
Definition checked {A : Type} (r : res bytes A) (k : A → St → St * CallToolResult) (st : St)
  : St * CallToolResult :=
  match r with
  | Err msg => (st, errResult msg)
  | Ok a => k a st
  end.

Definition handleSQLExecute (args : gomap) (st : St) : St * CallToolResult :=
  let sql := get_string args (bs "sql") in
  if str_eqb sql [] then (st, errResult (bs "required parameter 'sql' is missing or empty")) else
  let params := match map_get args (bs "params") with Some (GSlice arr) => Some arr | _ => None end in
  let idempotencyKey := get_string args (bs "idempotency_key") in
  answer JSQL (do_SQLExecute d sql params idempotencyKey st).

Definition handleRPCCall (args : gomap) (st : St) : St * CallToolResult :=
  let procedure := get_string args (bs "procedure") in
  if str_eqb procedure [] then (st, errResult (bs "required parameter 'procedure' is missing or empty")) else
  let rpcArgs := match map_get args (bs "args") with Some (GMap m) => Some m | _ => None end in
  answer JMap (do_RPCCall d procedure rpcArgs st).

Definition listTablesSQL : bytes := bs "SELECT t.table_name,
       COALESCE(s.n_live_tup, 0) AS approx_rows
FROM information_schema.tables t
LEFT JOIN pg_stat_user_tables s
  ON s.relname = t.table_name AND s.schemaname = 'public'
WHERE t.table_schema = 'public'
  AND t.table_type = 'BASE TABLE'
ORDER BY t.table_name".

Definition handleListTables (_ : gomap) (st : St) : St * CallToolResult :=
  answer JSQL (do_SQLExecute d listTablesSQL None [] st).

Definition describeSQL : bytes := bs "SELECT column_name, data_type, is_nullable, column_default
FROM information_schema.columns
WHERE table_schema = 'public' AND table_name = $1
ORDER BY ordinal_position".

Definition handleDescribeTable (args : gomap) (st : St) : St * CallToolResult :=
  let table := get_string args (bs "table") in
  if negb (isSafeIdent table) then
    (st, errResult (Sprintf [FLit (bs "invalid table name: "); FQuote table;
                             FLit (bs " (must be lowercase alphanumeric/underscore, max 63 chars)")]))
  else answer JSQL (do_SQLExecute d describeSQL (Some [GStr table]) [] st).

(** [for j, v := range rawVec]: the floats, or the index of the first value that is none. *)
Fixpoint to_floats (j : Z) (l : list any) : res Z (list spec_float) :=
  match l with
  | [] => Ok []
  | GFloat f :: l' => let! fs := to_floats (j + 1)%Z l' in Ok (f :: fs)
  | _ :: _ => Err j
  end.

Definition search_sql (table vectorCol : bytes) : bytes :=
  Sprintf [FLit (bs "SELECT *, " ++ [dq]); FStr vectorCol; FLit ([dq] ++ bs " <=> $1::vector AS distance FROM " ++ [dq]);
           FStr table; FLit ([dq] ++ bs " ORDER BY " ++ [dq]); FStr vectorCol;
           FLit ([dq] ++ bs " <=> $1::vector LIMIT $2")].

(** [k := 5; if kv, ok := args["k"].(float64); ok && kv > 0 { k = int(kv) }] *)
Definition search_k (args : gomap) : Z :=
  match map_get args (bs "k") with
  | Some (GFloat kv) => if float_pos kv then int_of_float kv else 5
  | _ => 5
  end.

(** handleVectorSearch up to the call: the statement and its parameters. *)
Definition search_request (args : gomap) : res bytes (bytes * list any) :=
  let table := get_string args (bs "table") in
  guard! isSafeIdent table else Sprintf [FLit (bs "invalid table name: "); FQuote table] in
  let vectorCol := get_string args (bs "vector_column") in
  guard! isSafeIdent vectorCol else Sprintf [FLit (bs "invalid vector_column: "); FQuote vectorCol] in
  match map_get args (bs "query_embedding") with
  | None => Err (bs "required parameter 'query_embedding' is missing")
  | Some (GSlice ((_ :: _) as embArr)) =>
      let! embedding := res_map_err (fun i => Sprintf [FLit (bs "query_embedding["); FInt i; FLit (bs "] is not a number")])
                          (to_floats 0 embArr) in
      let k := search_k args in
      if (1000 <? k)%Z then Err (bs "k must be <= 1000")
      else Ok (search_sql table vectorCol, [GStr (formatVector embedding); GInt k])
  | Some _ => Err (bs "query_embedding must be a non-empty array of numbers")
  end.

Definition handleVectorSearch (args : gomap) : St → St * CallToolResult :=
  checked (search_request args) (fun '(sql, params) st => answer JSQL (do_SQLExecute d sql (Some params) [] st)).

(** The body of the loop over the rows: the three parameters of row [i]. *)
Definition upsert_row (i : Z) (rawRow : any) : res bytes (list any) :=
  let row_msg (rest : bytes) := Sprintf [FLit (bs "rows["); FInt i; FLit rest] in
  match rawRow with
  | GMap row =>
      let id := get_string row (bs "id") in
      guard! negb (str_eqb id []) else row_msg (bs "].id is required") in
      match map_get row (bs "metadata") with
      | None => Err (row_msg (bs "].metadata is required"))
      | Some (GMap meta) =>
          match map_Marshal meta with
          | Err err => Err (row_msg (bs "].metadata: ") ++ ErrorText err)
          | Ok metaJSON =>
              match map_get row (bs "vector") with
              | Some (GSlice ((_ :: _) as rawVec)) =>
                  let! vec := res_map_err (fun j => Sprintf [FLit (bs "rows["); FInt i; FLit (bs "].vector["); FInt j;
                                                             FLit (bs "] is not a number")])
                                (to_floats 0 rawVec) in
                  Ok [GStr id; GStr metaJSON; GStr (formatVector vec)]
              | _ => Err (row_msg (bs "].vector must be a non-empty array"))
              end
          end
      | Some _ => Err (row_msg (bs "].metadata must be a JSON object"))
      end
  | _ => Err (row_msg (bs "] must be an object"))
  end.

Definition values_clause (base : Z) : bytes :=
  Sprintf [FLit (bs "($"); FInt (base + 1)%Z; FLit (bs ", $"); FInt (base + 2)%Z; FLit (bs "::jsonb, $"); FInt (base + 3)%Z;
           FLit (bs "::vector)")].

Fixpoint upsert_loop (i : Z) (rows : list any) (valuesClauses : list bytes) (params : list any)
  : res bytes (list bytes * list any) :=
  match rows with
  | [] => Ok (valuesClauses, params)
  | rawRow :: rows' =>
      let! ps := upsert_row i rawRow in
      upsert_loop (i + 1)%Z rows' (valuesClauses ++ [values_clause (i * 3)%Z]) (params ++ ps)
  end.

Definition upsert_sql (table idCol vectorCol : bytes) (valuesClauses : list bytes) : bytes :=
  Sprintf [FLit (bs "INSERT INTO " ++ [dq]); FStr table; FLit ([dq] ++ bs " (" ++ [dq]); FStr idCol;
           FLit ([dq] ++ bs ", " ++ [dq] ++ bs "metadata" ++ [dq] ++ bs ", " ++ [dq]); FStr vectorCol;
           FLit ([dq] ++ bs ") VALUES "); FStr (Join valuesClauses (bs ", ")); FLit (bs " ON CONFLICT (" ++ [dq]);
           FStr idCol;
           FLit ([dq] ++ bs ") DO UPDATE SET " ++ [dq] ++ bs "metadata" ++ [dq] ++ bs " = EXCLUDED." ++ [dq] ++
                 bs "metadata" ++ [dq] ++ bs ", " ++ [dq]);
           FStr vectorCol; FLit ([dq] ++ bs " = EXCLUDED." ++ [dq]); FStr vectorCol; FLit [dq]].

(** handleVectorUpsert up to the call. *)
Definition upsert_request (args : gomap) : res bytes (bytes * list any) :=
  let table := get_string args (bs "table") in
  guard! isSafeIdent table else Sprintf [FLit (bs "invalid table name: "); FQuote table] in
  let idCol := get_string args (bs "id_column") in
  guard! isSafeIdent idCol else Sprintf [FLit (bs "invalid id_column: "); FQuote idCol] in
  let vectorCol := get_string args (bs "vector_column") in
  guard! isSafeIdent vectorCol else Sprintf [FLit (bs "invalid vector_column: "); FQuote vectorCol] in
  match map_get args (bs "rows") with
  | None => Err (bs "required parameter 'rows' is missing")
  | Some (GSlice ((_ :: _) as rows)) =>
      if (100 <? Z.of_nat (length rows))%Z then Err (bs "rows must contain at most 100 entries") else
      let! (valuesClauses, params) := upsert_loop 0 rows [] [] in
      Ok (upsert_sql table idCol vectorCol valuesClauses, params)
  | Some _ => Err (bs "rows must be a non-empty array")
  end.

Definition upsert_result (r : SQLResult) : json_value :=
  JMap (Some [(bs "rows_affected", GInt (sq_RowsAffected r)); (bs "command", GStr (sq_Command r))]).

Definition handleVectorUpsert (args : gomap) : St → St * CallToolResult :=
  checked (upsert_request args)
    (fun '(sql, params) st => answer upsert_result (do_SQLExecute d sql (Some params) [] st)).

Definition handleWhoami (_ : gomap) (st : St) : St * CallToolResult := answer JMe (do_Me d st).

Definition health_result (h : HealthResult) : json_value :=
  JMap (Some [(bs "healthy", GBool (he_Healthy h)); (bs "ready", GBool (he_Ready h)); (bs "detail", GStr (he_Detail h))]).

Definition handleHealth (_ : gomap) (st : St) : St * CallToolResult := answer health_result (do_Health d st).
End Handlers.

(** ** The table of tools *)

Inductive prop_type : Type := PString | PArray | PObject | PNumber.

(** A registered tool: its name, its arguments and which of them are required. *)
Record Tool (St : Type) : Type := {
  tool_name : bytes;
  tool_args : list (bytes * prop_type * bool);
  tool_handler : gomap → St → St * CallToolResult;
}.
Arguments tool_name {St} _.
Arguments tool_args {St} _.
Arguments tool_handler {St} _ _ _.

Definition tools {St} (d : Doer St) : list (Tool St) :=
  [ {| tool_name := bs "sql_execute";
       tool_args := [(bs "sql", PString, true); (bs "params", PArray, false); (bs "idempotency_key", PString, false)];
       tool_handler := handleSQLExecute d |};
    {| tool_name := bs "rpc_call";
       tool_args := [(bs "procedure", PString, true); (bs "args", PObject, false)];
       tool_handler := handleRPCCall d |};
    {| tool_name := bs "list_tables"; tool_args := []; tool_handler := handleListTables d |};
    {| tool_name := bs "describe_table"; tool_args := [(bs "table", PString, true)];
       tool_handler := handleDescribeTable d |};
    {| tool_name := bs "vector_search";
       tool_args := [(bs "table", PString, true); (bs "vector_column", PString, true);
                     (bs "query_embedding", PArray, true); (bs "k", PNumber, false)];
       tool_handler := handleVectorSearch d |};
    {| tool_name := bs "vector_upsert";
       tool_args := [(bs "table", PString, true); (bs "id_column", PString, true); (bs "vector_column", PString, true);
                     (bs "rows", PArray, true)];
       tool_handler := handleVectorUpsert d |};
    {| tool_name := bs "whoami"; tool_args := []; tool_handler := handleWhoami d |};
    {| tool_name := bs "health"; tool_args := []; tool_handler := handleHealth d |} ].

(** [NewServer(client)]; [None] is the panic. *)
Definition NewServer {St} (client : option (Doer St)) : option (list (Tool St)) :=
  match client with
  | None => None
  | Some d => Some (tools d)
  end.
End Tools.
Arguments tool_name {St} _.
Arguments tool_args {St} _.
Arguments tool_handler {St} _ _ _.

(** ** What the vector tools send *)

Section SearchFacts.
Context `{UnicodeTables, McpLib}.

Lemma isSafeIdent_quotable s : isSafeIdent s = true → dq ∉ s.
Proof. intros [_ Hs]%isSafeRoleName_bytes. by apply safe_no_quote. Qed.

Lemma format_loop_Join i v :
  format_loop i v = (if (0 <? i)%nat then match v with [] => [] | _ => bs "," end else []) ++ Join (fmt_g <$> v) (bs ",").
Proof.
  revert i. induction v as [|f v IH]; intros i; [by destruct i|]. cbn [format_loop]. rewrite IH. cbn [Nat.ltb Nat.leb].
  f_equal. destruct v; simpl; by rewrite ?app_nil_r.
Qed.

(** A pgvector literal: the numbers between brackets, with commas between them. *)
Lemma formatVector_Join v : formatVector v = bs "[" ++ Join (fmt_g <$> v) (bs ",") ++ bs "]".
Proof. unfold formatVector. by rewrite format_loop_Join. Qed.

Lemma to_floats_Ok j l fs : to_floats j l = Ok fs ↔ l = GFloat <$> fs.
Proof.
  revert j fs. induction l as [|x l IH]; intros j fs; [split; [by intros [= <-]|by destruct fs]|].
  split.
  - destruct x; try done. cbn [to_floats]. intros (fs' & Hr & [= <-])%res_bind_ok.
    apply IH in Hr as ->. done.
  - destruct fs as [|f fs]; [done|]. intros [= -> Hl]. cbn [to_floats]. by rewrite (proj2 (IH (j + 1)%Z fs) Hl).
Qed.

Definition cosine : list sql_token := [TChar "<"; TChar "="; TChar ">"].
Definition cast (ty : bytes) : list sql_token := [TChar ":"; TChar ":"; TWord ty].

(** SELECT *, "col" <=> $1::vector AS distance FROM "table"
    ORDER BY "col" <=> $1::vector LIMIT $2 *)
Definition search_tokens (table col : bytes) : list sql_token :=
  [TWord (bs "SELECT"); TChar "*"; TChar ","; TIdent col] ++ cosine ++ [TParam (bs "1")] ++ cast (bs "vector") ++
  [TWord (bs "AS"); TWord (bs "distance"); TWord (bs "FROM"); TIdent table; TWord (bs "ORDER"); TWord (bs "BY");
   TIdent col] ++ cosine ++ [TParam (bs "1")] ++ cast (bs "vector") ++ [TWord (bs "LIMIT"); TParam (bs "2")].

Definition search_pieces (table col : bytes) : list piece :=
  [PLit (bs "SELECT *,") x20; PIdent col; PLit (bs " <=> $1::vector AS distance FROM") x20; PIdent table;
   PLit (bs " ORDER BY") x20; PIdent col; PLit (bs " <=> $1::vector LIMIT") x20].

Lemma search_sql_lex table col : isSafeIdent table = true → isSafeIdent col = true →
  lex (search_sql table col) = Some (search_tokens table col).
Proof.
  intros Ht%isSafeIdent_quotable Hc%isSafeIdent_quotable.
  assert (search_sql table col = render (search_pieces table col) ++ bs "$2") as ->.
  { unfold search_sql, search_pieces, Sprintf. cbn [fmap list_fmap concat render render_piece].
    text_eq. }
  rewrite lex_render by pieces. by vm_compute.
Qed.

(** A row an upsert accepts, and the three parameters it becomes. *)
Definition row_params (rawRow : any) (ps : list any) : Prop :=
  ∃ row id meta metaJSON f fs,
    rawRow = GMap row ∧ map_get row (bs "id") = Some (GStr id) ∧ id ≠ [] ∧
    map_get row (bs "metadata") = Some (GMap meta) ∧ map_Marshal meta = Ok metaJSON ∧
    map_get row (bs "vector") = Some (GSlice (GFloat <$> f :: fs)) ∧
    ps = [GStr id; GStr metaJSON; GStr (formatVector (f :: fs))].

Lemma get_string_nonempty m k s : s ≠ [] → get_string m k = s ↔ map_get m k = Some (GStr s).
Proof.
  intros Hs. unfold get_string. split; [|by intros ->].
  destruct (map_get m k) as [[]|]; naive_solver.
Qed.

Lemma upsert_row_Ok i rawRow ps : upsert_row i rawRow = Ok ps ↔ row_params rawRow ps.
Proof.
  unfold row_params. split.
  - unfold upsert_row. destruct rawRow as [| | | | | |row]; try done.
    destruct (str_eqb (get_string row (bs "id")) []) eqn:Ei; [done|]. cbn [negb]. go_bool.
    destruct (map_get row (bs "metadata")) as [[| | | | | |meta]|] eqn:Em; try done.
    destruct (map_Marshal meta) as [js|] eqn:Ej; [|done].
    destruct (map_get row (bs "vector")) as [[| | | | |[|v l]|]|] eqn:Ev; try done.
    intros (fs & Hf & [= <-])%res_bind_ok. destruct (to_floats 0 (v :: l)) as [fs'|] eqn:Ef; [|done].
    simplify_eq. apply to_floats_Ok in Ef. destruct fs' as [|f fs']; [done|].
    exists row, (get_string row (bs "id")), meta, js, f, fs'. rewrite Ef in Ev.
    split; [done|]. split; [by apply get_string_nonempty|]. naive_solver.
  - intros (row & id & meta & js & f & fs & -> & Hid & Hne & Hm & Hj & Hv & ->). unfold upsert_row.
    rewrite (proj2 (get_string_nonempty row (bs "id") id Hne) Hid), (bool_decide_false _ Hne : str_eqb id [] = false).
    cbn [negb]. rewrite Hm, Hj, Hv. cbn [fmap list_fmap].
    by rewrite (proj2 (to_floats_Ok 0 (GFloat f :: (GFloat <$> fs)) (f :: fs)) eq_refl).
Qed.

(** The VALUES clauses and parameters of the rows from number [i] on. *)
Definition clauses (i n : nat) : list bytes := (fun j => values_clause (Z.of_nat j * 3)) <$> seq i n.

Lemma upsert_loop_Ok i rows cs ps cs' ps' :
  upsert_loop (Z.of_nat i) rows cs ps = Ok (cs', ps') ↔
  cs' = cs ++ clauses i (length rows) ∧ ∃ pss, ps' = ps ++ concat pss ∧ Forall2 row_params rows pss.
Proof.
  revert i cs ps. induction rows as [|row rows IH]; intros i cs ps; cbn [upsert_loop length].
  - rewrite app_nil_r. split; [intros [= <- <-]; split; [done|]; exists []; by rewrite app_nil_r|].
    intros (-> & pss & -> & ->%Forall2_nil_inv_l). by rewrite app_nil_r.
  - replace (Z.of_nat i + 1)%Z with (Z.of_nat (Datatypes.S i)) by lia. unfold clauses. cbn [seq fmap list_fmap]. split.
    + intros (p & Hp & Hr)%res_bind_ok. apply upsert_row_Ok in Hp. apply IH in Hr as (-> & pss & -> & Hf).
      split; [by rewrite <- app_assoc|]. exists (p :: pss). rewrite <- app_assoc. split; [done|]. by constructor.
    + intros (-> & pss & -> & Hf). inversion Hf as [|? p ? pss' Hp Hf']; subst.
      rewrite (proj2 (upsert_row_Ok (Z.of_nat i) row p) Hp). cbn [res_bind]. apply IH.
      split; [by rewrite <- app_assoc|]. exists pss'. by rewrite <- app_assoc.
Qed.

(** ($1, $2::jsonb, $3::vector), ($4, $5::jsonb, $6::vector), ... *)
Definition param_no (j k : nat) : bytes := Itoa (Z.of_nat j * 3 + Z.of_nat k).

Definition row_tokens (j : nat) : list sql_token :=
  [TChar "("; TParam (param_no j 1); TChar ","; TParam (param_no j 2)] ++ cast (bs "jsonb") ++
  [TChar ","; TParam (param_no j 3)] ++ cast (bs "vector") ++ [TChar ")"].

Fixpoint rows_tokens (j n : nat) : list sql_token :=
  match n with
  | O => []
  | Datatypes.S n' => row_tokens j ++ match n' with O => [] | _ => TChar "," :: rows_tokens (Datatypes.S j) n' end
  end.

(** INSERT INTO "table" ("id", "metadata", "vec") VALUES ... ON CONFLICT ("id")
    DO UPDATE SET "metadata" = EXCLUDED."metadata", "vec" = EXCLUDED."vec" *)
Definition head_tokens (table idCol vectorCol : bytes) : list sql_token :=
  [TWord (bs "INSERT"); TWord (bs "INTO"); TIdent table; TChar "("; TIdent idCol; TChar ","; TIdent (bs "metadata");
   TChar ","; TIdent vectorCol; TChar ")"; TWord (bs "VALUES")].

Definition tail_tokens (idCol vectorCol : bytes) : list sql_token :=
  [TWord (bs "ON"); TWord (bs "CONFLICT"); TChar "("; TIdent idCol; TChar ")"; TWord (bs "DO"); TWord (bs "UPDATE");
   TWord (bs "SET"); TIdent (bs "metadata"); TChar "="; TWord (bs "EXCLUDED"); TChar "."; TIdent (bs "metadata");
   TChar ","; TIdent vectorCol; TChar "="; TWord (bs "EXCLUDED"); TChar "."; TIdent vectorCol].

Definition upsert_tokens (table idCol vectorCol : bytes) (n : nat) : list sql_token :=
  head_tokens table idCol vectorCol ++ rows_tokens 0 n ++ tail_tokens idCol vectorCol.

Definition row_pieces (j : nat) : list piece :=
  [PLit [] "("; PParam (param_no j 1); PLit (bs ",") x20; PParam (param_no j 2); PLit (bs "::jsonb,") x20;
   PParam (param_no j 3); PLit (bs "::vector") ")"].

Fixpoint rows_pieces (j n : nat) : list piece :=
  match n with
  | O => []
  | Datatypes.S n' => row_pieces j ++ match n' with O => [] | _ => PLit (bs ",") x20 :: rows_pieces (Datatypes.S j) n' end
  end.

Definition upsert_head (table idCol vectorCol : bytes) : list piece :=
  [PLit (bs "INSERT INTO") x20; PIdent table; PLit (bs " ") "("; PIdent idCol; PLit (bs ",") x20;
   PIdent (bs "metadata"); PLit (bs ",") x20; PIdent vectorCol; PLit (bs ") VALUES") x20].

Definition upsert_tail (idCol vectorCol : bytes) : list piece :=
  [PLit (bs " ON CONFLICT ") "("; PIdent idCol; PLit (bs ") DO UPDATE SET") x20; PIdent (bs "metadata");
   PLit (bs " = EXCLUDED") "."; PIdent (bs "metadata"); PLit (bs ",") x20; PIdent vectorCol;
   PLit (bs " = EXCLUDED") "."; PIdent vectorCol].

Lemma param_no_ok j k next : (∀ c, next = Some c → is_digit c = false) → piece_ok (PParam (param_no j k)) next.
Proof.
  intros Hn. destruct (Itoa_nonneg (Z.of_nat j * 3 + Z.of_nat k)) as (Hne & Hd & _); [lia|]. done.
Qed.

Lemma values_clause_render j : values_clause (Z.of_nat j * 3) = render (row_pieces j).
Proof.
  unfold values_clause, Sprintf, row_pieces, param_no. cbn [fmap list_fmap concat render render_piece].
  change (Z.of_nat 1) with 1%Z. change (Z.of_nat 2) with 2%Z. change (Z.of_nat 3) with 3%Z.
  generalize (Itoa (Z.of_nat j * 3 + 1)) (Itoa (Z.of_nat j * 3 + 2)) (Itoa (Z.of_nat j * 3 + 3)). intros a b c. text_eq.
Qed.

Lemma row_pieces_ok j r : pieces_ok (row_pieces j) r.
Proof.
  assert (∀ b c, Some b = Some c → is_digit b = false → is_digit c = false) as Hd by (by intros ?? [= ->]).
  cbn [pieces_ok row_pieces].
  repeat (split; [first [apply param_no_ok; intros c Hc; by eapply Hd; [exact Hc|] | split; [done|by eexists]]|]).
  done.
Qed.

Lemma rows_render j n : Join (clauses j n) (bs ", ") = render (rows_pieces j n).
Proof.
  revert j. induction n as [|n IH]; intros j; [done|]. unfold clauses. cbn [seq fmap list_fmap rows_pieces].
  rewrite render_app, values_clause_render. destruct n as [|n]; [by cbn; rewrite app_nil_r|].
  specialize (IH (Datatypes.S j)). unfold clauses in IH. cbn [seq fmap list_fmap Join] in IH |- *.
  by rewrite IH.
Qed.

Lemma rows_pieces_ok j n r : pieces_ok (rows_pieces j n) r.
Proof.
  revert j. induction n as [|n IH]; intros j; [done|]. cbn [rows_pieces]. apply pieces_ok_app; [apply row_pieces_ok|].
  destruct n as [|n]; [done|]. split; [split; [done|by eexists]|apply IH].
Qed.

Lemma rows_pieces_lex j n : lex_pieces (rows_pieces j n) = Some (rows_tokens j n).
Proof.
  revert j. induction n as [|n IH]; intros j; [done|]. cbn [rows_pieces rows_tokens].
  apply lex_pieces_app; [by cbn|]. destruct n as [|n]; [done|].
  specialize (IH (Datatypes.S j)). cbn [lex_pieces lex_piece]. rewrite IH. by vm_compute.
Qed.

Lemma upsert_sql_lex table idCol vectorCol n :
  isSafeIdent table = true → isSafeIdent idCol = true → isSafeIdent vectorCol = true →
  lex (upsert_sql table idCol vectorCol (clauses 0 n)) = Some (upsert_tokens table idCol vectorCol n).
Proof.
  intros Ht%isSafeIdent_quotable Hi%isSafeIdent_quotable Hv%isSafeIdent_quotable.
  assert (upsert_sql table idCol vectorCol (clauses 0 n) =
    render (upsert_head table idCol vectorCol ++ rows_pieces 0 n ++ upsert_tail idCol vectorCol) ++ []) as ->.
  { rewrite !render_app, <- rows_render. unfold upsert_sql, upsert_head, upsert_tail, Sprintf.
    cbn [fmap list_fmap concat render render_piece]. generalize (Join (clauses 0 n) (bs ", ")). intros vs. text_eq. }
  rewrite lex_render.
  - assert (lex_pieces (upsert_head table idCol vectorCol) = Some (head_tokens table idCol vectorCol)) as Hh by (by vm_compute).
    assert (lex_pieces (upsert_tail idCol vectorCol) = Some (tail_tokens idCol vectorCol)) as Htl by (by vm_compute).
    rewrite (lex_pieces_app _ _ _ _ Hh (lex_pieces_app _ _ _ _ (rows_pieces_lex 0 n) Htl)).
    change (lex []) with (Some (A := list sql_token) []). cbn [fmap option_fmap option_map]. by rewrite app_nil_r.
  - apply pieces_ok_app; [pieces|]. apply pieces_ok_app; [apply rows_pieces_ok|pieces].
Qed.
End SearchFacts.

(** ** The tools *)

Section ToolFacts.
Context `{UnicodeTables, McpLib} {St : Type}.
Variable d : Doer St.

(** The arguments a search accepts. *)
Definition search_args (args : gomap) (table col : bytes) (emb : list spec_float) : Prop :=
  get_string args (bs "table") = table ∧ isSafeIdent table = true ∧
  get_string args (bs "vector_column") = col ∧ isSafeIdent col = true ∧
  map_get args (bs "query_embedding") = Some (GSlice (GFloat <$> emb)) ∧ emb ≠ [] ∧ (search_k args ≤ 1000)%Z.

Lemma search_request_Ok args r :
  search_request args = Ok r ↔ ∃ table col emb, search_args args table col emb ∧
    r = (search_sql table col, [GStr (formatVector emb); GInt (search_k args)]).
Proof.
  unfold search_request, search_args. split.
  - destruct (isSafeIdent (get_string args (bs "table"))) eqn:Et; [|done].
    destruct (isSafeIdent (get_string args (bs "vector_column"))) eqn:Ec; [|done].
    destruct (map_get args (bs "query_embedding")) as [[| | | | |[|v l]|]|] eqn:Ev; try done.
    destruct (to_floats 0 (v :: l)) as [fs|] eqn:Ef; [|done]. cbn [res_map_err res_bind].
    destruct (Z.ltb_spec 1000 (search_k args)); [done|]. intros [= <-].
    apply to_floats_Ok in Ef. eexists _, _, fs. split; [|done]. rewrite Ef. destruct fs; [done|]. done.
  - intros (table & col & emb & (-> & -> & -> & -> & -> & Hne & Hk) & ->).
    destruct emb as [|f emb]; [done|]. cbn [fmap list_fmap].
    rewrite (proj2 (to_floats_Ok 0 (GFloat f :: (GFloat <$> emb)) (f :: emb)) eq_refl). cbn [res_map_err res_bind].
    by rewrite (proj2 (Z.ltb_ge _ _) Hk).
Qed.

(** The arguments an upsert accepts, with the parameters of its rows. *)
Definition upsert_args (args : gomap) (table idCol vectorCol : bytes) (rows : list any) (pss : list (list any)) : Prop :=
  get_string args (bs "table") = table ∧ isSafeIdent table = true ∧
  get_string args (bs "id_column") = idCol ∧ isSafeIdent idCol = true ∧
  get_string args (bs "vector_column") = vectorCol ∧ isSafeIdent vectorCol = true ∧
  map_get args (bs "rows") = Some (GSlice rows) ∧ (1 ≤ length rows ≤ 100)%nat ∧ Forall2 row_params rows pss.

Lemma upsert_request_Ok args r :
  upsert_request args = Ok r ↔ ∃ table idCol vectorCol rows pss, upsert_args args table idCol vectorCol rows pss ∧
    r = (upsert_sql table idCol vectorCol (clauses 0 (length rows)), concat pss).
Proof.
  unfold upsert_request, upsert_args. split.
  - destruct (isSafeIdent (get_string args (bs "table"))) eqn:Et; [|done].
    destruct (isSafeIdent (get_string args (bs "id_column"))) eqn:Ei; [|done].
    destruct (isSafeIdent (get_string args (bs "vector_column"))) eqn:Ec; [|done].
    destruct (map_get args (bs "rows")) as [[| | | | |[|v l]|]|] eqn:Ev; try done.
    destruct (Z.ltb_spec 100 (Z.of_nat (length (v :: l)))) as [|Hl]; [done|]. intros ([cs ps] & Hx & [= <-])%res_bind_ok.
    apply (upsert_loop_Ok 0) in Hx as (-> & pss & -> & Hf). eexists _, _, _, (v :: l), pss.
    split; [|done]. simpl in Hl. simpl. intuition lia.
  - intros (table & idCol & vectorCol & rows & pss & (-> & -> & -> & -> & -> & -> & -> & Hl & Hf) & ->).
    destruct rows as [|v rows]; [simpl in Hl; lia|].
    rewrite (proj2 (Z.ltb_ge _ _)) by lia.
    by rewrite (proj2 (upsert_loop_Ok 0 (v :: rows) [] [] _ _) (conj eq_refl (ex_intro _ pss (conj eq_refl Hf)))).
Qed.

Lemma sql_params_app ts us : sql_params (ts ++ us) = sql_params ts ++ sql_params us.
Proof. apply flat_map_app. Qed.

Lemma rows_params j n : sql_params (rows_tokens j n) = (fun k => Itoa (Z.of_nat k)) <$> seq (3 * j + 1) (3 * n).
Proof.
  revert j. induction n as [|n IH]; intros j; [done|]. cbn [rows_tokens]. rewrite sql_params_app.
  replace (3 * Datatypes.S n)%nat with (Datatypes.S (Datatypes.S (Datatypes.S (3 * n)))) by lia. cbn [seq fmap list_fmap].
  assert (sql_params (row_tokens j) = [param_no j 1; param_no j 2; param_no j 3]) as -> by done. unfold param_no.
  replace (Z.of_nat j * 3 + Z.of_nat 1)%Z with (Z.of_nat (3 * j + 1)) by lia.
  replace (Z.of_nat j * 3 + Z.of_nat 2)%Z with (Z.of_nat (Datatypes.S (3 * j + 1))) by lia.
  replace (Z.of_nat j * 3 + Z.of_nat 3)%Z with (Z.of_nat (Datatypes.S (Datatypes.S (3 * j + 1)))) by lia.
  cbn [app]. do 3 f_equal.
  replace (Datatypes.S (Datatypes.S (Datatypes.S (3 * j + 1)))) with (3 * Datatypes.S j + 1)%nat by lia.
  rewrite <- IH. destruct n; done.
Qed.

Lemma row_params_length rows pss : Forall2 row_params rows pss → length (concat pss) = (3 * length rows)%nat.
Proof.
  induction 1 as [|row ps rows pss (? & ? & ? & ? & ? & ? & _ & _ & _ & _ & _ & _ & ->) _ IH]; [done|].
  simpl. simpl in IH. lia.
Qed.

Lemma checked_err {A} (r : res bytes A) (k : A → St → St * CallToolResult) st :
  (¬ ∃ a, r = Ok a) → ∃ msg, checked r k st = (st, errResult msg).
Proof. destruct r as [a|msg]; [intros []; by exists a|intros _; by exists msg]. Qed.

(** C20: The search tool sends exactly one statement when its arguments are
    valid: Postgres reads it as the cosine search over the given table and column,
    with nothing else in it, the query vector and the limit as its two parameters
    and the limit at most 1000. With any other arguments it answers with an error
    and sends nothing. *)
Theorem vector_search_exact args st :
  (∀ table col emb, search_args args table col emb →
     ∃ sql, handleVectorSearch d args st =
              answer JSQL (do_SQLExecute d sql (Some [GStr (formatVector emb); GInt (search_k args)]) [] st) ∧
            lex sql = Some (search_tokens table col) ∧ (search_k args ≤ 1000)%Z) ∧
  ((¬ ∃ table col emb, search_args args table col emb) →
     ∃ msg, handleVectorSearch d args st = (st, errResult msg)).
Proof.
  split.
  - intros table col emb Ha. exists (search_sql table col).
    pose proof Ha as (_ & Ht & _ & Hc & _ & _ & Hk). split; [|split; [by apply search_sql_lex|done]].
    unfold handleVectorSearch, checked.
    by rewrite (proj2 (search_request_Ok args _) (ex_intro _ table (ex_intro _ col (ex_intro _ emb (conj Ha eq_refl))))).
  - intros Hn. apply checked_err. intros [r Hr]. apply Hn. apply search_request_Ok in Hr. naive_solver.
Qed.

(** C21: The upsert tool sends exactly one statement when its arguments are
    valid: one INSERT with an ON CONFLICT update of the given table and columns,
    read by Postgres with nothing else in it, whose placeholders are $1 to $3n in
    order, each once, for n rows (1 to 100), and whose parameters are the id, the
    metadata and the vector of each row in order. With any other arguments it
    answers with an error and sends nothing. *)
Theorem vector_upsert_exact args st :
  (∀ table idCol vectorCol rows pss, upsert_args args table idCol vectorCol rows pss →
     ∃ sql, handleVectorUpsert d args st = answer upsert_result (do_SQLExecute d sql (Some (concat pss)) [] st) ∧
            lex sql = Some (upsert_tokens table idCol vectorCol (length rows)) ∧
            sql_params (upsert_tokens table idCol vectorCol (length rows)) =
              (fun k => Itoa (Z.of_nat k)) <$> seq 1 (length (concat pss)) ∧
            length (concat pss) = (3 * length rows)%nat) ∧
  ((¬ ∃ table idCol vectorCol rows pss, upsert_args args table idCol vectorCol rows pss) →
     ∃ msg, handleVectorUpsert d args st = (st, errResult msg)).
Proof.
  split.
  - intros table idCol vectorCol rows pss Ha. exists (upsert_sql table idCol vectorCol (clauses 0 (length rows))).
    pose proof Ha as (_ & Ht & _ & Hi & _ & Hv & _ & _ & Hf). pose proof (row_params_length _ _ Hf) as Hl.
    split; [|split; [by apply upsert_sql_lex|split; [|done]]].
    + unfold handleVectorUpsert, checked.
      by rewrite (proj2 (upsert_request_Ok args _) (ex_intro _ table (ex_intro _ idCol (ex_intro _ vectorCol
        (ex_intro _ rows (ex_intro _ pss (conj Ha eq_refl))))))).
    + unfold upsert_tokens. rewrite Hl, !sql_params_app, rows_params. simpl. by rewrite app_nil_r.
  - intros Hn. apply checked_err. intros [r Hr]. apply Hn. apply upsert_request_Ok in Hr. naive_solver.
Qed.

Definition has_type (ty : prop_type) (v : any) : bool :=
  match ty, v with
  | PString, GStr _ | PArray, GSlice _ | PObject, GMap _ | PNumber, GFloat _ => true
  | _, _ => false
  end.

Lemma get_string_absent args name :
  (∀ v, map_get args name = Some v → has_type PString v = false) → get_string args name = [].
Proof. unfold get_string. intros Hv. destruct (map_get args name) as [v|]; [|done]. by destruct v; try (specialize (Hv _ eq_refl)). Qed.

(** Every tool checks the arguments its schema requires: if one of them is
    missing or has another type, the tool answers with an error and does not reach
    the database, whatever the other arguments are. The tools have different
    names. *)
Theorem required_arguments_checked args st :
  NoDup (tool_name <$> tools d) ∧
  ∀ t name ty, t ∈ tools d → (name, ty, true) ∈ tool_args t →
    (∀ v, map_get args name = Some v → has_type ty v = false) →
    ∃ msg, tool_handler t args st = (st, errResult msg).
Proof.
  split; [apply (bool_decide_unpack _); by vm_compute|]. intros t name ty Ht Hn Hv.
  assert (∀ s, get_string args s = [] → isSafeIdent (get_string args s) = false) as Hs by (by intros s ->).
  unfold tools in Ht. repeat (apply elem_of_cons in Ht as [->|Ht]; [cbn [tool_args tool_handler] in *|]); try by inversion Ht.
  all: repeat (apply elem_of_cons in Hn as [Hn|Hn]; [first [discriminate Hn | injection Hn as -> ->]|]); try by inversion Hn.
  all: try apply get_string_absent in Hv.
  - unfold handleSQLExecute. rewrite Hv. by eexists.
  - unfold handleRPCCall. rewrite Hv. by eexists.
  - unfold handleDescribeTable. rewrite (Hs _ Hv). by eexists.
  - apply checked_err. intros [r (? & ? & ? & (<- & Hb & _) & _)%search_request_Ok]. by rewrite (Hs _ Hv) in Hb.
  - apply checked_err. intros [r (? & ? & ? & (_ & _ & <- & Hb & _) & _)%search_request_Ok]. by rewrite (Hs _ Hv) in Hb.
  - apply checked_err. intros [r (? & ? & ? & (_ & _ & _ & _ & Hb & _) & _)%search_request_Ok]. by apply Hv in Hb.
  - apply checked_err. intros [r (? & ? & ? & ? & ? & (<- & Hb & _) & _)%upsert_request_Ok]. by rewrite (Hs _ Hv) in Hb.
  - apply checked_err. intros [r (? & ? & ? & ? & ? & (_ & _ & <- & Hb & _) & _)%upsert_request_Ok]. by rewrite (Hs _ Hv) in Hb.
  - apply checked_err. intros [r (? & ? & ? & ? & ? & (_ & _ & _ & _ & <- & Hb & _) & _)%upsert_request_Ok].
    by rewrite (Hs _ Hv) in Hb.
  - apply checked_err. intros [r (? & ? & ? & ? & ? & (_ & _ & _ & _ & _ & _ & Hb & _) & _)%upsert_request_Ok].
    by apply Hv in Hb.
Qed.

(** A tool reaches the database at most once. *)
Lemma tool_calls t args st : t ∈ tools d →
  (∃ r, tool_handler t args st = (st, r)) ∨
  (∃ f sql params key, tool_handler t args st = answer f (do_SQLExecute d sql params key st)) ∨
  (∃ procedure a, tool_handler t args st = answer JMap (do_RPCCall d procedure a st)) ∨
  tool_handler t args st = answer JMe (do_Me d st) ∨
  tool_handler t args st = answer health_result (do_Health d st).
Proof.
  intros Ht. unfold tools in Ht.
  repeat (apply elem_of_cons in Ht as [->|Ht]; [cbn [tool_handler] in *|]); try by inversion Ht.
  - unfold handleSQLExecute. case_match; [left; by eexists|right; left; by do 4 eexists].
  - unfold handleRPCCall. case_match; [left; by eexists|right; right; left; by do 2 eexists].
  - right; left. by do 4 eexists.
  - unfold handleDescribeTable. case_match; [left; by eexists|right; left; by do 4 eexists].
  - unfold handleVectorSearch, checked. destruct (search_request args) as [[sql ps]|]; [right; left; by do 4 eexists|left; by eexists].
  - unfold handleVectorUpsert, checked. destruct (upsert_request args) as [[sql ps]|]; [right; left; by do 4 eexists|left; by eexists].
  - do 3 right. by left.
  - by do 4 right.
Qed.
End ToolFacts.

(** ** Instances *)

Module McpDemo.
Definition unicode : UnicodeTables := {| is_print_high := fun _ => true |}.

(** Floats print as their integer part; conversions behave as on amd64. *)
Definition lib : McpLib := {|
  fmt_g f := match f with S754_finite s m e => Itoa (float_trunc s m e) | _ => bs "0" end;
  int_unrepresentable _ := min_int64;
  map_Marshal m := Ok (bs "{}");
  MarshalIndent v := Ok (bs "null");
|}.

(** A [Doer] that notes the statements it is given. *)
Definition noting : Doer (list (bytes * option (list any))) := {|
  do_SQLExecute sql params _ st :=
    (st ++ [(sql, params)], Ok {| sq_Command := bs "SELECT"; sq_Columns := []; sq_Rows := []; sq_RowsAffected := 0;
                                  sq_DurationMS := 0 |});
  do_RPCCall _ _ st := (st, Err ErrUnknownProcedure);
  do_Me st := (st, Err ErrKeyNotFound);
  do_Health st := (st, Ok {| he_Healthy := true; he_Ready := true; he_Detail := [] |});
|}.

Definition num (z : positive) : any := GFloat (S754_finite false z 0).

Definition row (id : bytes) : any :=
  GMap [(bs "id", GStr id); (bs "metadata", GMap []); (bs "vector", GSlice [num 1; num 2])].

Definition upsert (rows : list any) : gomap :=
  [(bs "table", GStr (bs "docs")); (bs "id_column", GStr (bs "id")); (bs "vector_column", GStr (bs "emb"));
   (bs "rows", GSlice rows)].

Definition search (k : any) : gomap :=
  [(bs "table", GStr (bs "docs")); (bs "vector_column", GStr (bs "emb"));
   (bs "query_embedding", GSlice [num 3; num 4]); (bs "k", k)].

(** 1e19, which an int64 cannot hold. *)
Definition huge : any := GFloat (S754_finite false 4882812500000000 11).
End McpDemo.

#[local] Existing Instance McpDemo.lib.

#[local] Existing Instance McpDemo.unicode.

Example upsert_two_rows :
  (handleVectorUpsert McpDemo.noting (McpDemo.upsert [McpDemo.row (bs "a"); McpDemo.row (bs "b")]) []).1 =
  [(bs "INSERT INTO " ++ [dq] ++ bs "docs" ++ [dq] ++ bs " (" ++ [dq] ++ bs "id" ++ [dq] ++ bs ", " ++ [dq] ++
    bs "metadata" ++ [dq] ++ bs ", " ++ [dq] ++ bs "emb" ++ [dq] ++
    bs ") VALUES ($1, $2::jsonb, $3::vector), ($4, $5::jsonb, $6::vector) ON CONFLICT (" ++ [dq] ++ bs "id" ++ [dq] ++
    bs ") DO UPDATE SET " ++ [dq] ++ bs "metadata" ++ [dq] ++ bs " = EXCLUDED." ++ [dq] ++ bs "metadata" ++ [dq] ++
    bs ", " ++ [dq] ++ bs "emb" ++ [dq] ++ bs " = EXCLUDED." ++ [dq] ++ bs "emb" ++ [dq],
    Some [GStr (bs "a"); GStr (bs "{}"); GStr (bs "[1,2]"); GStr (bs "b"); GStr (bs "{}"); GStr (bs "[1,2]")])].
Proof. by vm_compute. Qed.

Example upsert_bad_row :
  tr_Text (handleVectorUpsert McpDemo.noting (McpDemo.upsert [McpDemo.row (bs "a"); GMap []]) []).2 =
  bs "rows[1].id is required".
Proof. by vm_compute. Qed.

Example search_rejects_1001 :
  handleVectorSearch McpDemo.noting (McpDemo.search (McpDemo.num 1001)) [] = ([], errResult (bs "k must be <= 1000")).
Proof. by vm_compute. Qed.

(** The limit on k is checked after a conversion that can overflow: where it gives
    the least int, as on amd64, k = 1e19 passes the check and is sent as a negative
    LIMIT. *)
Theorem search_limit_overflow :
  (snd <$> (handleVectorSearch McpDemo.noting (McpDemo.search McpDemo.huge) []).1) =
  [Some [GStr (bs "[3,4]"); GInt min_int64]].
Proof. by vm_compute. Qed.
