(* ===== verification/McpDirect.v ===== *)
(** * cmd/server/direct_doer.go: the tools inside the gateway

    The [Doer] of the gateway's own MCP endpoint: it calls the validator, the
    executor and the dispatcher directly and writes the audit log. Its state is the
    gateway's and the entries handed to the audit writer. *)

From S2P Require Import Prelude GoStrings GoErrors SqlLex AuthKey ControlPlane AuthStore AuthMiddleware Tenant SqlValidator SqlExecutor HttpErrors Idempotency RpcDispatcher HttpApi AuditLog McpTools.

(** encoding/json between argument maps and the dispatcher's arguments, and of an
    RPC result into a map (nil for "null"). *)
Class DirectLib `{RpcLib any} : Type := {
  rpc_args : option gomap → args;
  Unmarshal_map : bytes → res error (option gomap);
}.

(** The readings of the clock during one call. *)
Record clock : Type := { ck_start : Z; ck_t0 : Z; ck_t1 : Z; ck_end : Z }.

Section Direct.
Context {S : Type} `{DirectLib, UuidLib, Gzip, UnicodeTables, PgQuery, McpLib}.
Variable srv : PgServer any S.
Variable marshal_row : list any → bytes.
Variable ping : S → option error.          (** [pool.Ping] *)

Record directDoer : Type := {
  dd_pool : bool;                          (** [d.pool != nil] *)
  dd_validator : ValidatorConfig;
  dd_executor : ExecutorConfig;
  dd_rpcDisp : Registry;
  dd_auditor : bool;                       (** [d.auditor != nil] *)
  dd_StatementTimeout : Z;
  dd_IdleInTxTimeout : Z;
}.

Record dstate : Type := {
  ds_gw : gateway (V := any) (S := S);
  ds_audits : list (AuditLog.Entry (V := any));
}.

Variable d : directDoer.
(** The context of the call: the authenticated workspace, the request id, the clock. *)
Variable ws : WorkspaceContext.
Variable rid : bytes.
Variable clk : clock.

Definition direct_audit (endpoint command sql : bytes) (params : option (list any)) (status : Z) (err : option error)
    (st : dstate) : dstate :=
  if negb (dd_auditor d) then st else
  let errCode := match err with Some e => pr_Title (MapError (Some e)) | None => [] end in
  {| ds_gw := ds_gw st;
     ds_audits := ds_audits st ++
       [ {| e_RequestID := rid; e_WorkspaceID := ws_WorkspaceID ws; e_KeyDBID := ws_KeyDBID ws;
            e_Endpoint := endpoint; e_Command := command; e_SQL := sql; e_Params := params;
            e_DurationMS := Milliseconds (ck_end clk - ck_start clk); e_StatusCode := status;
            e_ErrorCode := errCode; e_SQLState := []; e_ClientIP := [] |} ] |}.

Definition mcp_sql : bytes := bs "MCP sql_execute".
Definition mcp_rpc : bytes := bs "MCP rpc_call".

Definition mirror (resp : Response any) : SQLResult :=
  {| sq_Command := rp_Command resp; sq_Columns := rp_Columns resp; sq_Rows := rp_Rows resp;
     sq_RowsAffected := rp_RowsAffected resp; sq_DurationMS := rp_DurationMS resp |}.

Definition direct_SQLExecute (sql : bytes) (params : option (list any)) (_ : bytes) (st : dstate)
  : dstate * res error SQLResult :=
  let ps := default [] params in
  match Validate (dd_validator d) sql (length ps) with
  | Err err => (direct_audit mcp_sql [] sql params (pr_Status (MapError (Some err))) (Some err) st, Err err)
  | Ok vres =>
      let '(c, er) := Execute srv marshal_row (dd_executor d) (ck_t0 clk) (ck_t1 clk)
          {| ei_WorkspaceID := ws_WorkspaceID ws; ei_PgRole := ws_PgRole ws; ei_SQL := sql; ei_Params := ps;
             ei_Result := Some vres |} (gw_conn (ds_gw st)) in
      let st := {| ds_gw := {| gw_world := gw_world (ds_gw st); gw_conn := c |}; ds_audits := ds_audits st |} in
      match er with
      | Err err =>
          (direct_audit mcp_sql (r_Command vres) sql params (pr_Status (MapError (Some err))) (Some err) st, Err err)
      | Ok resp => (direct_audit mcp_sql (r_Command vres) sql params 200 None st, Ok (mirror resp))
      end
  end.

(** [[]any{args}]: a nil map marshals as null. *)
Definition audit_args (a : option gomap) : option (list any) :=
  Some [match a with Some m => GMap m | None => GNil end].

(** A NULL result is a nil [res.Result], the empty text here. *)
Definition direct_RPCCall (procedure : bytes) (a : option gomap) (st : dstate) : dstate * res error (option gomap) :=
  let '(g, r) := Call srv (dd_rpcDisp d) [] (ck_t0 clk) (ck_t1 clk)
      {| cl_WorkspaceID := ws_WorkspaceID ws; cl_PgRole := ws_PgRole ws; cl_Name := procedure; cl_Args := rpc_args a;
         cl_IdempotencyKey := []; cl_RequestHash := []; cl_StatementTimeout := dd_StatementTimeout d;
         cl_IdleInTxTimeout := dd_IdleInTxTimeout d |} (ds_gw st) in
  let st := {| ds_gw := g; ds_audits := ds_audits st |} in
  let audit := direct_audit mcp_rpc (bs "RPC") procedure (audit_args a) in
  match r with
  | Err err => (audit (pr_Status (MapError (Some err))) (Some err) st, Err err)
  | Ok res =>
      match (if str_eqb (cr_Result res) [] then Ok None else Unmarshal_map (cr_Result res)) with
      | Err err =>
          let unmarshalErr := wrapf (bs "unmarshal rpc result: ") err in
          (audit 500%Z (Some unmarshalErr) st, Err unmarshalErr)
      | Ok result => (audit 200%Z None st, Ok result)
      end
  end.

Definition direct_Me (st : dstate) : dstate * res error MeResult :=
  (st, Ok {| me_WorkspaceID := ws_WorkspaceID ws; me_KeyID := ws_KeyID ws; me_Role := ws_PgRole ws;
             me_Env := ws_Env ws |}).

Definition direct_Health (st : dstate) : dstate * res error HealthResult :=
  (st, Ok
    (if negb (dd_pool d)
     then {| he_Healthy := false; he_Ready := false; he_Detail := bs "database pool not initialized" |}
     else match ping (cn_state (gw_conn (ds_gw st))) with
          | Some err => {| he_Healthy := false; he_Ready := false;
                           he_Detail := bs "database ping failed: " ++ ErrorText err |}
          | None => {| he_Healthy := true; he_Ready := true; he_Detail := [] |}
          end)).

(** The interface, implemented. *)
Definition direct : Doer dstate :=
  {| do_SQLExecute := direct_SQLExecute; do_RPCCall := direct_RPCCall; do_Me := direct_Me; do_Health := direct_Health |}.

(** ** Isolation *)

(** What may happen on the tenant connection during a call: nothing, or one
    transaction that does the setup of [ws] and, if all of it succeeded, one
    statement in the session of that tenant. *)
Inductive tenant_run (log : list (cmd any)) : list (cmd any) → Prop :=
| run_none : tenant_run log log
| run_failed n fin st idle :
    (fin = [] ∧ n = 1 ∨ fin = [CRollback]) →
    tenant_run log (log ++ take n (CBegin :: setup_cmds (ws_WorkspaceID ws) (ws_PgRole ws) st idle) ++ fin)
| run_stmt m fin st idle :
    closing fin →
    (∀ does, session_of does (log ++ CBegin :: setup_cmds (ws_WorkspaceID ws) (ws_PgRole ws) st idle) =
      tenant_session (ws_WorkspaceID ws) (ws_PgRole ws) st idle) →
    tenant_run log
      ((log ++ CBegin :: setup_cmds (ws_WorkspaceID ws) (ws_PgRole ws) st idle) ++ m :: fin).

Lemma Execute_tenant_run ecfg t0 t1 sql params vres c c' r :
  in_int64 (ec_StatementTimeout ecfg) → in_int64 (ec_IdleInTxTimeout ecfg) →
  Execute srv marshal_row ecfg t0 t1
    {| ei_WorkspaceID := ws_WorkspaceID ws; ei_PgRole := ws_PgRole ws; ei_SQL := sql; ei_Params := params;
       ei_Result := Some vres |} c = (c', r) →
  tenant_run (cn_log c) (cn_log c').
Proof.
  intros Hst Hid E.
  apply Execute_trace with (r := vres) in E as [(-> & _)|[(n & -> & _)|(fin & -> & Hf & _ & Hs & _)]]; [| | |done].
  - apply (run_failed _ 1 [] 0 0). by left.
  - apply (run_failed _ (Datatypes.S n) [CRollback]). by right.
  - rewrite app_comm_cons, app_assoc. apply run_stmt; [done|]. intros does. by apply setup_session.
Qed.

Lemma Call_tenant_run reg attempts t0 t1 cin g g' r :
  in_int64 (cl_StatementTimeout cin) → in_int64 (cl_IdleInTxTimeout cin) →
  cl_WorkspaceID cin = ws_WorkspaceID ws → cl_PgRole cin = ws_PgRole ws →
  Call srv reg attempts t0 t1 cin g = (g', r) → tenant_run (cn_log (gw_conn g)) (cn_log (gw_conn g')).
Proof.
  intros Hst Hid Hw Hp E. apply Call_runs in E as [-> | (proc & rr & _ & Hr & _)]; [apply run_none|].
  apply run_trace in Hr as [(-> & _)|[(n & -> & _)|(aj & fin & -> & _ & Hf & _ & Hs)]]; unfold call_setup in *;
    rewrite ?Hw, ?Hp in *.
  - apply (run_failed _ 1 [] 0 0). by left.
  - apply (run_failed _ (Datatypes.S n) [CRollback]). by right.
  - rewrite app_comm_cons, app_assoc. apply run_stmt; [done|]. intros does. by apply setup_session.
Qed.

Hypothesis timeouts : in_int64 (ec_StatementTimeout (dd_executor d)) ∧ in_int64 (ec_IdleInTxTimeout (dd_executor d)) ∧
  in_int64 (dd_StatementTimeout d) ∧ in_int64 (dd_IdleInTxTimeout d).

Definition conn_log (st : dstate) : list (cmd any) := cn_log (gw_conn (ds_gw st)).

Lemma direct_audit_gw endpoint command sql params status err st :
  ds_gw (direct_audit endpoint command sql params status err st) = ds_gw st.
Proof. unfold direct_audit. by destruct (negb _). Qed.

Lemma SQLExecute_isolated sql params key st :
  tenant_run (conn_log st) (conn_log (direct_SQLExecute sql params key st).1).
Proof.
  unfold conn_log, direct_SQLExecute. destruct (Validate _ _ _) as [vres|err];
    [|cbn [fst]; rewrite direct_audit_gw; apply run_none].
  destruct (Execute _ _ _ _ _ _ _) as [c er] eqn:E.
  destruct timeouts as (Hst & Hid & _). pose proof (Execute_tenant_run _ _ _ _ _ _ _ _ _ Hst Hid E) as Hc.
  destruct er; cbn [fst]; by rewrite direct_audit_gw.
Qed.

Lemma RPCCall_isolated procedure a st : tenant_run (conn_log st) (conn_log (direct_RPCCall procedure a st).1).
Proof.
  unfold conn_log, direct_RPCCall. destruct (Call _ _ _ _ _ _ _) as [g r] eqn:E.
  destruct timeouts as (_ & _ & Hst & Hid). apply Call_tenant_run in E as Hc; [|done..].
  destruct r as [res|err]; [destruct (if str_eqb (cr_Result res) [] then _ else _)|]; cbn [fst]; by rewrite direct_audit_gw.
Qed.

Lemma answer_fst {St A} (f : A → json_value) (x : St * res error A) : (answer f x).1 = x.1.
Proof. by destruct x as [? []]. Qed.

Lemma tools_confined t args st :
  t ∈ tools direct → tenant_run (conn_log st) (conn_log (tool_handler t args st).1).
Proof.
  intros Ht. destruct (tool_calls direct t args st Ht)
    as [[r ->]|[(f & sql & params & key & ->)|[(procedure & a & ->)|[->| ->]]]]; rewrite ?answer_fst.
  - apply run_none.
  - apply SQLExecute_isolated.
  - apply RPCCall_isolated.
  - apply run_none.
  - apply run_none.
Qed.

(** Every tool of the MCP endpoint is confined to the caller's tenant:
    whatever tool is called with whatever arguments, and whatever the database
    answers, nothing reaches the tenant connection, or one transaction that sets
    up the caller's role and workspace, and runs one statement in that session if
    the setup succeeded. *)
Theorem tools_isolated t args st :
  t ∈ tools direct → tenant_run (conn_log st) (conn_log (tool_handler t args st).1).
Proof. apply tools_confined. Qed.

Lemma snoc_middle {A} (l s : list A) a q x : ∃ k, l ++ a :: s ++ [q; x] = k ++ [x].
Proof. exists (l ++ a :: s ++ [q]). rewrite <- app_assoc. simpl. by rewrite <- app_assoc. Qed.

(** A procedure whose result is JSON but no object runs and commits, and the tool
    reports an error. *)
Theorem rpc_non_object_result procedure a st g res e :
  Call srv (dd_rpcDisp d) [] (ck_t0 clk) (ck_t1 clk)
    {| cl_WorkspaceID := ws_WorkspaceID ws; cl_PgRole := ws_PgRole ws; cl_Name := procedure; cl_Args := rpc_args a;
       cl_IdempotencyKey := []; cl_RequestHash := []; cl_StatementTimeout := dd_StatementTimeout d;
       cl_IdleInTxTimeout := dd_IdleInTxTimeout d |} (ds_gw st) = (g, Ok res) →
  cr_Result res ≠ [] → Unmarshal_map (cr_Result res) = Err e →
  ds_gw (direct_RPCCall procedure a st).1 = g ∧ is_ok (direct_RPCCall procedure a st).2 = false ∧
  (g = ds_gw st ∨ ∃ log, conn_log (direct_RPCCall procedure a st).1 = log ++ [CCommit]).
Proof.
  clear timeouts. intros Hc Hne Hu. unfold conn_log, direct_RPCCall. rewrite Hc, (bool_decide_false _ Hne : str_eqb _ [] = false), Hu.
  cbn [fst snd]. rewrite direct_audit_gw. split; [done|]. split; [done|]. cbn [ds_gw].
  destruct (Call_cases _ _ _ _ _ _ _ _ _ Hc) as [[-> _]|(proc & _ & _ & _ & [[_ Hr]|[? _]])]; [by left| |done].
  right. unfold call_run in Hr. destruct (run _ _ _ _) as [c [raw|]] eqn:E; [|done]. injection Hr as <- _. cbn [gw_conn].
  apply run_trace in E as [(_ & ?)|[(n & _ & ?)|(aj & fin & -> & _ & _ & Hf & _)]]; [done|done|].
  rewrite (Hf eq_refl). apply snoc_middle.
Qed.
End Direct.

(** ** The same as the REST API *)

Section Rest.
Context {S : Type} `{DirectLib, UuidLib, Gzip, UnicodeTables, PgQuery, McpLib, !ApiJson (V := any)}.
Variable srv : PgServer any S.
Variable marshal_row : list any → bytes.

(** The fields both audit entries have. *)
Definition same_entry (en : HttpApi.Entry (V := any)) (e : AuditLog.Entry (V := any)) : Prop :=
  en_RequestID en = e_RequestID e ∧ en_WorkspaceID en = e_WorkspaceID e ∧ en_KeyDBID en = e_KeyDBID e ∧
  en_Command en = e_Command e ∧ en_SQL en = e_SQL e ∧ en_Params en = default [] (e_Params e) ∧
  en_StatusCode en = e_StatusCode e ∧ en_ErrorCode en = e_ErrorCode e.

(** The response fits the limit of the REST API. *)
Definition fits (cfg : api_config) (resp : Response any) : Prop :=
  (ac_MaxResponseBodyBytes cfg ≤ 0 ∨ Z.of_nat (length (encode_response resp)) ≤ ac_MaxResponseBodyBytes cfg)%Z.

(** What the REST API answers instead of a response over the limit. *)
Definition response_too_large : Problem :=
  mk_problem (bs "response_too_large") 413 (bs "serialized response exceeds AGENTCOOPDB_MAX_RESPONSE_BODY_BYTES") [].

(** The two sides of a statement that succeeded: the response the result mirrors,
    with the same audit entry; or, over the limit, a problem and an audit entry with
    status 413 on one side, and the result and an entry with status 200 on the
    other. *)
Definition same_success (cfg : api_config) (effs : list (effect (V := any))) (resp : Response any)
    (en : HttpApi.Entry (V := any)) (e : AuditLog.Entry (V := any)) : Prop :=
  e_StatusCode e = 200%Z ∧
  (fits cfg resp ∧ responses effs = [(200%Z, encode_response resp)] ∧ same_entry en e ∨
   ¬ fits cfg resp ∧ responses effs = [(413%Z, encode_problem response_too_large ++ newline)] ∧ en_StatusCode en = 413%Z).

Lemma Validate_mapped cfg sql n err : Validate cfg sql n = Err err → pr_Status (MapError (Some err)) = 400%Z.
Proof. unfold Validate. intros Hx. repeat (case_match; try done); by simplify_eq. Qed.

(** The two paths of a statement, side by side. *)
Lemma rest_of_direct d ws clk cfg rq attempts body sql params key st g' effs st' r :
  hr_Body rq = Ok body → decode_sql body = Ok (sql, default [] params) → hr_IdempotencyKey rq = [] →
  ac_validator cfg = dd_validator d → ac_executor cfg = dd_executor d → dd_auditor d = true →
  HttpApi.handleSQLExecute srv marshal_row cfg ws rq attempts (ck_t0 clk) (ck_t1 clk) (ds_gw st) = (g', effs) →
  direct_SQLExecute srv marshal_row d ws (hr_RequestID rq) clk sql params key st = (st', r) →
  ds_gw st' = g' ∧
  ∃ en e, audits effs = [en] ∧ ds_audits st' = ds_audits st ++ [e] ∧
  match r with
  | Err err => responses effs = [(pr_Status (MapError (Some err)), encode_problem (MapError (Some err)) ++ newline)] ∧
               same_entry en e
  | Ok res => ∃ resp, res = mirror resp ∧ same_success cfg effs resp en e
  end.
Proof.
  intros Hb Hd Hk Hv He Ha Hr Hx. unfold HttpApi.handleSQLExecute in Hr. rewrite Hb, Hd, Hv, Hk in Hr.
  unfold direct_SQLExecute in Hx. cbn [str_eqb] in Hr. rewrite str_eqb_refl in Hr.
  destruct (Validate _ _ _) as [vres|err] eqn:Ev.
  - unfold sql_run in Hr. rewrite He in Hr. destruct (Execute _ _ _ _ _ _ _) as [c [resp|err]].
    + injection Hx as <- <-. rewrite direct_audit_gw. cbn [ds_gw].
      unfold complete_if in Hr. rewrite Hk, str_eqb_refl in Hr. destruct (_ && _) eqn:El in Hr; injection Hr as <- <-.
      * split; [done|]. eexists _, _. split; [done|]. unfold direct_audit. rewrite Ha. split; [done|]. exists resp.
        split; [done|]. split; [done|]. right. split; [|done]. unfold fits. go_bool. lia.
      * split; [done|]. eexists _, _. split; [done|]. unfold direct_audit. rewrite Ha. split; [done|]. exists resp.
        split; [done|]. split; [done|]. left. split; [|done]. unfold fits.
        apply andb_false_iff in El as [El|El]; go_bool; lia.
    + injection Hx as <- <-. rewrite direct_audit_gw. cbn [ds_gw].
      unfold complete_if in Hr. rewrite Hk, str_eqb_refl in Hr. injection Hr as <- <-.
      split; [done|]. eexists _, _. split; [done|]. unfold direct_audit. rewrite Ha. done.
  - injection Hx as <- <-. injection Hr as <- <-. rewrite direct_audit_gw. split; [done|].
    eexists _, _. split; [done|]. unfold direct_audit. rewrite Ha. split; [done|].
    split; [done|]. repeat split. symmetry. by eapply Validate_mapped.
Qed.

(** C19: The in-process tools against the REST API: for a statement sent without
    idempotency key, both leave the databases in the same state and write one audit
    entry each. An error of one is the problem the other reports. A result mirrors
    the response of the other, unless that is over MAX_RESPONSE_BODY_BYTES: then the
    REST API answers and audits 413, while the in-process call returns the result and
    audits 200. Otherwise the audit entries agree up to the endpoint, the SQLSTATE,
    the client address and the duration. *)
Theorem direct_matches_rest d ws clk cfg rq attempts body sql params key st g' effs st' r :
  hr_Body rq = Ok body → decode_sql body = Ok (sql, default [] params) → hr_IdempotencyKey rq = [] →
  ac_validator cfg = dd_validator d → ac_executor cfg = dd_executor d → dd_auditor d = true →
  HttpApi.handleSQLExecute srv marshal_row cfg ws rq attempts (ck_t0 clk) (ck_t1 clk) (ds_gw st) = (g', effs) →
  direct_SQLExecute srv marshal_row d ws (hr_RequestID rq) clk sql params key st = (st', r) →
  ds_gw st' = g' ∧
  ∃ en e, audits effs = [en] ∧ ds_audits st' = ds_audits st ++ [e] ∧
  match r with
  | Err err => responses effs = [(pr_Status (MapError (Some err)), encode_problem (MapError (Some err)) ++ newline)] ∧
               same_entry en e
  | Ok res => ∃ resp, res = mirror resp ∧ same_success cfg effs resp en e
  end.
Proof. apply rest_of_direct. Qed.
End Rest.

(** ** Instances *)

Module DirectDemo.
#[local] Existing Instance text_uuid.

Definition rpc : RpcLib any := {|
  schema := unit; args := option gomap;
  schema_Validate _ _ := None;
  args_Marshal _ := Ok (bs "{}");
  args_any a := match a with Some m => GMap m | None => GNil end;
  scan_bytes _ := Ok (bs "null");
  marshal_call name result ms := name;
|}.

Definition lib : @DirectLib rpc := {|
  rpc_args a := a : @args any rpc;
  Unmarshal_map b := if str_eqb b (bs "null") then Ok None else Err (errors_New (bs "not an object"));
|}.

(** Every query has one row. *)
Definition server : PgServer any unit := {|
  srv_exec _ s := (s, Ok 1%Z);
  srv_query _ _ s := (s, Ok {| rs_columns := [bs "c"]; rs_rows := [Ok [GStr (bs "v")]]; rs_err := None |});
|}.

#[local] Existing Instance rpc.

Definition json : ApiJson (V := any) := {|
  decode_sql b := Ok (b, [GNil; GNil]);
  decode_rpc b := Ok (b, None);
  decode_create _ := Err (errors_New (bs "EOF"));
  encode_response r := bs "{}";
  encode_problem p := pr_Title p;
  encode_call r := cr_Result r;
  encode_rotate r := rk_Token r;
  encode_me ws := ws_KeyID ws;
|}.

Definition doer : directDoer :=
  {| dd_pool := true; dd_validator := ValidatorDemo.cfg; dd_executor := ExecDemo.cfg; dd_rpcDisp := NewRegistry;
     dd_auditor := true; dd_StatementTimeout := second; dd_IdleInTxTimeout := second |}.

Definition clk : clock := {| ck_start := 0; ck_t0 := 1; ck_t1 := 2; ck_end := 3 |}.

Definition st0 : dstate (S := unit) :=
  {| ds_gw := {| gw_world := Demo.w0; gw_conn := {| cn_state := tt; cn_log := [] |} |}; ds_audits := [] |}.

Definition sql_args : gomap := [(bs "sql", GStr ValidatorDemo.select2); (bs "params", GSlice [GNil; GNil])].

Definition request : http_request :=
  {| hr_Method := bs "POST"; hr_Path := bs "/v1/sql/execute"; hr_IdempotencyKey := []; hr_Body := Ok ValidatorDemo.select2;
     hr_RemoteAddr := bs "10.0.0.1:4711"; hr_RequestID := bs "r" |}.
End DirectDemo.

#[local] Existing Instance text_uuid.
#[local] Existing Instance DirectDemo.rpc.
#[local] Existing Instance DirectDemo.lib.
#[local] Existing Instance IdemDemo.gz.
#[local] Existing Instance ValidatorDemo.unicode.
#[local] Existing Instance ValidatorDemo.parser.
#[local] Existing Instance DirectDemo.json.
#[local] Existing Instance McpDemo.lib.

Lemma tools_isolated_witness :
  ∃ t, tool_name t = bs "sql_execute" ∧
    let log := conn_log (tool_handler t DirectDemo.sql_args DirectDemo.st0).1 in
    length log = 8 ∧ tenant_run (ApiDemo.ws (bs "dbuser")) (conn_log DirectDemo.st0) log.
Proof.
  set (dd := direct DirectDemo.server (fun _ => []) (fun _ => None) DirectDemo.doer (ApiDemo.ws (bs "dbuser")) (bs "r")
               DirectDemo.clk).
  eexists {| tool_name := bs "sql_execute"; tool_handler := McpTools.handleSQLExecute dd |}.
  split; [reflexivity|]. cbn zeta. split; [by vm_compute|].
  apply (tools_isolated DirectDemo.server (fun _ => []) (fun _ => None) DirectDemo.doer (ApiDemo.ws (bs "dbuser")) (bs "r")
    DirectDemo.clk).
  - apply (bool_decide_unpack _). by vm_compute.
  - left.
Defined.

Lemma direct_matches_rest_witness :
  ∃ g' effs st' r,
    HttpApi.handleSQLExecute DirectDemo.server (fun _ => []) ApiDemo.cfg (ApiDemo.ws (bs "dbuser")) DirectDemo.request
      [] 1 2 (ds_gw DirectDemo.st0) = (g', effs) ∧
    direct_SQLExecute DirectDemo.server (fun _ => []) DirectDemo.doer (ApiDemo.ws (bs "dbuser")) (bs "r") DirectDemo.clk
      ValidatorDemo.select2 (Some [GNil; GNil]) [] DirectDemo.st0 = (st', r) ∧
    is_ok r = true ∧ ds_gw st' = g'.
Proof.
  destruct (HttpApi.handleSQLExecute DirectDemo.server (fun _ => []) ApiDemo.cfg (ApiDemo.ws (bs "dbuser")) DirectDemo.request
      [] 1 2 (ds_gw DirectDemo.st0)) as [g' effs] eqn:E1.
  destruct (direct_SQLExecute DirectDemo.server (fun _ => []) DirectDemo.doer (ApiDemo.ws (bs "dbuser")) (bs "r") DirectDemo.clk
      ValidatorDemo.select2 (Some [GNil; GNil]) [] DirectDemo.st0) as [st' r] eqn:E2.
  exists g', effs, st', r. split; [reflexivity|]. split; [reflexivity|]. split.
  - apply (f_equal (fun p => is_ok p.2)) in E2. cbn [snd] in E2. rewrite <- E2. by vm_compute.
  - apply (direct_matches_rest DirectDemo.server (fun _ => []) DirectDemo.doer (ApiDemo.ws (bs "dbuser")) DirectDemo.clk
      ApiDemo.cfg DirectDemo.request [] ValidatorDemo.select2 ValidatorDemo.select2 (Some [GNil; GNil]) [] DirectDemo.st0
      g' effs st' r); [reflexivity|reflexivity|reflexivity|reflexivity|reflexivity|reflexivity|exact E1|exact E2].
Defined.
