(* ===== verification/McpClient.v ===== *)
(** * internal/mcp/client.go: the tools outside the gateway

    The [Doer] of the standalone MCP binary: an HTTP client of the gateway. The
    network is a transport that answers requests and has a state of its own;
    encoding/json and the parsing of URLs are parameters. The last part puts the
    client in front of the REST handler, over a transport that treats headers and
    bodies as net/http does. *)

From S2P Require Import Prelude GoStrings GoErrors SqlLex AuthKey ControlPlane AuthStore AuthMiddleware Tenant SqlValidator SqlExecutor HttpErrors Idempotency RpcDispatcher HttpApi AuditLog McpTools McpDirect.

(** ** Requests and responses of net/http *)

Definition header : Type := list (bytes * bytes).

(** [h.Get(key)] *)
Fixpoint header_get (h : header) (key : bytes) : bytes :=
  match h with
  | [] => []
  | (k, v) :: h' => if str_eqb k key then v else header_get h' key
  end.

(** [h.Set(key, value)], for keys in canonical form. *)
Fixpoint header_set (h : header) (key value : bytes) : header :=
  match h with
  | [] => [(key, value)]
  | (k, v) :: h' => if str_eqb k key then (key, value) :: h' else (k, v) :: header_set h' key value
  end.

Record request : Type := {
  q_Method : bytes;
  q_URL : bytes;
  q_Header : header;
  q_Body : bytes;
}.

(** A response: the bytes its body yields, then the end or an error. *)
Record response : Type := {
  p_StatusCode : Z;
  p_Body : bytes;
  p_BodyErr : option error;
}.

(** [io.ReadAll(io.LimitReader(body, n))] *)
Definition ReadLimited (n : Z) (p : response) : res error bytes :=
  if (n <=? Z.of_nat (length (p_Body p)))%Z then Ok (take (Z.to_nat n) (p_Body p))
  else match p_BodyErr p with
       | Some e => Err e
       | None => Ok (p_Body p)
       end.

(** What net/http does to the value of a header: a value with a control character
    other than a tab is refused (httpguts.ValidHeaderFieldValue), *)
Definition is_ctl (b : byte) : bool := (bz b <? 0x20)%Z || (bz b =? 0x7f)%Z.

Definition ValidHeaderFieldValue (v : bytes) : bool := forallb (fun b => negb (is_ctl b) || Byte.eqb b x09) v.
#[global] Arguments ValidHeaderFieldValue : simpl never.

(** and what is sent is trimmed (textproto.TrimString). *)
Definition is_ascii_space (b : byte) : bool := existsb (Byte.eqb b) [x20; x09; x0a; x0d].

Fixpoint drop_spaces (s : bytes) : bytes :=
  match s with
  | b :: s' => if is_ascii_space b then drop_spaces s' else s
  | [] => []
  end.

Definition TrimString (s : bytes) : bytes := rev (drop_spaces (rev (drop_spaces s))).

Definition sendable (rq : request) : bool := forallb (fun '(_, v) => ValidHeaderFieldValue v) (q_Header rq).

(** ** The client *)

Record ClientConfig : Type := { cc_GatewayURL : bytes; cc_APIKey : bytes }.

Record Client : Type := { cl_baseURL : bytes; cl_apiKey : bytes; cl_userAgent : bytes }.

(** The fields of a [GatewayError] a problem body sets. *)
Record gateway_error : Type := { ge_Title : bytes; ge_Detail : bytes; ge_Status : Z; ge_SQLState : bytes }.

(** encoding/json on the bodies, [http.StatusText], and the error with which
    [http.NewRequestWithContext] refuses a URL. *)
Class ClientLib : Type := {
  body_Marshal : gomap → res error bytes;
  into_SQLResult : bytes → res error SQLResult;
  into_map : bytes → res error (option gomap);
  into_Me : bytes → res error MeResult;
  into_raw : bytes → res error unit;
  (** [_ = json.Unmarshal(respBody, ge)] *)
  into_problem : bytes → gateway_error → gateway_error;
  StatusText : Z → bytes;
  url_error : bytes → option error;
}.

(** [NewClient(cfg)] with the version of the build; [Err] is the panic. *)
Definition NewClient (version : bytes) (cfg : ClientConfig) : res bytes Client :=
  if str_eqb (cc_GatewayURL cfg) [] then Err (bs "mcp.NewClient: GatewayURL is required")
  else if str_eqb (cc_APIKey cfg) [] then Err (bs "mcp.NewClient: APIKey is required")
  else Ok {| cl_baseURL := TrimRightByte (cc_GatewayURL cfg) "/"; cl_apiKey := cc_APIKey cfg;
             cl_userAgent := bs "agentic-coop-db-mcp/" ++ version |}.

Definition maxResponseSize : Z := Z.shiftl 10 20.

Section Client.
Context `{UnicodeTables, ClientLib} {St : Type}.
(** [c.httpClient.Do(req)] *)
Variable transport : request → St → St * res error response.
Variable c : Client.

Definition setCommonHeaders (h : header) : header :=
  header_set (header_set h (bs "Authorization") (bs "Bearer " ++ cl_apiKey c)) (bs "User-Agent") (cl_userAgent c).

(** The decoding of a response read in full: [empty] is the zero value of [dest]. *)
Definition decode_response {A : Type} (empty : A) (into : bytes → res error A) (p : response) : res error A :=
  match ReadLimited maxResponseSize p with
  | Err err => Err (wrapf (bs "read response: ") err)
  | Ok respBody =>
      if (400 <=? p_StatusCode p)%Z then
        let ge := {| ge_Title := []; ge_Detail := []; ge_Status := p_StatusCode p; ge_SQLState := [] |} in
        let ge := if (0 <? length respBody)%nat then into_problem respBody ge else ge in
        let title := if str_eqb (ge_Title ge) [] then StatusText (p_StatusCode p) else ge_Title ge in
        Err (GatewayError title (ge_Detail ge) (ge_Status ge) (ge_SQLState ge))
      else if (0 <? length respBody)%nat then res_map_err (wrapf (bs "decode response: ")) (into respBody)
      else Ok empty
  end.

Definition doAndDecode {A : Type} (req : request) (empty : A) (into : bytes → res error A) (st : St)
  : St * res error A :=
  match transport req st with
  | (st, Err err) => (st, Err (wrapf (bs "http request: ") err))
  | (st, Ok p) => (st, decode_response empty into p)
  end.

Definition post_request (path jsonBody : bytes) (extraHeaders : header) : request :=
  {| q_Method := bs "POST"; q_URL := cl_baseURL c ++ path;
     q_Header := fold_left (fun h '(k, v) => header_set h k v) extraHeaders
                   (setCommonHeaders [(bs "Content-Type", bs "application/json")]);
     q_Body := jsonBody |}.

Definition post {A : Type} (path : bytes) (body : gomap) (extraHeaders : header) (empty : A)
    (into : bytes → res error A) (st : St) : St * res error A :=
  match body_Marshal body with
  | Err err => (st, Err (wrapf (bs "marshal request: ") err))
  | Ok jsonBody =>
      match url_error (cl_baseURL c ++ path) with
      | Some err => (st, Err (wrapf (bs "create request: ") err))
      | None => doAndDecode (post_request path jsonBody extraHeaders) empty into st
      end
  end.

Definition get_request (path : bytes) : request :=
  {| q_Method := bs "GET"; q_URL := cl_baseURL c ++ path; q_Header := setCommonHeaders []; q_Body := [] |}.

Definition get {A : Type} (path : bytes) (empty : A) (into : bytes → res error A) (st : St) : St * res error A :=
  match url_error (cl_baseURL c ++ path) with
  | Some err => (st, Err (wrapf (bs "create request: ") err))
  | None => doAndDecode (get_request path) empty into st
  end.

Definition zero_SQLResult : SQLResult :=
  {| sq_Command := []; sq_Columns := []; sq_Rows := []; sq_RowsAffected := 0; sq_DurationMS := 0 |}.
Definition zero_Me : MeResult := {| me_WorkspaceID := []; me_KeyID := []; me_Role := []; me_Env := [] |}.

Definition sql_body (sql : bytes) (params : option (list any)) : gomap :=
  (bs "sql", GStr sql) :: match params with Some ps => [(bs "params", GSlice ps)] | None => [] end.

Definition sql_headers (idempotencyKey : bytes) : header :=
  if str_eqb idempotencyKey [] then [] else [(bs "Idempotency-Key", idempotencyKey)].

Definition client_SQLExecute (sql : bytes) (params : option (list any)) (idempotencyKey : bytes) (st : St)
  : St * res error SQLResult :=
  post (bs "/v1/sql/execute") (sql_body sql params) (sql_headers idempotencyKey) zero_SQLResult into_SQLResult st.

Definition client_RPCCall (procedure : bytes) (a : option gomap) (st : St) : St * res error (option gomap) :=
  post (bs "/v1/rpc/call")
    ((bs "procedure", GStr procedure) :: match a with Some m => [(bs "args", GMap m)] | None => [] end)
    [] None into_map st.

Definition client_Me (st : St) : St * res error MeResult := get (bs "/v1/me") zero_Me into_Me st.

Definition client_Health (st : St) : St * res error HealthResult :=
  let '(st, healthErr) := get (bs "/healthz") tt into_raw st in
  let '(st, readyErr) := get (bs "/readyz") tt into_raw st in
  (st, Ok {| he_Healthy := is_ok healthErr; he_Ready := is_ok readyErr;
             he_Detail := match healthErr, readyErr with
                          | Err e, _ => bs "healthz: " ++ ErrorText e
                          | Ok _, Err e => bs "readyz: " ++ ErrorText e
                          | Ok _, Ok _ => []
                          end |}).

(** The interface, implemented. *)
Definition client : Doer St :=
  {| do_SQLExecute := client_SQLExecute; do_RPCCall := client_RPCCall; do_Me := client_Me; do_Health := client_Health |}.
End Client.

(** ** What the client sends *)

Lemma header_get_set h k v k' : header_get (header_set h k v) k' = if str_eqb k k' then v else header_get h k'.
Proof.
  induction h as [|[k0 v0] h IH]; cbn [header_set header_get]; [by destruct (str_eqb k k')|].
  destruct (str_eqb k0 k) eqn:E; cbn [header_get]; [go_bool; subst; by destruct (str_eqb k k')|].
  rewrite IH. destruct (str_eqb k0 k') eqn:E'; [|done]. destruct (str_eqb k k') eqn:E''; [|done].
  go_bool. congruence.
Qed.

Section ClientFacts.
Context `{UnicodeTables, ClientLib, McpLib} {St : Type}.
Variable transport : request → St → St * res error response.
Variable c : Client.

Definition known_paths : list bytes :=
  [bs "/v1/sql/execute"; bs "/v1/rpc/call"; bs "/v1/me"; bs "/healthz"; bs "/readyz"].

(** A request of the client: to a path of the gateway, with the key and the
    content type, and nothing but an idempotency key besides. *)
Definition well_sent (rq : request) : Prop :=
  ∃ path, q_URL rq = cl_baseURL c ++ path ∧
    path ∈ known_paths ∧
    header_get (q_Header rq) (bs "Authorization") = bs "Bearer " ++ cl_apiKey c ∧
    header_get (q_Header rq) (bs "User-Agent") = cl_userAgent c ∧
    (q_Method rq = bs "POST" ∧ header_get (q_Header rq) (bs "Content-Type") = bs "application/json" ∨
     q_Method rq = bs "GET" ∧ q_Body rq = []).

Lemma post_well_sent path body key :
  path ∈ known_paths →
  well_sent (post_request c path body (sql_headers key)).
Proof.
  intros Hp. exists path. split; [done|]. split; [done|]. unfold post_request, sql_headers, setCommonHeaders.
  destruct (str_eqb key []); cbn [q_Header q_Method fold_left]; rewrite !header_get_set; split; [|split|split|split]; by auto.
Qed.

Lemma get_well_sent path :
  path ∈ known_paths →
  well_sent (get_request c path).
Proof.
  intros Hp. exists path. split; [done|]. split; [done|]. unfold get_request, setCommonHeaders.
  cbn [q_Header q_Method q_Body]. rewrite !header_get_set. auto.
Qed.

(** An invariant of the network under the requests of the client. *)
Variable I : St → Prop.
Hypothesis transport_I : ∀ rq st, well_sent rq → I st → I (transport rq st).1.

Lemma doAndDecode_I {A} rq (e : A) into st : well_sent rq → I st → I (doAndDecode transport rq e into st).1.
Proof. intros Hw Hi. pose proof (transport_I rq st Hw Hi) as Ht. unfold doAndDecode. by destruct (transport rq st) as [? []]. Qed.

Lemma post_I {A} path body key (e : A) into st :
  path ∈ known_paths →
  I st → I (post transport c path body (sql_headers key) e into st).1.
Proof.
  intros Hp Hi. unfold post. destruct (body_Marshal body) as [js|]; [|done]. destruct (url_error _); [done|].
  apply doAndDecode_I; [|done]. by apply post_well_sent.
Qed.

Lemma get_I {A} path (e : A) into st :
  path ∈ known_paths →
  I st → I (get transport c path e into st).1.
Proof.
  intros Hp Hi. unfold get. destruct (url_error _); [done|]. apply doAndDecode_I; [|done]. by apply get_well_sent.
Qed.

(** Whatever tool is called with whatever arguments, the standalone server
    talks to the gateway only with requests to its five known paths under the
    configured URL, each carrying the configured API key as bearer token: any
    property of the network that such requests preserve holds after the call. *)
Theorem client_requests t args st :
  t ∈ tools (client transport c) → I st → I (tool_handler t args st).1.
Proof.
  intros Ht Hi. destruct (tool_calls (client transport c) t args st Ht)
    as [[r ->]|[(f & sql & params & key & ->)|[(procedure & a & ->)|[->| ->]]]]; rewrite ?answer_fst; cbn [fst].
  - done.
  - apply post_I; [|done]. left.
  - apply (post_I _ _ []); [|done]. by do 1 right; left.
  - apply get_I; [|done]. by do 2 right; left.
  - cbn [do_Health client]. unfold client_Health.
    pose proof (get_I (bs "/healthz") tt into_raw st ltac:(by do 3 right; left) Hi) as Hh.
    destruct (get transport c (bs "/healthz") tt into_raw st) as [st1 r1]. cbn [fst] in Hh.
    pose proof (get_I (bs "/readyz") tt into_raw st1 ltac:(by do 4 right; left) Hh) as Hr.
    by destruct (get transport c (bs "/readyz") tt into_raw st1).
Qed.
End ClientFacts.

(** ** The size of what is decoded *)

Lemma ReadLimited_le n p b : (0 ≤ n)%Z → ReadLimited n p = Ok b → (Z.of_nat (length b) ≤ n)%Z ∧ b = take (length b) (p_Body p).
Proof.
  intros Hn. unfold ReadLimited. destruct (Z.leb_spec n (Z.of_nat (length (p_Body p)))).
  - intros [= <-]. rewrite length_take. split; [lia|]. f_equal. lia.
  - destruct (p_BodyErr p); [done|]. intros [= <-]. split; [lia|]. by rewrite take_ge.
Qed.


(** ** The standalone client against the REST API *)

Section Remote.
Context {S : Type} `{DirectLib, UuidLib, Gzip, UnicodeTables, PgQuery, McpLib, ClientLib, !ApiJson (V := any)}.
Variable srv : PgServer any S.
Variable marshal_row : list any → bytes.
Variable cfg : api_config.
Variable ws : WorkspaceContext.
Variable clk : clock.
Variables remote rid : bytes.
Variable attempts : list (Z * uuid).     (** clock readings and fresh ids of the idempotency store *)

Variable maxBody : Z.                    (** AGENTCOOPDB_MAX_REQUEST_BODY_BYTES *)

(** The request the REST handler is given for a request of the client: headers
    trimmed on the way, the body read through [http.MaxBytesReader], the /v1 prefix
    stripped by the server. *)
Definition rest_request (rq : request) : http_request :=
  {| hr_Method := q_Method rq; hr_Path := bs "/sql/execute";
     hr_IdempotencyKey := TrimString (header_get (q_Header rq) (bs "Idempotency-Key"));
     hr_Body := if (Z.of_nat (length (q_Body rq)) <=? Z.max 0 maxBody)%Z then Ok (q_Body rq)
                else Err (errors_New (bs "http: request body too large"));
     hr_RemoteAddr := remote; hr_RequestID := rid |}.

(** The gateway as the transport of POST /v1/sql/execute: a request that can be sent
    reaches the handler, past authentication and the rate limiter, and its response
    is sent back. *)
Definition rest_transport (rq : request) (g : gateway (V := any) (S := S)) : gateway * res error response :=
  if negb (sendable rq) then (g, Err (errors_New (bs "net/http: invalid header field value"))) else
  let '(g', effs) := HttpApi.handleSQLExecute srv marshal_row cfg ws (rest_request rq) attempts (ck_t0 clk) (ck_t1 clk) g in
  (g', match responses effs with
       | (status, body) :: _ => Ok {| p_StatusCode := status; p_Body := body; p_BodyErr := None |}
       | [] => Err (errors_New (bs "EOF"))
       end).






End Remote.

(** ** Retries *)

Section Retry.
Context {S : Type} `{DirectLib, UuidLib, Gzip, UnicodeTables, PgQuery, McpLib, ClientLib, !ApiJson (V := any)}.
Variable srv : PgServer any S.
Variable marshal_row : list any → bytes.

Lemma post_request_headers c path js key :
  q_Header (post_request c path js (sql_headers key)) =
  q_Header (post_request c path js []) ++ (if str_eqb key [] then [] else [(bs "Idempotency-Key", key)]).
Proof. unfold sql_headers. by destruct (str_eqb key []). Qed.

(** The key of a statement, as it arrives. *)
Lemma post_request_key c path js key :
  header_get (q_Header (post_request c path js (sql_headers key))) (bs "Idempotency-Key") = key.
Proof.
  unfold post_request, sql_headers. cbn [q_Header]. destruct (str_eqb key []) eqn:Ek; [go_bool; by subst|].
  cbn [fold_left]. by rewrite header_get_set, str_eqb_refl.
Qed.

(** A statement of the client reaches the gateway as one request with its key,
    trimmed, or not at all. *)
Lemma client_SQLExecute_request cfg ws clk remote rid attempts maxBody c sql params key (g g' : gateway (V := any) (S := S)) r :
  client_SQLExecute (rest_transport srv marshal_row cfg ws clk remote rid attempts maxBody) c sql params key g = (g', r) →
  g' = g ∨ ∃ rq effs, hr_IdempotencyKey rq = TrimString key ∧
    HttpApi.handleSQLExecute srv marshal_row cfg ws rq attempts (ck_t0 clk) (ck_t1 clk) g = (g', effs).
Proof.
  unfold client_SQLExecute, post. destruct (body_Marshal _) as [js|]; [|intros [= <- _]; by left].
  destruct (url_error _); [intros [= <- _]; by left|]. unfold doAndDecode, rest_transport.
  set (rq := post_request c _ js _). destruct (negb (sendable rq)); [intros [= <- _]; by left|].
  destruct (HttpApi.handleSQLExecute _ _ _ _ _ _ _ _ _) as [g1 effs] eqn:E.
  intros Hx. right. exists (rest_request remote rid maxBody rq), effs. split.
  - unfold rest_request. cbn [hr_IdempotencyKey]. subst rq. by rewrite post_request_key.
  - rewrite E. by destruct (responses effs) as [|[]]; simplify_eq.
Qed.

(** A key of blanks is no key: the client sends it, nothing of it arrives, and the
    statement runs as one without a key, every time it is sent. *)
Theorem blank_key_ignored cfg ws clk remote rid attempts maxBody c sql params key (g : gateway (V := any) (S := S)) :
  TrimString key = [] → ValidHeaderFieldValue key = true →
  client_SQLExecute (rest_transport srv marshal_row cfg ws clk remote rid attempts maxBody) c sql params key g =
  client_SQLExecute (rest_transport srv marshal_row cfg ws clk remote rid attempts maxBody) c sql params [] g.
Proof.
  intros Ht Hval. unfold client_SQLExecute, post. destruct (body_Marshal _) as [js|]; [|done].
  destruct (url_error _); [done|]. unfold doAndDecode, rest_transport.
  set (rq := post_request c _ js (sql_headers key)). set (rq0 := post_request c _ js (sql_headers [])).
  assert (rest_request remote rid maxBody rq = rest_request remote rid maxBody rq0) as Heq.
  { unfold rest_request. subst rq rq0. rewrite !post_request_key, Ht. done. }
  assert (sendable rq = sendable rq0) as Hs.
  { unfold sendable. subst rq rq0. rewrite post_request_headers. change (sql_headers []) with ([] : header).
    destruct (str_eqb key []); [by rewrite app_nil_r|]. rewrite forallb_app. cbn [forallb]. by rewrite Hval, !andb_true_r. }
  by rewrite Heq, Hs.
Qed.

(** The handler of sql_execute gives up, or runs one statement with the key. *)
Lemma handleSQLExecute_key {St} (d : Doer St) args st key :
  map_get args (bs "idempotency_key") = Some (GStr key) →
  (McpTools.handleSQLExecute d args st).1 = st ∨
  ∃ sql params, (McpTools.handleSQLExecute d args st).1 = (do_SQLExecute d sql params key st).1.
Proof.
  intros Hk. unfold McpTools.handleSQLExecute. destruct (str_eqb _ []); [by left|]. right.
  rewrite answer_fst. unfold get_string at 2. rewrite Hk. by do 2 eexists.
Qed.

(** C17: An agent may retry: if a call of the sql_execute tool with an idempotency
    key that is not blank reached the tenant database through the standalone server,
    another call with the same key, up to blanks around it, from the same workspace
    does not, whatever its other arguments are and whatever the gateways did to the
    key in between, until a clock passes the expiry 24 hours after the first. *)
Theorem tool_retry_safe cfg cfg' ws ws' clk clk' remote remote' rid rid' attempts attempts' maxBody maxBody' c c' args args'
    key key' (g g1 g2 : gateway (V := any) (S := S)) ops :
  map_get args (bs "idempotency_key") = Some (GStr key) → map_get args' (bs "idempotency_key") = Some (GStr key') →
  TrimString key ≠ [] → TrimString key' = TrimString key → ws_WorkspaceID ws' = ws_WorkspaceID ws →
  (McpTools.handleSQLExecute (client (rest_transport srv marshal_row cfg ws clk remote rid attempts maxBody) c) args g).1 = g1 →
  gw_conn g1 ≠ gw_conn g →
  Forall (before (w_dbnow (gw_world g) + hours24)) ops →
  w_db (gw_world g2) = run_idem (w_db (gw_world g1)) ops →
  Forall (fun a => (a.1 ≤ w_dbnow (gw_world g) + hours24)%Z) attempts' →
  gw_conn (McpTools.handleSQLExecute
    (client (rest_transport srv marshal_row cfg' ws' clk' remote' rid' attempts' maxBody') c') args' g2).1 = gw_conn g2.
Proof.
  intros Ha Ha' Hk Hkk Hws Hg1 Hran Hops Hd Hatt.
  set (d1 := client _ c) in Hg1. set (d2 := client _ c').
  destruct (handleSQLExecute_key d1 args g key Ha) as [He|(sql & ps & He)]; [congruence|].
  rewrite He in Hg1. subst d1. cbn [do_SQLExecute client] in Hg1.
  destruct (client_SQLExecute _ c sql ps key g) as [g1' r1] eqn:E1. cbn [fst] in Hg1. subst g1'.
  apply client_SQLExecute_request in E1 as [->|(rq & effs & Hrk & E1)]; [done|].
  destruct (handleSQLExecute_key d2 args' g2 key' Ha') as [He'|(sql' & ps' & He')]; rewrite He'; [done|].
  subst d2. cbn [do_SQLExecute client]. destruct (client_SQLExecute _ c' sql' ps' key' g2) as [g3 r3] eqn:E3. cbn [fst].
  apply client_SQLExecute_request in E3 as [->|(rq' & effs' & Hrk' & E3)]; [done|].
  refine (sql_once srv marshal_row _ _ _ _ _ _ _ _ _ _ _ _ _ _ _ _ _ _ _ _ _ Hws E1 Hran Hops Hd Hatt E3); congruence.
Qed.
End Retry.

(** ** Instances *)

Module ClientDemo.
#[local] Existing Instance text_uuid.
#[local] Existing Instance DirectDemo.rpc.

(** A body is its statement; every result is the one row of [DirectDemo.server]. *)
Definition lib : ClientLib := {|
  body_Marshal m := Ok (get_string m (bs "sql"));
  into_SQLResult b := Ok {| sq_Command := bs "SELECT"; sq_Columns := [bs "c"]; sq_Rows := [[GStr (bs "v")]];
                            sq_RowsAffected := 1; sq_DurationMS := 0 |};
  into_map b := Ok None;
  into_Me b := Err (errors_New (bs "EOF"));
  into_raw b := Ok tt;
  into_problem b ge := ge;
  StatusText _ := bs "Error";
  url_error _ := None;
|}.

Definition cl : Client :=
  match NewClient (bs "dev") {| cc_GatewayURL := bs "https://db.example//"; cc_APIKey := bs "acd_live_k" |} with
  | Ok c => c
  | Err _ => {| cl_baseURL := []; cl_apiKey := []; cl_userAgent := [] |}
  end.

Example base_trimmed : cl_baseURL cl = bs "https://db.example".
Proof. by vm_compute. Qed.

(** A network that notes the requests it carries and is always down. *)
Definition down (rq : request) (log : list request) : list request * res error response :=
  (log ++ [rq], Err (errors_New (bs "connection refused"))).

Definition me : WorkspaceContext := ApiDemo.ws (bs "dbuser").
Definition keyed (key : bytes) : gomap := (bs "idempotency_key", GStr key) :: DirectDemo.sql_args.
End ClientDemo.

#[local] Existing Instance text_uuid.
#[local] Existing Instance DirectDemo.rpc.
#[local] Existing Instance DirectDemo.lib.
#[local] Existing Instance IdemDemo.gz.
#[local] Existing Instance ValidatorDemo.unicode.
#[local] Existing Instance ValidatorDemo.parser.
#[local] Existing Instance DirectDemo.json.
#[local] Existing Instance McpDemo.lib.
#[local] Existing Instance ClientDemo.lib.

Lemma client_requests_witness :
  ∃ t, tool_name t = bs "health" ∧
    let log := (tool_handler t [] []).1 in length log = 2 ∧ Forall (well_sent ClientDemo.cl) log.
Proof.
  eexists {| tool_name := bs "health"; tool_handler := handleHealth (client ClientDemo.down ClientDemo.cl) |}.
  split; [reflexivity|]. cbn zeta. split; [by vm_compute|].
  apply (client_requests ClientDemo.down ClientDemo.cl (Forall (well_sent ClientDemo.cl))).
  - intros rq log Hw Hl. apply Forall_app. split; [exact Hl|]. constructor; [exact Hw|constructor].
  - do 7 right. left.
  - constructor.
Defined.


(** The tool, run against one gateway. *)
Definition tool_run (key : bytes) (g : gateway (V := any) (S := unit)) : gateway (V := any) (S := unit) :=
  (McpTools.handleSQLExecute (client (rest_transport DirectDemo.server (fun _ => []) ApiDemo.cfg ClientDemo.me
     DirectDemo.clk [] (bs "r") [(0%Z, Demo.uid (bs "i"))] 1000) ClientDemo.cl) (ClientDemo.keyed key) g).1.

Lemma tool_retry_safe_witness :
  let g1 := tool_run (bs "K") (ds_gw DirectDemo.st0) in
  length (cn_log (gw_conn g1)) = 8 ∧ gw_conn (tool_run (bs " K") g1) = gw_conn g1.
Proof.
  cbn zeta. split; [by vm_compute|].
  eapply (tool_retry_safe DirectDemo.server (fun _ => []) ApiDemo.cfg ApiDemo.cfg ClientDemo.me ClientDemo.me DirectDemo.clk
    DirectDemo.clk [] [] (bs "r") (bs "r") [(0%Z, Demo.uid (bs "i"))] [(0%Z, Demo.uid (bs "i"))] 1000 1000 ClientDemo.cl ClientDemo.cl
    (ClientDemo.keyed (bs "K")) (ClientDemo.keyed (bs " K")) (bs "K") (bs " K") (ds_gw DirectDemo.st0) _ _ []);
    [reflexivity|reflexivity|discriminate|reflexivity|reflexivity|reflexivity| |constructor|reflexivity| ].
  - intros Hg. apply (f_equal (fun c => length (cn_log c))) in Hg. vm_compute in Hg. discriminate Hg.
  - repeat constructor. by vm_compute.
Defined.

(** With a blank as key the second call runs the statement once more. *)
Lemma blank_key_ignored_witness :
  let g1 := tool_run (bs " ") (ds_gw DirectDemo.st0) in
  length (cn_log (gw_conn g1)) = 8 ∧ length (cn_log (gw_conn (tool_run (bs " ") g1))) = 16 ∧
  ∀ sql params g,
    client_SQLExecute (rest_transport DirectDemo.server (fun _ => []) ApiDemo.cfg ClientDemo.me DirectDemo.clk [] (bs "r") [] 1000)
      ClientDemo.cl sql params (bs " ") g =
    client_SQLExecute (rest_transport DirectDemo.server (fun _ => []) ApiDemo.cfg ClientDemo.me DirectDemo.clk [] (bs "r") [] 1000)
      ClientDemo.cl sql params [] g.
Proof.
  cbn zeta. split; [by vm_compute|]. split; [by vm_compute|]. intros sql params g.
  apply (blank_key_ignored DirectDemo.server (fun _ => []) ApiDemo.cfg ClientDemo.me DirectDemo.clk [] (bs "r") [] 1000
    ClientDemo.cl sql params (bs " ") g); reflexivity.
Defined.
