(* ===== verification/ServerMain.v ===== *)
(** * cmd/server/main.go: starting, serving and stopping the gateway

    [run] over the components it wires together: the configuration, the owner's
    connection and the migrations, the pool and the registry. What it does that
    can be seen is a list of events, each recorded once it succeeded; when the
    server stops, and how the shutdowns go, is an input. *)

From Stdlib Require Import Floats.SpecFloat.
From S2P Require Import Prelude GoStrings GoErrors SqlLex GoTime Config AuthKey Lru AuthCache ControlPlane AuthStore AuthMiddleware Tenant SqlValidator SqlExecutor HttpErrors Idempotency RpcDispatcher RpcBuiltins HttpApi AuditLog Migrate Pool McpTools McpDirect.

(** ** isLocalAddr *)

Definition isLocalAddr (addr : bytes) : bool :=
  if str_eqb addr [] then false
  else existsb (HasPrefix addr) [bs "localhost:"; bs "127.0.0.1:"; bs "[::1]:"].

(** ** truncate: a prefix of the bytes and an ellipsis *)

Definition ellipsis : bytes := [xe2; x80; xa6].

Definition truncate (s : bytes) (n : Z) : bytes :=
  if (Z.of_nat (length s) <=? n)%Z then s else take (Z.to_nat (n - 1)) s ++ ellipsis.

(** ** Starting *)

Section Run.
Context {S D : Type} `{SchemaCompiler any, NetUrl, UnicodeTables, GoTime, FloatParser, PgxPool}.
Context {LK : LRU cachedKey}.
Variable owner : OwnerServer S.
Variable lib : MigrateLib D.
Variable files : Files.
Variable rpc_files : RpcFiles.

Inductive event : Type :=
| EvOwnerRole
| EvMigrated
| EvPassword
| EvPool (e : pool_event)
| EvListen (addr : bytes)
| EvMcpShutdown
| EvHttpShutdown.

Record host : Type := {
  h_owner : owner_conn S;
  h_db : D;
  h_events : list event;
}.

Definition emit (e : event) (h : host) : host :=
  {| h_owner := h_owner h; h_db := h_db h; h_events := h_events h ++ [e] |}.

(** A step of the start-up on the owner's connection or the migrated database. *)
Definition on_owner (f : owner_conn S → owner_conn S * option error) (pre : bytes) (e : event) (h : host)
  : host * res error unit :=
  let '(o, err) := f (h_owner h) in
  let h := {| h_owner := o; h_db := h_db h; h_events := h_events h |} in
  match err with
  | Some err => (h, Err (wrapf pre err))
  | None => (emit e h, Ok tt)
  end.

Definition on_db (f : D → D * option error) (pre : bytes) (e : event) (h : host) : host * res error unit :=
  let '(d, err) := f (h_db h) in
  let h := {| h_owner := h_owner h; h_db := d; h_events := h_events h |} in
  match err with
  | Some err => (h, Err (wrapf pre err))
  | None => (emit e h, Ok tt)
  end.

(** Sequence with early return. *)
Definition then_ {A : Type} (x : host → host * res error unit) (k : host → host * res error A) (h : host)
  : host * res error A :=
  match x h with
  | (h, Err err) => (h, Err err)
  | (h, Ok _) => k h
  end.

Definition skip (h : host) : host * res error unit := (h, Ok tt).

(** From "Migrations FIRST" to [migrationsApplied.Store(true)]. *)
Definition migrate_steps (cfg : Config) : host → host * res error unit :=
  if MigrateOnStart cfg then
    then_ (on_owner (EnsureOwnerRole owner (MigrationsDatabaseURL cfg) (OwnerPassword cfg)) (bs "ensure owner role: ") EvOwnerRole)
          (on_db (RunMigrations lib files (MigrationsDatabaseURL cfg) (OwnerPassword cfg)) (bs "migrate: ") EvMigrated)
  else skip.

Definition password_step (cfg : Config) : host → host * res error unit :=
  if negb (str_eqb (GatewayPassword cfg) []) then
    on_owner (SetRolePassword owner (MigrationsDatabaseURL cfg) (OwnerPassword cfg) (bs "agentcoopdb_gateway")
                (GatewayPassword cfg)) (bs "set gateway password: ") EvPassword
  else skip.

Definition pool_input (cfg : Config) : PoolConfig :=
  {| pl_URL := DatabaseURL cfg; pl_Password := GatewayPassword cfg; pl_MaxConns := DatabaseMaxConns cfg;
     pl_MinConns := DatabaseMinConns cfg; pl_ConnLifetime := DatabaseConnLifetime cfg |}.

Definition open_pool (cfg : Config) (h : host) : host * res error pool :=
  let '(log, r) := OpenPool (pool_input cfg) [] in
  ({| h_owner := h_owner h; h_db := h_db h; h_events := h_events h ++ (EvPool <$> log) |},
   res_map_err (wrapf (bs "db: ")) r).

(** ** Wiring *)

(** The fields [run] sets of its [http.Server]; what the timeouts do is net/http's. *)
Record http_Server : Type := {
  hs_Addr : bytes;
  hs_ReadHeaderTimeout : Z;
  hs_ReadTimeout : Z;
  hs_WriteTimeout : Z;
  hs_IdleTimeout : Z;
}.

Definition http_server_of (cfg : Config) : http_Server :=
  {| hs_Addr := HTTPAddr cfg; hs_ReadHeaderTimeout := ReadHeaderTimeout cfg; hs_ReadTimeout := ReadTimeout cfg;
     hs_WriteTimeout := WriteTimeout cfg; hs_IdleTimeout := IdleTimeout cfg |}.

Record Server : Type := {
  sv_cfg : Config;
  sv_pool : pool;
  sv_cache : VerifyCache;
  sv_auditor : Writer;
  sv_api : api_config;
  sv_registry : Registry (V := any);
  sv_mcp : option directDoer;
}.

Definition validator_of (cfg : Config) : ValidatorConfig :=
  NewValidator {| vcfg_MaxStatementBytes := MaxStatementBytes cfg; vcfg_MaxStatementParams := MaxStatementParams cfg |}.

Definition executor_of (cfg : Config) : ExecutorConfig :=
  NewExecutor {| ec_StatementTimeout := StatementTimeout cfg; ec_IdleInTxTimeout := IdleInTxTimeout cfg;
                 ec_MaxResponseBytes := MaxResponseBodyBytes cfg |}.

Definition api_of (cfg : Config) : api_config :=
  {| ac_validator := validator_of cfg; ac_executor := executor_of cfg;
     ac_MaxResponseBodyBytes := MaxResponseBodyBytes cfg; ac_StatementTimeout := StatementTimeout cfg;
     ac_IdleInTxTimeout := IdleInTxTimeout cfg; ac_KeyRotateOverlap := KeyRotateOverlap cfg |}.

Definition doer_of (cfg : Config) (reg : Registry) : directDoer :=
  {| dd_pool := true; dd_validator := validator_of cfg; dd_executor := executor_of cfg; dd_rpcDisp := reg;
     dd_auditor := true; dd_StatementTimeout := StatementTimeout cfg; dd_IdleInTxTimeout := IdleInTxTimeout cfg |}.

Definition build (cfg : Config) (p : pool) : res error Server :=
  let! reg := res_map_err (wrapf (bs "rpc registry: ")) (LoadBuiltins rpc_files NewRegistry) in
  Ok {| sv_cfg := cfg; sv_pool := p; sv_cache := NewVerifyCache (AuthCacheSize cfg) (AuthCacheTTL cfg);
        sv_auditor := NewWriter true (AuditDisabled cfg) (AuditIncludeSQL cfg); sv_api := api_of cfg;
        sv_registry := reg; sv_mcp := if MCPEnabled cfg then Some (doer_of cfg reg) else None |}.

(** ** Serving and stopping *)

(** What ends the [select]: a signal, or [ListenAndServe] failing or closed; then
    how the two shutdowns end. *)
Inductive stop : Type :=
| Signal
| ListenFailed (err : error)
| ListenClosed.

Record ending : Type := { en_stop : stop; en_mcp : option error; en_http : option error }.

(** From [ListenAndServe] to the end; the deferred [pool.Close] comes last. A
    failed MCP shutdown is only logged. *)
Definition serve_until (sv : Server) (e : ending) (h : host) : host * option error :=
  let h := emit (EvListen (hs_Addr (http_server_of (sv_cfg sv)))) h in
  match en_stop e with
  | ListenFailed err => (emit (EvPool PoolClosed) h, Some err)
  | Signal | ListenClosed =>
      let h := match sv_mcp sv with Some _ => emit EvMcpShutdown h | None => h end in
      let h := emit EvHttpShutdown h in
      (emit (EvPool PoolClosed) h,
       match en_http e with Some err => Some (wrapf (bs "shutdown: ") err) | None => None end)
  end.

Definition plaintext_refused : error :=
  errors_New (bs "plaintext HTTP on a non-localhost address requires AGENTCOOPDB_INSECURE_HTTP=1").

(** [run()] *)
Definition run (env : Environment) (e : ending) (h : host) : host * option error :=
  match Load env with
  | Err err => (h, Some (wrapf (bs "config: ") err))
  | Ok cfg =>
      if negb (InsecureHTTP cfg) && negb (isLocalAddr (HTTPAddr cfg)) then (h, Some plaintext_refused) else
      match then_ (migrate_steps cfg) (then_ (password_step cfg) (open_pool cfg)) h with
      | (h, Err err) => (h, Some err)
      | (h, Ok p) =>
          match build cfg p with
          | Err err => (emit (EvPool PoolClosed) h, Some err)
          | Ok sv => serve_until sv e h
          end
      end
  end.

(** ** readyz and healthz: the status code and the fields of the body *)

Definition readyz (migrationsApplied : bool) (p : pool) : Z * list (bytes * bytes) :=
  if negb migrationsApplied
  then (503%Z, [(bs "status", bs "starting"); (bs "reason", bs "migrations not yet applied")])
  else match pool_Ping p with
       | Some err => (503%Z, [(bs "status", bs "degraded"); (bs "reason", bs "database ping failed");
                              (bs "error", ErrorText err)])
       | None => (200%Z, [(bs "status", bs "ready")])
       end.
End Run.

(** ** The order of the start-up *)

Section RunFacts.
Context {S D : Type} `{SchemaCompiler any, NetUrl, UnicodeTables, GoTime, FloatParser, PgxPool}.
Context {LK : LRU cachedKey}.
Variable owner : OwnerServer S.
Variable lib : MigrateLib D.
Variable files : Files.
Variable rpc_files : RpcFiles.

(** A stage records a prefix of its events, all of them if it succeeds. *)
Definition emits {A : Type} (x : host (S := S) (D := D) → host * res error A) (es : list event) : Prop :=
  ∀ (h h' : host (S := S) (D := D)) r, x h = (h', r) →
    ∃ n, h_events h' = h_events h ++ take n es ∧ (is_ok r = true → take n es = es).

Lemma emits_on_owner f pre e : emits (on_owner f pre e) [e].
Proof.
  intros h h' r. unfold on_owner. destruct (f (h_owner h)) as [o [err|]]; intros [= <- <-];
    [exists 0|exists 1]; simpl; by rewrite ?app_nil_r.
Qed.

Lemma emits_on_db f pre e : emits (on_db f pre e) [e].
Proof.
  intros h h' r. unfold on_db. destruct (f (h_db h)) as [d [err|]]; intros [= <- <-];
    [exists 0|exists 1]; simpl; by rewrite ?app_nil_r.
Qed.

Lemma emits_skip : emits skip [].
Proof. intros h h' r [= <- <-]. exists 0. simpl. by rewrite app_nil_r. Qed.

Lemma emits_then {A} x (y : host → host * res error A) es fs : emits x es → emits y fs → emits (then_ x y) (es ++ fs).
Proof.
  intros Hx Hy h h' r. unfold then_. destruct (x h) as [h1 r1] eqn:E. destruct (Hx _ _ _ E) as (n & Hn & Hok).
  destruct r1 as [u|err].
  - intros Hk. destruct (Hy _ _ _ Hk) as (m & Hm & Hok'). exists (length es + m). rewrite Hm, Hn, (Hok eq_refl), <- app_assoc.
    rewrite take_app_add. split; [done|]. intros Hr. by rewrite (Hok' Hr).
  - intros [= <- <-]. exists (n `min` length es). rewrite Hn. split; [|done]. f_equal.
    rewrite take_app_le by lia. destruct (decide (n ≤ length es)); [by rewrite Nat.min_l by lia|].
    by rewrite !take_ge by lia.
Qed.

(** What is done before the pool is opened. *)
Definition prepared (cfg : Config) : list event :=
  (if MigrateOnStart cfg then [EvOwnerRole; EvMigrated] else []) ++
  (if negb (str_eqb (GatewayPassword cfg) []) then [EvPassword] else []).

Lemma emits_prepare cfg :
  emits (then_ (migrate_steps owner lib files cfg) (password_step owner cfg)) (prepared cfg).
Proof.
  unfold prepared, migrate_steps, password_step.
  destruct (MigrateOnStart cfg), (negb _);
    repeat first [apply emits_then | apply (emits_then _ _ [EvOwnerRole] [EvMigrated]) | apply emits_on_owner
                 | apply emits_on_db | apply emits_skip].
Qed.

Lemma then_assoc {A} x y (k : host (S := S) (D := D) → host * res error A) h :
  then_ x (then_ y k) h = then_ (then_ x y) k h.
Proof. unfold then_. by destruct (x h) as [h1 [u|e]]. Qed.

(** Pools opened and not closed. *)
Definition open_pools (es : list event) : Z :=
  foldr (fun e n => match e with EvPool (PoolOpened _) => n + 1 | EvPool PoolClosed => n - 1 | _ => n end)%Z 0%Z es.

Lemma open_pools_app a b : open_pools (a ++ b) = (open_pools a + open_pools b)%Z.
Proof. induction a as [|e a IH]; [done|]. simpl. rewrite IH. destruct e as [| | |[]| | |]; lia. Qed.

Lemma prepared_quiet cfg n : open_pools (take n (prepared cfg)) = 0%Z ∧ ∀ addr, EvListen addr ∉ take n (prepared cfg).
Proof.
  assert (Forall (fun e => match e with EvOwnerRole | EvMigrated | EvPassword => True | _ => False end) (prepared cfg)) as Hf.
  { unfold prepared. destruct (MigrateOnStart cfg), (negb _); by repeat constructor. }
  apply (Forall_take _ n) in Hf. induction Hf as [|e es He _ IH]; [split; [done|]; by intros ? ?%elem_of_nil|].
  destruct IH as [IH1 IH2]. split; [by destruct e|]. intros addr [<-|Hin]%elem_of_cons; [done|]. by destruct (IH2 addr).
Qed.

(** The events of a run: a stage that failed, or a whole life. *)
Lemma run_events env e h h' err :
  run owner lib files rpc_files env e h = (h', err) →
  ∃ t, h_events h' = h_events h ++ t ∧
    (t = [] ∧ h' = h ∧ is_Some err ∨
     (∃ cfg n, t = take n (prepared cfg) ∧ is_Some err) ∨
     (∃ cfg c ok, t = prepared cfg ++ [EvPool (PoolOpened c); EvPool (PoolPinged ok); EvPool PoolClosed] ∧ is_Some err) ∨
     ∃ cfg c reg, Load env = Ok cfg ∧ LoadBuiltins rpc_files NewRegistry = Ok reg ∧
       (InsecureHTTP cfg = true ∨ isLocalAddr (HTTPAddr cfg) = true) ∧
       t = prepared cfg ++ [EvPool (PoolOpened c); EvPool (PoolPinged true); EvListen (HTTPAddr cfg)] ++
           (match en_stop e with
            | ListenFailed _ => []
            | _ => (if MCPEnabled cfg then [EvMcpShutdown] else []) ++ [EvHttpShutdown]
            end) ++ [EvPool PoolClosed] ∧
       (err = None ↔ en_http e = None ∧ ∀ x, en_stop e ≠ ListenFailed x)).
Proof.
  unfold run. destruct (Load env) as [cfg|e0] eqn:EL; [|intros [= <- <-]; exists []; rewrite app_nil_r; naive_solver].
  destruct (_ && _) eqn:Ep; [intros [= <- <-]; exists []; rewrite app_nil_r; naive_solver|].
  rewrite then_assoc. unfold then_ at 1. destruct (then_ _ _ h) as [h1 r1] eqn:E1.
  destruct (emits_prepare cfg _ _ _ E1) as (n & Hn & Hok).
  destruct r1 as [u|e1]; [|intros [= <- <-]; exists (take n (prepared cfg)); naive_solver].
  rewrite (Hok eq_refl) in Hn. clear Hok n. unfold open_pool.
  destruct (OpenPool (pool_input cfg) []) as [log r] eqn:Eo. apply OpenPool_log in Eo.
  destruct r as [p|e2].
  - destruct Eo as [c ->]. cbn [res_map_err]. destruct (build rpc_files cfg p) as [sv|e3] eqn:Eb.
    + intros Hx. apply res_bind_ok in Eb as (reg & Hreg & [= <-]).
      destruct (LoadBuiltins rpc_files NewRegistry) as [reg'|] eqn:Er; [|done]. simplify_eq/=.
      unfold serve_until in Hx. cbn [sv_cfg sv_mcp] in Hx.
      eexists. split; [|right; right; right; exists cfg, c, reg; split; [done|]; split; [done|]; split;
        [by apply andb_false_iff in Ep as [?%negb_false_iff|?%negb_false_iff]; auto|]; split; [reflexivity|]].
      * destruct (en_stop e), (MCPEnabled cfg); simplify_eq/=; rewrite Hn, <- !app_assoc; done.
      * destruct (en_stop e), (en_http e); simplify_eq/=; naive_solver.
    + intros [= <- <-]. cbn [emit h_events]. rewrite Hn. eexists. split; [by rewrite <- !app_assoc|]. right; right; left.
      by exists cfg, c, true.
  - intros [= <- <-]. cbn [h_events]. rewrite Hn. eexists. split; [by rewrite <- !app_assoc|]. destruct Eo as [->|[c ->]].
    + right; left. exists cfg, (length (prepared cfg)). by rewrite take_ge, app_nil_r.
    + right; right; left. by exists cfg, c, false.
Qed.

(** C25: The gateway listens only when everything before succeeded: a run that
    opens the port has loaded a configuration that allows plaintext HTTP or binds a
    local address, has created the owner role and applied the migrations (if
    configured), has set the gateway's password (if there is one) and has a pool
    that answered a ping, in this order; and then it shuts the MCP streams down before the
    HTTP server and closes the pool last, unless the port could not be opened. *)
Theorem run_listens_last env e h h' err addr :
  run owner lib files rpc_files env e h = (h', err) →
  EvListen addr ∈ drop (length (h_events h)) (h_events h') →
  ∃ cfg c, Load env = Ok cfg ∧ addr = HTTPAddr cfg ∧ (InsecureHTTP cfg = true ∨ isLocalAddr addr = true) ∧
    h_events h' = h_events h ++ prepared cfg ++ [EvPool (PoolOpened c); EvPool (PoolPinged true); EvListen addr] ++
      (match en_stop e with
       | ListenFailed _ => []
       | _ => (if MCPEnabled cfg then [EvMcpShutdown] else []) ++ [EvHttpShutdown]
       end) ++ [EvPool PoolClosed].
Proof.
  intros (t & -> & Ht)%run_events. rewrite drop_app_length. intros Hin.
  destruct Ht as [(-> & _)|[(cfg & n & -> & _)|[(cfg & c & ok & -> & _)|(cfg & c & reg & HL & _ & Hl & -> & _)]]].
  - by apply elem_of_nil in Hin.
  - by apply prepared_quiet in Hin.
  - apply elem_of_app in Hin as [Hin|Hin]; [|set_unfold in Hin; naive_solver].
    rewrite <- (take_ge (prepared cfg) (length (prepared cfg))) in Hin by done. by apply prepared_quiet in Hin.
  - assert (addr = HTTPAddr cfg) as ->; [|by exists cfg, c].
    apply elem_of_app in Hin as [Hin|Hin].
    + rewrite <- (take_ge (prepared cfg) (length (prepared cfg))) in Hin by done. by apply prepared_quiet in Hin.
    + destruct (en_stop e), (MCPEnabled cfg); set_unfold in Hin; naive_solver.
Qed.

(** No run leaks the pool, and it reports what happened: whatever fails and
    whenever, every pool opened has been closed when [run] returns; it returns nil
    only for a server that was stopped and shut down cleanly. *)
Theorem run_closes_pool env e h h' err :
  run owner lib files rpc_files env e h = (h', err) →
  open_pools (h_events h') = open_pools (h_events h) ∧
  (err = None → en_http e = None ∧ (en_stop e = Signal ∨ en_stop e = ListenClosed) ∧
     ∃ addr, EvListen addr ∈ drop (length (h_events h)) (h_events h')).
Proof.
  intros (t & -> & Ht)%run_events. rewrite open_pools_app, drop_app_length.
  assert (∀ cfg, open_pools (prepared cfg) = 0%Z) as Hp.
  { intros cfg. rewrite <- (take_ge (prepared cfg) (length (prepared cfg))) by done. apply prepared_quiet. }
  destruct Ht as [(-> & _ & [x ->])|[(cfg & n & -> & [x ->])|[(cfg & c & ok & -> & [x ->])|(cfg & c & reg & HL & _ & Hl & -> & He)]]].
  - split; [simpl; lia|done].
  - split; [|done]. rewrite (proj1 (prepared_quiet cfg n)). lia.
  - split; [|done]. rewrite open_pools_app, Hp. simpl. lia.
  - split.
    + rewrite open_pools_app, Hp. destruct (en_stop e), (MCPEnabled cfg); simpl; lia.
    + intros [Hh Hs]%He. split; [done|]. split; [destruct (en_stop e); naive_solver|].
      exists (HTTPAddr cfg). set_solver.
Qed.

(** With nothing but a database configured, the server does not start: the
    default address is not local and plaintext HTTP is not allowed by default. *)
Theorem defaults_refused env e h :
  Getenv env (bs "AGENTCOOPDB_DATABASE_URL") ≠ [] →
  (∀ k, k ≠ bs "AGENTCOOPDB_DATABASE_URL" → Getenv env k = []) →
  run owner lib files rpc_files env e h = (h, Some plaintext_refused).
Proof.
  intros Hd Hu. unfold run.
  assert (∃ cfg, Load env = Ok cfg ∧ HTTPAddr cfg = bs ":8080" ∧ InsecureHTTP cfg = false) as (cfg & -> & Ha & Hi).
  { unfold Load. rewrite (bool_decide_false _ Hd : str_eqb _ [] = false). cbn [negb].
    unfold envDuration, envInt, envInt32, envInt64, envFloat64, envParse, envOr, envBool, loadSecretFromFile.
    rewrite !Hu by (apply (bool_decide_unpack _); by vm_compute). cbn. by eexists. }
  rewrite Ha, Hi. done.
Qed.
End RunFacts.

(** ** Local addresses *)

Lemma LastIndexByte_Some s c i : LastIndexByte s c = Some i → s !! i = Some c.
Proof.
  unfold LastIndexByte. destruct (IndexByte (rev s) c) as [j|] eqn:E; [|done]. intros [= <-].
  apply IndexByte_Some in E as (u & t & Hr & <- & _).
  assert (s = rev t ++ c :: rev u) as ->.
  { rewrite <- (rev_involutive s), Hr, rev_app_distr. simpl. by rewrite <- app_assoc. }
  rewrite length_app. cbn [length]. rewrite !length_rev.
  replace (length t + Datatypes.S (length u) - 1 - length u)%nat with (length (rev t)) by (rewrite length_rev; lia).
  by rewrite list_lookup_middle.
Qed.

Lemma local_host p t host :
  has_byte p ":" = false → HasPrefix (p ++ ":"%byte :: t) (bs "[") = false →
  SplitHost (p ++ ":"%byte :: t) = Some host → host = p.
Proof.
  intros Hp Hb. unfold SplitHost. destruct (LastIndexByte _ ":") as [i|] eqn:Ei; [|done]. rewrite Hb.
  apply LastIndexByte_Some in Ei. destruct (has_byte (take i _) ":") eqn:Eh; [done|].
  destruct (_ || _); [done|]. intros [= <-].
  assert (∀ s, has_byte s ":" = false → ":"%byte ∉ s) as Hnot.
  { intros s Hs Hin. apply list_elem_of_split in Hin as (a & b & ->). unfold has_byte in Hs.
    clear Eh Ei Hp Hb. induction a as [|x a IH]; simpl in Hs; [done|]. destruct (byte_eqb x ":"); [done|].
    destruct (IndexByte (a ++ ":"%byte :: b) ":"); [done|]. by apply IH. }
  apply Hnot in Hp. apply Hnot in Eh.
  destruct (Nat.lt_trichotomy i (length p)) as [Hlt|[->|Hgt]].
  - rewrite lookup_app_l in Ei by done. by apply list_elem_of_lookup_2 in Ei.
  - apply take_app_length.
  - exfalso. apply Eh. replace i with (length p + Datatypes.S (i - length p - 1))%nat by lia.
    rewrite take_app_add. cbn [take]. set_solver.
Qed.

(** An address the gateway accepts without opting in to plaintext HTTP is on
    the loopback interface: when net/http can split it into host and port at all,
    the host is localhost, 127.0.0.1 or ::1. An address without a host, which
    binds every interface, is not accepted. *)
Theorem isLocalAddr_loopback addr :
  isLocalAddr addr = true →
  (∀ host, SplitHost addr = Some host → host ∈ [bs "localhost"; bs "127.0.0.1"; bs "::1"]) ∧
  (∀ t, addr ≠ ":"%byte :: t) ∧ addr ≠ [].
Proof.
  unfold isLocalAddr. destruct (str_eqb addr []) eqn:E0; [done|]. go_bool. cbn [existsb].
  assert (∀ p, HasPrefix addr p = true → ∃ t, addr = p ++ t) as Hpre by (intros p; apply HasPrefix_spec).
  intros [Hx|[Hx|[Hx|Hx]%orb_true_iff]%orb_true_iff]%orb_true_iff; [| | |done]; apply Hpre in Hx as [t ->]; split; try done.
  - intros host Hs. apply (local_host (bs "localhost") t) in Hs as ->; [left|done|done].
  - intros host Hs. apply (local_host (bs "127.0.0.1") t) in Hs as ->; [right; left|done|done].
  - intros host. unfold SplitHost. destruct (LastIndexByte _ ":") as [i|]; [|done].
    change (HasPrefix (bs "[::1]:" ++ t) (bs "[")) with true. cbn iota.
    change (IndexByte (bs "[::1]:" ++ t) "]") with (Some 4). cbn iota.
    destruct (4 + 1 =? i)%nat; [|done]. destruct (_ || _); [done|]. intros [= <-]. right; right; left.
Qed.

(** ** The wired components *)

Section Wired.
Context `{UnicodeTables, GoTime, FloatParser}.

(** The timeouts of a loaded configuration fit their type. *)
Lemma loaded_timeouts env cfg : Load env = Ok cfg →
  (in_int64 (ec_StatementTimeout (executor_of cfg)) ∧ in_int64 (ec_IdleInTxTimeout (executor_of cfg))) ∧
  in_int64 (StatementTimeout cfg) ∧ in_int64 (IdleInTxTimeout cfg) ∧ (StatementTimeout cfg ≤ 60 * Second)%Z.
Proof.
  intros (_ & _ & _ & _ & _ & Hle & _ & Hf & _)%Load_ok. rewrite List.Forall_forall in Hf.
  assert (in_int64 (StatementTimeout cfg)) as Hs by (apply Hf; simpl; tauto).
  assert (in_int64 (IdleInTxTimeout cfg)) as Hi by (apply Hf; simpl; tauto).
  split; [|done]. unfold executor_of, NewExecutor. cbn [ec_StatementTimeout ec_IdleInTxTimeout].
  split; case_match; done.
Qed.

(** The time a statement may run is bounded by configuration: whatever
    environment the gateway was started with, the statement_timeout the executor
    sends is between 0 and 60000 milliseconds, and 0, which lifts the limit, only
    if a timeout below one millisecond was configured. *)
Theorem statement_timeout_bounded env cfg : Load env = Ok cfg →
  let ms := Milliseconds (ec_StatementTimeout (executor_of cfg)) in
  (0 ≤ ms ≤ 60000)%Z ∧ (ms = 0 → 0 < StatementTimeout cfg < 1000000)%Z.
Proof.
  intros (_ & _ & _ & Hle)%loaded_timeouts. cbn zeta. unfold executor_of, NewExecutor, Milliseconds, Second, second in *.
  cbn [ec_StatementTimeout]. destruct (Z.leb_spec (StatementTimeout cfg) 0); [done|]. dlia.
Qed.

(** The dispatcher is given the configured timeout as it is: 0 reaches Postgres as
    0, no limit, where the executor would use 5 seconds. *)
Theorem rpc_timeout_not_defaulted `{RpcLib any} env cfg reg : Load env = Ok cfg → StatementTimeout cfg = 0%Z →
  Milliseconds (ec_StatementTimeout (dd_executor (doer_of cfg reg))) = 5000%Z ∧
  stmt_timeout_sql (dd_StatementTimeout (doer_of cfg reg)) = bs "SET LOCAL statement_timeout = '0ms'".
Proof.
  intros _ Hz. unfold doer_of, executor_of, NewExecutor. cbn [dd_executor dd_StatementTimeout ec_StatementTimeout].
  rewrite Hz. by vm_compute.
Qed.

(** The MCP endpoint of a gateway that starts is confined to the caller's
    tenant, with no condition left on its configuration: for any environment that
    loads, every tool call runs at most one statement, in the session of the key
    that called it. *)
Theorem loaded_tools_isolated {S} `{DirectLib, UuidLib, Gzip, PgQuery, McpLib} env cfg (srv : PgServer any S)
    marshal_row ping reg ws rid clk t args st :
  Load env = Ok cfg →
  t ∈ tools (direct srv marshal_row ping (doer_of cfg reg) ws rid clk) →
  tenant_run ws (conn_log st) (conn_log (tool_handler t args st).1).
Proof.
  intros ((Hs & Hi) & Hcs & Hci & _)%loaded_timeouts. by apply tools_confined.
Qed.
End Wired.

(** ** Instances *)

Module MainDemo.
#[local] Existing Instance DirectDemo.rpc.
#[local] Existing Instance PoolDemo.lib.

Definition compiler : SchemaCompiler any := {|
  schema_doc := bytes;
  schema_Unmarshal s := Ok s;
  AddResource _ _ := None;
  Compile _ _ := Ok (tt : schema);
|}.

(** An owner connection and migrations that always succeed. *)
Definition owner : OwnerServer unit := {|
  os_Connect _ s := (s, None); os_Exec _ s := (s, None); os_QueryBool _ s := (s, Ok true); os_User := bs "o" |}.
Definition lib : MigrateLib unit := {|
  mg_New _ _ d := (d, None); mg_Up _ _ d := (d, None); mg_Force _ _ _ d := (d, None); no_change _ := false; as_dirty _ := None |}.

Definition env : Environment :=
  with_env (with_env (with_env ConfigDemo.minimal (bs "AGENTCOOPDB_HTTP_ADDR") (bs "127.0.0.1:8080"))
    (bs "AGENTCOOPDB_MCP_ENABLED") (bs "1")) (bs "AGENTCOOPDB_DATABASE_URL") (bs "postgres:gw").

Definition h0 : host (S := unit) (D := unit) :=
  {| h_owner := {| oc_state := tt; oc_sent := [] |}; h_db := tt; h_events := [] |}.
Definition clean : ending := {| en_stop := Signal; en_mcp := None; en_http := None |}.
End MainDemo.

#[local] Existing Instance DirectDemo.rpc.
#[local] Existing Instance DirectDemo.lib.
#[local] Existing Instance MainDemo.compiler.
#[local] Existing Instance MigrateDemo.net.
#[local] Existing Instance ConfigDemo.unicode.
#[local] Existing Instance ConfigDemo.time.
#[local] Existing Instance ConfigDemo.floats.
#[local] Existing Instance PoolDemo.lib.
#[local] Existing Instance text_uuid.
#[local] Existing Instance IdemDemo.gz.
#[local] Existing Instance ValidatorDemo.parser.
#[local] Existing Instance McpDemo.lib.

Example truncated_inside_a_rune : truncate (bs "workspace-" ++ [xc3; xa9; xc3; xa9]) 12 = bs "workspace-" ++ [xc3] ++ ellipsis.
Proof. by vm_compute. Qed.

Lemma run_listens_last_witness :
  ∃ c, h_events (run MainDemo.owner MainDemo.lib MigrateDemo.files BuiltinsDemo.files MainDemo.env MainDemo.clean MainDemo.h0).1 =
    [EvOwnerRole; EvMigrated; EvPool (PoolOpened c); EvPool (PoolPinged true); EvListen (bs "127.0.0.1:8080"); EvMcpShutdown; EvHttpShutdown;
     EvPool PoolClosed].
Proof.
  destruct (run MainDemo.owner MainDemo.lib MigrateDemo.files BuiltinsDemo.files MainDemo.env MainDemo.clean MainDemo.h0)
    as [h' err] eqn:E.
  destruct (run_listens_last MainDemo.owner MainDemo.lib MigrateDemo.files BuiltinsDemo.files MainDemo.env MainDemo.clean
    MainDemo.h0 h' err (bs "127.0.0.1:8080") E) as (cfg & c & HL & _ & _ & Hev).
  - apply (f_equal (fun p => h_events p.1)) in E. cbn [fst] in E. rewrite <- E. vm_compute. do 4 right. left.
  - exists c. cbn [fst]. rewrite Hev. vm_compute in HL. injection HL as <-. reflexivity.
Defined.

Lemma run_closes_pool_witness :
  open_pools (h_events (run MainDemo.owner MainDemo.lib MigrateDemo.files BuiltinsDemo.files MainDemo.env MainDemo.clean
    MainDemo.h0).1) = 0%Z.
Proof.
  destruct (run MainDemo.owner MainDemo.lib MigrateDemo.files BuiltinsDemo.files MainDemo.env MainDemo.clean MainDemo.h0)
    as [h' err] eqn:E.
  exact (proj1 (run_closes_pool MainDemo.owner MainDemo.lib MigrateDemo.files BuiltinsDemo.files MainDemo.env MainDemo.clean
    MainDemo.h0 h' err E)).
Defined.

Lemma isLocalAddr_loopback_witness : bs "::1" ∈ [bs "localhost"; bs "127.0.0.1"; bs "::1"].
Proof.
  destruct (isLocalAddr_loopback (bs "[::1]:8080")) as [Hh _]; [by vm_compute|]. apply Hh. by vm_compute.
Defined.

Lemma statement_timeout_bounded_witness : ∃ cfg, Load MainDemo.env = Ok cfg ∧
  (0 ≤ Milliseconds (ec_StatementTimeout (executor_of cfg)) ≤ 60000)%Z.
Proof.
  destruct (Load MainDemo.env) as [cfg|e] eqn:E; [|apply (f_equal is_ok) in E; vm_compute in E; discriminate E].
  exists cfg. split; [reflexivity|]. exact (proj1 (statement_timeout_bounded MainDemo.env cfg E)).
Defined.

Lemma loaded_tools_isolated_witness :
  ∃ cfg (st : dstate (S := unit)), Load MainDemo.env = Ok cfg ∧ length (conn_log st) = 8 ∧
    tenant_run (ApiDemo.ws (bs "dbuser")) (conn_log DirectDemo.st0) (conn_log st).
Proof.
  destruct (Load MainDemo.env) as [cfg|e] eqn:E; [|apply (f_equal is_ok) in E; vm_compute in E; discriminate E].
  set (dd := direct DirectDemo.server (fun _ => []) (fun _ => None) (doer_of cfg NewRegistry) (ApiDemo.ws (bs "dbuser"))
               (bs "r") DirectDemo.clk).
  exists cfg, (McpTools.handleSQLExecute dd DirectDemo.sql_args DirectDemo.st0).1. split; [reflexivity|]. split.
  - vm_compute in E. injection E as <-. by vm_compute.
  - apply (loaded_tools_isolated MainDemo.env cfg DirectDemo.server (fun _ => []) (fun _ => None) NewRegistry
      (ApiDemo.ws (bs "dbuser")) (bs "r") DirectDemo.clk
      {| tool_name := bs "sql_execute";
         tool_args := [(bs "sql", PString, true); (bs "params", PArray, false); (bs "idempotency_key", PString, false)];
         tool_handler := McpTools.handleSQLExecute dd |} DirectDemo.sql_args DirectDemo.st0 E). left.
Defined.
