(* ===== verification/Endpoint.v ===== *)
(** * cmd/server/main.go: the mux of the gateway

    Every request the gateway's HTTP server can get, from the patterns of the mux
    to the handler behind them: the probes, the metrics page, the MCP endpoint with
    its authentication and rate limit, and the versioned API. mcp-go is a
    parameter: the tool calls it makes for the messages of a request. *)

From Stdlib Require QArith_base.
From stdpp Require Import relations.
From S2P Require Import Prelude GoStrings GoErrors SqlLex GoTime Config AuthKey Lru AuthCache ControlPlane AuthStore AuthMiddleware Tenant SqlValidator SqlExecutor HttpErrors Idempotency RateLimit RpcDispatcher RpcBuiltins HttpApi Routes AuditLog Pool McpTools McpDirect ServerMain.

(** ** Patterns *)

Inductive endpoint : Type :=
| Healthz
| Readyz
| MetricsPage
| Mcp
| Api (path : bytes).       (** the path behind "/v1" *)

(** Two patterns of [GET] match HEAD too; "/v1/mcp" is more specific than "/v1/".
    Where no pattern matches, the mux itself answers. *)
Definition endpoint_of (cfg : Config) (method path : bytes) : option endpoint :=
  let get := str_eqb method (bs "GET") || str_eqb method (bs "HEAD") in
  if str_eqb path (bs "/healthz") then if get then Some Healthz else None
  else if str_eqb path (bs "/readyz") then if get then Some Readyz else None
  else if MetricsEnabled cfg && str_eqb path (bs "/metrics") then if get then Some MetricsPage else None
  else if MCPEnabled cfg && str_eqb path (bs "/v1/mcp") then Some Mcp
  else if HasPrefix path (bs "/v1/") then Some (Api (TrimPrefix path (bs "/v1")))
  else None.

(** [http.StripPrefix("/v1", ...)] *)
Definition with_path (rq : http_request) (path : bytes) : http_request :=
  {| hr_Method := hr_Method rq; hr_Path := path; hr_IdempotencyKey := hr_IdempotencyKey rq; hr_Body := hr_Body rq;
     hr_RemoteAddr := hr_RemoteAddr rq; hr_RequestID := hr_RequestID rq |}.

(** The deadline of the connection's writes after the middleware: none for the
    streams of a GET request, if the response can change it. *)
Definition extendWriteDeadline (method : bytes) (setDeadline : option error) (deadline : option Z) : option Z :=
  if str_eqb method (bs "GET") then match setDeadline with None => None | Some _ => deadline end else deadline.

Section Endpoint.
Context {S : Type} `{DirectLib, UuidLib, Gzip, UnicodeTables, PgQuery, McpLib, Float64, PgxPool}.
Context {LK : LRU cachedKey} {LB : LRU nat} `{!ApiJson (V := any)}.
Variable srv : PgServer any S.
Variable marshal_row : list any → bytes.
Variable ping : S → option error.
Variable IDKey : bytes → bytes → Z → Z → Z → Z → bytes.
Variable dummySalt : res error bytes.
(** The tool calls mcp-go makes for a request, in order, and the clock at each. *)
Variable mcp_calls : http_request → list (bytes * gomap).
Variable clks : nat → clock.

(** What a request is answered with. *)
Inductive reply : Type :=
| Status (code : Z) (fields : list (bytes * bytes))     (** a probe's JSON object *)
| MetricsText
| Effects (effs : list (effect (V := any)))
| ToolResults (headers : list (bytes * bytes)) (deadline : option Z) (results : list CallToolResult)
    (audits : list (AuditLog.Entry (V := any))).

(** [authMW.Authenticate(rateLimit.Middleware(next))]: the guard both chains of the
    server share. *)
Definition guarded {A : Type} (header : bytes) (m : moment) (refuse : effect (V := any) → A)
    (next : WorkspaceContext → list (bytes * bytes) → api_state (V := any) (S := S) → api_state (V := any) (S := S) * A) (s : api_state (V := any) (S := S)) : api_state (V := any) (S := S) * A :=
  match Authenticate IDKey dummySalt (mo_get m) (mo_put m) (mo_active m) header (as_cache s)
          (gw_world (as_gateway s)) with
  | ((cache, w), o) =>
      let s := {| as_gateway := {| gw_world := w; gw_conn := gw_conn (as_gateway s) |};
                  as_cache := cache; as_limit := as_limit s |} in
      match o with
      | Panicked =>
          (s, refuse (Respond 500 [(bs "Content-Type", bs "text/plain; charset=utf-8");
                                   (bs "X-Content-Type-Options", bs "nosniff")]
                        (bs "Internal Server Error" ++ newline)))
      | Reject r => (s, refuse (Respond (ar_status r) (ar_headers r) (ar_body r)))
      | Next ws _ =>
          match Middleware (as_limit s) (Some ws) (mo_new m) (mo_allow m) (mo_tokens m) with
          | (Limited hs p, rl) =>
              ({| as_gateway := as_gateway s; as_cache := as_cache s; as_limit := rl |},
               refuse (add_headers hs (WriteProblem p)))
          | (Passed hs, rl) => next ws hs {| as_gateway := as_gateway s; as_cache := as_cache s; as_limit := rl |}
          end
      end
  end.

(** ** The MCP endpoint *)

(** The calls one after the other, each a tool of [NewServer(doer)]; mcp-go itself
    answers the call of a tool that does not exist. *)
Fixpoint run_calls (d : directDoer) (ws : WorkspaceContext) (rid : bytes) (i : nat) (calls : list (bytes * gomap))
    (st : dstate) : dstate * list CallToolResult :=
  match calls with
  | [] => (st, [])
  | (name, args) :: calls =>
      match List.find (fun t => str_eqb (tool_name t) name) (tools (direct srv marshal_row ping d ws rid (clks i))) with
      | None => run_calls d ws rid (Datatypes.S i) calls st
      | Some t =>
          let '(st, r) := tool_handler t args st in
          let '(st, rs) := run_calls d ws rid (Datatypes.S i) calls st in
          (st, r :: rs)
      end
  end.

(** The handler inside the guard: [extendWriteDeadline], then mcp-go. *)
Definition mcp_handler (d : directDoer) (rq : http_request) (setDeadline : option error) (deadline : option Z)
    (ws : WorkspaceContext) (hs : list (bytes * bytes)) (s : api_state (V := any) (S := S)) : api_state (V := any) (S := S) * reply :=
  let '(st, results) := run_calls d ws (hr_RequestID rq) 0 (mcp_calls rq) {| ds_gw := as_gateway s; ds_audits := [] |} in
  ({| as_gateway := ds_gw st; as_cache := as_cache s; as_limit := as_limit s |},
   ToolResults hs (extendWriteDeadline (hr_Method rq) setDeadline deadline) results (ds_audits st)).

(** ** The server *)

Definition healthz (version : bytes) : reply := Status 200 [(bs "status", bs "ok"); (bs "version", version)].

(** The handler of [run]'s mux; [version] is the JSON text of version.Get(). *)
Definition serve_http (sv : Server) (applied : bool) (version : bytes) (header : bytes) (rq : http_request)
    (attempts : list (Z * uuid)) (dr : Draw) (m : moment) (setDeadline : option error) (deadline : option Z)
    (s : api_state (V := any) (S := S)) : option (api_state (V := any) (S := S) * reply) :=
  match endpoint_of (sv_cfg sv) (hr_Method rq) (hr_Path rq) with
  | Some Healthz => Some (s, healthz version)
  | Some Readyz => let '(code, fields) := readyz applied (sv_pool sv) in Some (s, Status code fields)
  | Some MetricsPage => Some (s, MetricsText)
  | Some Mcp =>
      match sv_mcp sv with
      | Some d => Some (guarded header m (fun e => Effects [e]) (mcp_handler d rq setDeadline deadline) s)
      | None => None
      end
  | Some (Api path) =>
      match Routes.serve srv marshal_row IDKey dummySalt (sv_api sv) (sv_registry sv) header (with_path rq path)
              attempts dr m s with
      | Some (s, effs) => Some (s, Effects effs)
      | None => None
      end
  | None => None
  end.

(** ** The guard *)

Lemma Limited_429 r ws t1 t2 t3 hs p r' : Middleware r ws t1 t2 t3 = (Limited hs p, r') → p = limited_problem.
Proof.
  unfold Middleware. destruct (limiterFor _ _ _) as [i r1]. destruct (rl_heap r1 !! i); [|by intros [= _ <- _]].
  destruct (Allow _ _) as [[] lim]; [|by intros [= _ <- _]]. by destruct (Tokens _ _).
Qed.

(** Inside the guard a request was authenticated and within its limit; outside it
    the tenant connection is not used. *)
Lemma guarded_cases {A : Type} header m (refuse : effect → A) next s s' a :
  guarded header m refuse next s = (s', a) →
  (∃ code hs body, a = refuse (Respond code hs body) ∧ (400 ≤ code)%Z ∧
     gw_conn (as_gateway s') = gw_conn (as_gateway s) ∧
     ((∀ ws touch, (Authenticate IDKey dummySalt (mo_get m) (mo_put m) (mo_active m) header (as_cache s)
                      (gw_world (as_gateway s))).2 ≠ Next ws touch) → as_limit s' = as_limit s)) ∨
  ∃ ws touch hs rl s1,
    (Authenticate IDKey dummySalt (mo_get m) (mo_put m) (mo_active m) header (as_cache s) (gw_world (as_gateway s))).2 =
      Next ws touch ∧
    Middleware (as_limit s) (Some ws) (mo_new m) (mo_allow m) (mo_tokens m) = (Passed hs, rl) ∧
    gw_conn (as_gateway s1) = gw_conn (as_gateway s) ∧ next ws hs s1 = (s', a).
Proof.
  unfold guarded. destruct (Authenticate _ _ _ _ _ _ _ _) as [[cache w] o] eqn:Ea. destruct o as [r|ws touch|]; cbn [as_limit snd].
  - intros [= <- <-]. left. do 3 eexists. split; [done|]. split; [|done].
    pose proof (Authenticate_Reject IDKey dummySalt (mo_get m) (mo_put m) (mo_active m) header (as_cache s)
      (gw_world (as_gateway s)) r) as Hr. rewrite Ea in Hr. destruct (Hr eq_refl); lia.
  - destruct (Middleware _ _ _ _ _) as [[hs p|hs] rl] eqn:Em.
    + intros [= <- <-]. left. apply Limited_429 in Em as ->. do 3 eexists. split; [done|].
      split; [done|]. split; [done|]. intros Hn. by destruct (Hn ws touch).
    + intros Hn. right. exists ws, touch, hs, rl. eexists. split; [done|]. split; [done|]. by split; [|exact Hn].
  - intros [= <- <-]. left. do 3 eexists. split; [done|]. by split.
Qed.

(** [Routes.wrap] is this guard around the route's handler. *)
Lemma wrap_guarded acfg reg rt header rq attempts dr m s :
  wrap srv marshal_row IDKey dummySalt acfg reg rt header rq attempts dr m s =
  guarded header m (fun e => [e])
    (fun ws hs s => let '(s, effs) := handle srv marshal_row IDKey acfg reg rt ws rq attempts dr m s in
                    (s, add_headers hs <$> effs)) s.
Proof. done. Qed.

(** ** Isolation *)

Lemma handleRPCCall_confined acfg reg ws rq attempts t0 t1 g g' effs :
  in_int64 (ac_StatementTimeout acfg) → in_int64 (ac_IdleInTxTimeout acfg) →
  HttpApi.handleRPCCall srv acfg reg ws rq attempts t0 t1 g = (g', effs) →
  tenant_run ws (cn_log (gw_conn g)) (cn_log (gw_conn g')).
Proof.
  intros Ha1 Ha2. unfold HttpApi.handleRPCCall.
  destruct (hr_Body rq) as [body|e]; [|intros [= <- <-]; apply run_none].
  destruct (decode_rpc body) as [[procedure a]|e]; [|intros [= <- <-]; apply run_none].
  destruct (Call _ _ _ _ _ _ _) as [g1 r] eqn:E. apply (Call_tenant_run srv ws) in E; [|done..].
  intros Hx. assert (g' = g1) as ->; [|done].
  destruct r as [res|err]; [destruct (cr_Replay res)|]; congruence.
Qed.

Lemma handle_confined acfg reg rt ws rq attempts dr m s s' effs :
  in_int64 (ec_StatementTimeout (ac_executor acfg)) → in_int64 (ec_IdleInTxTimeout (ac_executor acfg)) →
  in_int64 (ac_StatementTimeout acfg) → in_int64 (ac_IdleInTxTimeout acfg) →
  handle srv marshal_row IDKey acfg reg rt ws rq attempts dr m s = (s', effs) →
  tenant_run ws (cn_log (gw_conn (as_gateway s))) (cn_log (gw_conn (as_gateway s'))).
Proof.
  intros He1 He2 Ha1 Ha2 Hx. destruct rt; simpl in Hx.
  - destruct (HttpApi.handleSQLExecute _ _ _ _ _ _ _ _ _) as [g e] eqn:E. injection Hx as <- <-. cbn [as_gateway].
    apply handleSQLExecute_conn in E as [-> | (sql & params & vres & res & E)]; [apply run_none|].
    by eapply Execute_tenant_run.
  - destruct (HttpApi.handleRPCCall _ _ _ _ _ _ _ _ _) as [g e] eqn:E. injection Hx as <- <-. cbn [as_gateway].
    by eapply handleRPCCall_confined.
  - destruct (handleKeyRotate _ _ _ _ _ _ _) as [[]]. injection Hx as <- <-. apply run_none.
  - destruct (handleKeyCreate _ _ _ _ _ _) as []. injection Hx as <- <-. apply run_none.
  - injection Hx as <- <-. apply run_none.
Qed.

Lemma run_calls_confined d ws rid calls : ∀ i st,
  in_int64 (ec_StatementTimeout (dd_executor d)) ∧ in_int64 (ec_IdleInTxTimeout (dd_executor d)) ∧
    in_int64 (dd_StatementTimeout d) ∧ in_int64 (dd_IdleInTxTimeout d) →
  rtc (tenant_run ws) (conn_log st) (conn_log (run_calls d ws rid i calls st).1).
Proof.
  induction calls as [|[name args] calls IH]; intros i st Ht; [done|]. cbn [run_calls].
  destruct (List.find _ _) as [t|] eqn:Ef; [|by apply IH]. apply find_some in Ef as [Hin _]. apply list_elem_of_In in Hin.
  pose proof (tools_confined srv marshal_row ping d ws rid (clks i) Ht t args st Hin) as Hc.
  destruct (tool_handler t args st) as [st1 r]. cbn [fst] in Hc. eapply rtc_l; [exact Hc|].
  specialize (IH (Datatypes.S i) st1 Ht). by destruct (run_calls _ _ _ _ _ _).
Qed.

(** C1: Whatever request reaches the gateway, on whichever of its endpoints, what it
    sends to the tenant database runs as the tenant that asked: for a gateway built
    from any environment that loads, either nothing is sent, or the Authorization
    header was accepted, the limiter let its key through, and everything sent is a
    sequence of transactions that set up that key's workspace and role and run one
    statement in that session. *)
Theorem server_isolated `{GoTime, FloatParser, !SchemaCompiler any} env rpc_files cfg p sv applied version header rq
    attempts dr m setDeadline deadline s s' r :
  Load env = Ok cfg → build rpc_files cfg p = Ok sv →
  serve_http sv applied version header rq attempts dr m setDeadline deadline s = Some (s', r) →
  cn_log (gw_conn (as_gateway s')) = cn_log (gw_conn (as_gateway s)) ∨
  ∃ ws touch hs rl,
    (Authenticate IDKey dummySalt (mo_get m) (mo_put m) (mo_active m) header (as_cache s) (gw_world (as_gateway s))).2 =
      Next ws touch ∧
    Middleware (as_limit s) (Some ws) (mo_new m) (mo_allow m) (mo_tokens m) = (Passed hs, rl) ∧
    rtc (tenant_run ws) (cn_log (gw_conn (as_gateway s))) (cn_log (gw_conn (as_gateway s'))).
Proof.
  intros ((Hs & Hi) & Hcs & Hci & _)%loaded_timeouts Hb Hx.
  unfold build in Hb. apply res_bind_ok in Hb as (reg & _ & [= <-]). unfold serve_http in Hx.
  destruct (endpoint_of _ _ _) as [[| | | |path]|]; [by simplify_eq; left|..|done].
  - destruct (readyz _ _). simplify_eq. by left.
  - simplify_eq. by left.
  - cbn [sv_mcp sv_cfg] in Hx. destruct (MCPEnabled cfg); [|done]. injection Hx as Hx.
    apply guarded_cases in Hx as [(? & ? & ? & _ & _ & Hc & _)|(ws & touch & hs & rl & s1 & Ha & Hl & Hc & Hn)]; [left; by rewrite Hc|].
    right. exists ws, touch, hs, rl. split; [done|]. split; [done|]. unfold mcp_handler in Hn.
    pose proof (run_calls_confined (doer_of cfg reg) ws (hr_RequestID rq) (mcp_calls rq) 0
      {| ds_gw := as_gateway s1; ds_audits := [] |} (conj Hs (conj Hi (conj Hcs Hci)))) as Hr.
    destruct (run_calls _ _ _ _ _ _) as [st results]. injection Hn as <- <-. by rewrite <- Hc.
  - unfold serve in Hx. destruct (route_of _ _) as [rt|]; [|done]. rewrite wrap_guarded in Hx.
    destruct (guarded _ _ _ _ _) as [s2 effs] eqn:E. injection Hx as <- <-.
    apply guarded_cases in E as [(? & ? & ? & _ & _ & Hc & _)|(ws & touch & hs & rl & s1 & Ha & Hl & Hc & Hn)]; [left; by rewrite Hc|].
    right. exists ws, touch, hs, rl. split; [done|]. split; [done|].
    destruct (handle _ _ _ _ _ _ _ _ _ _ _ _) as [s3 effs3] eqn:Eh. injection Hn as <- <-.
    apply rtc_once. rewrite <- Hc. apply handle_confined in Eh; [exact Eh|done..].
Qed.

(** C13: A request without an accepted key learns nothing but the gateway's health:
    its answer is a probe's status, the metrics page, or one response with an error
    status; the tenant connection and the limiter are as they were. *)
Theorem refused_everywhere sv applied version header rq attempts dr m setDeadline deadline s s' r :
  (∀ ws touch, (Authenticate IDKey dummySalt (mo_get m) (mo_put m) (mo_active m) header (as_cache s)
                  (gw_world (as_gateway s))).2 ≠ Next ws touch) →
  serve_http sv applied version header rq attempts dr m setDeadline deadline s = Some (s', r) →
  gw_conn (as_gateway s') = gw_conn (as_gateway s) ∧ as_limit s' = as_limit s ∧
  (r = healthz version ∨ r = (let '(code, fields) := readyz applied (sv_pool sv) in Status code fields) ∨
   (r = MetricsText ∧ MetricsEnabled (sv_cfg sv) = true) ∨
   ∃ code hs body, r = Effects [Respond code hs body] ∧ (400 ≤ code)%Z).
Proof.
  intros Hno Hx. unfold serve_http in Hx. destruct (endpoint_of _ _ _) as [[| | | |path]|] eqn:Ee; [by simplify_eq; auto|..|done].
  - destruct (readyz _ _). simplify_eq. auto.
  - simplify_eq. split; [done|]. split; [done|]. right; right; left. split; [done|]. unfold endpoint_of in Ee.
    destruct (MetricsEnabled (sv_cfg sv)); [done|]. by repeat case_match.
  - destruct (sv_mcp sv) as [d|]; [|done]. injection Hx as Hx.
    apply guarded_cases in Hx as [(code & hs & body & -> & Hge & Hc & Hlim)|(ws & touch & hs & rl & s1 & Ha & _)]; [|by destruct (Hno ws touch)].
    split; [done|]. split; [by apply Hlim|]. do 3 right. eauto.
  - unfold serve in Hx. destruct (route_of _ _) as [rt|]; [|done]. rewrite wrap_guarded in Hx.
    destruct (guarded _ _ _ _ _) as [s2 effs] eqn:E. injection Hx as <- <-.
    apply guarded_cases in E as [(code & hs & body & -> & Hge & Hc & Hlim)|(ws & touch & hs & rl & s1 & Ha & _)]; [|by destruct (Hno ws touch)].
    split; [done|]. split; [by apply Hlim|]. do 3 right. eauto.
Qed.
End Endpoint.

(** ** Instances *)

#[local] Existing Instance DirectDemo.rpc.
#[local] Existing Instance DirectDemo.lib.
#[local] Existing Instance DirectDemo.json.
#[local] Existing Instance MainDemo.compiler.
#[local] Existing Instance ConfigDemo.unicode.
#[local] Existing Instance ConfigDemo.time.
#[local] Existing Instance ConfigDemo.floats.
#[local] Existing Instance PoolDemo.lib.
#[local] Existing Instance text_uuid.
#[local] Existing Instance IdemDemo.gz.
#[local] Existing Instance ValidatorDemo.parser.
#[local] Existing Instance McpDemo.lib.
#[local] Existing Instance LimitDemo.exact.

Module EndpointDemo.
Definition start : api_state (V := any) (S := unit) :=
  {| as_gateway := {| gw_world := MwDemo.w1; gw_conn := {| cn_state := tt; cn_log := [] |} |};
     as_cache := NewVerifyCache 8 100; as_limit := NewRateLimit (QArith_base.inject_Z 1) 2 |}.

Definition request : http_request :=
  {| hr_Method := bs "POST"; hr_Path := bs "/v1/mcp"; hr_IdempotencyKey := []; hr_Body := Ok [];
     hr_RemoteAddr := bs "10.0.0.1:4711"; hr_RequestID := bs "r" |}.

(** Two statements and a tool that does not exist. *)
Definition calls (_ : http_request) : list (bytes * gomap) :=
  [(bs "sql_execute", DirectDemo.sql_args); (bs "drop_everything", []); (bs "sql_execute", DirectDemo.sql_args)].

Definition post (sv : Server) (header : bytes) : option (api_state (V := any) (S := unit) * reply) :=
  serve_http DirectDemo.server (fun _ => []) (fun _ => None) toy_IDKey (Ok (repeat x00 16)) calls (fun _ => DirectDemo.clk)
    sv true [] header request [] (Demo.draw x62) RouteDemo.at_zero None (Some 30%Z) start.

Definition auth (header : bytes) : auth_outcome :=
  (Authenticate toy_IDKey (Ok (repeat x00 16)) 0 0 0 header (as_cache start) (gw_world (as_gateway start))).2.

Definition log_length (r : option (api_state (V := any) (S := unit) * reply)) : nat :=
  match r with Some (s, _) => length (cn_log (gw_conn (as_gateway s))) | None => 0 end.

Definition p : pool := bs "p".

Definition served (header : bytes) : option nat :=
  match Load MainDemo.env with
  | Ok cfg => match build BuiltinsDemo.files cfg p with
              | Ok sv => Some (log_length (post sv header))
              | Err _ => None
              end
  | Err _ => None
  end.
End EndpointDemo.

(** Two transactions of eight commands for the calls of one request. *)
Example two_statements : EndpointDemo.served MwDemo.header = Some 16.
Proof. by vm_compute. Qed.

Lemma server_isolated_witness :
  ∃ ws touch, EndpointDemo.auth MwDemo.header = Next ws touch.
Proof.
  pose proof two_statements as Hs. unfold EndpointDemo.served in Hs.
  destruct (Load MainDemo.env) as [cfg|] eqn:El; [|discriminate Hs].
  destruct (build BuiltinsDemo.files cfg EndpointDemo.p) as [sv|] eqn:Eb; [|discriminate Hs].
  destruct (EndpointDemo.post sv MwDemo.header) as [[s' r]|] eqn:E; [|discriminate Hs].
  destruct (server_isolated DirectDemo.server (fun _ => []) (fun _ => None) toy_IDKey (Ok (repeat x00 16)) EndpointDemo.calls
    (fun _ => DirectDemo.clk) MainDemo.env BuiltinsDemo.files cfg EndpointDemo.p sv true [] MwDemo.header EndpointDemo.request []
    (Demo.draw x62) RouteDemo.at_zero None (Some 30%Z) EndpointDemo.start s' r El Eb E) as [Hl|(ws & touch & _ & _ & Ha & _)].
  - cbn [EndpointDemo.log_length] in Hs. rewrite Hl in Hs. discriminate Hs.
  - exists ws, touch. exact Ha.
Defined.

(** A request with no key at all. *)
Lemma refused_everywhere_witness :
  ∃ sv s' r, EndpointDemo.post sv [] = Some (s', r) ∧ gw_conn (as_gateway s') = gw_conn (as_gateway EndpointDemo.start).
Proof.
  assert (EndpointDemo.served [] = Some 0) as Hs by (by vm_compute). unfold EndpointDemo.served in Hs.
  assert (match Load MainDemo.env with
          | Ok cfg => match build BuiltinsDemo.files cfg EndpointDemo.p with
                      | Ok sv => match EndpointDemo.post sv [] with Some _ => true | None => false end
                      | Err _ => false
                      end
          | Err _ => false
          end = true) as Hp by (by vm_compute).
  destruct (Load MainDemo.env) as [cfg|]; [|discriminate Hs].
  destruct (build BuiltinsDemo.files cfg EndpointDemo.p) as [sv|]; [|discriminate Hs].
  destruct (EndpointDemo.post sv []) as [[s' r]|] eqn:E; [|discriminate Hp].
  exists sv, s', r. split; [exact E|].
  apply (refused_everywhere DirectDemo.server (fun _ => []) (fun _ => None) toy_IDKey (Ok (repeat x00 16)) EndpointDemo.calls
    (fun _ => DirectDemo.clk) sv true [] [] EndpointDemo.request [] (Demo.draw x62) RouteDemo.at_zero None (Some 30%Z)
    EndpointDemo.start s' r); [|exact E].
  intros ws touch. vm_compute. discriminate.
Defined.
