(* ===== verification/Commands.v ===== *)
(** * The commands: cmd/server's subcommands, cmd/migrate and cmd/mcp

    A command is a function from its parsed flags, the environment and the
    databases to what it prints and its exit code. The flag package is not
    modelled; the server itself is [ServerMain.run]. *)

From S2P Require Import Prelude GoStrings GoErrors Observability SqlLex GoTime Config Base64 Sha256 AuthKey ControlPlane AuthStore Tenant Migrate KeyAdmin Pool AuthMiddleware SqlValidator SqlExecutor HttpErrors Idempotency RpcDispatcher RpcBuiltins HttpApi Lru AuthCache AuditLog McpTools McpDirect McpClient ServerMain.

(** What a process leaves behind: what it printed itself (its log records apart),
    and its exit code. *)
Record process : Type := { ps_out : list bytes; ps_err : list bytes; ps_code : Z }.

Definition exit0 (out : list bytes) : process := {| ps_out := out; ps_err := []; ps_code := 0 |}.
Definition exits (code : Z) (msg : bytes) : process := {| ps_out := []; ps_err := [msg]; ps_code := code |}.

(** ** cmd/server *)

Record server_flags : Type := {
  fl_version : bool;
  fl_help_env : bool;
  fl_hash_secret : bytes;
  fl_mint_key : bool;
  fl_mint_workspace : bytes;
  fl_mint_role : bytes;
  fl_mint_env : bytes;
  fl_list_keys : bool;
  fl_revoke_key : bytes;
}.

(** Which of its commands [main] runs: the first that is asked for. *)
Inductive action : Type :=
| ShowVersion
| HelpEnv
| HashOf (secret : bytes)
| MintKeyFor (workspace role env : bytes)
| ListAllKeys
| RevokeKeyOf (id : bytes)
| Serve.

Definition dispatch (fl : server_flags) : action :=
  if fl_version fl then ShowVersion
  else if fl_help_env fl then HelpEnv
  else if negb (str_eqb (fl_hash_secret fl) []) then HashOf (fl_hash_secret fl)
  else if fl_mint_key fl then MintKeyFor (fl_mint_workspace fl) (fl_mint_role fl) (fl_mint_env fl)
  else if fl_list_keys fl then ListAllKeys
  else if negb (str_eqb (fl_revoke_key fl) []) then RevokeKeyOf (fl_revoke_key fl)
  else Serve.

(** [%-<n>s] *)
Definition pad (n : nat) (s : bytes) : bytes := s ++ repeat x20 (n - length (runes s)).

Definition key_line (id workspace role env status created name : bytes) : bytes :=
  pad 36 id ++ bs "  " ++ pad 12 workspace ++ bs "  " ++ pad 7 role ++ bs "  " ++ pad 5 env ++ bs "  " ++
  pad 8 status ++ bs "  " ++ pad 20 created ++ bs "  " ++ name.

Section ServerCommands.
Context `{UuidLib, NetUrl, UnicodeTables, GoTime, FloatParser}.
Variable IDKey : bytes → bytes → Z → Z → Z → Z → bytes.
Variable connect : bytes → option error.
Variable format_time : Z → bytes.          (** [CreatedAt.Format("2006-01-02 15:04:05")] *)
Variable env : Environment.

(** The three subcommands that use the owner's connection: lines, or an error. *)
Definition with_config {A : Type} (k : Config → M A) : M A :=
  fun w => match Load env with
           | Err err => (w, Err (wrapf (bs "config: ") err))
           | Ok cfg => k cfg w
           end.

Definition minted_lines (token : bytes) : list bytes :=
  [[]; bs "===== API KEY MINTED (SHOWN ONCE — STORE IT NOW) ====="; token;
   bs "======================================================"; []; bs "Test with:";
   bs "  curl -H 'Authorization: Bearer " ++ token ++ bs "' https://<your-domain>/v1/me"].

Definition runMintKey (dr : Draw) (fresh : uuid) (workspace pgRole envTag : bytes) : M (list bytes) :=
  with_config (fun cfg w =>
    let '(w, r) := MintKey IDKey connect dr fresh (MigrationsDatabaseURL cfg) (OwnerPassword cfg) workspace pgRole envTag w in
    (w, match r with Ok token => Ok (minted_lines token) | Err err => Err err end)).

Definition summary_line (k : KeySummary) : bytes :=
  key_line (ks_ID k) (truncate (ks_WorkspaceName k) 12) (ks_PgRole k) (ks_Env k) (ks_Status k)
    (format_time (ks_CreatedAt k)) (ks_Name k).

Definition runListKeys (cur : cursor) : M (list bytes) :=
  with_config (fun cfg w =>
    let '(w, r) := ListKeys connect cur (MigrationsDatabaseURL cfg) (OwnerPassword cfg) w in
    (w, match r with
        | Err err => Err err
        | Ok [] => Ok [bs "no API keys found"]
        | Ok keys =>
            Ok (key_line (bs "ID") (bs "WORKSPACE") (bs "ROLE") (bs "ENV") (bs "STATUS") (bs "CREATED") (bs "NAME") ::
                (summary_line <$> keys))
        end)).

Definition runRevokeKey (keyID : bytes) : M (list bytes) :=
  with_config (fun cfg w =>
    let '(w, r) := RevokeKey connect (MigrationsDatabaseURL cfg) (OwnerPassword cfg) keyID w in
    (w, match r with Ok _ => Ok [bs "key " ++ keyID ++ bs " revoked"] | Err err => Err err end)).

(** A failed subcommand prints its name and the error, and exits with 1. *)
Definition finish (name : bytes) (x : world * res error (list bytes)) : world * process :=
  let '(w, r) := x in
  (w, match r with
      | Ok lines => exit0 lines
      | Err err => exits 1 (name ++ bs " failed: " ++ ErrorText err)
      end).

(** [main] for every command but the server. *)
Definition server_main (v : Info) (fl : server_flags) (dr : Draw) (fresh : uuid) (cur : cursor) (w : world)
  : option (world * process) :=
  match dispatch fl with
  | ShowVersion =>
      Some (w, exit0 [bs "agentic-coop-db-server " ++ vi_Version v ++ bs " (" ++ vi_Commit v ++ bs ") built " ++ vi_BuildDate v])
  | HelpEnv => Some (w, exit0 [Usage])
  | HashOf secret =>
      Some (w, match HashSecret IDKey (dr_salt dr) secret with
               | Ok h => exit0 [h]
               | Err err => exits 1 (bs "hash failed: " ++ ErrorText err)
               end)
  | MintKeyFor workspace role envTag => Some (finish (bs "mint-key") (runMintKey dr fresh workspace role envTag w))
  | ListAllKeys => Some (finish (bs "list-keys") (runListKeys cur w))
  | RevokeKeyOf id => Some (finish (bs "revoke-key") (runRevokeKey id w))
  | Serve => None
  end.

(** *** A failed command changes nothing *)

(** A failure, unless a statement's outcome was lost, leaves the tables alone. *)
Definition undone {A : Type} (c : M A) : Prop :=
  ∀ w w' e, unambiguous w → c w = (w', Err e) → w_db w' = w_db w.

Lemma undone_lift_bind {A B : Type} (r : res error A) (k : A → M B) :
  (∀ a, undone (k a)) → undone (ControlPlane.mbind (mlift r) k).
Proof. intros Hk w w' e Hu. unfold ControlPlane.mbind, mlift. destruct r; [by apply Hk|by intros [= <- <-]]. Qed.

Lemma undone_wrap_bind {A B : Type} pre (r : res error A) (k : A → M B) :
  (∀ a, undone (k a)) → undone (ControlPlane.mbind (mwrap pre (mlift r)) k).
Proof. apply (undone_lift_bind (res_map_err (wrapf pre) r)). Qed.

Lemma undone_map {A B : Type} (c : M A) (g : res error A → res error B) :
  (∀ a, is_ok (g (Ok a)) = true) → undone c → undone (fun w => let '(w, r) := c w in (w, g r)).
Proof.
  intros Hg Hc w w' e Hu Hx. destruct (c w) as [w1 [a|e1]] eqn:E; simplify_eq/=.
  - specialize (Hg a). by destruct (g (Ok a)).
  - by eapply Hc.
Qed.

Lemma undone_fail {A : Type} (e : error) : undone (@ControlPlane.mfail _ A e).
Proof. by intros w w' e' Hu [= <- <-]. Qed.

Lemma mint_tx_keeps fresh pk ws role envTag kid hash : keeps_unambiguous (mint_tx fresh pk ws role envTag kid hash).
Proof.
  apply keeps_bind; [|intros id; apply keeps_wrap, keeps_exec].
  intros w w' r Hx Hu. unfold find_or_create_workspace in Hx.
  destruct (exec _ w) as [w1 [id|e]] eqn:E; pose proof (keeps_exec _ _ _ _ E Hu) as Hu1; [by simplify_eq|].
  destruct (error_Is e ErrNoRows); [|by simplify_eq].
  refine (keeps_bind _ _ _ _ _ _ _ Hx Hu1); [apply keeps_wrap, keeps_exec|intros u; apply keeps_ret].
Qed.

Lemma mint_undone dr fresh url pw ws role envTag : undone (MintKey IDKey connect dr fresh url pw ws role envTag).
Proof.
  apply (undone_map (mint_key IDKey connect dr fresh url pw ws role envTag) (res_map_err _)); [done|].
  unfold mint_key. repeat (case_match; [apply undone_fail|]).
  apply undone_wrap_bind. intros [[kid sec] tok]. apply undone_wrap_bind. intros hash. apply undone_lift_bind. intros _.
  intros w w' e Hu Hx. unfold ControlPlane.mbind in Hx. destruct (with_tx_named _ w) as [w1 [[]|e1]] eqn:E; [done|].
  simplify_eq. apply with_tx_named_plain in E as ([[]|e2] & E & Hr); [by destruct (Hr tt) as [_ Hr']; specialize (Hr' eq_refl)|].
  by eapply with_tx_atomic; [apply mint_tx_keeps|..].
Qed.

Lemma revoke_undone url pw keyID : undone (RevokeKey connect url pw keyID).
Proof.
  apply (undone_map (revoke_key connect url pw keyID) (res_map_err _)); [done|].
  intros w w' e Hu. unfold revoke_key. destruct (uuid_Parse keyID) as [id|e0]; [|by intros [= <- <-]].
  revert w w' e Hu. apply undone_lift_bind. intros _ w w' e Hu.
  unfold ControlPlane.mbind, mwrap, exec. destruct (next_fault w) as [f w1] eqn:Ef.
  destruct (next_fault_unambiguous _ _ _ Hu Ef) as [_ Hf]. apply next_fault_db in Ef as [Hd _].
  destruct f as [|e1|e1]; [|by intros [= <- <-]|by destruct (Hf e1)].
  unfold revoke_rows. destruct (db_keys (w_db w1) !! id) as [row|]; [destruct (kw_revoked_at row)|]; simpl; intros [= <- <-]; done.
Qed.

(** Reading changes nothing, whatever happens. *)
Lemma list_reads cur url pw w : w_db (ListKeys connect cur url pw w).1 = w_db w.
Proof.
  unfold ListKeys. destruct (injectPassword url pw) as [final|]; [|done]. destruct (connect final); [done|].
  unfold exec. destruct (next_fault w) as [f w1] eqn:Ef. apply next_fault_db in Ef as [Hd _]. by destruct f.
Qed.

Lemma revoke_wf url pw keyID : preserves keys_wf (RevokeKey connect url pw keyID).
Proof.
  apply (preserves_map keys_wf (revoke_key connect url pw keyID)). intros w w' r. unfold revoke_key.
  destruct (uuid_Parse keyID) as [id|e0]; [|by intros [= <- <-]]. revert w w' r.
  apply preserves_bind; [by apply preserves_pure|]. intros _.
  apply preserves_bind; [|intros n; case_match; by apply preserves_pure].
  apply preserves_wrap, preserves_exec. intros now d Hd. unfold revoke_rows.
  destruct (db_keys d !! id) as [row|]; [destruct (kw_revoked_at row)|]; try done.
  by apply (update_key_wf id (set_revoked now) d); [apply set_revoked_identity|].
Qed.

(** What a subcommand's process shows of the computation behind it. *)
Lemma finish_report name w0 (x : world * res error (list bytes)) w' p :
  finish name x = (w', p) → (∀ e, unambiguous w0 → x.2 = Err e → w_db x.1 = w_db w0) →
  w' = x.1 ∧ (ps_code p = 0 ∧ ps_err p = [] ∨ ps_code p = 1 ∧ ps_out p = [] ∧ ∃ m, ps_err p = [m])%Z ∧
  (unambiguous w0 → ps_code p ≠ 0%Z → w_db w' = w_db w0).
Proof.
  destruct x as [w1 [lines|e]]; intros [= <- <-] Hx; (split; [done|]); split; simpl; [by left|done|eauto|].
  intros Hu _. by eapply Hx.
Qed.

(** C29: Every administrative command of the server binary ends with code 0 and an
    empty standard error, or with code 1, one line on the standard error and nothing
    on the standard output. When it fails the tables are as they were, unless the
    acknowledgement of a statement or commit was lost: then a key may have been
    minted or revoked although the command reports an error. The tables stay well
    formed, and only minting and revoking change them at all. *)
Theorem commands_atomic v fl dr fresh cur w w' p :
  server_main v fl dr fresh cur w = Some (w', p) →
  (ps_code p = 0 ∧ ps_err p = [] ∨ ps_code p = 1 ∧ ps_out p = [] ∧ ∃ m, ps_err p = [m])%Z ∧
  (unambiguous w → ps_code p ≠ 0%Z → w_db w' = w_db w) ∧
  (keys_wf (w_db w) → keys_wf (w_db w')) ∧
  (w_db w' ≠ w_db w → match dispatch fl with MintKeyFor _ _ _ | RevokeKeyOf _ => True | _ => False end).
Proof.
  unfold server_main. destruct (dispatch fl) as [| |secret|ws role tag| |id|].
  - intros [= <- <-]. simpl. split; [by left|done].
  - intros [= <- <-]. simpl. split; [by left|done].
  - intros [= <- <-]. destruct (HashSecret _ _ _); simpl; (split; [eauto|done]).
  - intros [= Hf]. unfold runMintKey, with_config in Hf. destruct (Load env) as [cfg|err].
    + destruct (MintKey _ _ _ _ _ _ _ _ _ w) as [w1 r] eqn:E.
      apply (finish_report _ w) in Hf as (-> & ? & ?); [|intros e Hu He; destruct r; simplify_eq/=; by eapply mint_undone].
      split; [done|]. split; [done|]. split; [|done]. intros Hwf. simpl. unfold MintKey in E.
      destruct (mint_key _ _ _ _ _ _ _ _ _ w) as [w2 r2] eqn:E2. simplify_eq. by eapply mint_key_wf.
    + apply (finish_report _ w) in Hf as (-> & ? & ?); [|done]. by split.
  - intros [= Hf]. assert (w_db (runListKeys cur w).1 = w_db w) as Hd.
    { unfold runListKeys, with_config. destruct (Load env) as [cfg|err]; [|done].
      rewrite <- (list_reads cur (MigrationsDatabaseURL cfg) (OwnerPassword cfg) w). by destruct (ListKeys _ _ _ _ w). }
    apply (finish_report _ w) in Hf as (-> & ? & ?); [|done]. rewrite Hd. split; [done|]. by split.
  - intros [= Hf]. unfold runRevokeKey, with_config in Hf. destruct (Load env) as [cfg|err].
    + destruct (RevokeKey _ _ _ _ w) as [w1 r] eqn:E.
      apply (finish_report _ w) in Hf as (-> & ? & ?); [|intros e Hu He; destruct r; simplify_eq/=; by eapply revoke_undone].
      split; [done|]. split; [done|]. split; [|done]. intros Hwf. by eapply revoke_wf.
    + apply (finish_report _ w) in Hf as (-> & ? & ?); [|done]. by split.
  - done.
Qed.
End ServerCommands.

(** ** cmd/migrate *)

Section MigrateCommand.
Context {D : Type} `{NetUrl, UnicodeTables}.
Variable lib : MigrateLib D.
Variable files : Files.
Variable env : Environment.

Definition migrate_usage : bytes := bs "usage: agentic-coop-db-migrate <up|force <version>>

commands:
  up              apply all pending migrations
  force <version> mark the database as being at <version> with dirty=false,
                  without running any migration files. Use to recover from a
                  dirty state: force to N-1, then run up again.

env:
  AGENTCOOPDB_MIGRATIONS_DATABASE_URL  postgres URL (login role: agentcoopdb_owner)
  AGENTCOOPDB_OWNER_PASSWORD           password for the agentcoopdb_owner role (optional; trust auth otherwise)
  AGENTCOOPDB_OWNER_PASSWORD_FILE      file containing the same (docker secret pattern)
  AGENTCOOPDB_MIGRATIONS_DIR           override the migrations directory".

Definition failed (err : error) : process := exits 1 (bs "error: " ++ ErrorText err).

Definition migrate_password : res error bytes :=
  let password := Getenv env (bs "AGENTCOOPDB_OWNER_PASSWORD") in
  if negb (str_eqb password []) then Ok password else
  let path := Getenv env (bs "AGENTCOOPDB_OWNER_PASSWORD_FILE") in
  if str_eqb path [] then Ok [] else
  res_map_err (wrapf (bs "read AGENTCOOPDB_OWNER_PASSWORD_FILE: ")) (ReadFile env path).

(** [main] with the arguments after the flags. *)
Definition migrate_main (args : list bytes) (d : D) : D * process :=
  let cmd := match args with [] => bs "up" | a :: _ => a end in
  let url := Getenv env (bs "AGENTCOOPDB_MIGRATIONS_DATABASE_URL") in
  if str_eqb url [] then (d, exits 2 (bs "AGENTCOOPDB_MIGRATIONS_DATABASE_URL is required")) else
  match migrate_password with
  | Err err => (d, failed err)
  | Ok password =>
      if str_eqb cmd (bs "up") then
        match RunMigrations lib files url password d with
        | (d, Some err) => (d, failed err)
        | (d, None) => (d, exit0 [])
        end
      else if str_eqb cmd (bs "force") then
        match args with
        | _ :: a :: _ =>
            let invalid := ErrFmt [FLit (bs "force: invalid version "); FQuote a; FLit (bs " (must be a non-negative integer)")] in
            match Atoi a with
            | None => (d, failed invalid)
            | Some v =>
                if (v <? 0)%Z then (d, failed invalid) else
                match ForceVersion lib files url password v d with
                | (d, Some err) => (d, failed err)
                | (d, None) => (d, exit0 [])
                end
            end
        | _ => (d, {| ps_out := []; ps_err := [bs "error: force requires a version number (e.g. force 7)"; migrate_usage]; ps_code := 2 |})
        end
      else (d, exits 2 migrate_usage)
  end.

(** What the arguments ask for, if they ask for anything the command can do. *)
Inductive job : Type := Up | Force (version : Z).

Definition asked (args : list bytes) : option job :=
  match args with
  | [] => Some Up
  | cmd :: rest =>
      if bool_decide (cmd = bs "up") then Some Up else
      match rest with
      | a :: _ => match Atoi a with
                  | Some v => if bool_decide (cmd = bs "force" ∧ (0 ≤ v)%Z) then Some (Force v) else None
                  | None => None
                  end
      | [] => None
      end
  end.

Definition perform (j : job) (password : bytes) (d : D) : D * option error :=
  let url := Getenv env (bs "AGENTCOOPDB_MIGRATIONS_DATABASE_URL") in
  match j with
  | Up => RunMigrations lib files url password d
  | Force v => ForceVersion lib files url password v d
  end.

(** The migration command touches the database only to do the job its arguments
    name, and reports it truthfully: code 0 exactly when the URL is set, the password
    is available, the arguments name a job and it succeeded; a job's failure gives
    code 1 and its error; in every other case the database is untouched and the code
    is 1 or 2. A negative or unparsable version never reaches the database. *)
Theorem migrate_main_spec args d d' p :
  migrate_main args d = (d', p) →
  (ps_code p = 0%Z ↔ Getenv env (bs "AGENTCOOPDB_MIGRATIONS_DATABASE_URL") ≠ [] ∧
     ∃ j pw, asked args = Some j ∧ migrate_password = Ok pw ∧ perform j pw d = (d', None)) ∧
  (ps_code p ≠ 0%Z →
     (d' = d ∧ ps_code p ∈ [1; 2]%Z) ∨
     ∃ j pw e, asked args = Some j ∧ migrate_password = Ok pw ∧ perform j pw d = (d', Some e) ∧ p = failed e).
Proof.
  unfold migrate_main. set (url := Getenv env (bs "AGENTCOOPDB_MIGRATIONS_DATABASE_URL")).
  destruct (str_eqb url []) eqn:Eu; go_bool; [intros [= <- <-]; simpl; set_solver|].
  destruct migrate_password as [pw|err]; [|intros [= <- <-]; simpl; set_solver].
  set (cmd := match args with [] => bs "up" | a :: _ => a end).
  destruct (str_eqb cmd (bs "up")) eqn:Ec; go_bool.
  - assert (asked args = Some Up) as ->.
    { unfold cmd in Ec. destruct args as [|a rest]; [done|]. simpl. by rewrite bool_decide_true. }
    destruct (RunMigrations _ _ _ _ _) as [d1 [e|]] eqn:E; intros [= <- <-]; unfold perform; simpl.
    + split; [split; [done|intros (_ & j & pw' & Hj & Hpw & Hd); unfold url in *; simplify_eq/=; congruence]|]. intros _. right. by exists Up, pw, e.
    + split; [|done]. split; [|done]. intros _. split; [done|]. by exists Up, pw.
  - destruct args as [|a0 rest]; [done|]. simpl in cmd. subst cmd.
    assert (asked (a0 :: rest) = match rest with
              | a :: _ => match Atoi a with
                          | Some v => if bool_decide (a0 = bs "force" ∧ (0 ≤ v)%Z) then Some (Force v) else None
                          | None => None
                          end
              | [] => None
              end) as -> by (simpl; by rewrite bool_decide_false).
    destruct (str_eqb a0 (bs "force")) eqn:Ef; go_bool.
    + destruct rest as [|a rest]; [intros [= <- <-]; simpl; set_solver|].
      destruct (Atoi a) as [v|]; [|intros [= <- <-]; simpl; set_solver].
      destruct (v <? 0)%Z eqn:Ev; go_bool.
      * rewrite bool_decide_false by lia. intros [= <- <-]; simpl; set_solver.
      * rewrite bool_decide_true by (split; [done|lia]).
        destruct (ForceVersion _ _ _ _ _ _) as [d1 [e|]] eqn:E; intros [= <- <-]; unfold perform; simpl.
        -- split; [split; [done|intros (_ & j & pw' & Hj & Hpw & Hd); unfold url in *; simplify_eq/=; congruence]|]. intros _. right. by exists (Force v), pw, e.
        -- split; [|done]. split; [|done]. intros _. split; [done|]. by exists (Force v), pw.
    + intros [= <- <-]. simpl. split; [|set_solver]. split; [done|]. intros (_ & j & pw' & Hj & _).
      destruct rest as [|a rest]; [done|]. destruct (Atoi a) as [v|]; [|done].
      rewrite bool_decide_false in Hj by naive_solver. done.
Qed.

(** The same password file gives the server the password without the space around
    it, and the migration command the file's very bytes. *)
Theorem password_file_not_trimmed `{GoTime, FloatParser} cfg b :
  Getenv env (bs "AGENTCOOPDB_OWNER_PASSWORD") = [] →
  Getenv env (bs "AGENTCOOPDB_OWNER_PASSWORD_FILE") ≠ [] →
  ReadFile env (Getenv env (bs "AGENTCOOPDB_OWNER_PASSWORD_FILE")) = Ok b →
  Load env = Ok cfg → OwnerPassword cfg = TrimSpace b ∧ migrate_password = Ok b.
Proof.
  intros Hp Hf Hr Hl. split.
  - unfold Load in Hl. destruct (str_eqb (Getenv env (bs "AGENTCOOPDB_DATABASE_URL")) []); [done|].
    cbn [negb] in Hl. repeat (apply res_bind_ok in Hl as (? & ? & Hl)).
    destruct (_ <? _)%Z in Hl; [done|]. destruct (_ <=? 0)%Z in Hl; [done|]. injection Hl as <-. cbn [OwnerPassword].
    match goal with
    | Ho : loadSecretFromFile _ (bs "AGENTCOOPDB_OWNER_PASSWORD") _ = Ok _ |- _ => rename Ho into Ho'
    end.
    unfold loadSecretFromFile in Ho'. rewrite Hp in Ho'. cbn [negb str_eqb] in Ho'.
    change (bs "AGENTCOOPDB_OWNER_PASSWORD" ++ bs "_FILE") with (bs "AGENTCOOPDB_OWNER_PASSWORD_FILE") in Ho'.
    rewrite (bool_decide_false _ Hf : str_eqb _ [] = false), Hr in Ho'. by injection Ho' as <-.
  - unfold migrate_password. rewrite Hp, Hr. simpl. by rewrite (bool_decide_false _ Hf : str_eqb _ [] = false).
Qed.
End MigrateCommand.

(** ** cmd/mcp *)

(** Up to [RunStdio]: the client the server is built with, or the exit. *)
Definition mcp_main `{UnicodeTables} (env : Environment) (v : Info) (showVersion : bool) : res process (res bytes Client) :=
  if showVersion
  then Err {| ps_out := []; ps_err := [bs "agentic-coop-db-mcp " ++ vi_Version v ++ bs " (" ++ vi_Commit v ++ bs ", " ++ vi_BuildDate v ++ bs ")"];
              ps_code := 0 |}
  else
  let gatewayURL := Getenv env (bs "AGENTCOOPDB_GATEWAY_URL") in
  if str_eqb gatewayURL [] then Err (exits 2 (bs "error: AGENTCOOPDB_GATEWAY_URL is required")) else
  let apiKey := Getenv env (bs "AGENTCOOPDB_API_KEY") in
  let! apiKey :=
    if str_eqb apiKey [] then
      let path := Getenv env (bs "AGENTCOOPDB_API_KEY_FILE") in
      if negb (str_eqb path []) then
        match ReadFile env path with
        | Err err => Err (exits 2 (bs "error: read AGENTCOOPDB_API_KEY_FILE: " ++ ErrorText err))
        | Ok b => Ok (TrimSpace b)
        end
      else Ok apiKey
    else Ok apiKey in
  if str_eqb apiKey [] then Err (exits 2 (bs "error: AGENTCOOPDB_API_KEY or AGENTCOOPDB_API_KEY_FILE is required"))
  else Ok (NewClient (vi_Version v) {| cc_GatewayURL := gatewayURL; cc_APIKey := apiKey |}).

(** With a gateway and a key [NewClient] does not panic. *)
Lemma mcp_main_client_ok `{UnicodeTables} env v showVersion r : mcp_main env v showVersion = Ok r → ∃ c, r = Ok c.
Proof.
  unfold mcp_main. intros Hx. destruct showVersion; [done|]. destruct (str_eqb _ []) eqn:Eg; [done|].
  apply res_bind_ok in Hx as (key & _ & Hx). destruct (str_eqb key []) eqn:Ek; [done|]. injection Hx as <-.
  unfold NewClient. cbn [cc_GatewayURL cc_APIKey]. rewrite Eg, Ek. by eexists.
Qed.

(** The MCP command only starts with a gateway and a key, so [NewClient]'s
    panics are out of reach; the key is the variable's value or the file's
    without the space around it. *)
Theorem mcp_main_client `{UnicodeTables} env v showVersion r :
  mcp_main env v showVersion = Ok r →
  ∃ c, r = Ok c ∧ cl_apiKey c ≠ [] ∧
    (cl_apiKey c = Getenv env (bs "AGENTCOOPDB_API_KEY") ∨
     ∃ b, ReadFile env (Getenv env (bs "AGENTCOOPDB_API_KEY_FILE")) = Ok b ∧ cl_apiKey c = TrimSpace b).
Proof.
  unfold mcp_main. intros Hx. destruct showVersion; [done|]. destruct (str_eqb _ []) eqn:Eg; [done|].
  apply res_bind_ok in Hx as (key & Hk & Hx). destruct (str_eqb key []) eqn:Ek; [done|]. injection Hx as <-.
  unfold NewClient. cbn [cc_GatewayURL cc_APIKey]. rewrite Eg, Ek. eexists. split; [done|]. cbn [cl_apiKey]. go_bool.
  split; [done|]. destruct (str_eqb (Getenv env (bs "AGENTCOOPDB_API_KEY")) []) in Hk; [|left; congruence].
  destruct (negb _); [|left; congruence]. right. destruct (ReadFile _ _) as [b|e]; [|done]. exists b. split; congruence.
Qed.

(** What [RunStdio]'s [select] finds first: the transport has ended, or the context
    of the signals is done. *)
Inductive stdio_end : Type :=
| Listened (err : option error)
| Cancelled.

Definition context_Canceled : error := errors_New (bs "context canceled").

Definition RunStdio (e : stdio_end) : option error :=
  match e with
  | Listened err => err
  | Cancelled => Some context_Canceled
  end.

(** The whole of [main]: its exit, or a panic of [NewClient] ([Err]). *)
Definition mcp_run `{UnicodeTables} (env : Environment) (v : Info) (showVersion : bool) (e : stdio_end) : res bytes process :=
  match mcp_main env v showVersion with
  | Err p => Ok p
  | Ok (Err panic) => Err panic
  | Ok (Ok _) =>
      match RunStdio e with
      | Some err => Ok {| ps_out := []; ps_err := []; ps_code := 1 |}
      | None => Ok {| ps_out := []; ps_err := []; ps_code := 0 |}
      end
  end.

(** The MCP command never panics and prints nothing to the transport of its own. It
    exits with 2 if its configuration is incomplete, with 0 after printing its
    version or when the transport ended without an error, and otherwise with 1: a
    signal that asks it to stop is reported as an error. *)
Theorem mcp_exit `{UnicodeTables} env v showVersion e :
  ∃ p, mcp_run env v showVersion e = Ok p ∧ ps_out p = [] ∧ ps_code p ∈ [0; 1; 2]%Z ∧
    (ps_code p = 1%Z → e = Cancelled ∨ ∃ err, e = Listened (Some err)) ∧
    (is_ok (mcp_main env v showVersion) = true → e = Cancelled → ps_code p = 1%Z).
Proof.
  unfold mcp_run. destruct (mcp_main env v showVersion) as [r|p] eqn:Em.
  - apply mcp_main_client_ok in Em as [c ->].
    destruct e as [[err|]|]; simpl; eexists; (split; [done|]); simpl; (split; [done|]);
      rewrite !elem_of_cons; (split; [tauto|]); (split; [eauto|]); done.
  - exists p. split; [done|]. unfold mcp_main in Em. destruct showVersion; [injection Em as <-; simpl|].
    { split; [done|]. rewrite !elem_of_cons. split; [tauto|]. done. }
    assert (ps_out p = [] ∧ ps_code p = 2%Z) as [Ho Hc].
    { destruct (str_eqb _ []); [by injection Em as <-|]. unfold res_bind in Em.
      destruct (if str_eqb _ [] then _ else _) as [key|p'] eqn:Ek in Em.
      - destruct (str_eqb key []); [by injection Em as <-|done].
      - injection Em as <-. destruct (str_eqb _ []) in Ek; [|done]. destruct (negb _) in Ek; [|done].
        destruct (ReadFile _ _); [done|]. by injection Ek as <-. }
    split; [done|]. rewrite Hc, !elem_of_cons. split; [tauto|]. done.
Qed.

(** ** Instances *)

Module CommandsDemo.
Definition info : Info := {| vi_Version := bs "1"; vi_Commit := bs "c"; vi_BuildDate := bs "d" |}.
Definition env : Environment :=
  with_env (with_env ConfigDemo.minimal (bs "AGENTCOOPDB_DATABASE_URL") (bs "postgres:gw"))
    (bs "AGENTCOOPDB_MIGRATIONS_DATABASE_URL") (bs "postgres:o").
Definition flags : server_flags := {|
  fl_version := false; fl_help_env := false; fl_hash_secret := []; fl_mint_key := false; fl_mint_workspace := [];
  fl_mint_role := []; fl_mint_env := []; fl_list_keys := false; fl_revoke_key := bs "nothing" |}.
End CommandsDemo.

#[local] Existing Instance text_uuid.
#[local] Existing Instance MigrateDemo.net.
#[local] Existing Instance ConfigDemo.unicode.
#[local] Existing Instance ConfigDemo.time.
#[local] Existing Instance ConfigDemo.floats.

Example forced : migrate_main MigrateDemo.lib MigrateDemo.files CommandsDemo.env [bs "force"; bs "-1"] (Some 3%Z) =
  (Some 3%Z, failed (ErrFmt [FLit (bs "force: invalid version "); FQuote (bs "-1"); FLit (bs " (must be a non-negative integer)")])).
Proof. by vm_compute. Qed.

(** Revoking a key that does not exist. *)
Lemma commands_atomic_witness :
  ∃ w' p, server_main toy_IDKey AdminDemo.connect Itoa CommandsDemo.env CommandsDemo.info CommandsDemo.flags (Demo.draw x61)
    (Demo.uid (bs "u")) (fun _ => Fetched 0) Demo.w0 = Some (w', p) ∧ ps_code p = 1%Z ∧ w_db w' = w_db Demo.w0.
Proof.
  destruct (server_main toy_IDKey AdminDemo.connect Itoa CommandsDemo.env CommandsDemo.info CommandsDemo.flags (Demo.draw x61)
    (Demo.uid (bs "u")) (fun _ => Fetched 0) Demo.w0) as [[w' p]|] eqn:E;
    [|apply (f_equal (fun x => match x with Some _ => true | None => false end)) in E; vm_compute in E; discriminate E].
  exists w', p. split; [reflexivity|].
  assert (ps_code p = 1%Z) as Hp
    by (apply (f_equal (fun x => match x with Some y => ps_code (snd y) | None => 0%Z end)) in E; vm_compute in E; symmetry; exact E).
  split; [exact Hp|].
  apply (commands_atomic toy_IDKey AdminDemo.connect Itoa CommandsDemo.env CommandsDemo.info CommandsDemo.flags (Demo.draw x61)
    (Demo.uid (bs "u")) (fun _ => Fetched 0) Demo.w0 w' p E); [constructor|]. rewrite Hp. discriminate.
Defined.

Lemma migrate_main_spec_witness :
  ∃ d' p, migrate_main MigrateDemo.lib MigrateDemo.files CommandsDemo.env [bs "force"; bs "7"] (Some 3%Z) = (d', p) ∧ ps_code p = 0%Z.
Proof.
  destruct (migrate_main MigrateDemo.lib MigrateDemo.files CommandsDemo.env [bs "force"; bs "7"] (Some 3%Z)) as [d' p] eqn:E.
  exists d', p. split; [reflexivity|].
  apply (migrate_main_spec MigrateDemo.lib MigrateDemo.files CommandsDemo.env [bs "force"; bs "7"] (Some 3%Z) d' p E).
  split; [discriminate|]. exists (Force 7), []. split; [reflexivity|]. split; [reflexivity|].
  apply (f_equal fst) in E. vm_compute in E. subst d'. reflexivity.
Defined.
