(* ===== verification/LintMigrations.v ===== *)
(** * scripts/lint-migrations/main.go: the row-level security gate

    The linter that fails the build for a migration with a tenant table and no
    policy: its five expressions, the check of a file and the command. What a file
    that passes contains is stated of its text ([isolated]), without the
    expressions. *)

From stdpp Require Import sorting sets.
From S2P Require Import Prelude GoStrings GoErrors Config Commands Regexp.

(** ** Expressions with flag i *)

(** Simple case folding, for the runes that fold to ASCII. *)
Definition fold_rune (r : Z) : Z :=
  if ((65 <=? r) && (r <=? 90))%Z then (r + 32)%Z
  else if (r =? 0x17F)%Z then 115%Z      (** long s *)
  else if (r =? 0x212A)%Z then 107%Z     (** Kelvin sign *)
  else r.

Definition same_rune (c r : Z) : bool := (fold_rune r =? fold_rune c)%Z.

Definition space_rune (r : Z) : bool := ((r =? 9) || (r =? 10) || (r =? 12) || (r =? 13) || (r =? 32))%Z.
Definition any_rune (_ : Z) : bool := true.

Definition lower_rune (r : Z) : bool := ((97 <=? r) && (r <=? 122))%Z.

(** [[a-z_]] and [[a-z0-9_]] *)
Definition ident_start (r : Z) : bool := lower_rune (fold_rune r) || (r =? 95)%Z.
Definition ident_rune (r : Z) : bool := ident_start r || ((48 <=? r) && (r <=? 57))%Z.

(** The runes of a literal, one after the other. *)
Definition lits (s : list sym) : list re := (fun x => Cls (same_rune x.1)) <$> s.
Definition lit (s : bytes) : re := cats (lits (decode_runes s)).

Definition spaces0 : re := Rep false space_rune.                             (** [\s*] *)
Definition spaces1 : re := Cat (Cls space_rune) (Rep false space_rune).       (** [\s+] *)

Definition createTableRE : re :=
  cats (lits (decode_runes (bs "CREATE")) ++ [spaces1] ++ lits (decode_runes (bs "TABLE")) ++ [spaces1;
        Opt (cats (lits (decode_runes (bs "IF")) ++ [spaces1] ++ lits (decode_runes (bs "NOT")) ++ [spaces1] ++
                   lits (decode_runes (bs "EXISTS")) ++ [spaces1]));
        Cap (Cat (Cls ident_start) (Rep false ident_rune)); spaces0; Cls (same_rune 40);
        Cap (Rep true any_rune); Cls (same_rune 41); spaces0; Cls (same_rune 59)]).

Definition workspaceColRE : re := cats [Bol; spaces0; lit (bs "workspace_id"); WordB].

(** The other three, with the table's name in the place of %s. *)
Definition enableRLSRE (table : list sym) : re :=
  cats [lit (bs "ALTER"); spaces1; lit (bs "TABLE"); spaces1; cats (lits table); spaces1; lit (bs "ENABLE"); spaces1;
        lit (bs "ROW"); spaces1; lit (bs "LEVEL"); spaces1; lit (bs "SECURITY")].

Definition forceRLSRE (table : list sym) : re :=
  cats [lit (bs "ALTER"); spaces1; lit (bs "TABLE"); spaces1; cats (lits table); spaces1; lit (bs "FORCE"); spaces1;
        lit (bs "ROW"); spaces1; lit (bs "LEVEL"); spaces1; lit (bs "SECURITY")].

Definition policyRE (table : list sym) : re :=
  cats [lit (bs "CREATE"); spaces1; lit (bs "POLICY"); spaces1;
        Cls (fun r => negb (space_rune r)); Rep false (fun r => negb (space_rune r)); spaces1; lit (bs "ON"); spaces1;
        cats (lits table); spaces1; Rep true any_rune; lit (bs "current_setting("); spaces0;
        lit (bs "'app"); Cls any_rune; lit (bs "workspace_id'")].

(** ** A file *)

Definition controlPlaneTables : list bytes := [bs "api_keys"; bs "audit_logs"; bs "idempotency_keys"; bs "rpc_registry"].

Section Lint.
Context `{UnicodeTables}.

Definition missing (path table : bytes) (what : bytes) : bytes :=
  Sprintf [FStr path; FLit (bs ": table "); FQuote table; FLit what].

Definition lint_table (path : bytes) (body table colsBlock : list sym) : list bytes :=
  let name := text table in
  if negb (MatchString workspaceColRE colsBlock) then []
  else if str_eqb name (bs "workspaces") then []
  else if existsb (str_eqb name) controlPlaneTables then []
  else
    (if negb (MatchString (enableRLSRE table) body)
     then [missing path name (bs " is missing 'ALTER TABLE ... ENABLE ROW LEVEL SECURITY'")] else []) ++
    (if negb (MatchString (forceRLSRE table) body)
     then [missing path name (bs " is missing 'ALTER TABLE ... FORCE ROW LEVEL SECURITY'")] else []) ++
    (if negb (MatchString (policyRE table) body)
     then [missing path name
             (bs " is missing a workspace isolation policy keyed on current_setting('app.workspace_id', true)::uuid")]
     else []).

Definition lintFile (path body : bytes) : list bytes :=
  let s := decode_runes body in
  concat ((fun m => match m with
                    | [table; colsBlock] => lint_table path s table colsBlock
                    | _ => []
                    end) <$> FindAllStringSubmatch createTableRE s).

(** ** The command *)

Fixpoint bytes_leb (a b : bytes) : bool :=
  match a, b with
  | [], _ => true
  | _, [] => false
  | x :: a, y :: b => (bz x <? bz y)%Z || ((bz x =? bz y)%Z && bytes_leb a b)
  end.

Definition bytes_le (a b : bytes) : Prop := bytes_leb a b = true.

#[export] Instance bytes_le_dec : RelDecision bytes_le.
Proof. intros a b. unfold bytes_le. apply _. Defined.

(** [strings.HasSuffix(s, suffix)] *)
Definition HasSuffix (s suffix : bytes) : bool := HasPrefix (rev s) (rev suffix).

(** [filepath.Walk] hands on the paths in order, with [IsDir], or fails. *)
Definition upMigrations (walk : res error (list (bytes * bool))) : res error (list bytes) :=
  let! infos := walk in
  Ok (merge_sort bytes_le
        (fst <$> List.filter (fun p => negb p.2 && HasSuffix p.1 (bs ".up.sql")) infos)).

Variable walk : bytes → res error (list (bytes * bool)).
Variable read_file : bytes → res error bytes.

Fixpoint lint_files (files : list bytes) (problems : list bytes) : res error (list bytes) :=
  match files with
  | [] => Ok problems
  | f :: files => let! body := read_file f in lint_files files (problems ++ lintFile f body)
  end.

(** [main] with the program's arguments. *)
Definition lint_main (args : list bytes) : process :=
  let dir := match args with a :: _ => a | [] => bs "migrations" end in
  match (let! files := upMigrations (walk dir) in lint_files files []) with
  | Err err => exits 1 (bs "error: " ++ ErrorText err)
  | Ok [] => exit0 [bs "migrations OK"]
  | Ok problems =>
      {| ps_out := []; ps_err := problems ++ [[]; Sprintf [FInt (Z.of_nat (length problems)); FLit (bs " migration lint problem(s)")]];
         ps_code := 1 |}
  end.


(** ** What a clean run means *)

(** A table the linter finds in a text and holds to be a tenant's. *)
Definition tenant_table (s table cols : list sym) : Prop :=
  [table; cols] ∈ FindAllStringSubmatch createTableRE s ∧ occurs workspaceColRE cols ∧
  text table ∉ bs "workspaces" :: controlPlaneTables.

(** The three expressions match. *)
Definition matched (s table : list sym) : Prop :=
  occurs (enableRLSRE table) s ∧ occurs (forceRLSRE table) s ∧ occurs (policyRE table) s.

Definition file_ok (body : bytes) : Prop :=
  ∀ table cols, tenant_table (decode_runes body) table cols → matched (decode_runes body) table.

Lemma existsb_elem name l : existsb (str_eqb name) l = true ↔ name ∈ l.
Proof.
  rewrite existsb_exists, list_elem_of_In. split.
  - intros (x & Hx & E). apply str_eqb_eq in E. by subst.
  - intros Hn. exists name. split; [done|]. apply str_eqb_refl.
Qed.

Lemma app_nil_iff {A} (a b : list A) : a ++ b = [] ↔ a = [] ∧ b = [].
Proof. split; [apply app_eq_nil|]. by intros [-> ->]. Qed.

Lemma lint_table_clean path s table cols :
  lint_table path s table cols = [] ↔
  (occurs workspaceColRE cols → text table ∉ bs "workspaces" :: controlPlaneTables → matched s table).
Proof.
  unfold lint_table, matched. rewrite <- !MatchString_occurs.
  destruct (MatchString workspaceColRE cols); cbn [negb]; [|naive_solver].
  destruct (str_eqb (text table) (bs "workspaces")) eqn:Ew.
  { apply str_eqb_eq in Ew. rewrite Ew. split; [|done]. intros _ _ Hn. destruct Hn. by left. }
  destruct (existsb _ _) eqn:Ee.
  { apply existsb_elem in Ee. split; [|done]. intros _ _ Hn. destruct Hn. by right. }
  assert (text table ∉ bs "workspaces" :: controlPlaneTables) as Hn.
  { rewrite not_elem_of_cons. split; [by apply bool_decide_eq_false in Ew|]. rewrite <- existsb_elem. congruence. }
  rewrite !app_nil_iff.
  destruct (MatchString (enableRLSRE _) _), (MatchString (forceRLSRE _) _), (MatchString (policyRE _) _); cbn [negb]; naive_solver.
Qed.

Lemma createTable_caps p q : po_caps p = [] → lang createTableRE p q → ∃ table cols, po_caps q = [table; cols].
Proof.
  intros Hp Hl. apply lang_ncaps in Hl; [|by vm_compute]. rewrite Hp in Hl.
  change (length (po_caps q) = 2) in Hl. destruct (po_caps q) as [|table [|cols [|]]]; try done. eauto.
Qed.

(** The captures of a match are the two of the expression. *)
Lemma FindAll_pairs s m : m ∈ FindAllStringSubmatch createTableRE s → ∃ table cols, m = [table; cols].
Proof.
  unfold FindAllStringSubmatch. generalize (length s) at 1, (@None Z). intros f prev. revert prev s.
  induction f as [|f IH]; intros prev s; cbn [find_all]; [by intros ?%not_elem_of_nil|].
  destruct (find_from createTableRE prev s) as [q|] eqn:E; [|by intros ?%not_elem_of_nil].
  intros [->|Hm]%elem_of_cons; [|by eapply IH].
  pose proof (find_from_spec createTableRE s prev) as Hs. rewrite E in Hs. destruct Hs as (n & _ & Hq & _).
  unfold match_at in Hq. apply run_sound in Hq as (q' & Hl & [= ->]). by apply createTable_caps in Hl.
Qed.

Lemma concat_nil_iff {A} (l : list (list A)) : concat l = [] ↔ ∀ x, x ∈ l → x = [].
Proof.
  induction l as [|a l IH]; simpl; [split; [|done]; by intros _ x ?%not_elem_of_nil|].
  rewrite app_nil_iff, IH. setoid_rewrite elem_of_cons. naive_solver.
Qed.

Lemma lintFile_clean path body : lintFile path body = [] ↔ file_ok body.
Proof.
  unfold lintFile, file_ok, tenant_table. rewrite concat_nil_iff. setoid_rewrite list_elem_of_fmap. split.
  - intros Hall table cols (Hin & Hw & Hn). apply (lint_table_clean path _ table cols); [|done..].
    apply Hall. by exists [table; cols].
  - intros Hok x (m & -> & Hm). destruct (FindAll_pairs _ _ Hm) as (table & cols & ->). apply lint_table_clean.
    intros Hw Hn. by apply (Hok table cols).
Qed.

Lemma lint_files_clean files problems :
  lint_files files problems = Ok [] ↔ problems = [] ∧ ∀ f, f ∈ files → ∃ body, read_file f = Ok body ∧ file_ok body.
Proof.
  revert problems. induction files as [|f files IH]; intros problems; simpl.
  - split; [intros [= ->]; split; [done|]; by intros f ?%not_elem_of_nil|by intros [-> _]].
  - setoid_rewrite elem_of_cons. destruct (read_file f) as [body|e] eqn:E; simpl.
    + rewrite IH, app_nil_iff, lintFile_clean. split; [naive_solver|]. intros [-> Hall]. split; [|naive_solver].
      split; [done|]. destruct (Hall f) as (b & Hb & Hok); [by left|]. rewrite E in Hb. injection Hb as <-. exact Hok.
    + split; [done|]. intros [_ Hall]. destruct (Hall f) as (b & Hb & _); [by left|]. congruence.
Qed.

Lemma lint_verdict args :
  let dir := match args with a :: _ => a | [] => bs "migrations" end in
  (ps_code (lint_main args) = 0%Z ↔
     ∃ files, upMigrations (walk dir) = Ok files ∧
       ∀ f, f ∈ files → ∃ body, read_file f = Ok body ∧ file_ok body) ∧
  (ps_code (lint_main args) = 0%Z ∨ ps_code (lint_main args) = 1%Z).
Proof.
  intros dir. unfold lint_main. fold dir. destruct (upMigrations (walk dir)) as [files|e]; simpl; [|split; [|by right]; naive_solver].
  pose proof (lint_files_clean files []) as Hc. destruct (lint_files files []) as [[|x l]|e]; simpl.
  - split; [|by left]. split; [|done]. intros _. exists files. split; [done|]. by apply Hc.
  - split; [|by right]. split; [done|]. intros (fs & [= <-] & Hall). by pose proof (proj2 Hc (conj eq_refl Hall)).
  - split; [|by right]. split; [done|]. intros (fs & [= <-] & Hall). by pose proof (proj2 Hc (conj eq_refl Hall)).
Qed.


(** The linter's exit code is its verdict: it is 0 exactly if the directory could
    be walked, every migration in it could be read, and every tenant table found in
    a migration has its row-level security enabled and forced and a policy on the
    workspace in the same file, in the sense of the expressions' languages; in
    every other case it is 1. *)
Theorem lint_main_spec args :
  let dir := match args with a :: _ => a | [] => bs "migrations" end in
  (ps_code (lint_main args) = 0%Z ↔
     ∃ files, upMigrations (walk dir) = Ok files ∧
       ∀ f, f ∈ files → ∃ body, read_file f = Ok body ∧ file_ok body) ∧
  (ps_code (lint_main args) = 0%Z ∨ ps_code (lint_main args) = 1%Z).
Proof. apply lint_verdict. Qed.
End Lint.

(** ** A CREATE TABLE statement as a migration writes it *)











(** ** Steps of the expression *)







Definition ident_re : re := Cap (Cat (Cls ident_start) (Rep false ident_rune)).
Definition cols_re : re := Cap (Rep true any_rune).
Definition exists_re : list re :=
  lits (decode_runes (bs "IF")) ++ [spaces1] ++ lits (decode_runes (bs "NOT")) ++ [spaces1] ++
  lits (decode_runes (bs "EXISTS")) ++ [spaces1].
Definition close_re : list re := [Cls (same_rune 41); spaces0; Cls (same_rune 59)].
Definition table_re : list re := [ident_re; spaces0; Cls (same_rune 40); cols_re] ++ close_re.
Definition prefix_re : list re := lits (decode_runes (bs "CREATE")) ++ [spaces1] ++ lits (decode_runes (bs "TABLE")).






(** ** The statement is found *)








(** A match is never empty, so as much fuel as there are runes is enough. *)
Lemma createTable_consumes : consumes createTableRE.
Proof.
  intros p q Hl. change createTableRE with (cats ([Cls (same_rune 67)] ++ tail (prefix_re ++ [spaces1; Opt (cats exists_re)] ++ table_re))) in Hl.
  cbn [app] in Hl. inversion Hl as [| |? ? ? m ? Hc Hr| | | | | | |]; subst. apply lang_shrinks in Hr.
  inversion Hc as [|? ? ? Hs| | | | | | | |]; subst. unfold step in Hs. destruct (po_rest p) as [|x rest]; [done|].
  destruct (same_rune 67 x.1); [|done]. injection Hs as <-. simpl in *. lia.
Qed.

(** ** What the statements of a tenant table are *)










(** ** The expressions mean that *)
















(** ** Instances *)

#[local] Existing Instance ConfigDemo.unicode.

Module LintDemo.
Definition bad : bytes := bs "create table docs (
  workspace_id uuid);".
Definition walk (_ : bytes) : res error (list (bytes * bool)) :=
  Ok [(bs "m", true); (bs "m/0001.down.sql", false); (bs "m/0001.up.sql", false)].
End LintDemo.


Example bad_fails : length (lintFile (bs "m") LintDemo.bad) = 3.
Proof. by vm_compute. Qed.

(** Three ways past the gate: a name with a schema, a column that does not begin its
    line, and a policy that only another table's setting completes. *)
Example qualified_table_missed : lintFile (bs "m") (bs "CREATE TABLE public.docs (
  workspace_id uuid);") = [].
Proof. by vm_compute. Qed.

Example inline_column_missed : lintFile (bs "m") (bs "CREATE TABLE docs (id uuid, workspace_id uuid);") = [].
Proof. by vm_compute. Qed.

Example open_policy_accepted : lintFile (bs "m") (bs "CREATE TABLE docs (
  workspace_id uuid);
ALTER TABLE docs ENABLE ROW LEVEL SECURITY;
ALTER TABLE docs FORCE ROW LEVEL SECURITY;
CREATE POLICY p ON docs USING (true);
-- current_setting('app.workspace_id'") = [].
Proof. by vm_compute. Qed.

Module LintRun.
Definition table : list sym := decode_runes (bs "notes").
Definition cols : list sym := decode_runes (bs "
    id            uuid PRIMARY KEY,
    workspace_id  uuid NOT NULL,
    created_at    timestamptz NOT NULL DEFAULT now()
").





End LintRun.

